(** * evm-chain-toolkit: retry executor, request queue, explorer client and
      batch token sender, embedded shallowly.

    The TypeScript sources are translated function by function.  Asynchronous
    code runs on a single cooperative thread, so an [async] method is modelled
    as a computation in a state-and-exception monad [M]: the state carries the
    trace of observable events (external calls, sleeps, warnings), the cached
    token information, the explorer call counter and the file system; an
    exception is a thrown JavaScript value.  Everything outside the repository
    (the chain provider, the explorer, the clock, JavaScript's number
    primitives, the ethers helpers) is an oracle: a field of [Runtime] or of
    [Env], answering from the trace recorded so far.

    Conventions.  Console output is left out, except the two lines that
    carry data the properties speak about: the warning of the retry loop and
    the transfer line of the batch loop, which announces the nonce.  The
    calls of a [Promise.all] are recorded in array order and answered from
    the trace as it stood when they started.  A file holds the document that
    was serialised into it: [JSON.parse (JSON.stringify doc)] is [doc].
    Integers of the configuration are of type [Z]; its delays are decimal
    literals of type [Q], and the delays computed from them are IEEE
    doubles. *)

From Stdlib Require Import ZArith QArith Qround String Ascii List Lia Bool.
From Stdlib Require SpecFloat.
From stdpp Require Import base strings gmap list pretty.
Import ListNotations.

Close Scope Q_scope.
Open Scope string_scope.
Open Scope list_scope.
Open Scope Z_scope.

(** ** Thrown values *)

(** What a JavaScript [throw] (or a rejected promise) can carry here: an
    [Error] object with its message, the [RetryError] subclass of
    [utils/retry.ts], some other non-nullish value (only its [String(v)]
    rendering is ever used), or [undefined]. *)
Inductive Thrown : Type :=
| JsError (message : string)
| RetryError (message : string) (originalError : Thrown) (attempt maxRetries : Z)
| ThrownValue (text : string)
| ThrownUndefined.

(** [error instanceof Error ? error.message : String(error)] *)
Definition errorText (error : Thrown) : string :=
  match error with
  | JsError m => m
  | RetryError m _ _ _ => m
  | ThrownValue t => t
  | ThrownUndefined => "undefined"
  end.

(** ** JavaScript numbers

    A JavaScript number is an IEEE 754 binary64.  [SpecFloat] of the
    standard library gives the format and its correctly rounded operations
    (nearest, ties to even); values are kept in canonical form, so equal
    numbers are equal terms, the two zeros apart. *)

Definition double := SpecFloat.spec_float.

Module Double.
Import SpecFloat.

Definition prec : Z := 53.
Definition emax : Z := 1024.

Definition NaN : double := S754_nan.
Definition Infinity : double := S754_infinity false.

Definition add : double -> double -> double := SFadd prec emax.
Definition mul : double -> double -> double := SFmul prec emax.
Definition div : double -> double -> double := SFdiv prec emax.
Definition ltb : double -> double -> bool := SFltb.     (* a < b *)
Definition leb : double -> double -> bool := SFleb.     (* a <= b *)
Definition isNaN (x : double) : bool :=
  match x with S754_nan => true | _ => false end.

(** An integer as a number, rounded when it has more than 53 bits. *)
Definition ofZ (z : Z) : double := binary_normalize prec emax z 0 false.

(** [n / d] for [d > 0], rounded once: the number a decimal literal
    denotes. *)
Definition ofRatio (n d : Z) : double :=
  match n, d with
  | Z0, Zpos _ => S754_zero false
  | Zpos n', Zpos d' => SFdiv prec emax (S754_finite false n' 0) (S754_finite false d' 0)
  | Zneg n', Zpos d' => SFdiv prec emax (S754_finite true n' 0) (S754_finite false d' 0)
  | _, _ => S754_nan
  end.

Definition ofQ (q : Q) : double := ofRatio (Qnum q) (Zpos (Qden q)).

(** [Math.min(a, b)]: NaN if either is, and [-0] below [+0]. *)
Definition min (a b : double) : double :=
  match a, b with
  | S754_nan, _ | _, S754_nan => S754_nan
  | S754_zero false, S754_zero true => b
  | _, _ => if SFltb b a then b else a
  end.

(** The value of a finite number as a fraction [(n, d)], [d] a power of
    two. *)
Definition toRatio (x : double) : Z * Z :=
  match x with
  | S754_finite s m e =>
      let n := if s then Zneg m else Zpos m in
      if 0 <=? e then (n * 2 ^ e, 1) else (n, 2 ^ (- e))
  | _ => (0, 1)
  end.

(** [Math.floor(x)] of a finite number, as an integer. *)
Definition floor (x : double) : Z := let '(n, d) := toRatio x in n / d.

(** *** [Number.prototype.toString()]

    The shortest decimal that reads back as the number, the closest one
    when several are as short. *)

(** The [n] with [10^(n-1) <= num/den < 10^n], searched from [n]. *)
Fixpoint decimalExponent (fuel : nat) (num den : Z) (n : Z) : Z :=
  match fuel with
  | O => n
  | S fuel' =>
      if den * 10 ^ Z.max 0 n <=? num * 10 ^ Z.max 0 (- n)
      then decimalExponent fuel' num den (n + 1)
      else if num * 10 ^ Z.max 0 (1 - n) <? den * 10 ^ Z.max 0 (n - 1)
      then decimalExponent fuel' num den (n - 1)
      else n
  end.

(** [s * 10^p] as a number. *)
Definition ofDecimal (s p : Z) : double :=
  if 0 <=? p then ofZ (s * 10 ^ p) else ofRatio s (10 ^ (- p)).

Definition sameNumber (a b : double) : bool := SFeqb a b.

(** The [k]-digit decimals next to [num/den]: the one below and the one
    above, and which of them read back as [x]. *)
Definition shortestWith (x : double) (num den n : Z) (k : Z) : option (Z * Z) :=
  let p := n - k in
  let below := (num * 10 ^ Z.max 0 (- p)) / (den * 10 ^ Z.max 0 p) in
  let above := below + 1 in
  let okBelow := sameNumber (ofDecimal below p) x in
  let okAbove := sameNumber (ofDecimal above p) x in
  (* twice the distance to [below] against the gap to [above] *)
  let twice := 2 * (num * 10 ^ Z.max 0 (- p)) - (2 * below + 1) * (den * 10 ^ Z.max 0 p) in
  let pick (s : Z) := if s =? 10 ^ k then Some (10 ^ (k - 1), n + 1) else Some (s, n) in
  match okBelow, okAbove with
  | true, true =>
      if twice <? 0 then pick below
      else if 0 <? twice then pick above
      else if Z.even below then pick below else pick above
  | true, false => pick below
  | false, true => pick above
  | false, false => None
  end.

Fixpoint shortest (fuel : nat) (x : double) (num den n : Z) (k : Z) : Z * Z * Z :=
  match fuel with
  | O => (0, n, k)
  | S fuel' =>
      match shortestWith x num den n k with
      | Some (s, n') => (s, n', k)
      | None => shortest fuel' x num den n (k + 1)
      end
  end.

Fixpoint zeros (n : nat) : string :=
  match n with
  | O => ""
  | S n' => String "0" (zeros n')
  end.

Definition positiveToString (x : double) : string :=
  let '(num, den) := toRatio x in
  let n0 := decimalExponent 800 num den 0 in
  let '(s, n, k) := shortest 17 x num den n0 1 in
  let digits := pretty s in
  if (-5 <=? n) && (n <=? 21) then
    if k <=? n then digits +:+ zeros (Z.to_nat (n - k))
    else if 0 <? n then
      String.substring 0 (Z.to_nat n) digits +:+ "."
      +:+ String.substring (Z.to_nat n) (Z.to_nat (k - n)) digits
    else "0." +:+ zeros (Z.to_nat (- n)) +:+ digits
  else
    let e := n - 1 in
    let exponent := (if e <? 0 then "-" else "+") +:+ pretty (Z.abs e) in
    if k =? 1 then digits +:+ "e" +:+ exponent
    else String.substring 0 1 digits +:+ "."
         +:+ String.substring 1 (Z.to_nat (k - 1)) digits +:+ "e" +:+ exponent.

Definition toString (x : double) : string :=
  match x with
  | S754_nan => "NaN"
  | S754_zero _ => "0"
  | S754_infinity false => "Infinity"
  | S754_infinity true => "-Infinity"
  | S754_finite false _ _ => positiveToString x
  | S754_finite true m e => "-" +:+ positiveToString (S754_finite false m e)
  end.

(** *** [parseFloat(string)]

    Leading white space is skipped, then the longest prefix that is a
    decimal literal is read; there is none for NaN. *)

Definition isDigit (c : ascii) : bool :=
  let n := nat_of_ascii c in ((48 <=? n) && (n <=? 57))%nat.

Definition isWhiteSpace (c : ascii) : bool :=
  let n := nat_of_ascii c in ((9 <=? n) && (n <=? 13) || (n =? 32))%nat.

Fixpoint skipWhiteSpace (s : string) : string :=
  match s with
  | String c s' => if isWhiteSpace c then skipWhiteSpace s' else s
  | EmptyString => s
  end.

(** The digits at the head of [s], their value after [acc], how many
    there are, and the rest. *)
Fixpoint readDigitRun (s : string) (acc : Z) (count : Z) : Z * Z * string :=
  match s with
  | String c s' =>
      if isDigit c
      then readDigitRun s' (10 * acc + Z.of_nat (nat_of_ascii c - 48)) (count + 1)
      else (acc, count, s)
  | EmptyString => (acc, count, s)
  end.

(** An exponent part [e], [e+] or [e-] with at least one digit, or none. *)
Definition readExponent (s : string) : Z :=
  match s with
  | String c rest =>
      if (Ascii.eqb c "e" || Ascii.eqb c "E")%bool then
        match rest with
        | String sign rest' =>
            if Ascii.eqb sign "-" then
              let '(v, count, _) := readDigitRun rest' 0 0 in
              if 0 <? count then - v else 0
            else if Ascii.eqb sign "+" then
              let '(v, count, _) := readDigitRun rest' 0 0 in
              if 0 <? count then v else 0
            else
              let '(v, count, _) := readDigitRun rest 0 0 in
              if 0 <? count then v else 0
        | EmptyString => 0
        end
      else 0
  | EmptyString => 0
  end.

Definition negate (negative : bool) (x : double) : double :=
  if negative then SFopp x else x.

Definition parseUnsigned (negative : bool) (s : string) : double :=
  if String.prefix "Infinity" s then S754_infinity negative
  else
    let '(whole, wholeCount, rest) := readDigitRun s 0 0 in
    let '(mantissa, fractionCount, rest') :=
      match rest with
      | String c afterDot =>
          if Ascii.eqb c "." then readDigitRun afterDot whole 0
          else (whole, 0, rest)
      | EmptyString => (whole, 0, rest)
      end in
    if wholeCount + fractionCount =? 0 then S754_nan
    else
      let exponent := readExponent rest' - fractionCount in
      if mantissa =? 0 then S754_zero negative
      else negate negative (ofDecimal mantissa exponent).

Definition parseFloat (s : string) : double :=
  match skipWhiteSpace s with
  | String c rest =>
      if Ascii.eqb c "-" then parseUnsigned true rest
      else if Ascii.eqb c "+" then parseUnsigned false rest
      else parseUnsigned false (String c rest)
  | EmptyString => S754_nan
  end.

End Double.

(** ** JSON documents *)

#[local] Set Warnings "-register-all".

Inductive JSON : Type :=
| JNull
| JBool (b : bool)
| JNum (q : Q)
| JStr (s : string)
| JArr (items : list JSON)
| JObj (fields : list (string * JSON)).

(** A JavaScript value read out of a JSON document: [None] is [undefined]. *)
Definition JsVal := option JSON.

Fixpoint assoc {A} (k : string) (l : list (string * A)) : option A :=
  match l with
  | [] => None
  | (k', v) :: l' => if String.eqb k k' then Some v else assoc k l'
  end.

(** ** Strings *)

(** [s.includes(needle)] *)
Fixpoint includes (needle s : string) : bool :=
  if String.prefix needle s then true
  else match s with
       | EmptyString => false
       | String _ s' => includes needle s'
       end.

(** [s.slice(0, n)] *)
Definition slice0 (n : nat) (s : string) : string := String.substring 0 n s.

Fixpoint mapChars (f : ascii -> ascii) (s : string) : string :=
  match s with
  | EmptyString => EmptyString
  | String c s' => String (f c) (mapChars f s')
  end.

(** [s.replace(/[:.]/g, '-')] *)
Definition dashTimestamp (s : string) : string :=
  mapChars (fun c => if (Ascii.eqb c ":" || Ascii.eqb c ".")%char then "-"%char else c) s.

(** The one-character string holding a double quote. *)
Definition dquote : string := String (ascii_of_nat 34) EmptyString.

(** ASCII lower-casing, the case folding the [/i] flag performs on these
    patterns. *)
Definition lowerAscii (c : ascii) : ascii :=
  let n := nat_of_ascii c in
  if ((65 <=? n) && (n <=? 90))%nat then ascii_of_nat (n + 32) else c.

(** ** Domain records ([types/batch-sender.ts], [types/index.ts]) *)

Record BatchRecipient := mkRecipient {
  address : string;
  amount : string
}.

Inductive TransferStatus := success | failed.

Record TransferResult := mkResult {
  recipient : string;
  tr_amount : string;
  status : TransferStatus;
  txHash : option string;
  blockNumber : option Z;
  gasUsed : option string;
  gasCostMatic : option string;
  timestamp : option string;
  error : option string;
  attempts : option Z
}.

Record TokenInfo := mkTokenInfo {
  ti_address : string;
  symbol : string;
  name : string;
  decimals : Z;
  totalSupply : string
}.

(** [RetryConfig].  The three delays are written as decimal literals; the
    number each one is comes from [Double.ofQ].  Every finite double is
    such a literal; a delay of [Infinity] or [NaN] is not modelled. *)
Record RetryConfig := mkRetryConfig {
  maxRetries : Z;
  baseDelayMs : Q;
  maxDelayMs : Q;
  backoffMultiplier : Q
}.

Record QueueConfig := mkQueueConfig {
  maxConcurrent : Z;
  rateLimitPerSecond : Z
}.

Record EtherscanResponse := mkResponse {
  resp_status : string;
  resp_message : string;
  resp_result : JSON
}.

(** Chain-side values (ethers). *)
Record FeeData := mkFeeData {
  fd_gasPrice : option Z;
  fd_maxFeePerGas : option Z;
  fd_maxPriorityFeePerGas : option Z
}.

Record Tx := mkTx {
  tx_to : string;        (* recipient encoded in the transfer call *)
  tx_amount : Z;         (* amount in smallest units *)
  tx_gasLimit : Z;
  tx_gasPrice : Z;
  tx_nonce : Z
}.

Record TxResponse := mkTxResponse { txr_hash : string }.

Record Receipt := mkReceipt {
  rc_hash : string;
  rc_blockNumber : Z;
  rc_gasUsed : Z
}.

(** ** Events, state and the monad *)

Inductive Event : Type :=
| EvInvoke                                   (* one invocation of an instrumented operation *)
| EvWarn (attempt : Z) (delay : double) (message : option string)   (* console.warn of executeWithRetry *)
| EvSleep (ms : double)                      (* await setTimeout(ms) *)
| EvHttpGet (module action : string)         (* httpClient.get *)
| EvTokenMeta                                (* symbol(), name(), decimals(), totalSupply() *)
| EvGetBalance
| EvBalanceOf
| EvEstimateGas (to : string) (amt : Z)
| EvGetFeeData
| EvPopulate (to : string) (amt : Z)
| EvSendTransaction (tx : Tx)
| EvWait (hash : string)
| EvGetTransactionCount
| EvTransferLine (transferIndex : Z) (r : BatchRecipient) (nonce : Z)
                                             (* console.log "i/n Transferring ... (nonce: k)" *)
| EvWriteFile (path : string)
| EvReadFile (path : string).

Definition Trace := list Event.

Inductive FileContent :=
| JsonText (doc : JSON)      (* the text JSON.stringify(doc, null, 2) *)
| OtherText (raw : string).  (* text that JSON.parse rejects *)

Record State := mkState {
  trace : Trace;
  tokenInfo : option TokenInfo;     (* BatchTokenSender.tokenInfo *)
  apiCallCount : Z;                 (* EtherscanClient.apiCallCount *)
  files : list (string * FileContent)
}.

Definition initialState : State :=
  {| trace := []; tokenInfo := None; apiCallCount := 0; files := [] |}.

(** How a computation ends: it returns, it throws, or it never settles. *)
Inductive Outcome (A : Type) : Type :=
| Return (a : A)
| Throw (e : Thrown)
| Hang.
Arguments Return {A} a.
Arguments Throw {A} e.
Arguments Hang {A}.

Definition M (A : Type) : Type := State -> Outcome A * State.

Definition ret {A} (a : A) : M A := fun s => (Return a, s).
Definition throw {A} (e : Thrown) : M A := fun s => (Throw e, s).
Definition hang {A} : M A := fun s => (Hang, s).

Definition bind {A B} (m : M A) (k : A -> M B) : M B :=
  fun s => match m s with
           | (Return a, s') => k a s'
           | (Throw e, s') => (Throw e, s')
           | (Hang, s') => (Hang, s')
           end.

(** [try { m } catch (error) { h error }] *)
Definition tryCatch {A} (m : M A) (h : Thrown -> M A) : M A :=
  fun s => match m s with
           | (Throw e, s') => h e s'
           | r => r
           end.

Notation "x <- m ;; k" := (bind m (fun x => k))
  (at level 100, m at next level, right associativity).
Notation "m ;;; k" := (bind m (fun _ => k))
  (at level 100, right associativity).

Definition pushEvent (e : Event) (s : State) : State :=
  {| trace := trace s ++ [e]; tokenInfo := tokenInfo s;
     apiCallCount := apiCallCount s; files := files s |}.

Definition emit (e : Event) : M unit := fun s => (Return tt, pushEvent e s).

Definition getTrace : M Trace := fun s => (Return (trace s), s).

(** Lift an oracle's answer: [inl] rejects, [inr] resolves. *)
Definition settle {A} (r : Thrown + A) : M A :=
  match r with
  | inl e => throw e
  | inr a => ret a
  end.

(** [await new Promise(resolve => setTimeout(resolve, ms))] *)
Definition sleep (ms : double) : M unit := emit (EvSleep ms).

Fixpoint countEv (p : Event -> bool) (tr : Trace) : nat :=
  match tr with
  | [] => O
  | e :: tr' => if p e then S (countEv p tr') else countEv p tr'
  end.

Definition isInvoke (e : Event) : bool :=
  match e with EvInvoke => true | _ => false end.

Definition isSend (e : Event) : bool :=
  match e with EvSendTransaction _ => true | _ => false end.

(** Number of times the instrumented operation has run. *)
Definition invocations (s : State) : nat := countEv isInvoke (trace s).
(** Number of transactions broadcast. *)
Definition broadcasts (s : State) : nat := countEv isSend (trace s).

(** ** RetryUtil ([utils/retry.ts]) *)

Module RetryUtil.

(** [context ? ` (${context})` : ''] *)
Definition contextSuffix (context : option string) : string :=
  match context with
  | Some c => if String.eqb c "" then "" else " (" +:+ c +:+ ")"
  | None => ""
  end.

Section Backoff.
(** [Math.pow], whose result ECMAScript leaves to the implementation
    ("implementation-approximated"); the product and the minimum are
    IEEE operations. *)
Variable Math_pow : double -> double -> double.

(** [calculateDelay(attempt)] *)
Definition calculateDelay (config : RetryConfig) (attempt : Z) : double :=
  let delay :=
    Double.mul (Double.ofQ (baseDelayMs config))
               (Math_pow (Double.ofQ (backoffMultiplier config))
                         (Double.ofZ (attempt - 1))) in
  Double.min delay (Double.ofQ (maxDelayMs config)).

End Backoff.

(** [lastError.message], read while building the warning: a property read
    on [undefined] is a TypeError. *)
Definition readMessage (lastError : Thrown) : M (option string) :=
  match lastError with
  | JsError m => ret (Some m)
  | RetryError m _ _ _ => ret (Some m)
  | ThrownValue _ => ret None
  | ThrownUndefined =>
      throw (JsError "Cannot read properties of undefined (reading 'message')")
  end.

Definition exhaustedMessage (config : RetryConfig) (context : option string) : string :=
  "Failed after " +:+ pretty (maxRetries config) +:+ " attempts" +:+ contextSuffix context.

(** The [for] loop of [executeWithRetry], one iteration per unit of
    [fuel]; [lastError] is [None] while the variable is unassigned. *)
Fixpoint retryLoop {T} (Math_pow : double -> double -> double)
         (config : RetryConfig) (fn : M T) (context : option string)
         (fuel : nat) (attempt : Z) (lastError : option Thrown) : M T :=
  match fuel with
  | O => hang
  | S fuel' =>
      if attempt <=? maxRetries config then
        tryCatch fn (fun error =>
          if attempt =? maxRetries config then
            throw (RetryError (exhaustedMessage config context) error
                              attempt (maxRetries config))
          else
            let delay := calculateDelay Math_pow config attempt in
            msg <- readMessage error ;;
            emit (EvWarn attempt delay msg) ;;;
            sleep delay ;;;
            retryLoop Math_pow config fn context fuel' (attempt + 1) (Some error))
      else
        (* throw lastError! *)
        throw (match lastError with Some e => e | None => ThrownUndefined end)
  end.

(** [executeWithRetry(fn, context)]: the loop runs at most [maxRetries]
    iterations, so [maxRetries + 1] units of fuel reach the exit test. *)
Definition executeWithRetry {T} (Math_pow : double -> double -> double)
           (config : RetryConfig) (fn : M T) (context : option string) : M T :=
  retryLoop Math_pow config fn context (S (Z.to_nat (maxRetries config))) 1 None.

(** One element of a retryable pattern: a literal character (matched
    case-insensitively) or [.?].  Strings are byte strings, so the
    matcher is that of JavaScript on ASCII messages. *)
Inductive PatElem := Lit (c : ascii) | OptAny.

Definition isLineTerminator (c : ascii) : bool :=
  (Ascii.eqb c "010" || Ascii.eqb c "013")%char.

Fixpoint matchHere (pat : list PatElem) (s : string) : bool :=
  match pat with
  | [] => true
  | Lit c :: pat' =>
      match s with
      | String d s' => Ascii.eqb (lowerAscii d) c && matchHere pat' s'
      | EmptyString => false
      end
  | OptAny :: pat' =>
      matchHere pat' s ||
      match s with
      | String d s' => negb (isLineTerminator d) && matchHere pat' s'
      | EmptyString => false
      end
  end.

(** [pattern.test(s)] for an unanchored pattern *)
Fixpoint test (pat : list PatElem) (s : string) : bool :=
  matchHere pat s ||
  match s with
  | String _ s' => test pat s'
  | EmptyString => false
  end.

Fixpoint lits (s : string) : list PatElem :=
  match s with
  | EmptyString => []
  | String c s' => Lit c :: lits s'
  end.

Definition retryablePatterns : list (list PatElem) :=
  [ lits "timeout";
    lits "network";
    lits "connection";
    lits "rate" ++ [OptAny] ++ lits "limit";
    lits "too" ++ [OptAny] ++ lits "many" ++ [OptAny] ++ lits "requests";
    lits "service" ++ [OptAny] ++ lits "unavailable";
    lits "bad" ++ [OptAny] ++ lits "gateway";
    lits "gateway" ++ [OptAny] ++ lits "timeout";
    lits "internal" ++ [OptAny] ++ lits "server" ++ [OptAny] ++ lits "error" ].

(** [isRetryableError(error)], on the error's message *)
Definition isRetryableError (message : string) : bool :=
  existsb (fun pattern => test pattern message) retryablePatterns.

Definition createDefaultConfig : RetryConfig :=
  {| maxRetries := 3; baseDelayMs := 1000; maxDelayMs := 10000; backoffMultiplier := 2 |}.

End RetryUtil.

(** An instrumented operation in the style of a jest mock: its [k]-th
    invocation (counting from 0) rejects with [new Error(msg)] when
    [outcomes k = inl msg] and resolves with [v] when [outcomes k = inr v]. *)
Definition mockFn {T} (outcomes : nat -> string + T) : M T :=
  tr <- getTrace ;;
  emit EvInvoke ;;;
  match outcomes (countEv isInvoke tr) with
  | inl msg => throw (JsError msg)
  | inr v => ret v
  end.

(** ** The JavaScript runtime and the ethers helpers

    Everything here is outside the repository.  JavaScript numbers are IEEE
    doubles; their operations are taken as given, over an abstract carrier. *)
Record Runtime := mkRuntime {
  number : Type;
  parseFloat : string -> number;
  isNaN : number -> bool;
  num_leb : number -> number -> bool;          (* a <= b *)
  num_add : number -> number -> number;
  num_mul : number -> number -> number;
  num_div : number -> number -> number;
  num_ofZ : Z -> number;                       (* integer literal, Number(bigint) *)
  num_ofQ : Q -> number;                       (* decimal literal as a double *)
  num_toString : number -> string;
  floorToBigInt : number -> Thrown + Z;        (* BigInt(Math.floor(x)) *)
  objectToString : JSON -> Thrown + string;    (* v.toString() of an array or object *)
  JSON_stringify : JSON -> string;
  path_join : string -> string -> string;
  isAddress : string -> bool;                  (* ethers.isAddress on a string *)
  getAddress : string -> string;               (* ethers.getAddress, when isAddress holds *)
  parseUnits : string -> Z -> Thrown + Z;      (* ethers.parseUnits(value, decimals) *)
  formatUnits : Z -> Z -> string;              (* ethers.formatUnits(value, decimals) *)
  Math_pow : double -> double -> double        (* Math.pow, for the retry delays *)
}.

(** What an axios GET comes back with, before the response interceptor. *)
Inductive HttpResult :=
| HttpResponse (data : EtherscanResponse)
| HttpFailure (httpStatus : option Z) (error : Thrown).

(** The world outside the process.  Each oracle answers from the trace of
    everything that happened before the call. *)
Record Env := mkEnv {
  walletAddress : string;
  o_symbol : Trace -> Thrown + string;
  o_name : Trace -> Thrown + string;
  o_decimals : Trace -> Thrown + Z;
  o_totalSupply : Trace -> Thrown + Z;
  o_getBalance : Trace -> Thrown + Z;
  o_balanceOf : Trace -> Thrown + Z;
  o_estimateGas : Trace -> string -> Z -> Thrown + Z;
  o_getFeeData : Trace -> Thrown + FeeData;
  o_populateTransaction : Trace -> string -> Z -> Thrown + unit;
  o_sendTransaction : Trace -> Tx -> Thrown + TxResponse;
  o_wait : Trace -> TxResponse -> Thrown + Receipt;
  o_getTransactionCount : Trace -> Thrown + Z;
  o_httpGet : Trace -> string -> string -> list (string * JSON) -> HttpResult;
  o_writeFile : Trace -> string -> option Thrown;   (* None: the write succeeds *)
  clockIso : Trace -> string;                       (* new Date().toISOString() *)
  clockMs : Trace -> Z                              (* Date.now() *)
}.

(** An external call: recorded, then answered. *)
Definition ask {A} (ev : Event) (oracle : Trace -> Thrown + A) : M A :=
  tr <- getTrace ;;
  emit ev ;;;
  settle (oracle tr).

(** ** Batch sender types *)

(** [BatchConfig] as the caller passes it: absent optional fields are [None]. *)
Record BatchConfig := mkBatchConfig {
  tokenContract : string;
  privateKey : string;
  rpcUrl : string;
  gasLimitMultiplier : option Q;
  bc_maxRetries : option Z;
  retryDelayMs : option Q;
  batchSize : option Z;
  dryRun : option bool
}.

(** [this.config] after the constructor has spread the caller's fields over
    the defaults. *)
Record EngineConfig := mkEngineConfig {
  ec_tokenContract : string;
  ec_gasLimitMultiplier : Q;
  ec_maxRetries : Z;
  ec_retryDelayMs : Q;
  ec_batchSize : Z;
  ec_dryRun : bool
}.

Record BalanceCheck := mkBalanceCheck {
  maticBalance : string;
  tokenBalance : string;
  sufficientMatic : bool;
  sufficientToken : bool;
  estimatedGasCost : string
}.

Record GasEstimate := mkGasEstimate {
  ge_gasLimit : string;
  ge_gasPrice : string;
  gasCostMatic_total : string;
  priorityFee : option string;
  maxFeePerGas : option string
}.

Record BatchSummary := mkSummary {
  totalRecipients : Z;
  successful : Z;
  sm_failed : Z;
  totalAmountSent : string;
  totalGasCostMatic : string;
  sm_tokenContract : string;
  senderAddress : string;
  tokenSymbol : option string;
  tokenDecimals : option Z;
  sm_timestamp : string;
  processingTimeMs : Z
}.

Record BatchMetadata := mkMetadata {
  gasPriceGwei : string;
  averageGasPerTransfer : string;
  network : string;
  md_dryRun : bool
}.

Record BatchReport := mkReport {
  summary : BatchSummary;
  transfers : list TransferResult;
  rp_failed : list TransferResult;
  metadata : BatchMetadata
}.

(** A recipient as it comes out of [JSON.parse]: the address is whatever
    the document held under ["address"]. *)
Record RawRecipient := mkRaw {
  raw_address : JsVal;
  raw_amount : string
}.

Definition isSuccess (r : TransferResult) : bool :=
  match status r with success => true | failed => false end.
Definition isFailed (r : TransferResult) : bool :=
  match status r with success => false | failed => true end.

Fixpoint repeatString (s : string) (n : nat) : string :=
  match n with
  | O => ""
  | S n' => s +:+ repeatString s n'
  end.

(** The batch loop's test for provider throttling, on an error's text. *)
Definition isRateLimitText (errorMessage : string) : bool :=
  includes "rate limit" errorMessage || includes "Too many requests" errorMessage.

(** [chunkArray]'s loop, one chunk per unit of fuel. *)
Fixpoint chunkLoop {T} (fuel : nat) (array : list T) (size : nat) : list (list T) :=
  match fuel with
  | O => []
  | S fuel' =>
      match array with
      | [] => []
      | _ => take size array :: chunkLoop fuel' (drop size array) size
      end
  end.

(** [chunkArray(array, size)]: with [size >= 1] the index reaches the end
    within [length array] rounds; with [size <= 0] and a non-empty array the
    loop never ends ([None]). *)
Definition chunkArray {T} (array : list T) (size : Z) : option (list (list T)) :=
  if size <=? 0 then
    match array with
    | [] => Some []
    | _ => None
    end
  else Some (chunkLoop (length array) array (Z.to_nat size)).

(** ** BatchTokenSender ([services/batch-sender.ts]) *)

Module BatchTokenSender.

(** The constructor's merge of the caller's configuration over the
    defaults. *)
Definition constructor (c : BatchConfig) : EngineConfig :=
  {| ec_tokenContract := tokenContract c;
     ec_gasLimitMultiplier := default (12 # 10)%Q (gasLimitMultiplier c);
     ec_maxRetries := default 3 (bc_maxRetries c);
     ec_retryDelayMs := default (2000 # 1)%Q (retryDelayMs c);
     ec_batchSize := default 10 (batchSize c);
     ec_dryRun := default false (dryRun c) |}.

(** JavaScript truthiness of a value read from a JSON document. *)
Definition truthy (v : JsVal) : bool :=
  match v with
  | None => false
  | Some JNull => false
  | Some (JBool b) => b
  | Some (JNum q) => negb (Qeq_bool q 0)
  | Some (JStr s) => negb (String.eqb s "")
  | Some (JArr _) => true
  | Some (JObj _) => true
  end.

(** [item.key] *)
Definition getProp (item : JSON) (key : string) : Thrown + JsVal :=
  match item with
  | JNull => inl (JsError ("Cannot read properties of null (reading '" +:+ key +:+ "')"))
  | JObj fields => inr (assoc key fields)
  | _ => inr None
  end.

(** [s || fallback] on an optional string *)
Definition orString (s : option string) (fallback : string) : string :=
  match s with
  | Some t => if String.eqb t "" then fallback else t
  | None => fallback
  end.

Section Engine.
Variable R : Runtime.
Variable env : Env.
Variable config : EngineConfig.

(** [v.toString()] on a value that is neither [undefined] nor [null] *)
Definition valueToString (v : JSON) : Thrown + string :=
  match v with
  | JStr s => inr s
  | JNum q => inr (num_toString R (num_ofQ R q))
  | JBool true => inr "true"
  | JBool false => inr "false"
  | JNull => inl (JsError "Cannot read properties of null (reading 'toString')")
  | JArr _ => objectToString R v
  | JObj _ => objectToString R v
  end.

(** [`${v}`] *)
Definition renderAny (v : JsVal) : Thrown + string :=
  match v with
  | None => inr "undefined"
  | Some JNull => inr "null"
  | Some w => valueToString w
  end.

Definition invalidAddress (v : JsVal) : Thrown :=
  match renderAny v with
  | inl e => e
  | inr text => JsError ("Invalid address: " +:+ text)
  end.

(** The [for] loop of [validateRecipients]; [seenAddresses] is the
    [Set<string>], [validated] the array built so far. *)
Fixpoint validateLoop (recipients : list RawRecipient) (seenAddresses : gset string)
         (validated : list BatchRecipient) : Thrown + list BatchRecipient :=
  match recipients with
  | [] => inr validated
  | recipient :: rest =>
      match raw_address recipient with
      | Some (JStr addr) =>
          if isAddress R addr then
            let checksumAddress := getAddress R addr in
            if decide (checksumAddress ∈ seenAddresses) then
              inl (JsError ("Duplicate address found: " +:+ checksumAddress))
            else
              let seenAddresses' := {[ checksumAddress ]} ∪ seenAddresses in
              let amountNum := parseFloat R (raw_amount recipient) in
              if isNaN R amountNum || num_leb R amountNum (num_ofZ R 0) then
                inl (JsError ("Invalid amount for " +:+ checksumAddress +:+ ": "
                              +:+ raw_amount recipient))
              else
                validateLoop rest seenAddresses'
                  (validated ++ [ {| address := checksumAddress;
                                     amount := raw_amount recipient |} ])
          else inl (invalidAddress (raw_address recipient))
      | other => inl (invalidAddress other)
      end
  end.

(** A recipient in the form [validateRecipients] returns it. *)
Definition normalised (r : BatchRecipient) : BatchRecipient :=
  {| address := getAddress R (address r); amount := amount r |}.

Definition toRaw (r : BatchRecipient) : RawRecipient :=
  {| raw_address := Some (JStr (address r)); raw_amount := amount r |}.

(** [validateRecipients(recipients)] *)
Definition validateRecipients (recipients : list BatchRecipient)
  : Thrown + list BatchRecipient :=
  validateLoop (map toRaw recipients) ∅ [].

Definition readFile (filepath : string) : M FileContent :=
  emit (EvReadFile filepath) ;;;
  (fun s => match assoc filepath (files s) with
            | Some content => (Return content, s)
            | None => (Throw (JsError ("ENOENT: no such file or directory, open '"
                                       +:+ filepath +:+ "'")), s)
            end).

(** [JSON.parse(fileContent)] *)
Definition parseFile (content : FileContent) : M JSON :=
  match content with
  | JsonText doc => ret doc
  | OtherText parseError => throw (JsError parseError)
  end.

(** The callback of [rawRecipients.map] in [loadRecipientsFromJson]. *)
Definition toRecipient (item : JSON) : Thrown + RawRecipient :=
  match getProp item "amount" with
  | inl e => inl e
  | inr itemAmount =>
      match (if truthy itemAmount then inr itemAmount else getProp item "value") with
      | inl e => inl e
      | inr None | inr (Some JNull) =>
          inl (JsError ("Recipient missing amount/value field: " +:+ JSON_stringify R item))
      | inr (Some amountValue) =>
          match getProp item "address" with
          | inl e => inl e
          | inr itemAddress =>
              match valueToString amountValue with
              | inl e => inl e
              | inr text => inr {| raw_address := itemAddress; raw_amount := text |}
              end
          end
      end
  end.

Fixpoint mapThrow {A B} (f : A -> Thrown + B) (l : list A) : Thrown + list B :=
  match l with
  | [] => inr []
  | x :: l' =>
      match f x with
      | inl e => inl e
      | inr y => match mapThrow f l' with
                 | inl e => inl e
                 | inr ys => inr (y :: ys)
                 end
      end
  end.

(** [loadRecipientsFromJson(filepath)] *)
Definition loadRecipientsFromJson (filepath : string) : M (list BatchRecipient) :=
  tryCatch
    (fileContent <- readFile filepath ;;
     rawRecipients <- parseFile fileContent ;;
     match rawRecipients with
     | JArr items =>
         recipients <- settle (mapThrow toRecipient items) ;;
         settle (validateLoop recipients ∅ [])
     | _ => throw (JsError "JSON file must contain an array of recipients")
     end)
    (fun error =>
       throw (JsError ("Failed to load recipients from " +:+ filepath +:+ ": "
                       +:+ errorText error))).

Definition setTokenInfo (ti : TokenInfo) : M unit :=
  fun s => (Return tt, {| trace := trace s; tokenInfo := Some ti;
                          apiCallCount := apiCallCount s; files := files s |}).

Definition cachedTokenInfo : M (option TokenInfo) :=
  fun s => (Return (tokenInfo s), s).

(** [getTokenInfo()]; the four contract reads of [Promise.all] start
    together, and the first rejection in array order is the one seen. *)
Definition getTokenInfo : M TokenInfo :=
  cached <- cachedTokenInfo ;;
  match cached with
  | Some ti => ret ti
  | None =>
      tryCatch
        (tr <- getTrace ;;
         emit EvTokenMeta ;;;
         symbol_ <- settle (o_symbol env tr) ;;
         name_ <- settle (o_name env tr) ;;
         decimals_ <- settle (o_decimals env tr) ;;
         totalSupply_ <- settle (o_totalSupply env tr) ;;
         let ti := {| ti_address := ec_tokenContract config;
                      symbol := symbol_;
                      name := name_;
                      decimals := decimals_;
                      totalSupply := pretty totalSupply_ |} in
         setTokenInfo ti ;;;
         ret ti)
        (fun error =>
           throw (JsError ("Failed to get token info: " +:+ errorText error)))
  end.

Definition now : M string := tr <- getTrace ;; ret (clockIso env tr).
Definition dateNow : M Z := tr <- getTrace ;; ret (clockMs env tr).

(** The summation loop of [checkBalances]. *)
Fixpoint sumAmounts (recipients : list BatchRecipient) (totalAmount : number R)
  : Thrown + number R :=
  match recipients with
  | [] => inr totalAmount
  | recipient :: rest =>
      let amountNum := parseFloat R (amount recipient) in
      if isNaN R amountNum || num_leb R amountNum (num_ofZ R 0) then
        inl (JsError ("Invalid amount for recipient " +:+ address recipient +:+ ": " +:+ dquote
                      +:+ amount recipient +:+ dquote))
      else sumAmounts rest (num_add R totalAmount amountNum)
  end.

(** [feeData.gasPrice || ethers.parseUnits('30', 'gwei')] *)
Definition gasPriceOf (feeData : FeeData) : Z :=
  match fd_gasPrice feeData with
  | Some p => if p =? 0 then 30000000000 else p
  | None => 30000000000
  end.

(** [BigInt(Math.floor(Number(gasLimit) * this.config.gasLimitMultiplier))] *)
Definition adjustGasLimit (gasLimit : Z) : Thrown + Z :=
  floorToBigInt R (num_mul R (num_ofZ R gasLimit) (num_ofQ R (ec_gasLimitMultiplier config))).

Definition formatEther (wei : Z) : string := formatUnits R wei 18.

(** [estimateGasForBatch(recipients)] *)
Definition estimateGasForBatch (recipients : list BatchRecipient) : M GasEstimate :=
  ti <- getTokenInfo ;;
  match recipients with
  | [] => throw (JsError "Cannot read properties of undefined (reading 'amount')")
  | sampleRecipient :: _ =>
      let amountNum := parseFloat R (amount sampleRecipient) in
      if isNaN R amountNum || num_leb R amountNum (num_ofZ R 0) then
        throw (JsError ("Invalid amount for gas estimation: " +:+ dquote
                        +:+ amount sampleRecipient +:+ dquote))
      else
        sampleAmount <- settle (parseUnits R (amount sampleRecipient) (decimals ti)) ;;
        gasLimit <- ask (EvEstimateGas (address sampleRecipient) sampleAmount)
                        (fun tr => o_estimateGas env tr (address sampleRecipient) sampleAmount) ;;
        adjustedGasLimit <- settle (adjustGasLimit gasLimit) ;;
        feeData <- ask EvGetFeeData (o_getFeeData env) ;;
        let gasPrice := gasPriceOf feeData in
        let totalGasLimit := adjustedGasLimit * Z.of_nat (length recipients) in
        let gasCostWei := totalGasLimit * gasPrice in
        ret {| ge_gasLimit := pretty adjustedGasLimit;
               ge_gasPrice := formatUnits R gasPrice 9;
               gasCostMatic_total := formatEther gasCostWei;
               priorityFee := match fd_maxPriorityFeePerGas feeData with
                              | Some f => if f =? 0 then None else Some (formatUnits R f 9)
                              | None => None
                              end;
               maxFeePerGas := match fd_maxFeePerGas feeData with
                               | Some f => if f =? 0 then None else Some (formatUnits R f 9)
                               | None => None
                               end |}
  end.

(** [checkBalances(recipients)]; the two balance reads of [Promise.all]
    start together. *)
Definition checkBalances (recipients : list BatchRecipient) : M BalanceCheck :=
  ti <- getTokenInfo ;;
  totalAmount <- settle (sumAmounts recipients (num_ofZ R 0)) ;;
  totalAmountWei <- settle (parseUnits R (num_toString R totalAmount) (decimals ti)) ;;
  tr <- getTrace ;;
  emit EvGetBalance ;;;
  emit EvBalanceOf ;;;
  maticBalance_ <- settle (o_getBalance env tr) ;;
  tokenBalance_ <- settle (o_balanceOf env tr) ;;
  gasEstimate <- estimateGasForBatch recipients ;;
  let estimatedGasCost_ := gasCostMatic_total gasEstimate in
  ret {| maticBalance := formatEther maticBalance_;
         tokenBalance := formatUnits R tokenBalance_ (decimals ti);
         sufficientMatic := num_leb R (parseFloat R estimatedGasCost_)
                                      (parseFloat R (formatEther maticBalance_));
         sufficientToken := tokenBalance_ >=? totalAmountWei;
         estimatedGasCost := estimatedGasCost_ |}.

(** [executeTransfer(recipient, nonce)].  The token information and the
    conversion of the amount come before the [try]; everything from gas
    estimation to the receipt is inside it. *)
Definition executeTransfer (recipient_ : BatchRecipient) (nonce : Z) : M TransferResult :=
  ti <- getTokenInfo ;;
  amountWei <- settle (parseUnits R (amount recipient_) (decimals ti)) ;;
  tryCatch
    (gasLimit <- ask (EvEstimateGas (address recipient_) amountWei)
                     (fun tr => o_estimateGas env tr (address recipient_) amountWei) ;;
     adjustedGasLimit <- settle (adjustGasLimit gasLimit) ;;
     feeData <- ask EvGetFeeData (o_getFeeData env) ;;
     let gasPrice := gasPriceOf feeData in
     ask (EvPopulate (address recipient_) amountWei)
         (fun tr => o_populateTransaction env tr (address recipient_) amountWei) ;;;
     let tx := {| tx_to := address recipient_; tx_amount := amountWei;
                  tx_gasLimit := adjustedGasLimit; tx_gasPrice := gasPrice;
                  tx_nonce := nonce |} in
     if ec_dryRun config then
       ts <- now ;;
       ret {| recipient := address recipient_;
              tr_amount := amount recipient_;
              status := success;
              txHash := Some ("0x" +:+ repeatString "0" 64);
              blockNumber := None;
              gasUsed := Some (pretty adjustedGasLimit);
              gasCostMatic := Some (formatEther (adjustedGasLimit * gasPrice));
              timestamp := Some ts;
              error := None;
              attempts := None |}
     else
       txResponse <- ask (EvSendTransaction tx) (fun tr => o_sendTransaction env tr tx) ;;
       waited <-
         tryCatch
           (receipt <- ask (EvWait (txr_hash txResponse))
                           (fun tr => o_wait env tr txResponse) ;;
            ret (inr receipt))
           (fun receiptError =>
              let errorMessage := errorText receiptError in
              if isRateLimitText errorMessage then
                ts <- now ;;
                ret (inl {| recipient := address recipient_;
                            tr_amount := amount recipient_;
                            status := success;
                            txHash := Some (txr_hash txResponse);
                            blockNumber := None;
                            gasUsed := Some (pretty adjustedGasLimit);
                            gasCostMatic := Some (formatEther (adjustedGasLimit * gasPrice));
                            timestamp := Some ts;
                            error := None;
                            attempts := None |})
              else throw receiptError) ;;
       match waited with
       | inl early => ret early
       | inr receipt =>
           ts <- now ;;
           ret {| recipient := address recipient_;
                  tr_amount := amount recipient_;
                  status := success;
                  txHash := Some (rc_hash receipt);
                  blockNumber := Some (rc_blockNumber receipt);
                  gasUsed := Some (pretty (rc_gasUsed receipt));
                  gasCostMatic := Some (formatEther (rc_gasUsed receipt * gasPrice));
                  timestamp := Some ts;
                  error := None;
                  attempts := None |}
       end)
    (fun error_ =>
       ts <- now ;;
       ret {| recipient := address recipient_;
              tr_amount := amount recipient_;
              status := failed;
              txHash := None;
              blockNumber := None;
              gasUsed := None;
              gasCostMatic := None;
              timestamp := Some ts;
              error := Some (errorText error_);
              attempts := None |}).

(** Specification of a transfer's failure, in the order of its steps:
    the error of the first step that fails (gas estimation and the
    scaling of its result, fee data, building the transaction, and in
    live mode the broadcast and the wait for the receipt), [None] when
    none does.  A wait that fails on a rate limit is no failure.  [tr]
    is the trace when the [try] block is entered. *)
Definition firstStepError (recipient_ : BatchRecipient) (amountWei nonce : Z)
           (tr : Trace) : option Thrown :=
  match o_estimateGas env tr (address recipient_) amountWei with
  | inl e => Some e
  | inr gasLimit =>
  match adjustGasLimit gasLimit with
  | inl e => Some e
  | inr adjustedGasLimit =>
  let tr1 := tr ++ [EvEstimateGas (address recipient_) amountWei] in
  match o_getFeeData env tr1 with
  | inl e => Some e
  | inr feeData =>
  let tr2 := tr1 ++ [EvGetFeeData] in
  match o_populateTransaction env tr2 (address recipient_) amountWei with
  | inl e => Some e
  | inr _ =>
  if ec_dryRun config then None else
  let tr3 := tr2 ++ [EvPopulate (address recipient_) amountWei] in
  let tx := {| tx_to := address recipient_; tx_amount := amountWei;
               tx_gasLimit := adjustedGasLimit; tx_gasPrice := gasPriceOf feeData;
               tx_nonce := nonce |} in
  match o_sendTransaction env tr3 tx with
  | inl e => Some e
  | inr txResponse =>
  let tr4 := tr3 ++ [EvSendTransaction tx] in
  match o_wait env tr4 txResponse with
  | inl e => if isRateLimitText (errorText e) then None else Some e
  | inr _ => None
  end end end end end end.

(** The retry policy [executeBatchTransfers] builds for every transfer. *)
Definition retryConfig : RetryConfig :=
  {| maxRetries := ec_maxRetries config;
     baseDelayMs := ec_retryDelayMs config;
     maxDelayMs := 10000;
     backoffMultiplier := 2 |}.

(** One round of the inner loop of [executeBatchTransfers]: the transfer
    under the retry policy, and whether it counted as successful. *)
Definition transferWithRetry (recipient_ : BatchRecipient) (currentNonce : Z)
  : M (TransferResult * bool) :=
  tryCatch
    (result <- RetryUtil.executeWithRetry (Math_pow R) retryConfig
                 (executeTransfer recipient_ currentNonce)
                 (Some ("transfer to " +:+ address recipient_)) ;;
     ret (result, isSuccess result))
    (fun error_ =>
       let errorMessage := errorText error_ in
       (if isRateLimitText errorMessage then sleep (Double.ofZ 60000) else ret tt) ;;;
       ts <- now ;;
       ret ({| recipient := address recipient_;
               tr_amount := amount recipient_;
               status := failed;
               txHash := None;
               blockNumber := None;
               gasUsed := None;
               gasCostMatic := None;
               timestamp := Some ts;
               error := Some errorMessage;
               attempts := Some (maxRetries retryConfig + 1) |}, false)).

(** The inner [for] loop over one batch, from index [i]; [total] is
    [recipients.length] and [batchLength] is [batch.length]. *)
Fixpoint batchLoop (total batchIndex batchLength : Z) (rest : list BatchRecipient)
         (i : Z) (currentNonce : Z) (results : list TransferResult)
  : M (list TransferResult) :=
  match rest with
  | [] => ret results
  | recipient_ :: rest' =>
      let transferIndex := batchIndex * ec_batchSize config + i + 1 in
      emit (EvTransferLine transferIndex recipient_ currentNonce) ;;;
      outcome <- transferWithRetry recipient_ currentNonce ;;
      let '(result, transferSuccessful) := outcome in
      let currentNonce' := if transferSuccessful then currentNonce + 1 else currentNonce in
      let results' := results ++ [result] in
      (if negb (ec_dryRun config) && (i <? batchLength - 1)
       then sleep (Double.ofZ 3000) else ret tt) ;;;
      batchLoop total batchIndex batchLength rest' (i + 1) currentNonce' results'
  end.

(** The outer [for] loop over the batches, from [batchIndex]. *)
Fixpoint batchesLoop (total batchCount : Z) (batches : list (list BatchRecipient))
         (batchIndex : Z) (results : list TransferResult) : M (list TransferResult) :=
  match batches with
  | [] => ret results
  | batch :: batches' =>
      currentNonce <- ask EvGetTransactionCount (o_getTransactionCount env) ;;
      results' <- batchLoop total batchIndex (Z.of_nat (length batch)) batch 0
                            currentNonce results ;;
      (if negb (ec_dryRun config) && (batchIndex <? batchCount - 1)
       then sleep (Double.ofZ 15000) else ret tt) ;;;
      batchesLoop total batchCount batches' (batchIndex + 1) results'
  end.

(** [executeBatchTransfers(recipients)] *)
Definition executeBatchTransfers (recipients : list BatchRecipient)
  : M (list TransferResult) :=
  getTokenInfo ;;;
  match chunkArray recipients (ec_batchSize config) with
  | None => hang
  | Some batches =>
      batchesLoop (Z.of_nat (length recipients)) (Z.of_nat (length batches))
                  batches 0 []
  end.

Definition sumBy (f : TransferResult -> number R) (l : list TransferResult) : number R :=
  fold_left (fun sum r => num_add R sum (f r)) l (num_ofZ R 0).

(** [generateReport(results, startTime)] *)
Definition generateReport (results : list TransferResult) (startTime : Z) : M BatchReport :=
  let successful_ := List.filter isSuccess results in
  let failed_ := List.filter isFailed results in
  let totalAmountSent_ := sumBy (fun r => parseFloat R (tr_amount r)) successful_ in
  let totalGasCost := sumBy (fun r => parseFloat R (orString (gasCostMatic r) "0")) successful_ in
  let averageGasPerTransfer_ :=
    if (0 <? length successful_)%nat then
      num_toString R
        (num_div R (sumBy (fun r => parseFloat R (orString (gasUsed r) "0")) successful_)
                   (num_ofZ R (Z.of_nat (length successful_))))
    else "0" in
  cached <- cachedTokenInfo ;;
  ts <- now ;;
  finish <- dateNow ;;
  ret {| summary :=
           {| totalRecipients := Z.of_nat (length results);
              successful := Z.of_nat (length successful_);
              sm_failed := Z.of_nat (length failed_);
              totalAmountSent := num_toString R totalAmountSent_;
              totalGasCostMatic := num_toString R totalGasCost;
              sm_tokenContract := ec_tokenContract config;
              senderAddress := walletAddress env;
              tokenSymbol := option_map symbol cached;
              tokenDecimals := option_map decimals cached;
              sm_timestamp := ts;
              processingTimeMs := finish - startTime |};
         transfers := results;
         rp_failed := failed_;
         metadata :=
           {| gasPriceGwei := "30";
              averageGasPerTransfer := averageGasPerTransfer_;
              network := "polygon";
              md_dryRun := ec_dryRun config |} |}.

(** [executeBatch(recipients)] *)
Definition executeBatch (recipients : list BatchRecipient) : M BatchReport :=
  startTime <- dateNow ;;
  tryCatch
    (validatedRecipients <- settle (validateRecipients recipients) ;;
     getTokenInfo ;;;
     balanceCheck <- checkBalances validatedRecipients ;;
     cached <- cachedTokenInfo ;;
     let symbolText := match cached with Some ti => symbol ti | None => "undefined" end in
     if negb (sufficientToken balanceCheck) then
       throw (JsError ("Insufficient token balance. Required: "
                       +:+ num_toString R (fold_left (fun sum r => num_add R sum (parseFloat R (amount r)))
                                                     validatedRecipients (num_ofZ R 0))
                       +:+ " " +:+ symbolText
                       +:+ ", Available: " +:+ tokenBalance balanceCheck))
     else if negb (sufficientMatic balanceCheck) then
       throw (JsError ("Insufficient MATIC balance for gas. Required: "
                       +:+ estimatedGasCost balanceCheck
                       +:+ " MATIC, Available: " +:+ maticBalance balanceCheck))
     else
       results <- executeBatchTransfers validatedRecipients ;;
       generateReport results startTime)
    (fun error_ => throw (JsError ("Batch execution failed: " +:+ errorText error_))).

End Engine.

End BatchTokenSender.

(** ** BatchReportManager ([services/batch-report-manager.ts]) *)

Module BatchReportManager.

(** [s.slice(-n)] *)
Definition sliceLast (n : nat) (s : string) : string :=
  String.substring (String.length s - n) n s.

Definition present {A} (key : string) (f : A -> JSON) (v : option A)
  : list (string * JSON) :=
  match v with
  | Some a => [(key, f a)]
  | None => []
  end.

(** A [TransferResult] as [JSON.stringify] writes it: properties that are
    [undefined] are left out.  (The order of the keys is not modelled.) *)
Definition resultToJSON (r : TransferResult) : JSON :=
  JObj ([ ("recipient", JStr (recipient r));
          ("amount", JStr (tr_amount r));
          ("status", JStr (match status r with success => "success" | failed => "failed" end)) ]
        ++ present "txHash" JStr (txHash r)
        ++ present "blockNumber" (fun n => JNum (inject_Z n)) (blockNumber r)
        ++ present "gasUsed" JStr (gasUsed r)
        ++ present "gasCostMatic" JStr (gasCostMatic r)
        ++ present "timestamp" JStr (timestamp r)
        ++ present "error" JStr (error r)
        ++ present "attempts" (fun n => JNum (inject_Z n)) (attempts r)).

(** A [BatchReport] as [JSON.stringify] writes it. *)
Definition summaryToJSON (sm : BatchSummary) : JSON :=
  JObj ([ ("totalRecipients", JNum (inject_Z (totalRecipients sm)));
          ("successful", JNum (inject_Z (successful sm)));
          ("failed", JNum (inject_Z (sm_failed sm)));
          ("totalAmountSent", JStr (totalAmountSent sm));
          ("totalGasCostMatic", JStr (totalGasCostMatic sm));
          ("tokenContract", JStr (sm_tokenContract sm));
          ("senderAddress", JStr (senderAddress sm)) ]
        ++ present "tokenSymbol" JStr (tokenSymbol sm)
        ++ present "tokenDecimals" (fun n => JNum (inject_Z n)) (tokenDecimals sm)
        ++ [ ("timestamp", JStr (sm_timestamp sm));
             ("processingTimeMs", JNum (inject_Z (processingTimeMs sm))) ]).

Definition metadataToJSON (md : BatchMetadata) : JSON :=
  JObj [ ("gasPriceGwei", JStr (gasPriceGwei md));
         ("averageGasPerTransfer", JStr (averageGasPerTransfer md));
         ("network", JStr (network md));
         ("dryRun", JBool (md_dryRun md)) ].

Definition reportToJSON (report : BatchReport) : JSON :=
  JObj [ ("summary", summaryToJSON (summary report));
         ("transfers", JArr (map resultToJSON (transfers report)));
         ("failed", JArr (map resultToJSON (rp_failed report)));
         ("metadata", metadataToJSON (metadata report)) ].

(** [s.endsWith(suffix)] *)
Fixpoint endsWith (suffix s : string) : bool :=
  String.eqb s suffix ||
  match s with
  | String _ s' => endsWith suffix s'
  | EmptyString => false
  end.

Section Manager.
Variable R : Runtime.
Variable env : Env.
Variable outputDir : string.

Definition sumBy (f : TransferResult -> number R) (l : list TransferResult) : number R :=
  fold_left (fun sum r => num_add R sum (f r)) l (num_ofZ R 0).

(** [generateReport(results, config, tokenInfo)] *)
Definition generateReport (results : list TransferResult) (config : BatchConfig)
           (tokenInfo_ : TokenInfo) : M BatchReport :=
  let successful_ := List.filter isSuccess results in
  let failed_ := List.filter isFailed results in
  let totalAmountSent_ := sumBy (fun r => parseFloat R (tr_amount r)) successful_ in
  let totalGasCost :=
    sumBy (fun r => parseFloat R (BatchTokenSender.orString (gasCostMatic r) "0")) successful_ in
  ts <- BatchTokenSender.now env ;;
  ret {| summary :=
           {| totalRecipients := Z.of_nat (length results);
              successful := Z.of_nat (length successful_);
              sm_failed := Z.of_nat (length failed_);
              totalAmountSent := num_toString R totalAmountSent_;
              totalGasCostMatic := num_toString R totalGasCost;
              sm_tokenContract := tokenContract config;
              senderAddress := if String.eqb (privateKey config) "" then "unknown"
                               else "0x" +:+ sliceLast 40 (privateKey config);
              tokenSymbol := Some (symbol tokenInfo_);
              tokenDecimals := Some (decimals tokenInfo_);
              sm_timestamp := ts;
              processingTimeMs := 0 |};
         transfers := results;
         rp_failed := failed_;
         metadata :=
           {| gasPriceGwei := "0";
              averageGasPerTransfer := "0";
              network := "polygon";
              md_dryRun := default false (dryRun config) |} |}.

(** [fs.writeFileSync(filepath, JSON.stringify(doc, null, 2), 'utf8')] *)
Definition writeJsonFile (filepath : string) (doc : JSON) : M unit :=
  tr <- getTrace ;;
  emit (EvWriteFile filepath) ;;;
  match o_writeFile env tr filepath with
  | Some e => throw e
  | None =>
      fun s => (Return tt, {| trace := trace s; tokenInfo := tokenInfo s;
                              apiCallCount := apiCallCount s;
                              files := (filepath, JsonText doc) :: files s |})
  end.

(** The document [saveFailedTransfers] writes. *)
Definition retryData (failedTransfers : list TransferResult) (tokenContract_ : string)
           (generatedAt : string) : JSON :=
  let retryRecipients :=
    map (fun transfer => JObj [ ("address", JStr (recipient transfer));
                                ("amount", JStr (tr_amount transfer)) ])
        failedTransfers in
  JObj [ ("metadata",
          JObj [ ("originalBatch", JStr tokenContract_);
                 ("failedCount", JNum (inject_Z (Z.of_nat (length failedTransfers))));
                 ("generatedAt", JStr generatedAt);
                 ("note", JStr "This file contains failed transfers that can be retried") ]);
         ("recipients", JArr retryRecipients);
         ("failedDetails", JArr (map resultToJSON failedTransfers)) ].

(** [saveFailedTransfers(failedTransfers, tokenContract)]: the path of
    the file written, or [''] when there is nothing to save. *)
Definition saveFailedTransfers (failedTransfers : list TransferResult)
           (tokenContract_ : string) : M string :=
  match failedTransfers with
  | [] => ret ""
  | _ =>
      iso <- BatchTokenSender.now env ;;
      let timestamp_ := dashTimestamp iso in
      let shortAddress := slice0 8 tokenContract_ in
      let filename := "failed_transfers_" +:+ shortAddress +:+ "_" +:+ timestamp_ +:+ ".json" in
      let filepath := path_join R outputDir filename in
      tryCatch
        (generatedAt <- BatchTokenSender.now env ;;
         writeJsonFile filepath (retryData failedTransfers tokenContract_ generatedAt) ;;;
         ret filepath)
        (fun error_ =>
           throw (JsError ("Failed to save failed transfers: " +:+ errorText error_)))
  end.

(** [generateFilename(tokenContract, customFilename)] *)
Definition generateFilename (tokenContract_ : string) (customFilename : option string)
  : M string :=
  match customFilename with
  | Some customName =>
      if negb (String.eqb customName "") then
        ret (if endsWith ".json" customName then customName
             else customName +:+ ".json")
      else
        iso <- BatchTokenSender.now env ;;
        ret ("batch_transfer_report_" +:+ slice0 8 tokenContract_ +:+ "_"
             +:+ dashTimestamp iso +:+ ".json")
  | None =>
      iso <- BatchTokenSender.now env ;;
      ret ("batch_transfer_report_" +:+ slice0 8 tokenContract_ +:+ "_"
           +:+ dashTimestamp iso +:+ ".json")
  end.

(** [saveBatchReport(report, customFilename)] *)
Definition saveBatchReport (report : BatchReport) (customFilename : option string)
  : M string :=
  filename <- generateFilename (sm_tokenContract (summary report)) customFilename ;;
  let filepath := path_join R outputDir filename in
  tryCatch
    (writeJsonFile filepath (reportToJSON report) ;;;
     ret filepath)
    (fun error_ =>
       throw (JsError ("Failed to save batch report: " +:+ errorText error_))).

(** [saveReport(report, customFilename)], an alias *)
Definition saveReport (report : BatchReport) (customFilename : option string)
  : M string :=
  saveBatchReport report customFilename.

(** [loadBatchReport(filepath)]: the parsed document, once it has been
    seen to carry a [summary] and [transfers]. *)
Definition loadBatchReport (filepath : string) : M JSON :=
  tryCatch
    (fileContent <- BatchTokenSender.readFile filepath ;;
     report <- BatchTokenSender.parseFile fileContent ;;
     summary_ <- settle (BatchTokenSender.getProp report "summary") ;;
     if negb (BatchTokenSender.truthy summary_) then
       throw (JsError "Invalid batch report format")
     else
       transfers_ <- settle (BatchTokenSender.getProp report "transfers") ;;
       if negb (BatchTokenSender.truthy transfers_) then
         throw (JsError "Invalid batch report format")
       else ret report)
    (fun error_ =>
       throw (JsError ("Failed to load batch report: " +:+ errorText error_))).

End Manager.

End BatchReportManager.

(** ** EtherscanClient ([api/etherscan.ts]) *)

Module EtherscanClient.

Section Client.
Variable Math_pow : double -> double -> double.
Variable env : Env.
Variable retryConfig : RetryConfig.

Definition incrementApiCallCount : M unit :=
  fun s => (Return tt, {| trace := trace s; tokenInfo := tokenInfo s;
                          apiCallCount := apiCallCount s + 1; files := files s |}).

(** [httpClient.get('', {params})] behind the response interceptor, which
    turns an HTTP 403 into its own error and rethrows anything else. *)
Definition httpGet (module action : string) (params : list (string * JSON))
  : M EtherscanResponse :=
  tr <- getTrace ;;
  emit (EvHttpGet module action) ;;;
  match o_httpGet env tr module action params with
  | HttpResponse data => ret data
  | HttpFailure (Some 403) _ => throw (JsError "Invalid API key or rate limit exceeded")
  | HttpFailure _ error_ => throw error_
  end.

(** [getApiCallCount()] *)
Definition getApiCallCount : M Z := fun s => (Return (apiCallCount s), s).

(** [resetApiCallCount()] *)
Definition resetApiCallCount : M unit :=
  fun s => (Return tt, {| trace := trace s; tokenInfo := tokenInfo s;
                          apiCallCount := 0; files := files s |}).

(** [Array.isArray(result) && result.length === 0] *)
Definition isEmptyArray (result : JSON) : bool :=
  match result with
  | JArr [] => true
  | _ => false
  end.

(** The "no records" test applied to a response whose status is ['0']. *)
Definition isNoRecords (data : EtherscanResponse) : bool :=
  String.eqb (resp_message data) "No transactions found"
  || String.eqb (resp_message data) "OK"
  || isEmptyArray (resp_result data).

(** What [makeRequest] does with one response. *)
Definition interpretResponse (data : EtherscanResponse) : M JSON :=
  if String.eqb (resp_status data) "0" then
    if isNoRecords data then ret (resp_result data)
    else throw (JsError ("API Error: " +:+ resp_message data))
  else ret (resp_result data).

(** One HTTP attempt: the innermost callback of [makeRequest]. *)
Definition requestAttempt (module action : string) (params : list (string * JSON))
  : M JSON :=
  response <- httpGet module action params ;;
  incrementApiCallCount ;;;
  interpretResponse response.

(** The operation [makeRequest] hands to [requestQueue.enqueue]: the
    attempt under the client's retry policy.  The queue settles the
    caller's promise with this operation's outcome. *)
Definition makeRequestOperation (module action : string) (params : list (string * JSON))
           (context : string) : M JSON :=
  RetryUtil.executeWithRetry Math_pow retryConfig
                             (requestAttempt module action params) (Some context).

End Client.

End EtherscanClient.

(** ** RequestQueue ([utils/queue.ts])

    The queue lives on the event loop: callers enqueue, the interval timer
    fires [processQueue], dispatched operations settle some time later, and
    [clear]/[destroy] may be called in between.  A request is identified by
    its position in the order of [enqueue] calls; the calls made to its
    [resolve]/[reject] callbacks are recorded in [settlements]. *)

Module RequestQueue.

Section Queue.
Context {V : Type}.
Variable config : QueueConfig.

(** A call to a request's [resolve(value)] or [reject(error)]. *)
Inductive Settlement :=
| Resolved (value : V)
| Rejected (error : Thrown).

Record QueueState := mkQueue {
  queue : list nat;                  (* this.queue, head first *)
  activeRequests : Z;                (* this.activeRequests *)
  intervalId : bool;                 (* this.intervalId is set: the timer runs *)
  inFlight : list nat;               (* dispatched requests whose fn() is pending *)
  settlements : list (nat * Settlement);
  created : nat                      (* number of enqueue calls so far *)
}.

(** [new RequestQueue(config)]: empty, with the timer started. *)
Definition constructor : QueueState :=
  {| queue := []; activeRequests := 0; intervalId := true;
     inFlight := []; settlements := []; created := 0 |}.

(** [enqueue(fn, context)]: builds the request and pushes it; the
    returned promise is the request's. *)
Definition enqueue (st : QueueState) : QueueState :=
  {| queue := queue st ++ [created st];
     activeRequests := activeRequests st;
     intervalId := intervalId st;
     inFlight := inFlight st;
     settlements := settlements st;
     created := S (created st) |}.

(** [processQueue()] up to the [await request.fn()]. *)
Definition processQueue (st : QueueState) : QueueState :=
  if (activeRequests st >=? maxConcurrent config) || (Z.of_nat (length (queue st)) =? 0)
  then st
  else match queue st with
       | [] => st
       | request :: rest =>
           {| queue := rest;
              activeRequests := activeRequests st + 1;
              intervalId := intervalId st;
              inFlight := inFlight st ++ [request];
              settlements := settlements st;
              created := created st |}
       end.

Definition removeId (request : nat) (l : list nat) : list nat :=
  List.filter (fun r => negb (Nat.eqb r request)) l.

(** The rest of [processQueue()] once [request.fn()] has settled with
    [result]: forward it, then decrement the active count. *)
Definition complete (request : nat) (result : Thrown + V) (st : QueueState) : QueueState :=
  {| queue := queue st;
     activeRequests := activeRequests st - 1;
     intervalId := intervalId st;
     inFlight := removeId request (inFlight st);
     settlements := settlements st ++
                      [(request, match result with
                                 | inr value => Resolved value
                                 | inl error_ => Rejected error_
                                 end)];
     created := created st |}.

(** [clear()] *)
Definition clear (st : QueueState) : QueueState :=
  {| queue := [];
     activeRequests := activeRequests st;
     intervalId := intervalId st;
     inFlight := inFlight st;
     settlements := settlements st ++
                      map (fun request => (request, Rejected (JsError "Queue cleared")))
                          (queue st);
     created := created st |}.

(** [destroy()] *)
Definition destroy (st : QueueState) : QueueState :=
  clear {| queue := queue st;
           activeRequests := activeRequests st;
           intervalId := false;
           inFlight := inFlight st;
           settlements := settlements st;
           created := created st |}.

(** [getStatus()] *)
Definition getStatus (st : QueueState) : Z * Z * Z * Z :=
  (Z.of_nat (length (queue st)), activeRequests st,
   maxConcurrent config, rateLimitPerSecond config).

(** The test [waitForCompletion] polls. *)
Definition isIdle (st : QueueState) : bool :=
  (Z.of_nat (length (queue st)) =? 0) && (activeRequests st =? 0).

(** What can happen to a queue. *)
Inductive QEvent :=
| Enqueue                                     (* a caller enqueues an operation *)
| Tick                                        (* the interval timer fires *)
| FnSettles (request : nat) (result : Thrown + V)  (* a dispatched fn() settles *)
| Clear
| Destroy.

(** One event; [None] when the event cannot happen in this state (a tick
    without a running timer, the settling of an operation that is not in
    flight). *)
Definition step (ev : QEvent) (st : QueueState) : option QueueState :=
  match ev with
  | Enqueue => Some (enqueue st)
  | Tick => if intervalId st then Some (processQueue st) else None
  | FnSettles request result =>
      if existsb (Nat.eqb request) (inFlight st)
      then Some (complete request result st) else None
  | Clear => Some (clear st)
  | Destroy => Some (destroy st)
  end.

Fixpoint run (evs : list QEvent) (st : QueueState) : option QueueState :=
  match evs with
  | [] => Some st
  | ev :: evs' =>
      match step ev st with
      | Some st' => run evs' st'
      | None => None
      end
  end.

(** The settlements recorded for one request. *)
Definition pick (request : nat) (l : list (nat * Settlement)) : list Settlement :=
  map snd (List.filter (fun p => Nat.eqb (fst p) request) l).

Definition settlementsOf (request : nat) (st : QueueState) : list Settlement :=
  pick request (settlements st).

(** Every request the queue knows of: pending, in flight, settled. *)
Definition requestIds (st : QueueState) : list nat :=
  queue st ++ inFlight st ++ map fst (settlements st).

(** The requests known are exactly those created, each once. *)
Definition accounted (st : QueueState) : Prop :=
  Permutation (requestIds st) (seq 0 (created st)).

(** The active count is the number of operations in flight. *)
Definition balanced (st : QueueState) : Prop :=
  activeRequests st = Z.of_nat (length (inFlight st)).

(** What a settled [fn()] is forwarded as. *)
Definition forwarded (result : Thrown + V) : Settlement :=
  match result with
  | inr value => Resolved value
  | inl error_ => Rejected error_
  end.

Definition isClearing (ev : QEvent) : bool :=
  match ev with
  | Clear | Destroy => true
  | _ => false
  end.

(** A schedule in which nobody calls [clear()] or [destroy()]. *)
Definition quietEvents (evs : list QEvent) : Prop :=
  forallb (fun ev => negb (isClearing ev)) evs = true.

(** The pending requests are the most recently created ones, oldest
    first. *)
Definition fifo (st : QueueState) : Prop :=
  (length (queue st) <= created st)%nat
  /\ queue st = seq (created st - length (queue st)) (length (queue st)).

Definition isTick (ev : QEvent) : bool :=
  match ev with Tick => true | _ => false end.
Definition isFnSettles (ev : QEvent) : bool :=
  match ev with FnSettles _ _ => true | _ => false end.

(** How often the timer fired, and how many operations settled, in a
    schedule. *)
Definition ticks (evs : list QEvent) : nat := length (List.filter isTick evs).
Definition completions (evs : list QEvent) : nat := length (List.filter isFnSettles evs).

End Queue.

(** [createDefaultConfig()] *)
Definition createDefaultConfig : QueueConfig :=
  {| maxConcurrent := 3; rateLimitPerSecond := 5 |}.

End RequestQueue.

(** ** JavaScript's [Map] and [Set]

    Both keep their entries in insertion order, which [keys()] and
    [values()] expose; setting a key that is present replaces the value in
    place.  Keys are strings. *)

Module JsMap.

Section Map.
Context {V : Type}.

(** [m.get(k)] *)
Definition get (k : string) (m : list (string * V)) : option V := assoc k m.

(** [m.has(k)] *)
Definition has (k : string) (m : list (string * V)) : bool :=
  match assoc k m with
  | Some _ => true
  | None => false
  end.

(** [m.set(k, v)] *)
Fixpoint set (k : string) (v : V) (m : list (string * V)) : list (string * V) :=
  match m with
  | [] => [(k, v)]
  | (k', v') :: m' =>
      if String.eqb k k' then (k, v) :: m' else (k', v') :: set k v m'
  end.

(** [Array.from(m.keys())], [Array.from(m.values())] *)
Definition keys (m : list (string * V)) : list string := map fst m.
Definition values (m : list (string * V)) : list V := map snd m.

(** [new Map(entries)] *)
Definition fromEntries (entries : list (string * V)) : list (string * V) :=
  fold_left (fun m entry => set (fst entry) (snd entry) m) entries [].

End Map.

End JsMap.

Module JsSet.

(** [s.add(x)] *)
Definition add (x : string) (s : list string) : list string :=
  if existsb (String.eqb x) s then s else s ++ [x].

(** [Array.from(new Set(items))] *)
Definition fromList (items : list string) : list string :=
  fold_left (fun s x => add x s) items [].

End JsSet.

(** The body shared by [groupTransfersByContract] ([token-parser.ts]),
    [groupTransfersByTransactionHash] and [groupInternalTransactionsByHash]
    ([transaction-filter.ts]): they differ in the key only.  The array held
    under a key is the one [push] extends. *)
Definition groupStep {T} (key : T -> string) (grouped : list (string * list T)) (item : T)
  : list (string * list T) :=
  let k := key item in
  let grouped1 := if JsMap.has k grouped then grouped else JsMap.set k [] grouped in
  match JsMap.get k grouped1 with
  | Some group => JsMap.set k (group ++ [item]) grouped1
  | None => grouped1
  end.

Definition groupBy {T} (key : T -> string) (items : list T) : list (string * list T) :=
  fold_left (groupStep key) items [].

(** ** Explorer records ([types/index.ts])

    The objects the explorer returns, with the properties this code
    reads. *)

Record TokenTransfer := mkTokenTransfer {
  tt_contractAddress : string;
  tt_from : string;
  tt_to : string;
  tt_value : string;
  tt_hash : string;
  tt_blockNumber : string;
  tt_timeStamp : string;
  tt_tokenName : string;
  tt_tokenSymbol : string;
  tt_tokenDecimal : string
}.

Record ERC721Transfer := mkERC721Transfer {
  nft_contractAddress : string;
  nft_from : string;
  nft_to : string;
  nft_tokenID : string;
  nft_hash : string;
  nft_blockNumber : string;
  nft_timeStamp : string;
  nft_tokenName : string;
  nft_tokenSymbol : string;
  nft_tokenDecimal : string
}.

Record ERC1155Transfer := mkERC1155Transfer {
  mt_contractAddress : string;
  mt_from : string;
  mt_to : string;
  mt_tokenID : string;
  mt_tokenValue : string;
  mt_hash : string;
  mt_blockNumber : string;
  mt_timeStamp : string;
  mt_tokenName : string;
  mt_tokenSymbol : string
}.

Inductive TokenStandard := ERC20 | ERC721 | ERC1155.

(** [TokenInfo] of [types/index.ts], the explorer's description of a
    token. *)
Record ExplorerTokenInfo := mkExplorerTokenInfo {
  eti_address : string;
  eti_name : string;
  eti_symbol : string;
  eti_decimals : string;
  eti_totalSupply : string;
  eti_owner : string;
  eti_txsCount : string;
  eti_transfersCount : string;
  eti_lastUpdated : string
}.

Record ParsedTokenTransfer := mkParsed {
  pt_standard : TokenStandard;
  pt_contractAddress : string;
  pt_from : string;
  pt_to : string;
  pt_tokenId : option string;
  pt_value : option string;
  pt_transactionHash : string;
  pt_blockNumber : string;
  pt_timestamp : string;
  pt_tokenMetadata : option ExplorerTokenInfo
}.

(** An entry of the map [calculateTotalValue] returns. *)
Record TokenTotal := mkTokenTotal {
  total_value : string;
  total_decimals : Z;
  total_symbol : string
}.

(** [s || fallback] on a string *)
Definition orElse (s fallback : string) : string :=
  if String.eqb s "" then fallback else s.

(** ** TokenParser ([services/token-parser.ts]) *)

Module TokenParser.

(** [parseERC20Transfers(transfers)] *)
Definition parseERC20Transfers (transfers : list TokenTransfer)
  : list ParsedTokenTransfer :=
  map (fun transfer =>
         {| pt_standard := ERC20;
            pt_contractAddress := tt_contractAddress transfer;
            pt_from := tt_from transfer;
            pt_to := tt_to transfer;
            pt_tokenId := None;
            pt_value := Some (tt_value transfer);
            pt_transactionHash := tt_hash transfer;
            pt_blockNumber := tt_blockNumber transfer;
            pt_timestamp := tt_timeStamp transfer;
            pt_tokenMetadata :=
              Some {| eti_address := tt_contractAddress transfer;
                      eti_name := tt_tokenName transfer;
                      eti_symbol := tt_tokenSymbol transfer;
                      eti_decimals := tt_tokenDecimal transfer;
                      eti_totalSupply := "0";
                      eti_owner := "";
                      eti_txsCount := "0";
                      eti_transfersCount := "0";
                      eti_lastUpdated := "" |} |})
      transfers.

(** [parseERC721Transfers(transfers)] *)
Definition parseERC721Transfers (transfers : list ERC721Transfer)
  : list ParsedTokenTransfer :=
  map (fun transfer =>
         {| pt_standard := ERC721;
            pt_contractAddress := nft_contractAddress transfer;
            pt_from := nft_from transfer;
            pt_to := nft_to transfer;
            pt_tokenId := Some (nft_tokenID transfer);
            pt_value := None;
            pt_transactionHash := nft_hash transfer;
            pt_blockNumber := nft_blockNumber transfer;
            pt_timestamp := nft_timeStamp transfer;
            pt_tokenMetadata :=
              Some {| eti_address := nft_contractAddress transfer;
                      eti_name := nft_tokenName transfer;
                      eti_symbol := nft_tokenSymbol transfer;
                      eti_decimals := nft_tokenDecimal transfer;
                      eti_totalSupply := "0";
                      eti_owner := "";
                      eti_txsCount := "0";
                      eti_transfersCount := "0";
                      eti_lastUpdated := "" |} |})
      transfers.

(** [parseERC1155Transfers(transfers)] *)
Definition parseERC1155Transfers (transfers : list ERC1155Transfer)
  : list ParsedTokenTransfer :=
  map (fun transfer =>
         {| pt_standard := ERC1155;
            pt_contractAddress := mt_contractAddress transfer;
            pt_from := mt_from transfer;
            pt_to := mt_to transfer;
            pt_tokenId := Some (mt_tokenID transfer);
            pt_value := Some (mt_tokenValue transfer);
            pt_transactionHash := mt_hash transfer;
            pt_blockNumber := mt_blockNumber transfer;
            pt_timestamp := mt_timeStamp transfer;
            pt_tokenMetadata :=
              Some {| eti_address := mt_contractAddress transfer;
                      eti_name := mt_tokenName transfer;
                      eti_symbol := mt_tokenSymbol transfer;
                      eti_decimals := "0";
                      eti_totalSupply := "0";
                      eti_owner := "";
                      eti_txsCount := "0";
                      eti_transfersCount := "0";
                      eti_lastUpdated := "" |} |})
      transfers.

(** [groupTransfersByContract(transfers)] *)
Definition groupTransfersByContract (transfers : list ParsedTokenTransfer)
  : list (string * list ParsedTokenTransfer) :=
  groupBy pt_contractAddress transfers.

(** [`${transfer.contractAddress}-${transfer.tokenId || 'ERC20'}`] *)
Definition tokenKey (transfer : ParsedTokenTransfer) : string :=
  pt_contractAddress transfer +:+ "-"
  +:+ match pt_tokenId transfer with
      | Some tokenId => orElse tokenId "ERC20"
      | None => "ERC20"
      end.

(** The map [uniqueTokens] that [getUniqueTokens] fills. *)
Definition uniqueMap (transfers : list ParsedTokenTransfer)
  : list (string * ParsedTokenTransfer) :=
  fold_left (fun uniqueTokens transfer =>
               let key := tokenKey transfer in
               if JsMap.has key uniqueTokens then uniqueTokens
               else JsMap.set key transfer uniqueTokens)
            transfers [].

(** [getUniqueTokens(transfers)] *)
Definition getUniqueTokens (transfers : list ParsedTokenTransfer)
  : list ParsedTokenTransfer :=
  JsMap.values (uniqueMap transfers).

Section Totals.
(** [parseInt(s)]: an integer, or [None] for NaN.  [BigInt(s)]: an
    integer, or the SyntaxError thrown for a string that is not an
    integer literal. *)
Variable parseInt : string -> option Z.
Variable BigInt : string -> Thrown + Z.

(** One round of the loop of [calculateTotalValue]. *)
Definition totalStep (totals : list (string * TokenTotal))
           (transfer : ParsedTokenTransfer) : Thrown + list (string * TokenTotal) :=
  match pt_standard transfer, pt_value transfer, pt_tokenMetadata transfer with
  | ERC20, Some transferValueText, Some tokenMetadata_ =>
      if String.eqb transferValueText "" then inr totals
      else
        let contractAddress := pt_contractAddress transfer in
        let decimals_ := default 0 (parseInt (eti_decimals tokenMetadata_)) in
        let symbol_ := orElse (eti_symbol tokenMetadata_) "UNKNOWN" in
        let totals1 :=
          if JsMap.has contractAddress totals then totals
          else JsMap.set contractAddress
                 {| total_value := "0"; total_decimals := decimals_;
                    total_symbol := symbol_ |} totals in
        match JsMap.get contractAddress totals1 with
        | Some current =>
            match BigInt (total_value current) with
            | inl e => inl e
            | inr currentValue =>
                match BigInt transferValueText with
                | inl e => inl e
                | inr transferValue =>
                    let newValue := currentValue + transferValue in
                    inr (JsMap.set contractAddress
                           {| total_value := pretty newValue;
                              total_decimals := decimals_;
                              total_symbol := symbol_ |} totals1)
                end
            end
        | None => inr totals1
        end
  | _, _, _ => inr totals
  end.

Fixpoint totalLoop (transfers : list ParsedTokenTransfer)
         (totals : list (string * TokenTotal)) : Thrown + list (string * TokenTotal) :=
  match transfers with
  | [] => inr totals
  | transfer :: rest =>
      match totalStep totals transfer with
      | inl e => inl e
      | inr totals' => totalLoop rest totals'
      end
  end.

(** [calculateTotalValue(transfers)] *)
Definition calculateTotalValue (transfers : list ParsedTokenTransfer)
  : Thrown + list (string * TokenTotal) :=
  totalLoop transfers [].

(** What the totals should hold, for stating it: a transfer counts for
    [contractAddress] when it is an ERC-20 transfer of that contract
    with a value and metadata; the total is the sum of the counted
    values, with the decimals and symbol of the last counted
    transfer. *)
Definition countsFor (contractAddress : string) (transfer : ParsedTokenTransfer) : bool :=
  match pt_standard transfer, pt_value transfer, pt_tokenMetadata transfer with
  | ERC20, Some transferValueText, Some _ =>
      negb (String.eqb transferValueText "")
      && String.eqb (pt_contractAddress transfer) contractAddress
  | _, _, _ => false
  end.

Definition valueOf (transfer : ParsedTokenTransfer) : Z :=
  match pt_value transfer with
  | Some transferValueText =>
      match BigInt transferValueText with
      | inr transferValue => transferValue
      | inl _ => 0
      end
  | None => 0
  end.

Definition sumOfValues (transfers : list ParsedTokenTransfer) : Z :=
  foldr (fun transfer total => valueOf transfer + total) 0 transfers.

Definition expectedTotal (contractAddress : string)
           (transfers : list ParsedTokenTransfer) : option TokenTotal :=
  let counted := List.filter (countsFor contractAddress) transfers in
  match list.last counted with
  | Some latest =>
      match pt_tokenMetadata latest with
      | Some tokenMetadata_ =>
          Some {| total_value := pretty (sumOfValues counted);
                  total_decimals := default 0 (parseInt (eti_decimals tokenMetadata_));
                  total_symbol := orElse (eti_symbol tokenMetadata_) "UNKNOWN" |}
      | None => None
      end
  | None => None
  end.

End Totals.

Section Metadata.
(** [etherscanClient.getTokenInfo], the one method of the client the
    parser calls. *)
Variable getTokenInfo : string -> M ExplorerTokenInfo.

(** [getTokenMetadata(contractAddress)], on the parser's cache: the
    metadata (or [null]) and the cache afterwards.  The warning the
    handler prints is console output, which is not recorded. *)
Definition getTokenMetadata (contractAddress : string)
           (tokenMetadataCache : gmap string ExplorerTokenInfo)
  : M (option ExplorerTokenInfo * gmap string ExplorerTokenInfo) :=
  match tokenMetadataCache !! contractAddress with
  | Some cached => ret (Some cached, tokenMetadataCache)
  | None =>
      tryCatch
        (tokenInfo_ <- getTokenInfo contractAddress ;;
         ret (Some tokenInfo_, <[contractAddress := tokenInfo_]> tokenMetadataCache))
        (fun error_ => ret (None, tokenMetadataCache))
  end.

(** The lookups started by [Promise.all], taken in array order.  The
    addresses are distinct, so no lookup reads a cache entry that
    another one writes. *)
Fixpoint fetchMetadata (contracts : list string)
         (tokenMetadataCache : gmap string ExplorerTokenInfo)
  : M (list (string * option ExplorerTokenInfo) * gmap string ExplorerTokenInfo) :=
  match contracts with
  | [] => ret ([], tokenMetadataCache)
  | contractAddress :: rest =>
      looked <- getTokenMetadata contractAddress tokenMetadataCache ;;
      fetched <- fetchMetadata rest (snd looked) ;;
      ret ((contractAddress, fst looked) :: fst fetched, snd fetched)
  end.

(** [{ ...transfer, tokenMetadata: metadata }] *)
Definition withTokenMetadata (transfer : ParsedTokenTransfer)
           (metadata_ : ExplorerTokenInfo) : ParsedTokenTransfer :=
  {| pt_standard := pt_standard transfer;
     pt_contractAddress := pt_contractAddress transfer;
     pt_from := pt_from transfer;
     pt_to := pt_to transfer;
     pt_tokenId := pt_tokenId transfer;
     pt_value := pt_value transfer;
     pt_transactionHash := pt_transactionHash transfer;
     pt_blockNumber := pt_blockNumber transfer;
     pt_timestamp := pt_timestamp transfer;
     pt_tokenMetadata := Some metadata_ |}.

(** The loop of [enhanceTransfersWithMetadata] over one transfer. *)
Definition enhance (metadataMap : list (string * option ExplorerTokenInfo))
           (transfer : ParsedTokenTransfer) : ParsedTokenTransfer :=
  match JsMap.get (pt_contractAddress transfer) metadataMap with
  | Some (Some metadata_) => withTokenMetadata transfer metadata_
  | _ => transfer
  end.

(** A transfer with the metadata a cache holds for its contract, or as
    it is when the cache holds none. *)
Definition withCached (tokenMetadataCache : gmap string ExplorerTokenInfo)
           (transfer : ParsedTokenTransfer) : ParsedTokenTransfer :=
  match tokenMetadataCache !! pt_contractAddress transfer with
  | Some metadata_ => withTokenMetadata transfer metadata_
  | None => transfer
  end.

(** [enhanceTransfersWithMetadata(transfers)] *)
Definition enhanceTransfersWithMetadata (transfers : list ParsedTokenTransfer)
           (tokenMetadataCache : gmap string ExplorerTokenInfo)
  : M (list ParsedTokenTransfer * gmap string ExplorerTokenInfo) :=
  let uniqueContracts := JsSet.fromList (map pt_contractAddress transfers) in
  fetched <- fetchMetadata uniqueContracts tokenMetadataCache ;;
  let metadataMap := JsMap.fromEntries (fst fetched) in
  ret (map (enhance metadataMap) transfers, snd fetched).

(** [parseAllTokenTransfers(erc20, erc721, erc1155, enhanceWithMetadata)] *)
Definition parseAllTokenTransfers (erc20Transfers : list TokenTransfer)
           (erc721Transfers : list ERC721Transfer)
           (erc1155Transfers : list ERC1155Transfer) (enhanceWithMetadata : bool)
           (tokenMetadataCache : gmap string ExplorerTokenInfo)
  : M (list ParsedTokenTransfer * gmap string ExplorerTokenInfo) :=
  let allTransfers :=
    parseERC20Transfers erc20Transfers
    ++ parseERC721Transfers erc721Transfers
    ++ parseERC1155Transfers erc1155Transfers in
  if enhanceWithMetadata then enhanceTransfersWithMetadata allTransfers tokenMetadataCache
  else ret (allTransfers, tokenMetadataCache).

(** [clearCache()] *)
Definition clearCache (tokenMetadataCache : gmap string ExplorerTokenInfo)
  : gmap string ExplorerTokenInfo := ∅.

End Metadata.

End TokenParser.

(** ** TransactionFilterService ([services/transaction-filter.ts]) *)

(** More explorer records, with the properties the filter reads. *)
Record Transaction := mkTransaction {
  txn_hash : string;
  txn_from : string;
  txn_to : string;
  txn_timeStamp : string
}.

Record InternalTransaction := mkInternalTransaction {
  itx_hash : string;
  itx_from : string;
  itx_to : string;
  itx_timeStamp : string
}.

(** [TransactionFilter]: dates are milliseconds since the epoch
    ([getTime()]); an absent flag is [false]. *)
Record TransactionFilter := mkTransactionFilter {
  tf_address : string;
  tf_startDate : Z;
  tf_endDate : Z;
  tf_includeInternal : bool;
  tf_includeTokenTransfers : bool;
  tf_includeERC721 : bool;
  tf_includeERC1155 : bool;
  tf_incomingOnly : bool;
  tf_outgoingOnly : bool
}.

Record FilteredTransactionResult := mkFiltered {
  fr_transaction : Transaction;
  fr_internalTransactions : list InternalTransaction;
  fr_tokenTransfers : list ParsedTokenTransfer;
  fr_erc721Transfers : list ParsedTokenTransfer;
  fr_erc1155Transfers : list ParsedTokenTransfer;
  fr_tokenMetadata : list (string * ExplorerTokenInfo)
}.

Record FilterSummary := mkFilterSummary {
  fs_totalTransactions : Z;
  fs_totalInternalTransactions : Z;
  fs_totalTokenTransfers : Z;
  fs_totalERC721Transfers : Z;
  fs_totalERC1155Transfers : Z;
  fs_uniqueTokens : Z;
  fs_dateRangeStart : string;
  fs_dateRangeEnd : string;
  fs_walletAddress : string
}.

Record FilterResult := mkFilterResult {
  res_transactions : list FilteredTransactionResult;
  res_summary : FilterSummary;
  res_generatedAt : string;
  res_apiCalls : Z;
  res_processingTimeMs : Z
}.

(** The methods of [EtherscanClient] the filter calls, with the types the
    client declares for them. *)
Record Client := mkClient {
  client_getTransactions :
    string -> Z -> Z -> Z -> Z -> string -> M (list Transaction);
  client_getInternalTransactions :
    string -> Z -> Z -> Z -> Z -> string -> M (list InternalTransaction);
  client_getTokenTransfers :
    string -> option string -> Z -> Z -> Z -> Z -> string -> M (list TokenTransfer);
  client_getERC721Transfers :
    string -> option string -> Z -> Z -> Z -> Z -> string -> M (list ERC721Transfer);
  client_getERC1155Transfers :
    string -> option string -> Z -> Z -> Z -> Z -> string -> M (list ERC1155Transfer);
  client_getTokenInfo : string -> M ExplorerTokenInfo
}.

(** [s.toLowerCase()], on ASCII *)
Definition toLowerCase (s : string) : string := mapChars lowerAscii s.

Module TransactionFilterService.

Section Direction.
Context {T : Type}.
Variables itemFrom itemTo : T -> string.

(** [applyDirectionFilter(items, filter)] *)
Definition applyDirectionFilter (items : list T) (filter : TransactionFilter) : list T :=
  if negb (tf_incomingOnly filter) && negb (tf_outgoingOnly filter) then items
  else
    List.filter
      (fun item =>
         if tf_incomingOnly filter then
           String.eqb (toLowerCase (itemTo item)) (toLowerCase (tf_address filter))
         else if tf_outgoingOnly filter then
           String.eqb (toLowerCase (itemFrom item)) (toLowerCase (tf_address filter))
         else true)
      items.

End Direction.

Section Pagination.
Context {T : Type}.
(** The client method with everything but the page fixed; the page
    size is the constant 10000. *)
Variable getPage : Z -> M (list T).

(** The [while (true)] loop shared by the five [fetchAll...] methods,
    one page per unit of fuel. *)
Fixpoint fetchLoop (fuel : nat) (page : Z) (all : list T) : M (list T) :=
  match fuel with
  | O => hang
  | S fuel' =>
      transactions <- getPage page ;;
      if (length transactions =? 0)%nat then ret all
      else
        let all' := all ++ transactions in
        if Z.of_nat (length transactions) <? 10000 then ret all'
        else fetchLoop fuel' (page + 1) all'
  end.

End Pagination.

(** [groupTransfersByTransactionHash(transfers)] *)
Definition groupTransfersByTransactionHash (transfers : list ParsedTokenTransfer)
  : list (string * list ParsedTokenTransfer) :=
  groupBy pt_transactionHash transfers.

(** [groupInternalTransactionsByHash(transactions)] *)
Definition groupInternalTransactionsByHash (transactions : list InternalTransaction)
  : list (string * list InternalTransaction) :=
  groupBy itx_hash transactions.

Section Service.
Variable env : Env.
Variable client : Client.
Variable parseInt : string -> option Z.          (* None: NaN *)
Variable BigInt : string -> Thrown + Z.
Variable toISOString : Z -> string.              (* of a valid date *)

(** The five [fetchAll...] methods; [fuel] bounds the number of pages. *)
Definition fetchAllTransactions (fuel : nat) (address_ : string)
           (startBlock endBlock : Z) : M (list Transaction) :=
  fetchLoop (fun page => client_getTransactions client address_ startBlock endBlock
                           page 10000 "desc")
            fuel 1 [].

Definition fetchAllInternalTransactions (fuel : nat) (address_ : string)
           (startBlock endBlock : Z) : M (list InternalTransaction) :=
  fetchLoop (fun page => client_getInternalTransactions client address_ startBlock
                           endBlock page 10000 "desc")
            fuel 1 [].

Definition fetchAllTokenTransfers (fuel : nat) (address_ : string)
           (startBlock endBlock : Z) : M (list TokenTransfer) :=
  fetchLoop (fun page => client_getTokenTransfers client address_ None startBlock
                           endBlock page 10000 "desc")
            fuel 1 [].

Definition fetchAllERC721Transfers (fuel : nat) (address_ : string)
           (startBlock endBlock : Z) : M (list ERC721Transfer) :=
  fetchLoop (fun page => client_getERC721Transfers client address_ None startBlock
                           endBlock page 10000 "desc")
            fuel 1 [].

Definition fetchAllERC1155Transfers (fuel : nat) (address_ : string)
           (startBlock endBlock : Z) : M (list ERC1155Transfer) :=
  fetchLoop (fun page => client_getERC1155Transfers client address_ None startBlock
                           endBlock page 10000 "desc")
            fuel 1 [].

(** [parseInt(ts) >= start && parseInt(ts) <= end]; a comparison with
    NaN is false. *)
Definition inWindow (startTimestamp endTimestamp : Z) (timeStamp : string) : bool :=
  match parseInt timeStamp with
  | Some txTimestamp => (startTimestamp <=? txTimestamp) && (txTimestamp <=? endTimestamp)
  | None => false
  end.

(** [filterTransactions(filter)], on the parser's cache.  The five
    fetches of [Promise.all] are taken in array order. *)
Definition filterTransactions (fuel : nat) (filter : TransactionFilter)
           (tokenMetadataCache : gmap string ExplorerTokenInfo)
  : M (FilterResult * gmap string ExplorerTokenInfo) :=
  startTime <- BatchTokenSender.dateNow env ;;
  let startTimestamp := tf_startDate filter / 1000 in
  let endTimestamp := tf_endDate filter / 1000 in
  let startBlock := 0 in
  let endBlock := 99999999 in
  transactions <- fetchAllTransactions fuel (tf_address filter) startBlock endBlock ;;
  internalTransactions <-
    (if tf_includeInternal filter
     then fetchAllInternalTransactions fuel (tf_address filter) startBlock endBlock
     else ret []) ;;
  tokenTransfers <-
    (if tf_includeTokenTransfers filter
     then fetchAllTokenTransfers fuel (tf_address filter) startBlock endBlock
     else ret []) ;;
  erc721Transfers <-
    (if tf_includeERC721 filter
     then fetchAllERC721Transfers fuel (tf_address filter) startBlock endBlock
     else ret []) ;;
  erc1155Transfers <-
    (if tf_includeERC1155 filter
     then fetchAllERC1155Transfers fuel (tf_address filter) startBlock endBlock
     else ret []) ;;
  let filteredTransactions :=
    List.filter (fun tx => inWindow startTimestamp endTimestamp (txn_timeStamp tx))
                transactions in
  let filteredInternalTransactions :=
    List.filter (fun tx => inWindow startTimestamp endTimestamp (itx_timeStamp tx))
                internalTransactions in
  let filteredTokenTransfers :=
    List.filter (fun tx => inWindow startTimestamp endTimestamp (tt_timeStamp tx))
                tokenTransfers in
  let filteredERC721Transfers :=
    List.filter (fun tx => inWindow startTimestamp endTimestamp (nft_timeStamp tx))
                erc721Transfers in
  let filteredERC1155Transfers :=
    List.filter (fun tx => inWindow startTimestamp endTimestamp (mt_timeStamp tx))
                erc1155Transfers in
  let finalFilteredTransactions :=
    applyDirectionFilter txn_from txn_to filteredTransactions filter in
  let finalFilteredInternalTransactions :=
    applyDirectionFilter itx_from itx_to filteredInternalTransactions filter in
  let finalFilteredTokenTransfers :=
    applyDirectionFilter tt_from tt_to filteredTokenTransfers filter in
  let finalFilteredERC721Transfers :=
    applyDirectionFilter nft_from nft_to filteredERC721Transfers filter in
  let finalFilteredERC1155Transfers :=
    applyDirectionFilter mt_from mt_to filteredERC1155Transfers filter in
  parsed <- TokenParser.parseAllTokenTransfers (client_getTokenInfo client)
              finalFilteredTokenTransfers finalFilteredERC721Transfers
              finalFilteredERC1155Transfers true tokenMetadataCache ;;
  let parsedTokenTransfers := fst parsed in
  let transfersByTxHash := groupTransfersByTransactionHash parsedTokenTransfers in
  let internalByTxHash :=
    groupInternalTransactionsByHash finalFilteredInternalTransactions in
  let filteredResults :=
    map (fun tx =>
           {| fr_transaction := tx;
              fr_internalTransactions :=
                default [] (JsMap.get (txn_hash tx) internalByTxHash);
              fr_tokenTransfers :=
                default [] (JsMap.get (txn_hash tx) transfersByTxHash);
              fr_erc721Transfers := [];
              fr_erc1155Transfers := [];
              fr_tokenMetadata := [] |})
        finalFilteredTransactions in
  let uniqueTokens := TokenParser.getUniqueTokens parsedTokenTransfers in
  totalValueByToken <-
    settle (TokenParser.calculateTotalValue parseInt BigInt parsedTokenTransfers) ;;
  finish <- BatchTokenSender.dateNow env ;;
  let processingTime := finish - startTime in
  apiCalls <- EtherscanClient.getApiCallCount ;;
  generatedAt <- BatchTokenSender.now env ;;
  ret ({| res_transactions := filteredResults;
          res_summary :=
            {| fs_totalTransactions := Z.of_nat (length finalFilteredTransactions);
               fs_totalInternalTransactions :=
                 Z.of_nat (length finalFilteredInternalTransactions);
               fs_totalTokenTransfers := Z.of_nat (length finalFilteredTokenTransfers);
               fs_totalERC721Transfers := Z.of_nat (length finalFilteredERC721Transfers);
               fs_totalERC1155Transfers :=
                 Z.of_nat (length finalFilteredERC1155Transfers);
               fs_uniqueTokens := Z.of_nat (length uniqueTokens);
               fs_dateRangeStart := toISOString (tf_startDate filter);
               fs_dateRangeEnd := toISOString (tf_endDate filter);
               fs_walletAddress := tf_address filter |};
          res_generatedAt := generatedAt;
          res_apiCalls := apiCalls;
          res_processingTimeMs := processingTime |},
       snd parsed).

(** What the filter asks of a record, for stating it: a timestamp that
    reads as a number of seconds inside the date range, and the
    direction asked for, compared without regard to letter case. *)
Definition inScope (filter : TransactionFilter) (timeStamp sender receiver : string)
  : Prop :=
  (exists seconds,
      parseInt timeStamp = Some seconds
      /\ tf_startDate filter / 1000 <= seconds <= tf_endDate filter / 1000)
  /\ (tf_incomingOnly filter = true ->
      toLowerCase receiver = toLowerCase (tf_address filter))
  /\ (tf_incomingOnly filter = false -> tf_outgoingOnly filter = true ->
      toLowerCase sender = toLowerCase (tf_address filter)).

End Service.

End TransactionFilterService.

(** ** OutputManager ([services/output-manager.ts]) *)

Module OutputManager.

(** [s.padStart(targetLength, '0')] *)
Definition padStartZeros (targetLength : nat) (s : string) : string :=
  repeatString "0" (targetLength - String.length s) +:+ s.

(** [s.replace(/0+$/, '')] *)
Fixpoint trimTrailingZeros (s : string) : string :=
  match s with
  | EmptyString => EmptyString
  | String c rest =>
      match trimTrailingZeros rest with
      | EmptyString => if Ascii.eqb c "0" then EmptyString else String c EmptyString
      | trimmed => String c trimmed
      end
  end.

Section Format.
(** [BigInt(s)] on a string, and [BigInt(10 ** decimals)], whose
    argument is a double: exact up to 10^22, rounded beyond, and not an
    integer (a RangeError) for a negative exponent. *)
Variable BigInt : string -> Thrown + Z.
Variable BigIntPow10 : Z -> Thrown + Z.

(** [formatTokenValue(value, decimals)] *)
Definition formatTokenValue (value : string) (decimals_ : Z) : Thrown + string :=
  match BigInt value with
  | inl e => inl e
  | inr valueBigInt =>
      match BigIntPow10 decimals_ with
      | inl e => inl e
      | inr divisor =>
          if divisor =? 0 then inl (JsError "Division by zero")
          else
            let wholePart := Z.quot valueBigInt divisor in
            let remainder := Z.rem valueBigInt divisor in
            if remainder =? 0 then inr (pretty wholePart)
            else
              let remainderStr :=
                padStartZeros (Z.to_nat decimals_) (pretty remainder) in
              let trimmedRemainder := trimTrailingZeros remainderStr in
              if String.eqb trimmedRemainder "" then inr (pretty wholePart)
              else inr (pretty wholePart +:+ "." +:+ trimmedRemainder)
      end
  end.

End Format.

End OutputManager.

(** ** Reading decimal notation

    The inverse of the formatting above, for stating what it produces. *)

Definition digitOf (c : ascii) : option Z :=
  let n := nat_of_ascii c in
  if ((48 <=? n) && (n <=? 57))%nat then Some (Z.of_nat (n - 48)) else None.

Fixpoint readDigits (s : string) (acc : Z) : option Z :=
  match s with
  | EmptyString => Some acc
  | String c s' =>
      match digitOf c with
      | Some d => readDigits s' (10 * acc + d)
      | None => None
      end
  end.

(** The text before the first ['.'], and the text after it if there is
    one. *)
Fixpoint splitAtDot (s : string) : string * option string :=
  match s with
  | EmptyString => (EmptyString, None)
  | String c s' =>
      if Ascii.eqb c "." then (EmptyString, Some s')
      else let '(whole, fraction) := splitAtDot s' in (String c whole, fraction)
  end.

(** The number of smallest units that [text] denotes for a token with
    [decimals_] decimals: ["12.5"] with 3 decimals is 12500. *)
Definition readDecimal (text : string) (decimals_ : Z) : option Z :=
  match splitAtDot text with
  | (whole, None) =>
      match whole with
      | EmptyString => None
      | _ => option_map (fun w => w * 10 ^ decimals_) (readDigits whole 0)
      end
  | (whole, Some fraction) =>
      match whole, readDigits whole 0, readDigits fraction 0 with
      | String _ _, Some w, Some f =>
          let places := Z.of_nat (String.length fraction) in
          if (1 <=? places) && (places <=? decimals_)
          then Some (w * 10 ^ decimals_ + f * 10 ^ (decimals_ - places))
          else None
      | _, _, _ => None
      end
  end.

(** ** Observations on traces *)

(** The nonces announced by the transfer lines of a trace, in order. *)
Fixpoint lineNonces (tr : Trace) : list Z :=
  match tr with
  | [] => []
  | EvTransferLine _ _ nonce :: tr' => nonce :: lineNonces tr'
  | _ :: tr' => lineNonces tr'
  end.

(** The nonces of the transactions broadcast in a trace, in order. *)
Fixpoint sentNonces (tr : Trace) : list Z :=
  match tr with
  | [] => []
  | EvSendTransaction tx :: tr' => tx_nonce tx :: sentNonces tr'
  | _ :: tr' => sentNonces tr'
  end.

Definition isNonceRead (e : Event) : bool :=
  match e with EvGetTransactionCount => true | _ => false end.

(** The announced nonces of a trace, batch by batch: the lines before the
    first read of the account nonce, and then one list per read, holding the
    lines up to the next read. *)
Fixpoint splitLines (tr : Trace) : list Z * list (list Z) :=
  match tr with
  | [] => ([], [])
  | e :: tr' =>
      let '(open, batches) := splitLines tr' in
      match e with
      | EvGetTransactionCount => ([], open :: batches)
      | EvTransferLine _ _ nonce => (nonce :: open, batches)
      | _ => (open, batches)
      end
  end.

(** The nonce each transfer of a batch must carry, given the batch's
    starting nonce and the outcomes in submission order: a success moves
    the counter on by one, a failure leaves it. *)
Fixpoint expectedNonces (nonce : Z) (outcomes : list TransferResult) : list Z :=
  match outcomes with
  | [] => []
  | o :: outcomes' =>
      nonce :: expectedNonces (if isSuccess o then nonce + 1 else nonce) outcomes'
  end.

(** Every broadcast in the trace carries the nonce announced by the
    transfer line before it; [current] is the nonce announced last. *)
Fixpoint sendsFollowLines (current : option Z) (tr : Trace) : Prop :=
  match tr with
  | [] => True
  | EvTransferLine _ _ nonce :: tr' => sendsFollowLines (Some nonce) tr'
  | EvSendTransaction tx :: tr' =>
      current = Some (tx_nonce tx) /\ sendsFollowLines current tr'
  | _ :: tr' => sendsFollowLines current tr'
  end.

(** The pauses of a trace, in order. *)
Fixpoint sleeps (tr : Trace) : list double :=
  match tr with
  | [] => []
  | EvSleep ms :: tr' => ms :: sleeps tr'
  | _ :: tr' => sleeps tr'
  end.

(** The delays the retry executor sleeps after the failed attempts
    [attempt], ..., [attempt + n - 1]. *)
Definition delaysFrom (Math_pow : double -> double -> double) (config : RetryConfig)
           (attempt : Z) (n : nat) : list double :=
  map (fun k => RetryUtil.calculateDelay Math_pow config (attempt + Z.of_nat k)) (seq 0 n).

Definition isHttpGet (e : Event) : bool :=
  match e with EvHttpGet _ _ => true | _ => false end.
(** Number of GET requests sent to the explorer. *)
Definition gets (s : State) : Z := Z.of_nat (countEv isHttpGet (trace s)).

Definition isWarn (e : Event) : bool :=
  match e with EvWarn _ _ _ => true | _ => false end.
Definition isWait (e : Event) : bool :=
  match e with EvWait _ => true | _ => false end.
Definition isWriteFile (e : Event) : bool :=
  match e with EvWriteFile _ => true | _ => false end.

Definition isEstimateGas (e : Event) : bool :=
  match e with EvEstimateGas _ _ => true | _ => false end.
Definition isRetryStep (e : Event) : bool :=
  match e with EvWarn _ _ _ | EvSleep _ => true | _ => false end.
Definition isTransferLine (e : Event) : bool :=
  match e with EvTransferLine _ _ _ => true | _ => false end.

(** What one transfer carrying [nonce] may add to the trace, retries
    included: chain reads, warnings, sleeps, and broadcasts of transactions
    with that nonce. *)
Definition attemptEvent (nonce : Z) (e : Event) : Prop :=
  match e with
  | EvTokenMeta | EvEstimateGas _ _ | EvGetFeeData | EvPopulate _ _ | EvWait _
  | EvWarn _ _ _ | EvSleep _ => True
  | EvSendTransaction tx => tx_nonce tx = nonce
  | _ => False
  end.

(** What a dry run may add to the trace: anything but a broadcast or a
    wait for a receipt. *)
Definition dryRunEvent (e : Event) : Prop :=
  match e with
  | EvSendTransaction _ | EvWait _ => False
  | _ => True
  end.

(** What the retry executor itself adds to the trace. *)
Definition retryStepEvent (e : Event) : Prop :=
  match e with
  | EvWarn _ _ _ | EvSleep _ => True
  | _ => False
  end.

(** A recipient as an input file spells it, with the amount under
    ["amount"] or under ["value"]:
    [{"address": "0x...", "amount": "100"}]. *)
Definition recipientItem (amountKey : string) (r : BatchRecipient) : JSON :=
  JObj [ ("address", JStr (address r)); (amountKey, JStr (amount r)) ].

(** What the checks before a batch may add to the trace: reads of the
    chain, and nothing else. *)
Definition preflightEvent (e : Event) : Prop :=
  match e with
  | EvTokenMeta | EvGetBalance | EvBalanceOf | EvEstimateGas _ _ | EvGetFeeData => True
  | _ => False
  end.

(** ** A concrete runtime and a concrete world

    Used to run the engine on examples.  Numbers are exact rationals with a
    NaN; this agrees with IEEE doubles as long as every value met is an
    integer of moderate size, which is all the examples use.  Addresses are
    normalised by lower-casing their hexadecimal digits, a stand-in for the
    EIP-55 checksum with the one property that matters here: two spellings
    of one address that differ only in letter case share a normal form. *)

Module Demo.

Definition digitValue (c : ascii) : option Z :=
  let n := nat_of_ascii c in
  if ((48 <=? n) && (n <=? 57))%nat then Some (Z.of_nat (n - 48)) else None.

Fixpoint parseDigits (s : string) (acc : Z) : option Z :=
  match s with
  | EmptyString => Some acc
  | String c s' =>
      match digitValue c with
      | Some d => parseDigits s' (10 * acc + d)
      | None => None
      end
  end.

(** A non-empty string of decimal digits, as an integer. *)
Definition parseNat (s : string) : option Z :=
  match s with
  | EmptyString => None
  | _ => parseDigits s 0
  end.

Definition isHexDigit (c : ascii) : bool :=
  let n := nat_of_ascii (lowerAscii c) in
  ((48 <=? n) && (n <=? 57) || (97 <=? n) && (n <=? 102))%nat.

Fixpoint allChars (p : ascii -> bool) (s : string) : bool :=
  match s with
  | EmptyString => true
  | String c s' => p c && allChars p s'
  end.

Definition demoIsAddress (s : string) : bool :=
  String.prefix "0x" s && (String.length s =? 42)%nat
  && allChars isHexDigit (String.substring 2 40 s).

(** A [Math.pow] for the examples: an integer power by repeated
    multiplication (its reciprocal for a negative exponent), which is
    exact as long as the power has at most 53 bits; NaN for any other
    exponent. *)
Fixpoint powNat (base : double) (n : nat) : double :=
  match n with
  | O => Double.ofZ 1
  | S n' => Double.mul base (powNat base n')
  end.

Definition powInt (base exponent : double) : double :=
  match exponent with
  | SpecFloat.S754_zero _ => Double.ofZ 1
  | SpecFloat.S754_finite negative _ _ =>
      let n := Double.floor exponent in
      if SpecFloat.SFeqb (Double.ofZ n) exponent then
        if negative then Double.div (Double.ofZ 1) (powNat base (Z.to_nat (- n)))
        else powNat base (Z.to_nat n)
      else Double.NaN
  | _ => Double.NaN
  end.

Definition runtime : Runtime :=
  {| number := option Q;
     parseFloat := fun s => option_map inject_Z (parseNat s);
     isNaN := fun x => match x with None => true | Some _ => false end;
     num_leb := fun a b => match a, b with
                           | Some x, Some y => Qle_bool x y
                           | _, _ => false
                           end;
     num_add := fun a b => match a, b with Some x, Some y => Some (x + y)%Q | _, _ => None end;
     num_mul := fun a b => match a, b with Some x, Some y => Some (x * y)%Q | _, _ => None end;
     num_div := fun a b => match a, b with
                           | Some x, Some y => if Qeq_bool y 0 then None else Some (x / y)%Q
                           | _, _ => None
                           end;
     num_ofZ := fun z => Some (inject_Z z);
     num_ofQ := fun q => Some q;
     num_toString := fun x => match x with
                              | None => "NaN"
                              | Some q => pretty (Qfloor q)
                              end;
     floorToBigInt := fun x => match x with
                               | None => inl (JsError "The number NaN cannot be converted to a BigInt because it is not an integer")
                               | Some q => inr (Qfloor q)
                               end;
     objectToString := fun _ => inr "[object Object]";
     JSON_stringify := fun _ => "{}";
     path_join := fun a b => a +:+ "/" +:+ b;
     isAddress := demoIsAddress;
     getAddress := mapChars lowerAscii;
     parseUnits := fun s d => match parseNat s with
                              | Some z => inr (z * 10 ^ d)
                              | None => inl (JsError "invalid FixedNumber string value")
                              end;
     formatUnits := fun v d => pretty v +:+ "e-" +:+ pretty d;
     Math_pow := powInt |}.

(** A runtime whose numbers are IEEE doubles, with [parseFloat] and
    [toString] as ECMAScript defines them and the decimal conversions of
    ethers: [parseUnits] accepts an optional sign, digits and an optional
    fraction of at most [decimals] significant places, and [formatUnits]
    writes the whole part, a point and the fraction without trailing
    zeros (at least one digit of it).  The errors carry the leading words
    of ethers' messages, which go on to name the offending argument. *)
Definition ethersParseUnits (value : string) (decimals_ : Z) : Thrown + Z :=
  let invalid := JsError "invalid FixedNumber string value" in
  let '(negative, unsigned) :=
    match value with
    | String c rest => if Ascii.eqb c "-" then (true, rest) else (false, value)
    | EmptyString => (false, value)
    end in
  let '(whole, wholeCount, rest) := Double.readDigitRun unsigned 0 0 in
  let '(fraction, fractionCount, rest') :=
    match rest with
    | String c afterPoint =>
        if Ascii.eqb c "." then Double.readDigitRun afterPoint 0 0 else (0, 0, rest)
    | EmptyString => (0, 0, rest)
    end in
  match rest' with
  | String _ _ => inl invalid
  | EmptyString =>
      if wholeCount + fractionCount =? 0 then inl invalid
      else
        let scaled :=
          if fractionCount <=? decimals_
          then Some (fraction * 10 ^ (decimals_ - fractionCount))
          else if fraction mod 10 ^ (fractionCount - decimals_) =? 0
               then Some (fraction / 10 ^ (fractionCount - decimals_))
               else None in
        match scaled with
        | Some f =>
            let magnitude := whole * 10 ^ decimals_ + f in
            inr (if negative then - magnitude else magnitude)
        | None => inl (JsError "too many decimals for format")
        end
  end.

Definition ethersFormatUnits (value : Z) (decimals_ : Z) : string :=
  let sign := if value <? 0 then "-" else "" in
  let magnitude := Z.abs value in
  if decimals_ <=? 0 then sign +:+ pretty magnitude
  else
    let fraction :=
      OutputManager.trimTrailingZeros
        (OutputManager.padStartZeros (Z.to_nat decimals_)
           (pretty (magnitude mod 10 ^ decimals_))) in
    sign +:+ pretty (magnitude / 10 ^ decimals_) +:+ "."
    +:+ (if String.eqb fraction "" then "0" else fraction).

Definition ieee : Runtime :=
  {| number := double;
     parseFloat := Double.parseFloat;
     isNaN := Double.isNaN;
     num_leb := Double.leb;
     num_add := Double.add;
     num_mul := Double.mul;
     num_div := Double.div;
     num_ofZ := Double.ofZ;
     num_ofQ := Double.ofQ;
     num_toString := Double.toString;
     floorToBigInt := fun x =>
       match x with
       | SpecFloat.S754_nan | SpecFloat.S754_infinity _ =>
           inl (JsError ("The number " +:+ Double.toString x
                         +:+ " cannot be converted to a BigInt because it is not an integer"))
       | _ => inr (Double.floor x)
       end;
     objectToString := objectToString runtime;
     JSON_stringify := JSON_stringify runtime;
     path_join := path_join runtime;
     isAddress := isAddress runtime;
     getAddress := getAddress runtime;
     parseUnits := ethersParseUnits;
     formatUnits := ethersFormatUnits;
     Math_pow := powInt |}.

(** The same runtime, formatting amounts in whole units (the fraction
    is dropped), so that a formatted balance reads back as a number. *)
Definition wholeUnits : Runtime :=
  {| number := number runtime;
     parseFloat := parseFloat runtime;
     isNaN := isNaN runtime;
     num_leb := num_leb runtime;
     num_add := num_add runtime;
     num_mul := num_mul runtime;
     num_div := num_div runtime;
     num_ofZ := num_ofZ runtime;
     num_ofQ := num_ofQ runtime;
     num_toString := num_toString runtime;
     floorToBigInt := floorToBigInt runtime;
     objectToString := objectToString runtime;
     JSON_stringify := JSON_stringify runtime;
     path_join := path_join runtime;
     isAddress := isAddress runtime;
     getAddress := getAddress runtime;
     parseUnits := parseUnits runtime;
     formatUnits := fun v d => pretty (v / 10 ^ d);
     Math_pow := Math_pow runtime |}.

(** A world in which the token has 18 decimals, the wallet holds
    [balance] token units, gas estimation reverts for the address
    [reverting], waiting for a receipt ends as [waitResult] says, and the
    account's pending nonce is 7 plus the transactions broadcast so far. *)
Definition world (balance : Z) (reverting : string) (waitResult : Thrown + Receipt) : Env :=
  {| walletAddress := "0x00000000000000000000000000000000000000aa";
     o_symbol := fun _ => inr "TKN";
     o_name := fun _ => inr "Token";
     o_decimals := fun _ => inr 18;
     o_totalSupply := fun _ => inr 1000000;
     o_getBalance := fun _ => inr (5 * 10 ^ 18);
     o_balanceOf := fun _ => inr balance;
     o_estimateGas := fun _ to _ =>
                        if String.eqb to reverting then inl (JsError "execution reverted")
                        else inr 50000;
     o_getFeeData := fun _ => inr {| fd_gasPrice := Some 30000000000;
                                     fd_maxFeePerGas := None;
                                     fd_maxPriorityFeePerGas := None |};
     o_populateTransaction := fun _ _ _ => inr tt;
     o_sendTransaction := fun _ tx => inr {| txr_hash := "0xhash" +:+ pretty (tx_nonce tx) |};
     o_wait := fun _ _ => waitResult;
     o_getTransactionCount := fun tr => inr (7 + Z.of_nat (countEv isSend tr));
     o_httpGet := fun _ _ _ _ =>
                    HttpResponse {| resp_status := "1"; resp_message := "OK";
                                    resp_result := JArr [] |};
     o_writeFile := fun _ _ => None;
     clockIso := fun _ => "2025-01-01T00:00:00.000Z";
     clockMs := fun _ => 0 |}.

Definition receipt : Receipt :=
  {| rc_hash := "0xmined"; rc_blockNumber := 100; rc_gasUsed := 48000 |}.

Definition alice : string := "0x00000000000000000000000000000000000000a1".
Definition bob : string := "0x00000000000000000000000000000000000000b2".
Definition carol : string := "0x00000000000000000000000000000000000000c3".
Definition aliceUpper : string := "0x00000000000000000000000000000000000000A1".

Definition threeRecipients : list BatchRecipient :=
  [ {| address := alice; amount := "100" |};
    {| address := bob; amount := "250" |};
    {| address := carol; amount := "75" |} ].

Definition liveConfig : EngineConfig :=
  BatchTokenSender.constructor
    {| tokenContract := "0x00000000000000000000000000000000000000ff";
       privateKey := "key"; rpcUrl := "http://localhost:8545";
       gasLimitMultiplier := None; bc_maxRetries := None; retryDelayMs := None;
       batchSize := None; dryRun := None |}.

(** The same sender with batches of two. *)
Definition smallBatches : EngineConfig :=
  BatchTokenSender.constructor
    {| tokenContract := "0x00000000000000000000000000000000000000ff";
       privateKey := "key"; rpcUrl := "http://localhost:8545";
       gasLimitMultiplier := None; bc_maxRetries := None; retryDelayMs := None;
       batchSize := Some 2; dryRun := None |}.

(** The same sender in dry-run mode. *)
Definition dryConfig : EngineConfig :=
  BatchTokenSender.constructor
    {| tokenContract := "0x00000000000000000000000000000000000000ff";
       privateKey := "key"; rpcUrl := "http://localhost:8545";
       gasLimitMultiplier := None; bc_maxRetries := None; retryDelayMs := None;
       batchSize := Some 2; dryRun := Some true |}.

Definition tokenFacts : TokenInfo :=
  {| ti_address := "0x00000000000000000000000000000000000000ff";
     symbol := "TKN"; name := "Token"; decimals := 18; totalSupply := "1000000" |}.

(** The policy and the mocks of the retry tests: an operation failing
    twice before it succeeds, and one that always fails with a message
    [isRetryableError] does not recognise. *)
Definition retry3 : RetryConfig :=
  {| maxRetries := 3; baseDelayMs := 100; maxDelayMs := 1000; backoffMultiplier := 2 |}.

Definition flaky (k : nat) : string + string :=
  match k with
  | O => inl "Network error"
  | S O => inl "Timeout"
  | _ => inr "success"
  end.

Definition alwaysFailing (k : nat) : string + string := inl "Invalid API key".

Definition rateLimited : Thrown := JsError "exceeded rate limit".

(** The failed outcome of a transfer to [bob]. *)
Definition bobFailed : TransferResult :=
  {| recipient := bob; tr_amount := "250"; status := failed;
     txHash := None; blockNumber := None; gasUsed := None; gasCostMatic := None;
     timestamp := Some "2025-01-01T00:00:00.000Z";
     error := Some "execution reverted"; attempts := None |}.

Definition tokenAddress : string := "0x00000000000000000000000000000000000000ff".

(** A world whose explorer refuses every request with HTTP 403. *)
Definition forbidden : Env :=
  {| walletAddress := "0x00000000000000000000000000000000000000aa";
     o_symbol := fun _ => inr "TKN";
     o_name := fun _ => inr "Token";
     o_decimals := fun _ => inr 18;
     o_totalSupply := fun _ => inr 1000000;
     o_getBalance := fun _ => inr 0;
     o_balanceOf := fun _ => inr 0;
     o_estimateGas := fun _ _ _ => inr 50000;
     o_getFeeData := fun _ => inr {| fd_gasPrice := None; fd_maxFeePerGas := None;
                                     fd_maxPriorityFeePerGas := None |};
     o_populateTransaction := fun _ _ _ => inr tt;
     o_sendTransaction := fun _ _ => inl (JsError "not connected");
     o_wait := fun _ _ => inl (JsError "not connected");
     o_getTransactionCount := fun _ => inr 0;
     o_httpGet := fun _ _ _ _ =>
                    HttpFailure (Some 403) (JsError "Request failed with status code 403");
     o_writeFile := fun _ _ => None;
     clockIso := fun _ => "2025-01-01T00:00:00.000Z";
     clockMs := fun _ => 0 |}.

(** Explorer answers: an application error, and the two ways of saying
    that there are no records. *)
Definition notOk : EtherscanResponse :=
  {| resp_status := "0"; resp_message := "NOTOK";
     resp_result := JStr "Max rate limit reached" |}.
Definition noTransactions : EtherscanResponse :=
  {| resp_status := "0"; resp_message := "No transactions found";
     resp_result := JArr [] |}.

(** A world whose explorer always answers [data]. *)
Definition explorer (data : EtherscanResponse) : Env :=
  {| walletAddress := walletAddress (world 0 bob (inr receipt));
     o_symbol := o_symbol (world 0 bob (inr receipt));
     o_name := o_name (world 0 bob (inr receipt));
     o_decimals := o_decimals (world 0 bob (inr receipt));
     o_totalSupply := o_totalSupply (world 0 bob (inr receipt));
     o_getBalance := o_getBalance (world 0 bob (inr receipt));
     o_balanceOf := o_balanceOf (world 0 bob (inr receipt));
     o_estimateGas := o_estimateGas (world 0 bob (inr receipt));
     o_getFeeData := o_getFeeData (world 0 bob (inr receipt));
     o_populateTransaction := o_populateTransaction (world 0 bob (inr receipt));
     o_sendTransaction := o_sendTransaction (world 0 bob (inr receipt));
     o_wait := o_wait (world 0 bob (inr receipt));
     o_getTransactionCount := o_getTransactionCount (world 0 bob (inr receipt));
     o_httpGet := fun _ _ _ _ => HttpResponse data;
     o_writeFile := o_writeFile (world 0 bob (inr receipt));
     clockIso := clockIso (world 0 bob (inr receipt));
     clockMs := clockMs (world 0 bob (inr receipt)) |}.

(** A queue of string-valued operations that was destroyed and then
    handed one more operation. *)
Definition orphaned : @RequestQueue.QueueState string :=
  {| RequestQueue.queue := [0%nat]; RequestQueue.activeRequests := 0;
     RequestQueue.intervalId := false; RequestQueue.inFlight := [];
     RequestQueue.settlements := []; RequestQueue.created := 1 |}.

(** The sender's state once the token information is cached. *)
Definition ready : State :=
  {| trace := []; tokenInfo := Some tokenFacts; apiCallCount := 0; files := [] |}.

(** [BigInt(s)] for a decimal literal with an optional minus sign; the
    empty string is [0n]. *)
Definition bigInt (s : string) : Thrown + Z :=
  let syntaxError := JsError ("Cannot convert " +:+ s +:+ " to a BigInt") in
  match s with
  | EmptyString => inr 0
  | String c rest =>
      if Ascii.eqb c "-" then
        match rest with
        | EmptyString => inl syntaxError
        | _ => match readDigits rest 0 with
               | Some z => inr (- z)
               | None => inl syntaxError
               end
        end
      else
        match readDigits s 0 with
        | Some z => inr z
        | None => inl syntaxError
        end
  end.

(** [BigInt(10 ** decimals)]: the exact power, which is what the double
    holds for the exponents from 0 to 22 that tokens use. *)
Definition bigIntPow10 (decimals_ : Z) : Thrown + Z :=
  if decimals_ <? 0
  then inl (JsError "The number cannot be converted to a BigInt because it is not an integer")
  else inr (10 ^ decimals_).

(** ERC-20 transfers as the explorer lists them: two of one token and one
    of another, in three transactions. *)
Definition otherToken : string := "0x00000000000000000000000000000000000000ee".

Definition transferOf (contract hash sender receiver value_ timeStamp_ symbol_ decimals_ : string)
  : TokenTransfer :=
  {| tt_contractAddress := contract; tt_from := sender; tt_to := receiver;
     tt_value := value_; tt_hash := hash; tt_blockNumber := "100";
     tt_timeStamp := timeStamp_; tt_tokenName := symbol_; tt_tokenSymbol := symbol_;
     tt_tokenDecimal := decimals_ |}.

Definition tokenTransfers : list TokenTransfer :=
  [ transferOf tokenAddress "0xh1" alice bob "100" "1700000000" "USDC" "6";
    transferOf otherToken "0xh2" bob alice "7" "1700000100" "DAI" "18";
    transferOf tokenAddress "0xh3" carol alice "250" "1700000200" "USDC" "6" ].

(** An explorer client that knows one token: each lookup is one request,
    answered for [tokenAddress] and failing for any other contract. *)
Definition usdcInfo : ExplorerTokenInfo :=
  {| eti_address := tokenAddress; eti_name := "USD Coin"; eti_symbol := "USDC";
     eti_decimals := "6"; eti_totalSupply := "1000000"; eti_owner := "";
     eti_txsCount := "12"; eti_transfersCount := "34"; eti_lastUpdated := "" |}.

Definition tokenInfoClient (contractAddress : string) : M ExplorerTokenInfo :=
  emit (EvHttpGet "token" "tokeninfo") ;;;
  if String.eqb contractAddress tokenAddress then ret usdcInfo
  else throw (JsError "NOTOK").

(** Explorer clients over fixed data.  Every method makes one counted
    request; [transactions] gives the normal transactions page by page,
    the token transfers all fit on the first page, and there is nothing
    else. *)
Definition transactionOf (hash sender receiver timeStamp_ : string) : Transaction :=
  {| txn_hash := hash; txn_from := sender; txn_to := receiver;
     txn_timeStamp := timeStamp_ |}.

Definition request (action : string) : M unit :=
  emit (EvHttpGet "account" action) ;;; EtherscanClient.incrementApiCallCount.

Definition clientOf (transactions : Z -> list Transaction)
           (transfers : list TokenTransfer) : Client :=
  {| client_getTransactions :=
       fun _ _ _ page _ _ => request "txlist" ;;; ret (transactions page);
     client_getInternalTransactions :=
       fun _ _ _ _ _ _ => request "txlistinternal" ;;; ret [];
     client_getTokenTransfers :=
       fun _ _ _ _ page _ _ =>
         request "tokentx" ;;; ret (if page =? 1 then transfers else []);
     client_getERC721Transfers :=
       fun _ _ _ _ _ _ _ => request "tokennfttx" ;;; ret [];
     client_getERC1155Transfers :=
       fun _ _ _ _ _ _ _ => request "token1155tx" ;;; ret [];
     client_getTokenInfo := tokenInfoClient |}.

Definition aTransaction : Transaction := transactionOf "0xh0" alice bob "1700000000".

(** One full page of 10000 transactions, then a page of one. *)
Definition twoPages (page : Z) : list Transaction :=
  if page =? 1 then repeat aTransaction (Z.to_nat 10000)
  else if page =? 2 then [aTransaction]
  else [].

(** Full pages for ever. *)
Definition fullPages (page : Z) : list Transaction := repeat aTransaction (Z.to_nat 10000).

(** The wallet [alice] seen through the explorer: four transactions,
    the last one after the date range of [walletFilter], and the three
    token transfers above. *)
Definition walletTransactions (page : Z) : list Transaction :=
  if page =? 1 then
    [ transactionOf "0xh1" alice tokenAddress "1700000000";
      transactionOf "0xh2" bob alice "1700000100";
      transactionOf "0xh3" carol tokenAddress "1700000200";
      transactionOf "0xh4" carol alice "1800000000" ]
  else [].

(** Dates shown as their count of milliseconds. *)
Definition isoOf (ms : Z) : string := pretty ms +:+ "ms".

Definition walletFilter : TransactionFilter :=
  {| tf_address := aliceUpper;
     tf_startDate := 1699999999000;
     tf_endDate := 1700999999999;
     tf_includeInternal := true;
     tf_includeTokenTransfers := true;
     tf_includeERC721 := false;
     tf_includeERC1155 := false;
     tf_incomingOnly := true;
     tf_outgoingOnly := false |}.

(** Two recipients whose amounts add up to 0.8 tokens, and a balance of
    50 smallest units less than that. *)
Definition tenths : list BatchRecipient :=
  [ {| address := alice; amount := "0.1" |}; {| address := bob; amount := "0.7" |} ].

Definition shortBalance : Z := 799999999999999950.

End Demo.

(** ** A small program logic over traces

    [settles P Q m]: from any state, [m] returns or throws (it does not
    hang), a returned value satisfies [Q], and the run appends to the trace
    only events satisfying [P].  [returns P Q m] moreover excludes a throw. *)

Definition extendsBy (P : Event -> Prop) (s s' : State) : Prop :=
  exists d, trace s' = trace s ++ d /\ Forall P d.

Definition settles {A} (P : Event -> Prop) (Q : A -> Prop) (m : M A) : Prop :=
  forall s,
    match fst (m s) with
    | Return a => Q a
    | Throw _ => True
    | Hang => False
    end /\ extendsBy P s (snd (m s)).

(** [emitsOnly P m]: however [m] ends, it has appended to the trace only
    events satisfying [P]. *)
Definition emitsOnly {A} (P : Event -> Prop) (m : M A) : Prop :=
  forall s, extendsBy P s (snd (m s)).

Definition returns {A} (P : Event -> Prop) (Q : A -> Prop) (m : M A) : Prop :=
  forall s,
    match fst (m s) with
    | Return a => Q a
    | _ => False
    end /\ extendsBy P s (snd (m s)).


(** * Verification *)

(** ** Generic facts about traces *)

Lemma countEv_app (p : Event -> bool) (tr1 tr2 : Trace) :
  countEv p (tr1 ++ tr2) = (countEv p tr1 + countEv p tr2)%nat.
Proof.
  induction tr1 as [|e tr1 IH]; simpl; [reflexivity|].
  destruct (p e); simpl; rewrite IH; reflexivity.
Qed.

Lemma countEv_pushEvent (p : Event -> bool) (e : Event) (s : State) :
  countEv p (trace (pushEvent e s)) = (countEv p (trace s) + (if p e then 1 else 0))%nat.
Proof.
  unfold pushEvent. simpl. rewrite countEv_app. simpl. destruct (p e); lia.
Qed.

(** ** RetryUtil.executeWithRetry *)

Section RetryFacts.
Import RetryUtil.
Context {T : Type}.
Variable Math_pow : double -> double -> double.
Variable config : RetryConfig.
Variable outcomes : nat -> string + T.
Variable context : option string.

(** One invocation of the mock: the outcome scripted for this call, and
    one more [EvInvoke] in the trace. *)
Lemma mockFn_step (s : State) :
  exists s',
    mockFn outcomes s =
      (match outcomes (invocations s) with
       | inl msg => Throw (JsError msg)
       | inr v => Return v
       end, s')
    /\ invocations s' = S (invocations s).
Proof.
  exists (pushEvent EvInvoke s). split.
  - unfold mockFn, bind, getTrace, emit, invocations. simpl.
    destruct (outcomes (countEv isInvoke (trace s))); reflexivity.
  - unfold invocations. rewrite countEv_pushEvent. simpl. lia.
Qed.

(** After a failed attempt that is not the last, the loop warns, sleeps
    and goes round again; neither step invokes the operation. *)
Lemma retryLoop_fail_step (fuel : nat) (attempt : Z) (lastError : option Thrown)
      (msg : string) (s : State) :
  attempt < maxRetries config ->
  outcomes (invocations s) = inl msg ->
  exists s1,
    invocations s1 = S (invocations s) /\
    retryLoop Math_pow config (mockFn outcomes) context (S fuel) attempt lastError s =
    retryLoop Math_pow config (mockFn outcomes) context fuel (attempt + 1) (Some (JsError msg)) s1.
Proof.
  intros Hlt Hout.
  destruct (mockFn_step s) as (s0 & Hrun & Hinv). rewrite Hout in Hrun.
  exists (pushEvent (EvSleep (calculateDelay Math_pow config attempt))
            (pushEvent (EvWarn attempt (calculateDelay Math_pow config attempt) (Some msg)) s0)).
  split.
  - unfold invocations in *. rewrite !countEv_pushEvent. simpl. lia.
  - cbn [retryLoop].
    replace (attempt <=? maxRetries config) with true by (symmetry; apply Z.leb_le; lia).
    unfold tryCatch at 1. rewrite Hrun.
    replace (attempt =? maxRetries config) with false by (symmetry; apply Z.eqb_neq; lia).
    unfold bind, readMessage, ret, emit, sleep, emit. reflexivity.
Qed.

Lemma retryLoop_succeeds (v : T) :
  forall (m fuel : nat) (attempt : Z) (lastError : option Thrown) (s : State),
    (m < fuel)%nat ->
    attempt + Z.of_nat m <= maxRetries config ->
    (forall k, (k < m)%nat -> exists msg, outcomes (invocations s + k)%nat = inl msg) ->
    outcomes (invocations s + m)%nat = inr v ->
    exists s',
      retryLoop Math_pow config (mockFn outcomes) context fuel attempt lastError s = (Return v, s')
      /\ invocations s' = (invocations s + m + 1)%nat.
Proof.
  induction m as [|m IH]; intros fuel attempt lastError s Hfuel Hatt Hfail Hok.
  - destruct fuel as [|fuel]; [lia|].
    destruct (mockFn_step s) as (s0 & Hrun & Hinv).
    rewrite Nat.add_0_r in Hok. rewrite Hok in Hrun.
    exists s0. split; [|lia].
    cbn [retryLoop].
    replace (attempt <=? maxRetries config) with true by (symmetry; apply Z.leb_le; lia).
    unfold tryCatch. rewrite Hrun. reflexivity.
  - destruct fuel as [|fuel]; [lia|].
    destruct (Hfail O ltac:(lia)) as [msg Hmsg]. rewrite Nat.add_0_r in Hmsg.
    destruct (retryLoop_fail_step fuel attempt lastError msg s ltac:(lia) Hmsg)
      as (s1 & Hinv1 & Hstep).
    rewrite Hstep.
    destruct (IH fuel (attempt + 1) (Some (JsError msg)) s1) as (s' & Hrun & Hinv).
    + lia.
    + lia.
    + intros k Hk. destruct (Hfail (S k) ltac:(lia)) as [msg' Hmsg'].
      exists msg'. rewrite Hinv1. rewrite <- Hmsg'. f_equal. lia.
    + rewrite Hinv1. rewrite <- Hok. f_equal. lia.
    + exists s'. split; [exact Hrun|lia].
Qed.

Lemma retryLoop_exhausts :
  forall (n fuel : nat) (attempt : Z) (lastError : option Thrown) (s : State),
    (n < fuel)%nat ->
    attempt + Z.of_nat n = maxRetries config ->
    (forall k, (k <= n)%nat -> exists msg, outcomes (invocations s + k)%nat = inl msg) ->
    exists lastMsg s',
      outcomes (invocations s + n)%nat = inl lastMsg /\
      retryLoop Math_pow config (mockFn outcomes) context fuel attempt lastError s =
        (Throw (RetryError (exhaustedMessage config context) (JsError lastMsg)
                           (maxRetries config) (maxRetries config)), s')
      /\ invocations s' = (invocations s + n + 1)%nat.
Proof.
  induction n as [|n IH]; intros fuel attempt lastError s Hfuel Hatt Hfail.
  - destruct fuel as [|fuel]; [lia|].
    destruct (Hfail O ltac:(lia)) as [msg Hmsg].
    destruct (mockFn_step s) as (s0 & Hrun & Hinv).
    rewrite Nat.add_0_r in Hmsg. rewrite Hmsg in Hrun.
    exists msg, s0. rewrite Nat.add_0_r. split; [exact Hmsg|]. split; [|lia].
    cbn [retryLoop].
    replace (attempt <=? maxRetries config) with true by (symmetry; apply Z.leb_le; lia).
    unfold tryCatch. rewrite Hrun.
    replace (attempt =? maxRetries config) with true by (symmetry; apply Z.eqb_eq; lia).
    unfold throw. repeat f_equal. lia.
  - destruct fuel as [|fuel]; [lia|].
    destruct (Hfail O ltac:(lia)) as [msg Hmsg]. rewrite Nat.add_0_r in Hmsg.
    destruct (retryLoop_fail_step fuel attempt lastError msg s ltac:(lia) Hmsg)
      as (s1 & Hinv1 & Hstep).
    rewrite Hstep.
    destruct (IH fuel (attempt + 1) (Some (JsError msg)) s1) as (lastMsg & s' & Hlast & Hrun & Hinv).
    + lia.
    + lia.
    + intros k Hk. destruct (Hfail (S k) ltac:(lia)) as [msg' Hmsg'].
      exists msg'. rewrite Hinv1. rewrite <- Hmsg'. f_equal. lia.
    + exists lastMsg, s'. split; [|split; [exact Hrun|lia]].
      rewrite <- Hlast. f_equal. lia.
Qed.

End RetryFacts.

(** C3. For a retry configuration with [maxRetries >= 1] and an operation
    whose invocations fail or succeed as [outcomes] scripts: if the operation
    fails exactly [m < maxRetries] times and then succeeds,
    [executeWithRetry] returns the success value after exactly [m + 1]
    invocations; if it fails on every attempt, it is invoked exactly
    [maxRetries] times and [executeWithRetry] throws a [RetryError] carrying
    the last underlying error and the attempt count.  The failure messages
    are arbitrary, so this holds whether or not [isRetryableError] would
    classify them as transient. *)
Theorem executeWithRetry_attempts {T : Type} (Math_pow : double -> double -> double)
      (config : RetryConfig)
        (outcomes : nat -> string + T) (context : option string) (s : State) :
  1 <= maxRetries config ->
  (forall (m : nat) (v : T),
      Z.of_nat m < maxRetries config ->
      (forall k, (k < m)%nat -> exists msg, outcomes (invocations s + k)%nat = inl msg) ->
      outcomes (invocations s + m)%nat = inr v ->
      exists s',
        RetryUtil.executeWithRetry Math_pow config (mockFn outcomes) context s = (Return v, s')
        /\ invocations s' = (invocations s + m + 1)%nat)
  /\
  ((forall k, Z.of_nat k < maxRetries config ->
              exists msg, outcomes (invocations s + k)%nat = inl msg) ->
   exists lastMsg s',
     outcomes (invocations s + (Z.to_nat (maxRetries config) - 1))%nat = inl lastMsg
     /\ RetryUtil.executeWithRetry Math_pow config (mockFn outcomes) context s =
          (Throw (RetryError (RetryUtil.exhaustedMessage config context) (JsError lastMsg)
                             (maxRetries config) (maxRetries config)), s')
     /\ invocations s' = (invocations s + Z.to_nat (maxRetries config))%nat).
Proof.
  intros Hmax. split.
  - intros m v Hm Hfail Hok. unfold RetryUtil.executeWithRetry.
    apply retryLoop_succeeds; try assumption; lia.
  - intros Hfail. unfold RetryUtil.executeWithRetry.
    destruct (retryLoop_exhausts Math_pow config outcomes context
                (Z.to_nat (maxRetries config) - 1)
                (S (Z.to_nat (maxRetries config))) 1 None s)
      as (lastMsg & s' & Hlast & Hrun & Hinv).
    + lia.
    + lia.
    + intros k Hk. apply Hfail. lia.
    + exists lastMsg, s'. split; [exact Hlast|]. split; [exact Hrun|]. lia.
Qed.

(** ** Stepping through computations *)

Lemma ask_eq {A} (ev : Event) (oracle : Trace -> Thrown + A) (s : State) :
  ask ev oracle s =
    (match oracle (trace s) with
     | inl e => Throw e
     | inr a => Return a
     end, pushEvent ev s).
Proof.
  unfold ask, bind, getTrace, emit, settle, throw, ret.
  destruct (oracle (trace s)); reflexivity.
Qed.

Lemma getTokenInfo_cached (env : Env) (config : EngineConfig)
      (ti : TokenInfo) (s : State) :
  tokenInfo s = Some ti ->
  BatchTokenSender.getTokenInfo env config s = (Return ti, s).
Proof.
  intros H. unfold BatchTokenSender.getTokenInfo, bind, BatchTokenSender.cachedTokenInfo.
  rewrite H. reflexivity.
Qed.

(** A first attempt that returns ends the retry loop at once. *)
Lemma executeWithRetry_first_try {T} (Math_pow : double -> double -> double)
      (config : RetryConfig) (fn : M T)
      (context : option string) (s s' : State) (v : T) :
  1 <= maxRetries config ->
  fn s = (Return v, s') ->
  RetryUtil.executeWithRetry Math_pow config fn context s = (Return v, s').
Proof.
  intros Hmax Hfn. unfold RetryUtil.executeWithRetry. cbn [RetryUtil.retryLoop].
  replace (1 <=? maxRetries config) with true by (symmetry; apply Z.leb_le; lia).
  unfold tryCatch. rewrite Hfn. reflexivity.
Qed.

Section TransferFacts.
Import BatchTokenSender.
Variable R : Runtime.
Variable env : Env.
Variable config : EngineConfig.

Ltac finish_transfer :=
  unfold bind, now, getTrace, ret, throw;
  eexists; eexists; (split; [reflexivity|]);
  rewrite ?countEv_pushEvent; simpl; repeat split; auto; lia.

(** [executeTransfer] against its specification, from the state [s0] in
    which the [try] block is entered. *)
Lemma executeTransfer_spec (recipient_ : BatchRecipient) (nonce : Z) (s s0 : State)
      (ti : TokenInfo) (amountWei : Z) :
  getTokenInfo env config s = (Return ti, s0) ->
  parseUnits R (amount recipient_) (decimals ti) = inr amountWei ->
  exists result s',
    executeTransfer R env config recipient_ nonce s = (Return result, s')
    /\ recipient result = address recipient_
    /\ tr_amount result = amount recipient_
    /\ attempts result = None
    /\ match firstStepError R env config recipient_ amountWei nonce (trace s0) with
       | Some e => status result = failed /\ error result = Some (errorText e)
       | None => status result = success /\ error result = None
       end
    /\ countEv isEstimateGas (trace s') = S (countEv isEstimateGas (trace s0))
    /\ countEv isRetryStep (trace s') = countEv isRetryStep (trace s0).
Proof.
  intros Hti Hparse.
  unfold executeTransfer, firstStepError.
  unfold bind at 1. rewrite Hti.
  unfold bind at 1. rewrite Hparse. unfold settle at 1, ret at 1.
  unfold tryCatch at 1.
  unfold bind at 1. rewrite ask_eq.
  destruct (o_estimateGas env (trace s0) (address recipient_) amountWei) as [e|gasLimit];
    [finish_transfer|].
  unfold bind at 1.
  destruct (adjustGasLimit R config gasLimit) as [e|adjusted];
    [unfold settle; finish_transfer|].
  unfold settle at 1, ret at 1.
  unfold bind at 1. rewrite ask_eq. simpl trace.
  destruct (o_getFeeData env _) as [e|feeData]; [finish_transfer|].
  unfold bind at 1. rewrite ask_eq. simpl trace.
  destruct (o_populateTransaction env _ _ _) as [e|[]]; [finish_transfer|].
  destruct (ec_dryRun config); [finish_transfer|].
  unfold bind at 1. rewrite ask_eq. simpl trace.
  destruct (o_sendTransaction env _ _) as [e|txResponse]; [finish_transfer|].
  unfold bind at 1. unfold tryCatch at 1. unfold bind at 1. rewrite ask_eq. simpl trace.
  destruct (o_wait env _ _) as [e|receipt_].
  - destruct (isRateLimitText (errorText e)); finish_transfer.
  - finish_transfer.
Qed.

End TransferFacts.

(** ** The program logic over traces *)

Lemma extendsBy_refl (P : Event -> Prop) (s : State) : extendsBy P s s.
Proof. exists []. split; [symmetry; apply app_nil_r|constructor]. Qed.

Lemma extendsBy_trans (P : Event -> Prop) (s1 s2 s3 : State) :
  extendsBy P s1 s2 -> extendsBy P s2 s3 -> extendsBy P s1 s3.
Proof.
  intros (d1 & H1 & F1) (d2 & H2 & F2). exists (d1 ++ d2). split.
  - rewrite H2, H1, app_assoc. reflexivity.
  - apply Forall_app. split; assumption.
Qed.

Lemma extendsBy_pushEvent (P : Event -> Prop) (e : Event) (s : State) :
  P e -> extendsBy P s (pushEvent e s).
Proof. intros H. exists [e]. split; [reflexivity|]. constructor; [exact H|constructor]. Qed.

Lemma extendsBy_same_trace (P : Event -> Prop) (s s' : State) :
  trace s' = trace s -> extendsBy P s s'.
Proof. intros H. exists []. rewrite H, app_nil_r. split; [reflexivity|constructor]. Qed.

Lemma returns_settles {A} (P : Event -> Prop) (Q : A -> Prop) (m : M A) :
  returns P Q m -> settles P Q m.
Proof.
  intros H s. destruct (H s) as [H1 H2]. split; [|exact H2].
  destruct (fst (m s)); tauto.
Qed.

Lemma settles_weaken {A} (P P' : Event -> Prop) (Q Q' : A -> Prop) (m : M A) :
  (forall e, P e -> P' e) -> (forall a, Q a -> Q' a) ->
  settles P Q m -> settles P' Q' m.
Proof.
  intros HP HQ H s. destruct (H s) as [H1 (d & H2 & H3)]. split.
  - destruct (fst (m s)); auto.
  - exists d. split; [exact H2|]. eapply Forall_impl; eauto.
Qed.

Lemma returns_ret {A} (P : Event -> Prop) (Q : A -> Prop) (a : A) :
  Q a -> returns P Q (ret a).
Proof. intros H s. split; [exact H|apply extendsBy_refl]. Qed.

Lemma settles_ret {A} (P : Event -> Prop) (Q : A -> Prop) (a : A) :
  Q a -> settles P Q (ret a).
Proof. intros H. apply returns_settles, returns_ret, H. Qed.

Lemma settles_throw {A} (P : Event -> Prop) (Q : A -> Prop) (e : Thrown) :
  settles P Q (throw e).
Proof. intros s. split; [exact I|apply extendsBy_refl]. Qed.

Lemma settles_settle {A} (P : Event -> Prop) (r : Thrown + A) :
  settles P (fun a => r = inr a) (settle r).
Proof. destruct r; [apply settles_throw|apply settles_ret; reflexivity]. Qed.

Lemma returns_emit (P : Event -> Prop) (e : Event) :
  P e -> returns P (fun _ => True) (emit e).
Proof. intros H s. split; [exact I|apply extendsBy_pushEvent, H]. Qed.

Lemma returns_getTrace (P : Event -> Prop) :
  returns P (fun _ => True) getTrace.
Proof. intros s. split; [exact I|apply extendsBy_refl]. Qed.

Lemma settles_ask {A} (P : Event -> Prop) (ev : Event) (oracle : Trace -> Thrown + A) :
  P ev -> settles P (fun _ => True) (ask ev oracle).
Proof.
  intros H s. rewrite ask_eq. split.
  - simpl. destruct (oracle (trace s)); exact I.
  - apply extendsBy_pushEvent, H.
Qed.

Lemma settles_bind {A B} (P : Event -> Prop) (Q1 : A -> Prop) (Q : B -> Prop)
      (m : M A) (k : A -> M B) :
  settles P Q1 m -> (forall a, Q1 a -> settles P Q (k a)) -> settles P Q (bind m k).
Proof.
  intros Hm Hk s. unfold bind. destruct (Hm s) as [H1 H2].
  destruct (m s) as [[a|e|] s1]; simpl in *.
  - destruct (Hk a H1 s1) as [H3 H4]. split; [exact H3|].
    eapply extendsBy_trans; eauto.
  - split; [exact I|exact H2].
  - contradiction.
Qed.

Lemma returns_bind {A B} (P : Event -> Prop) (Q1 : A -> Prop) (Q : B -> Prop)
      (m : M A) (k : A -> M B) :
  returns P Q1 m -> (forall a, Q1 a -> returns P Q (k a)) -> returns P Q (bind m k).
Proof.
  intros Hm Hk s. unfold bind. destruct (Hm s) as [H1 H2].
  destruct (m s) as [[a|e|] s1]; simpl in *; try contradiction.
  destruct (Hk a H1 s1) as [H3 H4]. split; [exact H3|].
  eapply extendsBy_trans; eauto.
Qed.

Lemma settles_tryCatch {A} (P : Event -> Prop) (Q : A -> Prop)
      (m : M A) (h : Thrown -> M A) :
  settles P Q m -> (forall e, settles P Q (h e)) -> settles P Q (tryCatch m h).
Proof.
  intros Hm Hh s. unfold tryCatch. destruct (Hm s) as [H1 H2].
  destruct (m s) as [[a|e|] s1]; simpl in *.
  - split; assumption.
  - destruct (Hh e s1) as [H3 H4]. split; [exact H3|].
    eapply extendsBy_trans; eauto.
  - contradiction.
Qed.

Lemma returns_tryCatch {A} (P : Event -> Prop) (Q : A -> Prop)
      (m : M A) (h : Thrown -> M A) :
  settles P Q m -> (forall e, returns P Q (h e)) -> returns P Q (tryCatch m h).
Proof.
  intros Hm Hh s. unfold tryCatch. destruct (Hm s) as [H1 H2].
  destruct (m s) as [[a|e|] s1]; simpl in *.
  - split; assumption.
  - destruct (Hh e s1) as [H3 H4]. split; [exact H3|].
    eapply extendsBy_trans; eauto.
  - contradiction.
Qed.

(** Updates of the state that leave the trace alone. *)
Lemma returns_quiet {A} (P : Event -> Prop) (Q : A -> Prop) (m : M A) :
  (forall s, exists a s', m s = (Return a, s') /\ Q a /\ trace s' = trace s) ->
  returns P Q m.
Proof.
  intros H s. destruct (H s) as (a & s' & E & HQ & HT). rewrite E. simpl.
  split; [exact HQ|apply extendsBy_same_trace, HT].
Qed.

(** The retry loop settles when the operation does, given fuel to reach
    the loop's exit. *)
Lemma settles_retryLoop {T} (P : Event -> Prop) (Q : T -> Prop)
      (Math_pow : double -> double -> double) (config : RetryConfig) (fn : M T) (context : option string) :
  settles P Q fn ->
  (forall a d m, P (EvWarn a d m)) ->
  (forall d, P (EvSleep d)) ->
  forall (fuel : nat) (attempt : Z) (lastError : option Thrown),
    (1 <= fuel)%nat ->
    maxRetries config - attempt + 1 < Z.of_nat fuel ->
    settles P Q (RetryUtil.retryLoop Math_pow config fn context fuel attempt lastError).
Proof.
  intros Hfn Hwarn Hsleep.
  induction fuel as [|fuel IH]; intros attempt lastError Hpos Hfuel; [lia|].
  - cbn [RetryUtil.retryLoop].
    destruct (Z.leb_spec attempt (maxRetries config)); [|apply settles_throw].
    apply settles_tryCatch; [exact Hfn|]. intros e.
    destruct (Z.eqb_spec attempt (maxRetries config)); [apply settles_throw|].
    eapply settles_bind with (Q1 := fun _ => True).
    + destruct e; simpl; first [apply settles_ret; exact I | apply settles_throw].
    + intros msg _. eapply settles_bind with (Q1 := fun _ => True).
      * apply returns_settles, returns_emit, Hwarn.
      * intros _ _. eapply settles_bind with (Q1 := fun _ => True).
        -- apply returns_settles, returns_emit, Hsleep.
        -- intros _ _. apply IH; lia.
Qed.

Lemma settles_executeWithRetry {T} (P : Event -> Prop) (Q : T -> Prop)
      (Math_pow : double -> double -> double) (config : RetryConfig) (fn : M T) (context : option string) :
  settles P Q fn ->
  (forall a d m, P (EvWarn a d m)) ->
  (forall d, P (EvSleep d)) ->
  settles P Q (RetryUtil.executeWithRetry Math_pow config fn context).
Proof.
  intros. unfold RetryUtil.executeWithRetry. apply settles_retryLoop; auto; lia.
Qed.

(** ** Events of a transfer *)

Lemma settles_settle_any {A} (P : Event -> Prop) (r : Thrown + A) :
  settles P (fun _ => True) (settle r).
Proof. destruct r; [apply settles_throw|apply settles_ret; exact I]. Qed.

Lemma returns_now (P : Event -> Prop) (env : Env) :
  returns P (fun _ => True) (BatchTokenSender.now env).
Proof. intros s. split; [exact I|apply extendsBy_refl]. Qed.

Ltac settles_step :=
  lazymatch goal with
  | |- settles _ _ (bind _ _) => eapply settles_bind with (Q1 := fun _ => True); [|intros ? _]
  | |- settles _ _ (tryCatch _ _) => apply settles_tryCatch; [|intros ?]
  | |- settles _ _ (ret _) => apply settles_ret; simpl; auto
  | |- settles _ _ (throw _) => apply settles_throw
  | |- settles _ _ (settle _) => apply settles_settle_any
  | |- settles _ _ (ask _ _) => apply settles_ask; simpl; auto
  | |- settles _ _ (emit _) => apply returns_settles, returns_emit; simpl; auto
  | |- settles _ _ (sleep _) => apply returns_settles, returns_emit; simpl; auto
  | |- settles _ _ getTrace => apply returns_settles, returns_getTrace
  | |- settles _ _ (BatchTokenSender.now _) => apply returns_settles, returns_now
  | |- settles _ _ (if ?b then _ else _) => destruct b
  | |- settles _ _ (match ?x with _ => _ end) => destruct x
  end.

Section EngineFacts.
Import BatchTokenSender.
Variable R : Runtime.
Variable env : Env.
Variable config : EngineConfig.

Lemma settles_getTokenInfo (P : Event -> Prop) :
  P EvTokenMeta -> settles P (fun _ => True) (getTokenInfo env config).
Proof.
  intros HP. unfold getTokenInfo.
  eapply settles_bind with (Q1 := fun _ => True).
  - apply returns_settles, returns_quiet. intros s. exists (tokenInfo s), s. auto.
  - intros cached _. destruct cached as [ti|]; [apply settles_ret; exact I|].
    apply settles_tryCatch; [|intros e; apply settles_throw].
    repeat settles_step.
    apply returns_settles, returns_quiet. intros s. eexists tt, _.
    split; [reflexivity|]. split; [exact I|reflexivity].
Qed.

Lemma settles_executeTransfer (recipient_ : BatchRecipient) (nonce : Z) :
  settles (attemptEvent nonce)
          (fun r => recipient r = address recipient_ /\ tr_amount r = amount recipient_)
          (executeTransfer R env config recipient_ nonce).
Proof.
  unfold executeTransfer.
  eapply settles_bind with (Q1 := fun _ => True);
    [apply settles_getTokenInfo; exact I|intros ti _].
  repeat first
    [ lazymatch goal with
      | |- settles _ ?Q (bind (tryCatch _ _) _) =>
          eapply settles_bind
            with (Q1 := fun w => match w with inl r => Q r | inr _ => True end);
          [|intros [early|receipt_] Hw]
      end
    | settles_step ].
  all: simpl; auto.
Qed.

Lemma returns_transferWithRetry (recipient_ : BatchRecipient) (nonce : Z) :
  returns (attemptEvent nonce)
          (fun out => snd out = isSuccess (fst out)
                      /\ recipient (fst out) = address recipient_
                      /\ tr_amount (fst out) = amount recipient_)
          (transferWithRetry R env config recipient_ nonce).
Proof.
  unfold transferWithRetry. apply returns_tryCatch.
  - eapply settles_bind.
    + apply settles_executeWithRetry.
      * apply settles_executeTransfer.
      * intros; exact I.
      * intros; exact I.
    + intros result [H1 H2]. apply settles_ret. simpl. auto.
  - intros e.
    eapply returns_bind with (Q1 := fun _ => True).
    + destruct (isRateLimitText (errorText e));
        [apply returns_emit; exact I|apply returns_ret; exact I].
    + intros _ _. eapply returns_bind with (Q1 := fun _ => True);
        [apply returns_now|].
      intros ts _. apply returns_ret. simpl. auto.
Qed.

End EngineFacts.

(** ** Nonce sequencing in [executeBatchTransfers] *)

Lemma lineNonces_app (tr1 tr2 : Trace) :
  lineNonces (tr1 ++ tr2) = lineNonces tr1 ++ lineNonces tr2.
Proof.
  induction tr1 as [|e tr1 IH]; [reflexivity|].
  destruct e; simpl; rewrite ?IH; reflexivity.
Qed.

Lemma lineNonces_attempt (nonce : Z) (d : Trace) :
  Forall (attemptEvent nonce) d -> lineNonces d = [].
Proof.
  induction 1 as [|e d He _ IH]; [reflexivity|].
  destruct e; simpl in *; try contradiction; exact IH.
Qed.

Lemma sendsFollowLines_attempt (nonce : Z) (d rest : Trace) :
  Forall (attemptEvent nonce) d ->
  sendsFollowLines (Some nonce) rest ->
  sendsFollowLines (Some nonce) (d ++ rest).
Proof.
  induction 1 as [|e d He _ IH]; intros Hrest; [exact Hrest|].
  destruct e; simpl in *; try contradiction; auto.
  split; [congruence|auto].
Qed.

Lemma attempt_no_nonce_read (nonce : Z) (d : Trace) :
  Forall (attemptEvent nonce) d -> Forall (fun e => isNonceRead e = false) d.
Proof.
  intros H. eapply Forall_impl; [exact H|].
  intros e He. destruct e; simpl in *; try reflexivity; contradiction.
Qed.

Lemma splitLines_quiet (d : Trace) :
  Forall (fun e => isNonceRead e = false) d -> splitLines d = (lineNonces d, []).
Proof.
  induction 1 as [|e d He _ IH]; [reflexivity|].
  simpl. rewrite IH. destruct e; simpl in *; try reflexivity; discriminate.
Qed.

Lemma splitLines_app (d1 d2 : Trace) :
  fst (splitLines d2) = [] ->
  splitLines (d1 ++ d2)
  = (fst (splitLines d1), snd (splitLines d1) ++ snd (splitLines d2)).
Proof.
  intros H2. induction d1 as [|e d1 IH].
  - simpl. destruct (splitLines d2) as [open batches]. simpl in *. subst. reflexivity.
  - simpl. rewrite IH. destruct (splitLines d1) as [open batches].
    destruct e; reflexivity.
Qed.

Lemma chunkLoop_concat {T} (size : nat) :
  (1 <= size)%nat ->
  forall (fuel : nat) (array : list T),
    (length array <= fuel)%nat ->
    concat (chunkLoop fuel array size) = array.
Proof.
  intros Hsize. induction fuel as [|fuel IH]; intros array Hlen.
  - destruct array; [reflexivity|simpl in Hlen; lia].
  - destruct array as [|x array]; [reflexivity|].
    cbn [chunkLoop concat]. rewrite IH.
    + apply take_drop.
    + rewrite length_drop. simpl in *. lia.
Qed.

Lemma chunkArray_single {T} (array : list T) (size : Z) :
  array <> [] ->
  Z.of_nat (length array) <= size ->
  chunkArray array size = Some [array].
Proof.
  intros Hne Hlen. unfold chunkArray.
  destruct array as [|x array]; [congruence|].
  simpl length in *.
  destruct (Z.leb_spec size 0); [lia|].
  cbn [chunkLoop]. rewrite take_ge by (simpl; lia). rewrite drop_ge by (simpl; lia).
  destruct (length array); reflexivity.
Qed.

Section BatchFacts.
Import BatchTokenSender.
Variable R : Runtime.
Variable env : Env.
Variable config : EngineConfig.

Lemma batchLoop_nonces (total batchIndex batchLength : Z) :
  forall (rest : list BatchRecipient) (i nonce : Z) (results : list TransferResult)
         (s : State),
  exists outs s' d,
    batchLoop R env config total batchIndex batchLength rest i nonce results s
      = (Return (results ++ outs), s')
    /\ trace s' = trace s ++ d
    /\ length outs = length rest
    /\ map recipient outs = map address rest
    /\ map tr_amount outs = map amount rest
    /\ lineNonces d = expectedNonces nonce outs
    /\ (forall current, sendsFollowLines current d)
    /\ Forall (fun e => isNonceRead e = false) d.
Proof.
  induction rest as [|recipient_ rest IH]; intros i nonce results s.
  - exists [], s, []. simpl. rewrite !app_nil_r. auto 10.
  - cbn [batchLoop]. unfold bind at 1, emit at 1.
    set (line := EvTransferLine (batchIndex * ec_batchSize config + i + 1) recipient_ nonce).
    destruct (returns_transferWithRetry R env config recipient_ nonce (pushEvent line s))
      as [Hq (d1 & Hd1 & Hf1)].
    unfold bind at 1.
    destruct (transferWithRetry R env config recipient_ nonce (pushEvent line s))
      as [[[result ok]|e|] s2]; simpl in Hq, Hd1; try contradiction.
    destruct Hq as (Hok & Hrec & Hamt). subst ok.
    set (nonce' := if isSuccess result then nonce + 1 else nonce).
    assert (Hsleep : exists s3 d2,
               (if negb (ec_dryRun config) && (i <? batchLength - 1)
                then sleep (Double.ofZ 3000) else ret tt) s2 = (Return tt, s3)
               /\ trace s3 = trace s2 ++ d2 /\ Forall (attemptEvent nonce') d2).
    { destruct (negb (ec_dryRun config) && (i <? batchLength - 1)).
      - exists (pushEvent (EvSleep (Double.ofZ 3000)) s2), [EvSleep (Double.ofZ 3000)].
        repeat split; auto. constructor; [exact I|constructor].
      - exists s2, []. rewrite app_nil_r. repeat split; auto. }
    destruct Hsleep as (s3 & d2 & Hrun3 & Hd2 & Hf2).
    unfold bind at 1. rewrite Hrun3.
    destruct (IH (i + 1) nonce' (results ++ [result]) s3)
      as (outs & s' & d3 & Hrun & Hd3 & Hlen & Hrecs & Hamts & Hlines & Hsends & Hquiet).
    exists (result :: outs), s', (line :: d1 ++ d2 ++ d3).
    split; [rewrite Hrun, <- app_assoc; reflexivity|].
    split; [rewrite Hd3, Hd2, Hd1; simpl; rewrite <- !app_assoc; reflexivity|].
    split; [simpl; congruence|].
    split; [simpl; congruence|].
    split; [simpl; congruence|].
    split.
    { change (line :: d1 ++ d2 ++ d3) with ([line] ++ d1 ++ d2 ++ d3).
      rewrite !lineNonces_app, (lineNonces_attempt nonce d1 Hf1),
        (lineNonces_attempt nonce' d2 Hf2), Hlines. reflexivity. }
    split.
    2: { constructor; [reflexivity|].
         apply Forall_app. split; [eapply attempt_no_nonce_read; eauto|].
         apply Forall_app. split; [eapply attempt_no_nonce_read; eauto|exact Hquiet]. }
    + intros current. subst line. simpl.
      apply sendsFollowLines_attempt; [exact Hf1|].
      destruct d2 as [|e2 d2'].
      * apply Hsends.
      * destruct (negb (ec_dryRun config) && (i <? batchLength - 1)) in Hrun3.
        -- inversion Hrun3; subst s3. simpl in Hd2.
           apply app_inv_head in Hd2. inversion Hd2; subst. simpl. apply Hsends.
        -- inversion Hrun3; subst s3.
           rewrite <- (app_nil_r (trace s2)) in Hd2 at 1.
           apply app_inv_head in Hd2. discriminate.
Qed.

(** The outer loop: one read of the account nonce per batch, and the
    batch's lines after it. *)
Lemma batchesLoop_nonces (total batchCount : Z) :
  (forall tr, exists n, o_getTransactionCount env tr = inr n) ->
  forall (batches : list (list BatchRecipient)) (batchIndex : Z)
         (results : list TransferResult) (s : State),
  exists chunks starts s' d,
    batchesLoop R env config total batchCount batches batchIndex results s
      = (Return (results ++ concat chunks), s')
    /\ trace s' = trace s ++ d
    /\ Forall2 (fun batch chunk => map recipient chunk = map address batch)
               batches chunks
    /\ length starts = length chunks
    /\ splitLines d = ([], zip_with expectedNonces starts chunks).
Proof.
  intros Horacle.
  induction batches as [|batch batches IH]; intros batchIndex results s.
  - exists [], [], s, []. simpl. rewrite !app_nil_r. auto 10.
  - cbn [batchesLoop]. unfold bind at 1. rewrite ask_eq.
    destruct (Horacle (trace s)) as [n Hn]. rewrite Hn.
    destruct (batchLoop_nonces total batchIndex (Z.of_nat (length batch)) batch 0 n results
                (pushEvent EvGetTransactionCount s))
      as (outs & s2 & d2 & Hrun2 & Hd2 & _ & Hrec & _ & Hlines & _ & Hquiet2).
    unfold bind at 1. rewrite Hrun2.
    assert (Hsleep : exists s3 d3,
               (if negb (ec_dryRun config) && (batchIndex <? batchCount - 1)
                then sleep (Double.ofZ 15000) else ret tt) s2 = (Return tt, s3)
               /\ trace s3 = trace s2 ++ d3
               /\ Forall (fun e => isNonceRead e = false) d3
               /\ lineNonces d3 = []).
    { destruct (negb (ec_dryRun config) && (batchIndex <? batchCount - 1)).
      - exists (pushEvent (EvSleep (Double.ofZ 15000)) s2), [EvSleep (Double.ofZ 15000)].
        repeat split; auto.
      - exists s2, []. rewrite app_nil_r. repeat split; auto. }
    destruct Hsleep as (s3 & d3 & Hrun3 & Hd3 & Hquiet3 & Hlines3).
    unfold bind at 1. rewrite Hrun3.
    destruct (IH (batchIndex + 1) (results ++ outs) s3)
      as (chunks & starts & s' & d & Hrun & Hd & Hall & Hlen & Hsplit).
    exists (outs :: chunks), (n :: starts), s', (EvGetTransactionCount :: d2 ++ d3 ++ d).
    split; [rewrite Hrun; simpl; rewrite <- app_assoc; reflexivity|].
    split; [rewrite Hd, Hd3, Hd2; simpl; rewrite <- !app_assoc; reflexivity|].
    split; [constructor; assumption|].
    split; [simpl; congruence|].
    cbn [splitLines]. rewrite app_assoc, splitLines_app by (rewrite Hsplit; reflexivity).
    rewrite (splitLines_quiet (d2 ++ d3))
      by (apply Forall_app; split; assumption).
    rewrite lineNonces_app, Hlines, Hlines3, app_nil_r, Hsplit. reflexivity.
Qed.

Lemma concat_recipients (batches : list (list BatchRecipient))
      (chunks : list (list TransferResult)) :
  Forall2 (fun batch chunk => map recipient chunk = map address batch) batches chunks ->
  map recipient (concat chunks) = map address (concat batches).
Proof.
  induction 1 as [|batch chunk batches chunks H _ IH]; [reflexivity|].
  simpl. rewrite !map_app, H, IH. reflexivity.
Qed.

End BatchFacts.

(** C2. Within a batch the nonce given to each transfer is the batch's
    starting nonce plus the number of transfers of the batch that succeeded
    before it: the counter moves only after a success, and a failed transfer
    leaves it where it was; every transaction broadcast carries the nonce
    announced for its transfer.  This holds for every batch, from every
    state.  A whole run, when the provider answers each read of the account
    nonce, returns one outcome per recipient in submission order, and the
    nonces announced in its batches are those the law gives from each
    batch's starting nonce.  In particular, when three recipients sharing a
    batch end as success, failed, success, the nonces are [n0], [n0 + 1] and
    [n0 + 1]: the third transfer uses the first one's nonce plus one. *)
Theorem executeBatchTransfers_nonces (R : Runtime) (env : Env) (config : EngineConfig) :
  (forall (total batchIndex : Z) (batch : list BatchRecipient) (nonce : Z)
          (results : list TransferResult) (s : State),
      exists outs s' d,
        BatchTokenSender.batchLoop R env config total batchIndex
          (Z.of_nat (length batch)) batch 0 nonce results s
          = (Return (results ++ outs), s')
        /\ trace s' = trace s ++ d
        /\ length outs = length batch
        /\ map recipient outs = map address batch
        /\ lineNonces d = expectedNonces nonce outs
        /\ (forall current, sendsFollowLines current d))
  /\
  (forall (recipients : list BatchRecipient) (s : State) (ti : TokenInfo),
      tokenInfo s = Some ti ->
      1 <= ec_batchSize config ->
      (forall tr, exists n, o_getTransactionCount env tr = inr n) ->
      exists outs s' d batches chunks starts,
        BatchTokenSender.executeBatchTransfers R env config recipients s = (Return outs, s')
        /\ trace s' = trace s ++ d
        /\ length outs = length recipients
        /\ map recipient outs = map address recipients
        /\ chunkArray recipients (ec_batchSize config) = Some batches
        /\ outs = concat chunks
        /\ Forall2 (fun batch chunk => map recipient chunk = map address batch)
                   batches chunks
        /\ length starts = length chunks
        /\ splitLines d = ([], zip_with expectedNonces starts chunks))
  /\
  (forall (recipients : list BatchRecipient) (s : State) (ti : TokenInfo) (n0 : Z),
      tokenInfo s = Some ti ->
      Z.of_nat (length recipients) <= ec_batchSize config ->
      o_getTransactionCount env (trace s) = inr n0 ->
      exists outs s' d,
        BatchTokenSender.executeBatchTransfers R env config recipients s = (Return outs, s')
        /\ trace s' = trace s ++ d
        /\ length outs = length recipients
        /\ map recipient outs = map address recipients
        /\ lineNonces d = expectedNonces n0 outs
        /\ sendsFollowLines None d
        /\ (map status outs = [success; failed; success] ->
            lineNonces d = [n0; n0 + 1; n0 + 1])).
Proof.
  split.
  { intros total batchIndex batch nonce results s.
    destruct (batchLoop_nonces R env config total batchIndex (Z.of_nat (length batch))
                batch 0 nonce results s)
      as (outs & s' & d & H1 & H2 & H3 & H4 & _ & H5 & H6 & _).
    exists outs, s', d. auto 10. }
  split.
  { intros recipients s ti Hti Hsize Horacle.
    unfold BatchTokenSender.executeBatchTransfers.
    unfold bind at 1. rewrite (getTokenInfo_cached env config ti s Hti).
    assert (Hchunk : chunkArray recipients (ec_batchSize config)
                     = Some (chunkLoop (length recipients) recipients
                                       (Z.to_nat (ec_batchSize config)))).
    { unfold chunkArray. destruct (Z.leb_spec (ec_batchSize config) 0); [lia|reflexivity]. }
    rewrite Hchunk.
    set (batches := chunkLoop (length recipients) recipients
                              (Z.to_nat (ec_batchSize config))).
    destruct (batchesLoop_nonces R env config (Z.of_nat (length recipients))
                (Z.of_nat (length batches)) Horacle batches 0 [] s)
      as (chunks & starts & s' & d & Hrun & Hd & Hall & Hlen & Hsplit).
    assert (Hconcat : concat batches = recipients).
    { apply chunkLoop_concat; lia. }
    assert (Hrec : map recipient (concat chunks) = map address recipients).
    { rewrite <- Hconcat. apply concat_recipients, Hall. }
    exists (concat chunks), s', d, batches, chunks, starts.
    split; [exact Hrun|]. split; [exact Hd|].
    split; [rewrite <- (length_map recipient), Hrec, length_map; reflexivity|].
    auto 10. }
  intros recipients s ti n0 Hti Hlen Hnonce.
  unfold BatchTokenSender.executeBatchTransfers.
  unfold bind at 1. rewrite (getTokenInfo_cached env config ti s Hti).
  destruct recipients as [|r0 rest].
  - exists [], s, []. rewrite app_nil_r.
    assert (E : chunkArray (@nil BatchRecipient) (ec_batchSize config) = Some []).
    { unfold chunkArray. destruct (ec_batchSize config <=? 0); reflexivity. }
    rewrite E. simpl. repeat split; auto. discriminate.
  - rewrite (chunkArray_single (r0 :: rest) (ec_batchSize config))
      by (congruence || assumption).
    cbn [BatchTokenSender.batchesLoop]. unfold bind at 1. rewrite ask_eq, Hnonce.
    destruct (batchLoop_nonces R env config
                (Z.of_nat (length (r0 :: rest))) 0 (Z.of_nat (length (r0 :: rest)))
                (r0 :: rest) 0 n0 [] (pushEvent EvGetTransactionCount s))
      as (outs & s' & d & Hrun & Hd & Hl & Hrec & _ & Hlines & Hsends & _).
    unfold bind at 1. rewrite Hrun.
    replace (negb (ec_dryRun config) && (0 <? Z.of_nat (length [r0 :: rest]) - 1))
      with false by (simpl; rewrite andb_false_r; reflexivity).
    unfold bind, ret. simpl app.
    exists outs, s', (EvGetTransactionCount :: d).
    split; [reflexivity|].
    split; [rewrite Hd; simpl; rewrite <- app_assoc; reflexivity|].
    split; [exact Hl|]. split; [exact Hrec|].
    split; [exact Hlines|]. split; [simpl; apply Hsends|].
    intros Hst. simpl. rewrite Hlines.
    destruct outs as [|o1 [|o2 [|o3 [|o4 outs]]]]; try discriminate.
    simpl in Hst. injection Hst as H1 H2 H3.
    unfold expectedNonces, isSuccess. rewrite H1, H2. reflexivity.
Qed.

(** C2 on two runs over three recipients, gas estimation reverting for the
    second: in one batch starting at nonce 7, and in batches of two. *)
Lemma executeBatchTransfers_nonces_witness :
  (exists outs s' d,
      BatchTokenSender.executeBatchTransfers Demo.runtime
        (Demo.world (10 ^ 30) Demo.bob (inr Demo.receipt)) Demo.liveConfig
        Demo.threeRecipients Demo.ready = (Return outs, s')
      /\ trace s' = trace Demo.ready ++ d
      /\ length outs = 3%nat
      /\ map recipient outs = [Demo.alice; Demo.bob; Demo.carol]
      /\ map status outs = [success; failed; success]
      /\ lineNonces d = [7; 8; 8]
      /\ sentNonces d = [7; 8])
  /\ (exists outs s' d,
         BatchTokenSender.executeBatchTransfers Demo.runtime
           (Demo.world (10 ^ 30) Demo.bob (inr Demo.receipt)) Demo.smallBatches
           Demo.threeRecipients Demo.ready = (Return outs, s')
         /\ trace s' = trace Demo.ready ++ d
         /\ map recipient outs = [Demo.alice; Demo.bob; Demo.carol]
         /\ map status outs = [success; failed; success]
         /\ splitLines d = ([], [[7; 8]; [8]])).
Proof.
  destruct (executeBatchTransfers_nonces Demo.runtime
              (Demo.world (10 ^ 30) Demo.bob (inr Demo.receipt)) Demo.liveConfig)
    as (_ & _ & Hbatch).
  destruct (executeBatchTransfers_nonces Demo.runtime
              (Demo.world (10 ^ 30) Demo.bob (inr Demo.receipt)) Demo.smallBatches)
    as (_ & Hrun2 & _).
  split.
  - destruct (Hbatch Demo.threeRecipients Demo.ready Demo.tokenFacts 7
                eq_refl ltac:(vm_compute; discriminate) eq_refl)
      as (outs & s' & d & Hrun & Hd & Hlen & Hrec & Hlines & Hsends & Hthree).
    exists outs, s', d.
    vm_compute in Hrun. injection Hrun as Houts Hs'.
    subst outs. subst s'.
    split; [vm_compute; reflexivity|].
    split; [exact Hd|].
    split; [reflexivity|].
    split; [reflexivity|].
    split; [reflexivity|].
    split; [apply Hthree; reflexivity|].
    simpl in Hd. inversion Hd. reflexivity.
  - destruct (Hrun2 Demo.threeRecipients Demo.ready Demo.tokenFacts
                eq_refl ltac:(vm_compute; discriminate)
                ltac:(intros tr; eexists; reflexivity))
      as (outs & s' & d & batches & chunks & starts
          & Hrun & Hd & _ & Hrec & _ & _ & _ & _ & _).
    exists outs, s', d.
    vm_compute in Hrun. injection Hrun as Houts Hs'.
    subst outs. subst s'.
    split; [vm_compute; reflexivity|].
    split; [exact Hd|].
    split; [reflexivity|].
    split; [reflexivity|].
    simpl in Hd. inversion Hd. reflexivity.
Defined.

(** ** Single transfers *)

(** C9, as stated, fails: the amount is converted before the [try], so a
    recipient whose amount [parseUnits] rejects makes [executeTransfer]
    throw.  The amount below passes [validateRecipients], whose
    [parseFloat] reads it as 1000. *)
Lemma executeTransfer_throws_on_unconvertible_amount :
  BatchTokenSender.validateRecipients Demo.ieee
    [ {| address := Demo.bob; amount := "1e3" |} ]
  = inr [ {| address := Demo.bob; amount := "1e3" |} ]
  /\ exists e,
      fst (BatchTokenSender.executeTransfer Demo.ieee
             (Demo.world (10 ^ 30) "" (inr Demo.receipt)) Demo.liveConfig
             {| address := Demo.bob; amount := "1e3" |} 7 initialState)
      = Throw e.
Proof.
  split; [vm_compute; reflexivity|].
  exists (JsError "invalid FixedNumber string value").
  vm_compute. reflexivity.
Qed.

(** C9, amended.  Once the token information is there and the amount
    converts to smallest units (the two steps before the [try]),
    [executeTransfer] returns a [TransferResult] whatever gas
    estimation, fee data, transaction building, broadcast and confirmation
    do: status [failed] with the error's text when a step fails (a
    rate-limited confirmation apart), status [success] otherwise.  The only
    exceptions it lets through are those of the two steps before the [try]. *)
Theorem executeTransfer_total (R : Runtime) (env : Env) (config : EngineConfig)
        (recipient_ : BatchRecipient) (nonce : Z) (s : State) :
  match BatchTokenSender.getTokenInfo env config s with
  | (Return ti, s0) =>
      match parseUnits R (amount recipient_) (decimals ti) with
      | inr amountWei =>
          exists result s',
            BatchTokenSender.executeTransfer R env config recipient_ nonce s
              = (Return result, s')
            /\ recipient result = address recipient_
            /\ tr_amount result = amount recipient_
            /\ match BatchTokenSender.firstStepError R env config recipient_
                       amountWei nonce (trace s0) with
               | Some e => status result = failed /\ error result = Some (errorText e)
               | None => status result = success /\ error result = None
               end
      | inl e =>
          BatchTokenSender.executeTransfer R env config recipient_ nonce s = (Throw e, s0)
      end
  | (Throw e, s0) =>
      BatchTokenSender.executeTransfer R env config recipient_ nonce s = (Throw e, s0)
  | (Hang, _) => False
  end.
Proof.
  pose proof (settles_getTokenInfo env config (fun _ => True) I s) as [Hnh _].
  destruct (BatchTokenSender.getTokenInfo env config s) as [[ti|e|] s0] eqn:Hget;
    simpl in Hnh; [| |contradiction].
  - destruct (parseUnits R (amount recipient_) (decimals ti)) as [e|amountWei] eqn:Hparse.
    + unfold BatchTokenSender.executeTransfer, bind. rewrite Hget, Hparse. reflexivity.
    + destruct (executeTransfer_spec R env config recipient_ nonce s s0 ti amountWei
                  Hget Hparse) as (result & s' & H1 & H2 & H3 & _ & H4 & _).
      exists result, s'. auto.
  - unfold BatchTokenSender.executeTransfer, bind. rewrite Hget. reflexivity.
Qed.

(** C8. In live mode, when every step up to the broadcast succeeds and the
    wait for the receipt fails with an error whose text contains
    ["rate limit"] or ["Too many requests"], [executeTransfer] returns a
    success outcome with the broadcast transaction's hash and no block
    number; under a retry policy of at least one attempt the batch loop
    records that outcome as successful. *)
Theorem rate_limited_confirmation_is_success (R : Runtime) (env : Env)
        (config : EngineConfig) (recipient_ : BatchRecipient) (nonce : Z) (s : State)
        (ti : TokenInfo) (amountWei gasLimit adjustedGasLimit : Z) (feeData : FeeData)
        (txResponse : TxResponse) (receiptError : Thrown) :
  tokenInfo s = Some ti ->
  parseUnits R (amount recipient_) (decimals ti) = inr amountWei ->
  ec_dryRun config = false ->
  o_estimateGas env (trace s) (address recipient_) amountWei = inr gasLimit ->
  BatchTokenSender.adjustGasLimit R config gasLimit = inr adjustedGasLimit ->
  o_getFeeData env (trace s ++ [EvEstimateGas (address recipient_) amountWei])
    = inr feeData ->
  o_populateTransaction env
    ((trace s ++ [EvEstimateGas (address recipient_) amountWei]) ++ [EvGetFeeData])
    (address recipient_) amountWei = inr tt ->
  o_sendTransaction env
    (((trace s ++ [EvEstimateGas (address recipient_) amountWei]) ++ [EvGetFeeData])
       ++ [EvPopulate (address recipient_) amountWei])
    {| tx_to := address recipient_; tx_amount := amountWei;
       tx_gasLimit := adjustedGasLimit;
       tx_gasPrice := BatchTokenSender.gasPriceOf feeData;
       tx_nonce := nonce |} = inr txResponse ->
  o_wait env
    ((((trace s ++ [EvEstimateGas (address recipient_) amountWei]) ++ [EvGetFeeData])
        ++ [EvPopulate (address recipient_) amountWei])
       ++ [EvSendTransaction
             {| tx_to := address recipient_; tx_amount := amountWei;
                tx_gasLimit := adjustedGasLimit;
                tx_gasPrice := BatchTokenSender.gasPriceOf feeData;
                tx_nonce := nonce |}])
    txResponse = inl receiptError ->
  isRateLimitText (errorText receiptError) = true ->
  1 <= ec_maxRetries config ->
  exists result s',
    BatchTokenSender.executeTransfer R env config recipient_ nonce s = (Return result, s')
    /\ BatchTokenSender.transferWithRetry R env config recipient_ nonce s
       = (Return (result, true), s')
    /\ status result = success
    /\ txHash result = Some (txr_hash txResponse)
    /\ blockNumber result = None
    /\ error result = None
    /\ recipient result = address recipient_
    /\ tr_amount result = amount recipient_.
Proof.
  intros Hti Hparse Hlive Hgas Hadj Hfee Hpop Hsend Hwait Hrate Hmax.
  assert (Hrun : exists result s',
             BatchTokenSender.executeTransfer R env config recipient_ nonce s
               = (Return result, s')
             /\ status result = success
             /\ txHash result = Some (txr_hash txResponse)
             /\ blockNumber result = None
             /\ error result = None
             /\ recipient result = address recipient_
             /\ tr_amount result = amount recipient_).
  { unfold BatchTokenSender.executeTransfer.
    unfold bind at 1. rewrite (getTokenInfo_cached env config ti s Hti).
    unfold bind at 1. rewrite Hparse. unfold settle at 1, ret at 1.
    unfold tryCatch at 1.
    unfold bind at 1. rewrite ask_eq, Hgas.
    unfold bind at 1. rewrite Hadj. unfold settle at 1, ret at 1.
    unfold bind at 1. rewrite ask_eq. simpl trace. rewrite Hfee.
    unfold bind at 1. rewrite ask_eq. simpl trace. rewrite Hpop.
    rewrite Hlive.
    unfold bind at 1. rewrite ask_eq. simpl trace. rewrite Hsend.
    unfold bind at 1. unfold tryCatch at 1. unfold bind at 1.
    rewrite ask_eq. simpl trace. rewrite Hwait, Hrate.
    unfold bind, BatchTokenSender.now, getTrace, ret.
    eexists; eexists. split; [reflexivity|]. simpl. auto 10. }
  destruct Hrun as (result & s' & Hrun & Hst & Hrest).
  exists result, s'. split; [exact Hrun|]. split; [|auto].
  unfold BatchTokenSender.transferWithRetry, tryCatch, bind.
  rewrite (executeWithRetry_first_try _ _ _ _ s s' result); [|exact Hmax|exact Hrun].
  unfold ret, isSuccess. rewrite Hst. reflexivity.
Qed.

(** C4, as the code has it.  A transfer whose first failing step raises
    [e] is attempted once, whatever [maxRetries] allows: [executeTransfer]
    returns the failure as a value, so the retry loop sees a success and
    stops; the outcome recorded carries the error's text and no attempt
    count, and no warning or backoff sleep is emitted. *)
Theorem failed_transfer_is_not_retried (R : Runtime) (env : Env)
        (config : EngineConfig) (recipient_ : BatchRecipient) (nonce : Z) (s : State)
        (ti : TokenInfo) (amountWei : Z) (e : Thrown) :
  tokenInfo s = Some ti ->
  parseUnits R (amount recipient_) (decimals ti) = inr amountWei ->
  1 <= ec_maxRetries config ->
  BatchTokenSender.firstStepError R env config recipient_ amountWei nonce (trace s)
    = Some e ->
  exists result s',
    BatchTokenSender.transferWithRetry R env config recipient_ nonce s
      = (Return (result, false), s')
    /\ status result = failed
    /\ error result = Some (errorText e)
    /\ attempts result = None
    /\ countEv isEstimateGas (trace s') = S (countEv isEstimateGas (trace s))
    /\ countEv isRetryStep (trace s') = countEv isRetryStep (trace s).
Proof.
  intros Hti Hparse Hmax Hfail.
  destruct (executeTransfer_spec R env config recipient_ nonce s s ti amountWei
              (getTokenInfo_cached env config ti s Hti) Hparse)
    as (result & s' & Hrun & _ & _ & Hatt & Hspec & Hgas & Hretry).
  rewrite Hfail in Hspec. destruct Hspec as [Hst Herr].
  exists result, s'. split; [|auto 10].
  unfold BatchTokenSender.transferWithRetry, tryCatch, bind.
  rewrite (executeWithRetry_first_try _ _ _ _ s s' result); [|exact Hmax|exact Hrun].
  unfold ret, isSuccess. rewrite Hst. reflexivity.
Qed.

(** C3 on the mocks of the retry tests: two failures then a success under
    a policy of three attempts, and an operation that always fails with an
    error the classifier calls non-retryable. *)
Lemma executeWithRetry_attempts_witness :
  (exists s',
      RetryUtil.executeWithRetry Demo.powInt Demo.retry3 (mockFn Demo.flaky) None initialState
        = (Return "success", s')
      /\ invocations s' = 3%nat)
  /\ RetryUtil.isRetryableError "Invalid API key" = false
  /\ (exists s',
         RetryUtil.executeWithRetry Demo.powInt Demo.retry3 (mockFn Demo.alwaysFailing)
                                    (Some "test-context") initialState
           = (Throw (RetryError "Failed after 3 attempts (test-context)"
                                (JsError "Invalid API key") 3 3), s')
         /\ invocations s' = 3%nat).
Proof.
  split; [|split; [reflexivity|]].
  - destruct (executeWithRetry_attempts Demo.powInt Demo.retry3 Demo.flaky None initialState
                ltac:(vm_compute; discriminate)) as [Hok _].
    destruct (Hok 2%nat "success") as (s' & Hrun & Hinv).
    + reflexivity.
    + intros k Hk. destruct k as [|[|k]]; [eexists; reflexivity|eexists; reflexivity|lia].
    + reflexivity.
    + exists s'. split; [exact Hrun|exact Hinv].
  - destruct (executeWithRetry_attempts Demo.powInt Demo.retry3 Demo.alwaysFailing
                (Some "test-context") initialState
                ltac:(vm_compute; discriminate)) as [_ Hfail].
    destruct Hfail as (lastMsg & s' & Hlast & Hrun & Hinv).
    + intros k _. eexists; reflexivity.
    + injection Hlast as <-. exists s'. split; [exact Hrun|exact Hinv].
Defined.

(** C9 on two runs: a transfer whose gas estimation reverts, and one that
    goes through. *)
Lemma executeTransfer_total_witness :
  (exists result s',
      BatchTokenSender.executeTransfer Demo.runtime
        (Demo.world (10 ^ 30) Demo.bob (inr Demo.receipt)) Demo.liveConfig
        {| address := Demo.bob; amount := "250" |} 8 Demo.ready = (Return result, s')
      /\ status result = failed
      /\ error result = Some "execution reverted")
  /\ (exists result s',
         BatchTokenSender.executeTransfer Demo.runtime
           (Demo.world (10 ^ 30) Demo.bob (inr Demo.receipt)) Demo.liveConfig
           {| address := Demo.alice; amount := "100" |} 7 Demo.ready = (Return result, s')
         /\ status result = success
         /\ error result = None).
Proof.
  split.
  - pose proof (executeTransfer_total Demo.runtime
                  (Demo.world (10 ^ 30) Demo.bob (inr Demo.receipt)) Demo.liveConfig
                  {| address := Demo.bob; amount := "250" |} 8 Demo.ready) as H.
    change (BatchTokenSender.getTokenInfo
              (Demo.world (10 ^ 30) Demo.bob (inr Demo.receipt)) Demo.liveConfig Demo.ready)
      with (Return Demo.tokenFacts, Demo.ready) in H.
    cbv iota in H.
    change (parseUnits Demo.runtime "250" (decimals Demo.tokenFacts))
      with (@inr Thrown Z 250000000000000000000) in H.
    cbv iota in H.
    destruct H as (result & s' & Hrun & _ & _ & Hspec).
    exists result, s'. split; [exact Hrun|]. exact Hspec.
  - pose proof (executeTransfer_total Demo.runtime
                  (Demo.world (10 ^ 30) Demo.bob (inr Demo.receipt)) Demo.liveConfig
                  {| address := Demo.alice; amount := "100" |} 7 Demo.ready) as H.
    change (BatchTokenSender.getTokenInfo
              (Demo.world (10 ^ 30) Demo.bob (inr Demo.receipt)) Demo.liveConfig Demo.ready)
      with (Return Demo.tokenFacts, Demo.ready) in H.
    cbv iota in H.
    change (parseUnits Demo.runtime "100" (decimals Demo.tokenFacts))
      with (@inr Thrown Z 100000000000000000000) in H.
    cbv iota in H.
    destruct H as (result & s' & Hrun & _ & _ & Hspec).
    exists result, s'. split; [exact Hrun|]. exact Hspec.
Defined.

(** C8 on a run: the provider throttles the receipt poll of a transfer
    broadcast with nonce 7. *)
Lemma rate_limited_confirmation_is_success_witness :
  exists result s',
    BatchTokenSender.executeTransfer Demo.runtime
      (Demo.world (10 ^ 30) Demo.bob (inl Demo.rateLimited)) Demo.liveConfig
      {| address := Demo.alice; amount := "100" |} 7 Demo.ready = (Return result, s')
    /\ BatchTokenSender.transferWithRetry Demo.runtime
         (Demo.world (10 ^ 30) Demo.bob (inl Demo.rateLimited)) Demo.liveConfig
         {| address := Demo.alice; amount := "100" |} 7 Demo.ready
       = (Return (result, true), s')
    /\ status result = success
    /\ txHash result = Some "0xhash7"
    /\ blockNumber result = None
    /\ error result = None
    /\ recipient result = Demo.alice
    /\ tr_amount result = "100".
Proof.
  apply (rate_limited_confirmation_is_success Demo.runtime
           (Demo.world (10 ^ 30) Demo.bob (inl Demo.rateLimited)) Demo.liveConfig
           {| address := Demo.alice; amount := "100" |} 7 Demo.ready
           Demo.tokenFacts 100000000000000000000 50000 60000
           {| fd_gasPrice := Some 30000000000; fd_maxFeePerGas := None;
              fd_maxPriorityFeePerGas := None |}
           {| txr_hash := "0xhash7" |} Demo.rateLimited);
    first [reflexivity | vm_compute; discriminate].
Defined.

(** C4 on a run: gas estimation reverts for the recipient, the policy
    allows three attempts, and the transfer is attempted once. *)
Lemma failed_transfer_is_not_retried_witness :
  exists result s',
    BatchTokenSender.transferWithRetry Demo.runtime
      (Demo.world (10 ^ 30) Demo.bob (inr Demo.receipt)) Demo.liveConfig
      {| address := Demo.bob; amount := "250" |} 8 Demo.ready
      = (Return (result, false), s')
    /\ status result = failed
    /\ error result = Some "execution reverted"
    /\ attempts result = None
    /\ countEv isEstimateGas (trace s') = 1%nat
    /\ countEv isRetryStep (trace s') = 0%nat.
Proof.
  apply (failed_transfer_is_not_retried Demo.runtime
           (Demo.world (10 ^ 30) Demo.bob (inr Demo.receipt)) Demo.liveConfig
           {| address := Demo.bob; amount := "250" |} 8 Demo.ready
           Demo.tokenFacts 250000000000000000000 (JsError "execution reverted"));
    first [reflexivity | vm_compute; discriminate].
Defined.

(** ** The balance preflight *)

Lemma countEv_preflight (d : Trace) :
  Forall preflightEvent d -> countEv isSend d = O /\ countEv isTransferLine d = O.
Proof.
  induction 1 as [|e d He _ IH]; [split; reflexivity|].
  destruct e; simpl in *; try contradiction; exact IH.
Qed.

Lemma extendsBy_preflight (s s' : State) :
  extendsBy preflightEvent s s' ->
  broadcasts s' = broadcasts s
  /\ countEv isTransferLine (trace s') = countEv isTransferLine (trace s).
Proof.
  intros (d & Hd & Hf). unfold broadcasts. rewrite Hd, !countEv_app.
  destruct (countEv_preflight d Hf) as [H1 H2]. rewrite H1, H2. lia.
Qed.

Section PreflightFacts.
Import BatchTokenSender.
Variable R : Runtime.
Variable env : Env.
Variable config : EngineConfig.

Lemma getTokenInfo_returns (s s1 : State) (ti : TokenInfo) :
  getTokenInfo env config s = (Return ti, s1) ->
  tokenInfo s1 = Some ti /\ extendsBy preflightEvent s s1.
Proof.
  unfold getTokenInfo, bind, cachedTokenInfo.
  destruct (tokenInfo s) as [cached|] eqn:Hc.
  - unfold ret. intros H. inversion H; subst. split; [exact Hc|apply extendsBy_refl].
  - unfold tryCatch, bind, getTrace, emit, settle, setTokenInfo, ret, throw.
    destruct (o_symbol env (trace s)); [discriminate|].
    destruct (o_name env (trace s)); [discriminate|].
    destruct (o_decimals env (trace s)); [discriminate|].
    destruct (o_totalSupply env (trace s)); [discriminate|].
    intros H. inversion H; subst. split; [reflexivity|].
    exists [EvTokenMeta]. split; [reflexivity|]. repeat constructor.
Qed.

Lemma settles_estimateGasForBatch (recipients : list BatchRecipient) :
  settles preflightEvent (fun _ => True) (estimateGasForBatch R env config recipients).
Proof.
  unfold estimateGasForBatch.
  eapply settles_bind with (Q1 := fun _ => True);
    [apply settles_getTokenInfo; exact I|intros ti _].
  repeat settles_step.
Qed.

(** With the balance below the requirement, [checkBalances] throws or
    reports the token balance as insufficient; either way it has only
    read from the chain. *)
Lemma checkBalances_insufficient (recipients : list BatchRecipient) (s1 : State)
      (ti : TokenInfo) (total : number R) (required balance : Z) :
  tokenInfo s1 = Some ti ->
  sumAmounts R recipients (num_ofZ R 0) = inr total ->
  parseUnits R (num_toString R total) (decimals ti) = inr required ->
  o_balanceOf env (trace s1) = inr balance ->
  balance < required ->
  match checkBalances R env config recipients s1 with
  | (Return check, s2) => sufficientToken check = false /\ extendsBy preflightEvent s1 s2
  | (Throw _, s2) => extendsBy preflightEvent s1 s2
  | (Hang, _) => False
  end.
Proof.
  intros Hti Hsum Hparse Hbal Hlt.
  unfold checkBalances.
  unfold bind at 1. rewrite (getTokenInfo_cached env config ti s1 Hti).
  unfold bind at 1. rewrite Hsum. unfold settle at 1, ret at 1.
  unfold bind at 1. rewrite Hparse. unfold settle at 1, ret at 1.
  unfold bind at 1, getTrace at 1.
  unfold bind at 1, emit at 1.
  unfold bind at 1, emit at 1.
  set (s1' := pushEvent EvBalanceOf (pushEvent EvGetBalance s1)).
  assert (Hext : extendsBy preflightEvent s1 s1').
  { exists [EvGetBalance; EvBalanceOf]. split.
    - subst s1'. simpl. rewrite <- app_assoc. reflexivity.
    - repeat constructor. }
  unfold bind at 1.
  destruct (o_getBalance env (trace s1)) as [e|matic]; [exact Hext|].
  unfold settle at 1, ret at 1.
  unfold bind at 1. rewrite Hbal. unfold settle at 1, ret at 1.
  unfold bind at 1.
  destruct (settles_estimateGasForBatch recipients s1') as [Hq Hext2].
  destruct (estimateGasForBatch R env config recipients s1') as [[ge|e|] s2];
    simpl in Hq, Hext2; [| |contradiction].
  - unfold ret. simpl. split.
    + rewrite Z.geb_leb. apply Z.leb_gt. lia.
    + eapply extendsBy_trans; eauto.
  - eapply extendsBy_trans; eauto.
Qed.

End PreflightFacts.

(** C6, as stated, fails: the preflight adds the amounts as JavaScript
    numbers, and that sum can fall short of the sum of the amounts.  For 0.1
    and 0.7 it is 0.7999999999999999, which converts to 799999999999999900
    smallest units, while the two amounts convert to 800000000000000000.  A
    wallet holding 799999999999999950 is let through: the first transfer is
    broadcast, and the second one, which the tokens left cannot cover, is
    recorded as failed. *)
Lemma preflight_admits_short_balance :
  BatchTokenSender.validateRecipients Demo.ieee Demo.tenths = inr Demo.tenths
  /\ parseUnits Demo.ieee "0.1" 18 = inr 100000000000000000
  /\ parseUnits Demo.ieee "0.7" 18 = inr 700000000000000000
  /\ Demo.shortBalance < 100000000000000000 + 700000000000000000
  /\ option_map (num_toString Demo.ieee)
       (match BatchTokenSender.sumAmounts Demo.ieee Demo.tenths (num_ofZ Demo.ieee 0) with
        | inr total => Some total
        | inl _ => None
        end)
     = Some "0.7999999999999999"
  /\ parseUnits Demo.ieee "0.7999999999999999" 18 = inr 799999999999999900
  /\ exists report s',
      BatchTokenSender.executeBatch Demo.ieee
        (Demo.world Demo.shortBalance Demo.bob (inr Demo.receipt))
        Demo.liveConfig Demo.tenths initialState
      = (Return report, s')
      /\ broadcasts s' = 1%nat
      /\ map status (transfers report) = [success; failed].
Proof.
  split; [vm_compute; reflexivity|].
  split; [vm_compute; reflexivity|].
  split; [vm_compute; reflexivity|].
  split; [vm_compute; reflexivity|].
  split; [vm_compute; reflexivity|].
  split; [vm_compute; reflexivity|].
  destruct (BatchTokenSender.executeBatch Demo.ieee
              (Demo.world Demo.shortBalance Demo.bob (inr Demo.receipt))
              Demo.liveConfig Demo.tenths initialState)
    as [[report | e |] s'] eqn:Hrun; vm_compute in Hrun;
    [| discriminate Hrun | discriminate Hrun].
  exists report, s'. split; [reflexivity|].
  injection Hrun as <- <-. split; vm_compute; reflexivity.
Qed.

(** C6, amended.  When the sender's token balance is below the total the
    preflight computes (the validated recipients' amounts added as numbers,
    the sum printed and converted to smallest units), [executeBatch]
    throws, and it has broadcast nothing and started no transfer. *)
Theorem executeBatch_insufficient_token_balance (R : Runtime) (env : Env)
        (config : EngineConfig) (recipients validated : list BatchRecipient)
        (s s1 : State) (ti : TokenInfo) (total : number R) (required balance : Z) :
  BatchTokenSender.validateRecipients R recipients = inr validated ->
  BatchTokenSender.getTokenInfo env config s = (Return ti, s1) ->
  BatchTokenSender.sumAmounts R validated (num_ofZ R 0) = inr total ->
  parseUnits R (num_toString R total) (decimals ti) = inr required ->
  o_balanceOf env (trace s1) = inr balance ->
  balance < required ->
  exists e s',
    BatchTokenSender.executeBatch R env config recipients s = (Throw e, s')
    /\ broadcasts s' = broadcasts s
    /\ countEv isTransferLine (trace s') = countEv isTransferLine (trace s).
Proof.
  intros Hval Hget Hsum Hparse Hbal Hlt.
  destruct (getTokenInfo_returns env config s s1 ti Hget) as [Hti Hext1].
  pose proof (checkBalances_insufficient R env config validated s1 ti total required
                balance Hti Hsum Hparse Hbal Hlt) as Hcheck.
  unfold BatchTokenSender.executeBatch.
  unfold bind at 1, BatchTokenSender.dateNow at 1, bind at 1, getTrace at 1, ret at 1.
  unfold tryCatch.
  unfold bind at 1. rewrite Hval. unfold settle at 1, ret at 1.
  unfold bind at 1. rewrite Hget.
  unfold bind at 1.
  destruct (BatchTokenSender.checkBalances R env config validated s1)
    as [[check|e|] s2]; [| |contradiction].
  - destruct Hcheck as [Hinsufficient Hext2].
    unfold bind at 1, BatchTokenSender.cachedTokenInfo at 1.
    rewrite Hinsufficient. simpl negb. cbv iota. unfold throw.
    eexists; eexists. split; [reflexivity|].
    apply extendsBy_preflight. eapply extendsBy_trans; eauto.
  - unfold throw. eexists; eexists. split; [reflexivity|].
    apply extendsBy_preflight. eapply extendsBy_trans; eauto.
Qed.

(** C6 on a run: three recipients asking for 425 tokens, a wallet holding
    100 smallest units. *)
Lemma executeBatch_insufficient_token_balance_witness :
  exists e s',
    BatchTokenSender.executeBatch Demo.runtime
      (Demo.world 100 Demo.bob (inr Demo.receipt)) Demo.liveConfig
      Demo.threeRecipients initialState = (Throw e, s')
    /\ broadcasts s' = O
    /\ countEv isTransferLine (trace s') = O.
Proof.
  apply (executeBatch_insufficient_token_balance Demo.runtime
           (Demo.world 100 Demo.bob (inr Demo.receipt)) Demo.liveConfig
           Demo.threeRecipients Demo.threeRecipients initialState
           (pushEvent EvTokenMeta
              {| trace := []; tokenInfo := Some Demo.tokenFacts;
                 apiCallCount := 0; files := [] |})
           Demo.tokenFacts (Some (inject_Z 425)) 425000000000000000000 100);
    first [reflexivity | vm_compute; reflexivity].
Defined.

(** ** The failed-transfers file *)

Lemma assoc_head {A} (k : string) (v : A) (l : list (string * A)) :
  assoc k ((k, v) :: l) = Some v.
Proof. simpl. rewrite String.eqb_refl. reflexivity. Qed.

(** C1, as the code has it.  Whenever there is a failed outcome to save
    and the write succeeds, [saveFailedTransfers] writes an object (with the
    recipient pairs under its ["recipients"] key), and
    [loadRecipientsFromJson] rejects that file: it accepts an array only. *)
Theorem failed_transfers_file_is_rejected (R : Runtime) (env : Env) (outputDir : string)
        (failedTransfers : list TransferResult) (tokenContract_ : string) (s : State) :
  failedTransfers <> [] ->
  (forall path, o_writeFile env (trace s) path = None) ->
  exists filepath s1 s2,
    BatchReportManager.saveFailedTransfers R env outputDir failedTransfers tokenContract_ s
      = (Return filepath, s1)
    /\ assoc filepath (files s1)
       = Some (JsonText (BatchReportManager.retryData failedTransfers tokenContract_
                           (clockIso env (trace s))))
    /\ BatchTokenSender.loadRecipientsFromJson R filepath s1
       = (Throw (JsError ("Failed to load recipients from " +:+ filepath
                          +:+ ": JSON file must contain an array of recipients")), s2).
Proof.
  intros Hne Hwrite.
  destruct failedTransfers as [|f fs]; [congruence|].
  unfold BatchReportManager.saveFailedTransfers.
  unfold bind at 1, BatchTokenSender.now at 1, bind at 1, getTrace at 1, ret at 1.
  unfold tryCatch.
  unfold bind at 1, BatchTokenSender.now at 1, bind at 1, getTrace at 1, ret at 1.
  unfold bind at 1, BatchReportManager.writeJsonFile at 1.
  unfold bind at 1, getTrace at 1. unfold bind at 1, emit at 1.
  rewrite Hwrite. unfold ret.
  eexists; eexists; eexists. split; [reflexivity|].
  split; [apply assoc_head|].
  unfold BatchTokenSender.loadRecipientsFromJson, tryCatch.
  unfold bind at 1, BatchTokenSender.readFile at 1. unfold bind at 1, emit at 1.
  simpl files. rewrite assoc_head.
  unfold bind at 1, BatchTokenSender.parseFile at 1, ret at 1.
  unfold BatchReportManager.retryData at 1. unfold throw. reflexivity.
Qed.

(** C1 on a run: one failed transfer, saved and fed back in. *)
Lemma failed_transfers_file_is_rejected_witness :
  exists s1 s2,
    BatchReportManager.saveFailedTransfers Demo.runtime
      (Demo.world 0 Demo.bob (inr Demo.receipt)) "./output"
      [Demo.bobFailed] Demo.tokenAddress initialState
      = (Return "./output/failed_transfers_0x000000_2025-01-01T00-00-00-000Z.json", s1)
    /\ BatchTokenSender.loadRecipientsFromJson Demo.runtime
         "./output/failed_transfers_0x000000_2025-01-01T00-00-00-000Z.json" s1
       = (Throw (JsError ("Failed to load recipients from "
                          +:+ "./output/failed_transfers_0x000000_2025-01-01T00-00-00-000Z.json"
                          +:+ ": JSON file must contain an array of recipients")), s2).
Proof.
  destruct (failed_transfers_file_is_rejected Demo.runtime
              (Demo.world 0 Demo.bob (inr Demo.receipt)) "./output"
              [Demo.bobFailed] Demo.tokenAddress initialState
              ltac:(discriminate) ltac:(reflexivity))
    as (filepath & s1 & s2 & Hsave & _ & Hload).
  vm_compute in Hsave. injection Hsave as Hpath Hs1. subst filepath.
  exists s1, s2. split; [subst s1; vm_compute; reflexivity|exact Hload].
Defined.

(** ** Explorer responses *)

Lemma isEmptyArray_false (result : JSON) :
  result <> JArr [] -> EtherscanClient.isEmptyArray result = false.
Proof.
  intros H. destruct result as [| | | |items|]; try reflexivity.
  destruct items; [congruence|reflexivity].
Qed.

(** An operation that throws the same [Error] on every attempt exhausts the
    retry policy. *)
Lemma retryLoop_always_throws {T} (Math_pow : double -> double -> double)
      (config : RetryConfig) (fn : M T)
      (context : option string) (message : string) :
  (forall s, exists s', fn s = (Throw (JsError message), s')) ->
  forall (n fuel : nat) (attempt : Z) (lastError : option Thrown) (s : State),
    (n < fuel)%nat ->
    attempt + Z.of_nat n = maxRetries config ->
    exists s',
      RetryUtil.retryLoop Math_pow config fn context fuel attempt lastError s
        = (Throw (RetryError (RetryUtil.exhaustedMessage config context) (JsError message)
                             (maxRetries config) (maxRetries config)), s').
Proof.
  intros Hfn. induction n as [|n IH]; intros fuel attempt lastError s Hfuel Hatt.
  - destruct fuel as [|fuel]; [lia|]. destruct (Hfn s) as [s0 Hrun].
    exists s0. cbn [RetryUtil.retryLoop].
    replace (attempt <=? maxRetries config) with true by (symmetry; apply Z.leb_le; lia).
    unfold tryCatch. rewrite Hrun.
    replace (attempt =? maxRetries config) with true by (symmetry; apply Z.eqb_eq; lia).
    unfold throw. repeat f_equal. lia.
  - destruct fuel as [|fuel]; [lia|]. destruct (Hfn s) as [s0 Hrun].
    cbn [RetryUtil.retryLoop].
    replace (attempt <=? maxRetries config) with true by (symmetry; apply Z.leb_le; lia).
    unfold tryCatch. rewrite Hrun.
    replace (attempt =? maxRetries config) with false by (symmetry; apply Z.eqb_neq; lia).
    unfold bind, RetryUtil.readMessage, ret, emit, sleep, emit.
    apply IH; lia.
Qed.

(** C7. For a response whose status is ['0'] (the one status the client
    treats as a failure): when its message is ["No transactions found"] or
    ["OK"], or its result is the empty list, the attempt returns the
    response's result, and so does the whole request under a policy of at
    least one attempt; for any other message and result the attempt throws
    an error carrying ["API Error: "] and the message, and a request that
    keeps getting that response fails with the retry error wrapping it. *)
Theorem explorer_failure_status (Math_pow : double -> double -> double)
        (env : Env) (retryConfig : RetryConfig)
        (module action : string) (params : list (string * JSON)) (context : string)
        (s : State) (data : EtherscanResponse) :
  o_httpGet env (trace s) module action params = HttpResponse data ->
  resp_status data = "0" ->
  (resp_message data = "No transactions found" \/ resp_message data = "OK"
   \/ resp_result data = JArr [] ->
   exists s',
     EtherscanClient.requestAttempt env module action params s
       = (Return (resp_result data), s')
     /\ (1 <= maxRetries retryConfig ->
         EtherscanClient.makeRequestOperation Math_pow env retryConfig module action params context s
           = (Return (resp_result data), s')))
  /\
  (resp_message data <> "No transactions found" -> resp_message data <> "OK" ->
   resp_result data <> JArr [] ->
   (exists s',
       EtherscanClient.requestAttempt env module action params s
         = (Throw (JsError ("API Error: " +:+ resp_message data)), s'))
   /\ (1 <= maxRetries retryConfig ->
       (forall tr, o_httpGet env tr module action params = HttpResponse data) ->
       exists s',
         EtherscanClient.makeRequestOperation Math_pow env retryConfig module action params context s
           = (Throw (RetryError (RetryUtil.exhaustedMessage retryConfig (Some context))
                                (JsError ("API Error: " +:+ resp_message data))
                                (maxRetries retryConfig) (maxRetries retryConfig)), s'))).
Proof.
  intros Hget Hstatus.
  assert (Hattempt : forall s0,
             o_httpGet env (trace s0) module action params = HttpResponse data ->
             EtherscanClient.requestAttempt env module action params s0
             = (if EtherscanClient.isNoRecords data
                then Return (resp_result data)
                else Throw (JsError ("API Error: " +:+ resp_message data)),
                snd (EtherscanClient.incrementApiCallCount
                       (pushEvent (EvHttpGet module action) s0)))).
  { intros s0 H0.
    unfold EtherscanClient.requestAttempt, EtherscanClient.httpGet,
      EtherscanClient.interpretResponse, bind, getTrace, emit.
    rewrite H0. unfold ret at 1. simpl. rewrite Hstatus. simpl.
    destruct (EtherscanClient.isNoRecords data); reflexivity. }
  split.
  - intros Hnone.
    assert (Hyes : EtherscanClient.isNoRecords data = true).
    { unfold EtherscanClient.isNoRecords.
      destruct Hnone as [H|[H|H]]; rewrite H; simpl; rewrite ?orb_true_r; reflexivity. }
    eexists. split.
    + rewrite (Hattempt s Hget), Hyes. reflexivity.
    + intros Hmax. unfold EtherscanClient.makeRequestOperation.
      apply executeWithRetry_first_try; [exact Hmax|].
      rewrite (Hattempt s Hget), Hyes. reflexivity.
  - intros Hm1 Hm2 Hres.
    assert (Hno : EtherscanClient.isNoRecords data = false).
    { unfold EtherscanClient.isNoRecords.
      rewrite (isEmptyArray_false _ Hres).
      destruct (String.eqb_spec (resp_message data) "No transactions found"); [congruence|].
      destruct (String.eqb_spec (resp_message data) "OK"); [congruence|]. reflexivity. }
    split.
    + eexists. rewrite (Hattempt s Hget), Hno. reflexivity.
    + intros Hmax Hall. unfold EtherscanClient.makeRequestOperation,
        RetryUtil.executeWithRetry.
      apply (retryLoop_always_throws Math_pow retryConfig _ (Some context)
               ("API Error: " +:+ resp_message data))
        with (n := (Z.to_nat (maxRetries retryConfig) - 1)%nat); [|lia|lia].
      intros s0. eexists. rewrite (Hattempt s0 (Hall _)), Hno. reflexivity.
Qed.

(** C7 on two answers of the explorer: "no transactions" and "NOTOK". *)
Lemma explorer_failure_status_witness :
  (exists s',
      EtherscanClient.makeRequestOperation Demo.powInt (Demo.explorer Demo.noTransactions)
        Demo.retry3 "account" "txlist" [] "getTransactions" initialState
        = (Return (JArr []), s'))
  /\ (exists s',
         EtherscanClient.makeRequestOperation Demo.powInt (Demo.explorer Demo.notOk)
           Demo.retry3 "account" "txlist" [] "getTransactions" initialState
           = (Throw (RetryError "Failed after 3 attempts (getTransactions)"
                                (JsError "API Error: NOTOK") 3 3), s')).
Proof.
  split.
  - destruct (explorer_failure_status Demo.powInt (Demo.explorer Demo.noTransactions) Demo.retry3
                "account" "txlist" [] "getTransactions" initialState Demo.noTransactions
                eq_refl eq_refl) as [Hyes _].
    destruct (Hyes (or_introl eq_refl)) as (s' & _ & Hop).
    exists s'. apply Hop. vm_compute; discriminate.
  - destruct (explorer_failure_status Demo.powInt (Demo.explorer Demo.notOk) Demo.retry3
                "account" "txlist" [] "getTransactions" initialState Demo.notOk
                eq_refl eq_refl) as [_ Hno].
    destruct (Hno ltac:(discriminate) ltac:(discriminate) ltac:(discriminate))
      as [_ Hop].
    apply Hop; [vm_compute; discriminate|reflexivity].
Defined.

(** ** RequestQueue *)

Section QueueFacts.
Import RequestQueue.
Context {V : Type}.
Variable config : QueueConfig.

Abbreviation QState := (@QueueState V).

Lemma removeId_absent (request : nat) (l : list nat) :
  request ∉ l -> removeId request l = l.
Proof.
  induction l as [|y l IH]; intros Hx; [reflexivity|].
  apply not_elem_of_cons in Hx as [Hne Hx].
  unfold removeId in *. simpl.
  replace (y =? request)%nat with false by (symmetry; apply Nat.eqb_neq; congruence).
  simpl. f_equal. apply IH, Hx.
Qed.

Lemma removeId_Permutation (request : nat) (l : list nat) :
  NoDup l -> request ∈ l -> Permutation l (request :: removeId request l).
Proof.
  induction 1 as [|x l Hx Hnd IH]; intros Hin; [inversion Hin|].
  destruct (Nat.eq_dec x request) as [->|Hne].
  - unfold removeId. simpl. rewrite Nat.eqb_refl. simpl.
    fold (removeId request l). rewrite (removeId_absent request l Hx). reflexivity.
  - apply elem_of_cons in Hin as [->|Hin]; [congruence|].
    unfold removeId. simpl.
    replace (x =? request)%nat with false by (symmetry; apply Nat.eqb_neq; exact Hne).
    simpl. fold (removeId request l).
    rewrite (IH Hin) at 1. apply perm_swap.
Qed.

Lemma accounted_NoDup (st : QState) :
  accounted st -> NoDup (requestIds st).
Proof. unfold accounted. intros H. rewrite H. apply NoDup_seq. Qed.

Lemma accounted_range (st : QState) (request : nat) :
  accounted st -> (request ∈ requestIds st <-> (request < created st)%nat).
Proof. unfold accounted. intros H. rewrite H, elem_of_seq. lia. Qed.

Lemma accounted_constructor : accounted (@constructor V).
Proof. unfold accounted, requestIds. simpl. reflexivity. Qed.

Lemma accounted_enqueue (st : QState) : accounted st -> accounted (enqueue st).
Proof.
  unfold accounted, requestIds, enqueue. cbn [queue inFlight settlements created].
  intros H. rewrite seq_S. cbn [Nat.add]. rewrite <- H. solve_Permutation.
Qed.

Lemma accounted_processQueue (st : QState) :
  accounted st -> accounted (processQueue config st).
Proof.
  unfold processQueue. intros H.
  destruct (_ || _); [exact H|].
  destruct (queue st) as [|request rest] eqn:Hq; [exact H|].
  unfold accounted, requestIds in *. simpl. rewrite Hq in H. rewrite <- H.
  solve_Permutation.
Qed.

Lemma accounted_clear (st : QState) : accounted st -> accounted (clear st).
Proof.
  unfold accounted, requestIds. simpl. intros H. rewrite <- H.
  rewrite map_app, map_map. simpl. rewrite map_id. solve_Permutation.
Qed.

Lemma accounted_destroy (st : QState) : accounted st -> accounted (destroy st).
Proof. intros H. unfold destroy. apply accounted_clear. exact H. Qed.

Lemma accounted_complete (st : QState) (request : nat) (result : Thrown + V) :
  accounted st -> request ∈ inFlight st -> accounted (complete request result st).
Proof.
  unfold accounted, requestIds. simpl. intros H Hin.
  assert (Hnd : NoDup (inFlight st)).
  { pose proof (accounted_NoDup st H) as Hall. unfold requestIds in Hall.
    apply NoDup_app in Hall as (_ & _ & Hall). apply NoDup_app in Hall as (Hall & _).
    exact Hall. }
  rewrite <- H. rewrite map_app. simpl.
  rewrite (removeId_Permutation request (inFlight st) Hnd Hin) at 2.
  solve_Permutation.
Qed.

Lemma existsb_eqb_elem (request : nat) (l : list nat) :
  existsb (Nat.eqb request) l = true -> request ∈ l.
Proof.
  intros H. apply existsb_exists in H as (x & Hin & Heq).
  apply Nat.eqb_eq in Heq. subst. apply list_elem_of_In, Hin.
Qed.

Lemma accounted_step (ev : QEvent) (st st' : QState) :
  accounted st -> step config ev st = Some st' -> accounted st'.
Proof.
  intros H Hstep. destruct ev as [| |request result| |]; simpl in Hstep.
  - inversion Hstep; subst. apply accounted_enqueue, H.
  - destruct (intervalId st); [|discriminate].
    inversion Hstep; subst. apply accounted_processQueue, H.
  - destruct (existsb _ _) eqn:Hin; [|discriminate].
    inversion Hstep; subst. apply accounted_complete; [exact H|].
    apply existsb_eqb_elem, Hin.
  - inversion Hstep; subst. apply accounted_clear, H.
  - inversion Hstep; subst. apply accounted_destroy, H.
Qed.

Lemma accounted_run (evs : list QEvent) :
  forall st st' : QState,
    accounted st -> run config evs st = Some st' -> accounted st'.
Proof.
  induction evs as [|ev evs IH]; intros st st' H Hrun; simpl in Hrun.
  - inversion Hrun; subst. exact H.
  - destruct (step config ev st) as [st1|] eqn:Hstep; [|discriminate].
    eapply IH; [|exact Hrun]. eapply accounted_step; eauto.
Qed.

End QueueFacts.

Section SettlementFacts.
Import RequestQueue.
Context {V : Type}.
Variable config : QueueConfig.

Abbreviation QState := (@QueueState V).

Lemma pick_app (request : nat) (l1 l2 : list (nat * @Settlement V)) :
  pick request (l1 ++ l2) = pick request l1 ++ pick request l2.
Proof. unfold pick. rewrite List.filter_app, map_app. reflexivity. Qed.

Lemma pick_absent (request : nat) (l : list (nat * @Settlement V)) :
  request ∉ map fst l -> pick request l = [].
Proof.
  induction l as [|[r x] l IH]; intros H; [reflexivity|].
  simpl in H. apply not_elem_of_cons in H as [Hne H].
  unfold pick in *. simpl.
  replace (r =? request)%nat with false by (symmetry; apply Nat.eqb_neq; congruence).
  apply IH, H.
Qed.

Lemma pick_present (request : nat) (l : list (nat * @Settlement V)) :
  NoDup (map fst l) -> request ∈ map fst l -> exists x, pick request l = [x].
Proof.
  induction l as [|[r x] l IH]; intros Hnd Hin; [inversion Hin|].
  simpl in Hnd, Hin. apply NoDup_cons in Hnd as [Hr Hnd].
  destruct (Nat.eq_dec r request) as [->|Hne].
  - exists x. change ((request, x) :: l) with ([(request, x)] ++ l).
    rewrite pick_app, (pick_absent request l Hr).
    unfold pick. simpl. rewrite Nat.eqb_refl. reflexivity.
  - apply elem_of_cons in Hin as [->|Hin]; [congruence|].
    destruct (IH Hnd Hin) as [y Hy]. exists y.
    change ((r, x) :: l) with ([(r, x)] ++ l). rewrite pick_app, Hy.
    unfold pick. simpl.
    replace (r =? request)%nat with false by (symmetry; apply Nat.eqb_neq; exact Hne).
    reflexivity.
Qed.

(** A request that was created is pending, in flight, or settled exactly
    once. *)
Lemma accounted_cases (st : QState) (request : nat) :
  accounted st -> (request < created st)%nat ->
  ((request ∈ queue st) /\ (request ∉ inFlight st) /\ settlementsOf request st = [])
  \/ ((request ∉ queue st) /\ (request ∈ inFlight st) /\ settlementsOf request st = [])
  \/ ((request ∉ queue st) /\ (request ∉ inFlight st)
      /\ exists x, settlementsOf request st = [x]).
Proof.
  intros Hacc Hlt.
  pose proof (accounted_NoDup st Hacc) as Hnd.
  apply (accounted_range st request Hacc) in Hlt.
  unfold requestIds in *.
  apply NoDup_app in Hnd as (Hq & Hdisj1 & Hnd).
  apply NoDup_app in Hnd as (Hf & Hdisj2 & Hs).
  apply elem_of_app in Hlt as [Hin|Hin]; [|apply elem_of_app in Hin as [Hin|Hin]].
  - left. specialize (Hdisj1 request Hin).
    apply not_elem_of_app in Hdisj1 as [H1 H2].
    split; [exact Hin|]. split; [exact H1|]. apply pick_absent, H2.
  - right; left. split; [|split; [exact Hin|apply pick_absent, Hdisj2, Hin]].
    intros Hq'. apply (Hdisj1 request Hq'). apply elem_of_app. left. exact Hin.
  - right; right. split; [|split].
    + intros Hq'. apply (Hdisj1 request Hq'). apply elem_of_app. right. exact Hin.
    + intros Hf'. apply (Hdisj2 request Hf'). exact Hin.
    + apply pick_present; assumption.
Qed.

Lemma queued_unsettled (st : QState) (request : nat) :
  accounted st -> request ∈ queue st -> settlementsOf request st = [].
Proof.
  intros Hacc Hin.
  assert (Hlt : (request < created st)%nat).
  { apply (accounted_range st request Hacc). unfold requestIds.
    apply elem_of_app. left. exact Hin. }
  destruct (accounted_cases st request Hacc Hlt) as [(_ & _ & H)|[(H & _)|(H & _)]];
    [exact H|contradiction|contradiction].
Qed.

Lemma cleared_rejects (st : QState) (request : nat) :
  accounted st -> request ∈ queue st ->
  settlementsOf request (clear st) = [Rejected (JsError "Queue cleared")].
Proof.
  intros Hacc Hin.
  pose proof (queued_unsettled st request Hacc Hin) as Hnone.
  pose proof (accounted_NoDup st Hacc) as Hnd. unfold requestIds in Hnd.
  apply NoDup_app in Hnd as (Hq & _ & _).
  unfold settlementsOf in *. simpl.
  rewrite pick_app, Hnone. simpl.
  clear Hnone Hacc. induction (queue st) as [|r q IH]; [inversion Hin|].
  apply NoDup_cons in Hq as [Hr Hq].
  destruct (Nat.eq_dec r request) as [->|Hne].
  - unfold pick. simpl. rewrite Nat.eqb_refl. simpl. f_equal.
    fold (pick request (map (fun r => (r, @Rejected V (JsError "Queue cleared"))) q)).
    apply pick_absent. rewrite map_map. simpl. rewrite map_id. exact Hr.
  - apply elem_of_cons in Hin as [->|Hin]; [congruence|].
    unfold pick. simpl.
    replace (r =? request)%nat with false by (symmetry; apply Nat.eqb_neq; exact Hne).
    apply IH; assumption.
Qed.

(** Once the timer is stopped, a queued request stays queued for as long
    as nobody clears the queue. *)
Lemma stays_pending (request : nat) (evs : list QEvent) :
  forall st st' : QState,
    intervalId st = false ->
    request ∈ queue st ->
    quietEvents evs ->
    run config evs st = Some st' ->
    (request ∈ queue st') /\ intervalId st' = false.
Proof.
  induction evs as [|ev evs IH]; intros st st' Hoff Hin Hev Hrun; simpl in Hrun.
  - inversion Hrun; subst. auto.
  - unfold quietEvents in Hev. simpl in Hev. apply andb_true_iff in Hev as [Hev1 Hev].
    destruct ev as [| |r result| |]; simpl in Hrun, Hev1; try discriminate.
    + eapply IH; [| |exact Hev|exact Hrun]; simpl; [exact Hoff|].
      apply elem_of_app. left. exact Hin.
    + rewrite Hoff in Hrun. discriminate.
    + destruct (existsb _ _); [|discriminate].
      eapply IH; [| |exact Hev|exact Hrun]; simpl; assumption.
Qed.

End SettlementFacts.

Section ProgressFacts.
Import RequestQueue.
Context {V : Type}.
Variable config : QueueConfig.
Variable results : nat -> Thrown + V.

Abbreviation QState := (@QueueState V).

Lemma run_cons (ev : @QEvent V) (evs : list (@QEvent V)) (st : QState) :
  run config (ev :: evs) st
  = match step config ev st with
    | Some st' => run config evs st'
    | None => None
    end.
Proof. reflexivity. Qed.

Lemma run_app (evs1 evs2 : list (@QEvent V)) (st st1 : QState) :
  run config evs1 st = Some st1 ->
  run config (evs1 ++ evs2) st = run config evs2 st1.
Proof.
  revert st. induction evs1 as [|ev evs1 IH]; intros st H; simpl in *.
  - inversion H; subst. reflexivity.
  - destruct (step config ev st) as [st0|]; [|discriminate]. apply IH, H.
Qed.

Lemma balanced_step (ev : QEvent) (st st' : QState) :
  accounted st -> balanced st -> step config ev st = Some st' -> balanced st'.
Proof.
  unfold balanced. intros Hacc Hbal Hstep.
  destruct ev as [| |request result| |]; simpl in Hstep.
  - inversion Hstep; subst. exact Hbal.
  - destruct (intervalId st); [|discriminate]. inversion Hstep; subst.
    unfold processQueue. destruct (_ || _); [exact Hbal|].
    destruct (queue st); [exact Hbal|]. simpl. rewrite length_app. simpl. lia.
  - destruct (existsb _ _) eqn:Hin; [|discriminate]. inversion Hstep; subst. simpl.
    apply existsb_eqb_elem in Hin.
    assert (Hnd : NoDup (inFlight st)).
    { pose proof (accounted_NoDup st Hacc) as Hall. unfold requestIds in Hall.
      apply NoDup_app in Hall as (_ & _ & Hall). apply NoDup_app in Hall as (Hall & _).
      exact Hall. }
    pose proof (removeId_Permutation request (inFlight st) Hnd Hin) as Hperm.
    apply Permutation_length in Hperm. simpl in Hperm. lia.
  - inversion Hstep; subst. exact Hbal.
  - inversion Hstep; subst. exact Hbal.
Qed.

Lemma balanced_run (evs : list QEvent) :
  forall st st' : QState,
    accounted st -> balanced st -> run config evs st = Some st' -> balanced st'.
Proof.
  induction evs as [|ev evs IH]; intros st st' Hacc Hbal Hrun; simpl in Hrun.
  - inversion Hrun; subst. exact Hbal.
  - destruct (step config ev st) as [st1|] eqn:Hstep; [|discriminate].
    eapply IH; [| |exact Hrun].
    + eapply accounted_step; eauto.
    + eapply balanced_step; eauto.
Qed.

(** Letting one in-flight operation settle. *)
Lemma settle_in_flight (st : QState) (request : nat) :
  accounted st -> request ∈ inFlight st ->
  step config (FnSettles request (results request)) st
    = Some (complete request (results request) st)
  /\ settlementsOf request (complete request (results request) st)
     = [forwarded (results request)].
Proof.
  intros Hacc Hin. split.
  - simpl. replace (existsb (Nat.eqb request) (inFlight st)) with true; [reflexivity|].
    symmetry. apply existsb_exists. exists request. split.
    + apply list_elem_of_In, Hin.
    + apply Nat.eqb_refl.
  - assert (Hlt : (request < created st)%nat).
    { apply (accounted_range st request Hacc). unfold requestIds.
      apply elem_of_app. right. apply elem_of_app. left. exact Hin. }
    destruct (accounted_cases st request Hacc Hlt)
      as [(_ & H & _)|[(_ & _ & H)|(_ & H & _)]]; try contradiction.
    unfold settlementsOf in *. simpl. rewrite pick_app, H.
    unfold pick. simpl. rewrite Nat.eqb_refl. reflexivity.
Qed.

Lemma inFlight_NoDup (st : QState) : accounted st -> NoDup (inFlight st).
Proof.
  intros Hacc. pose proof (accounted_NoDup st Hacc) as Hall. unfold requestIds in Hall.
  apply NoDup_app in Hall as (_ & _ & Hall). apply NoDup_app in Hall as (Hall & _).
  exact Hall.
Qed.

(** Letting every in-flight operation settle empties the slots and leaves
    the queue and the timer as they were. *)
Lemma drain (n : nat) :
  forall st : QState,
    accounted st -> length (inFlight st) = n ->
    exists evs st',
      quietEvents evs /\ run config evs st = Some st'
      /\ inFlight st' = [] /\ queue st' = queue st
      /\ intervalId st' = intervalId st.
Proof.
  induction n as [|n IH]; intros st Hacc Hlen.
  - exists [], st. split; [reflexivity|]. split; [reflexivity|].
    split; [|auto]. destruct (inFlight st); [reflexivity|discriminate].
  - destruct (inFlight st) as [|h rest] eqn:Hfl; [discriminate|].
    assert (Hin : h ∈ inFlight st) by (rewrite Hfl; apply list_elem_of_here).
    destruct (settle_in_flight st h Hacc Hin) as [Hstep _].
    set (st1 := complete h (results h) st) in *.
    assert (Hacc1 : accounted st1) by (eapply accounted_step; eauto).
    assert (Hfl1 : inFlight st1 = rest).
    { subst st1. simpl. rewrite Hfl. unfold removeId. simpl.
      rewrite Nat.eqb_refl. simpl. fold (removeId h rest).
      apply removeId_absent.
      pose proof (inFlight_NoDup st Hacc) as Hnd. rewrite Hfl in Hnd.
      apply NoDup_cons in Hnd as [Hnd _]. exact Hnd. }
    destruct (IH st1 Hacc1) as (evs & st' & Hq & Hrun & Hnone & Hqueue & Htimer).
    { rewrite Hfl1. simpl in Hlen. lia. }
    exists (FnSettles h (results h) :: evs), st'.
    split; [exact Hq|]. split; [rewrite run_cons, Hstep; exact Hrun|].
    split; [exact Hnone|]. split; [rewrite Hqueue; reflexivity|].
    rewrite Htimer. reflexivity.
Qed.

(** With the timer running and the slots free, the queue is served from
    its head: each tick dispatches one request, which then settles. *)
Lemma serve (request : nat) (after : list nat) :
  1 <= maxConcurrent config ->
  forall (before : list nat) (st : QState),
    accounted st -> balanced st ->
    intervalId st = true -> inFlight st = [] ->
    queue st = before ++ request :: after ->
    exists evs st',
      quietEvents evs /\ run config evs st = Some st'
      /\ settlementsOf request st' = [forwarded (results request)].
Proof.
  intros Hmax. induction before as [|h before IH]; intros st Hacc Hbal Hon Hfl Hq.
  - assert (Hstep : step config Tick st = Some (processQueue config st))
      by (simpl; rewrite Hon; reflexivity).
    assert (Hfl1 : inFlight (processQueue config st) = [request]).
    { unfold processQueue. unfold balanced in Hbal. rewrite Hfl in Hbal.
      change (activeRequests st = 0) in Hbal.
      rewrite Hq, Hbal. simpl.
      replace (0 >=? maxConcurrent config) with false
        by (symmetry; rewrite Z.geb_leb; apply Z.leb_gt; lia).
      simpl. rewrite Hfl. reflexivity. }
    assert (Hacc1 : accounted (processQueue config st)) by (eapply accounted_step; eauto).
    destruct (settle_in_flight (processQueue config st) request Hacc1) as [Hs1 Hs2].
    { rewrite Hfl1. apply list_elem_of_here. }
    exists [Tick; FnSettles request (results request)]. eexists.
    split; [reflexivity|]. split; [|exact Hs2].
    rewrite run_cons, Hstep, run_cons, Hs1. reflexivity.
  - assert (Hstep : step config Tick st = Some (processQueue config st))
      by (simpl; rewrite Hon; reflexivity).
    assert (Hshape : inFlight (processQueue config st) = [h]
                     /\ queue (processQueue config st) = before ++ request :: after
                     /\ intervalId (processQueue config st) = true).
    { unfold processQueue. unfold balanced in Hbal. rewrite Hfl in Hbal.
      change (activeRequests st = 0) in Hbal.
      rewrite Hq, Hbal. simpl.
      replace (0 >=? maxConcurrent config) with false
        by (symmetry; rewrite Z.geb_leb; apply Z.leb_gt; lia).
      simpl. rewrite Hfl. split; [reflexivity|]. split; [reflexivity|exact Hon]. }
    destruct Hshape as (Hfl1 & Hq1 & Hon1).
    assert (Hacc1 : accounted (processQueue config st)) by (eapply accounted_step; eauto).
    assert (Hbal1 : balanced (processQueue config st))
      by (exact (balanced_step Tick st _ Hacc Hbal Hstep)).
    destruct (settle_in_flight (processQueue config st) h Hacc1) as [Hs1 _].
    { rewrite Hfl1. apply list_elem_of_here. }
    set (st2 := complete h (results h) (processQueue config st)) in *.
    assert (Hacc2 : accounted st2)
      by (exact (accounted_step config _ _ _ Hacc1 Hs1)).
    assert (Hbal2 : balanced st2)
      by (exact (balanced_step _ _ _ Hacc1 Hbal1 Hs1)).
    destruct (IH st2 Hacc2 Hbal2) as (evs & st' & Hquiet & Hrun & Hdone).
    + subst st2. simpl. exact Hon1.
    + subst st2. simpl. rewrite Hfl1. unfold removeId. simpl.
      rewrite Nat.eqb_refl. reflexivity.
    + subst st2. simpl. exact Hq1.
    + exists (Tick :: FnSettles h (results h) :: evs), st'.
      split; [exact Hquiet|]. split; [|exact Hdone].
      rewrite run_cons, Hstep, run_cons, Hs1. exact Hrun.
Qed.

(** On a queue whose timer runs, every request that is pending or in
    flight gets settled with its operation's outcome once the operations
    in flight settle and the timer keeps ticking. *)
Lemma can_settle (st : QState) (request : nat) :
  accounted st -> balanced st ->
  intervalId st = true -> 1 <= maxConcurrent config ->
  request ∈ queue st \/ request ∈ inFlight st ->
  exists evs st',
    quietEvents evs /\ run config evs st = Some st'
    /\ settlementsOf request st' = [forwarded (results request)].
Proof.
  intros Hacc Hbal Hon Hmax [Hin|Hin].
  - destruct (drain (length (inFlight st)) st Hacc eq_refl)
      as (evs1 & st1 & Hq1 & Hrun1 & Hfl1 & Hqueue1 & Hon1).
    apply list_elem_of_split in Hin as (before & after & Hsplit).
    destruct (serve request after Hmax before st1) as (evs2 & st' & Hq2 & Hrun2 & Hdone).
    + eapply accounted_run; eauto.
    + eapply balanced_run; eauto.
    + rewrite Hon1. exact Hon.
    + exact Hfl1.
    + rewrite Hqueue1. exact Hsplit.
    + exists (evs1 ++ evs2), st'. split; [|split; [|exact Hdone]].
      * unfold quietEvents in *. rewrite forallb_app, Hq1, Hq2. reflexivity.
      * rewrite (run_app evs1 evs2 st st1 Hrun1). exact Hrun2.
  - destruct (settle_in_flight st request Hacc Hin) as [Hs1 Hs2].
    exists [FnSettles request (results request)]. eexists.
    split; [reflexivity|]. split; [rewrite run_cons, Hs1; reflexivity|exact Hs2].
Qed.

End ProgressFacts.

(** The queue that was destroyed and then given one operation keeps it
    pending: no tick can fire, and no settling of other operations touches
    it. *)
Lemma orphaned_stays_pending (evs : list (@RequestQueue.QEvent string))
      (st' : @RequestQueue.QueueState string) :
  RequestQueue.quietEvents evs ->
  RequestQueue.run RequestQueue.createDefaultConfig evs Demo.orphaned = Some st' ->
  (0%nat ∈ RequestQueue.queue st') /\ RequestQueue.settlementsOf 0 st' = [].
Proof.
  intros Hev Hrun.
  assert (Hacc : RequestQueue.accounted Demo.orphaned).
  { change Demo.orphaned
      with (RequestQueue.enqueue (RequestQueue.destroy (@RequestQueue.constructor string))).
    apply accounted_enqueue, accounted_destroy, accounted_constructor. }
  destruct (stays_pending RequestQueue.createDefaultConfig 0 evs Demo.orphaned st'
              eq_refl ltac:(apply list_elem_of_here) Hev Hrun) as [Hin _].
  split; [exact Hin|].
  apply queued_unsettled; [|exact Hin].
  eapply accounted_run; eauto.
Qed.

(** C5, as stated, fails after [destroy()]: [enqueue] accepts the
    operation without complaint, the timer that would dispatch it is gone,
    and whatever else happens short of another [clear()] or [destroy()], its
    promise is never settled. *)
Lemma enqueue_after_destroy_never_settles :
  RequestQueue.run RequestQueue.createDefaultConfig
    [RequestQueue.Destroy; RequestQueue.Enqueue] (@RequestQueue.constructor string)
    = Some Demo.orphaned
  /\ RequestQueue.step RequestQueue.createDefaultConfig RequestQueue.Tick Demo.orphaned = None
  /\ (forall evs st',
         RequestQueue.quietEvents evs ->
         RequestQueue.run RequestQueue.createDefaultConfig evs Demo.orphaned = Some st' ->
         (0%nat ∈ RequestQueue.queue st') /\ RequestQueue.settlementsOf 0 st' = []).
Proof.
  split; [reflexivity|]. split; [reflexivity|].
  intros evs st'. apply orphaned_stays_pending.
Qed.

(** C5, amended.  In every state the queue can reach, each request that was
    enqueued is pending, in flight, or settled, and its promise has been
    settled at most once: exactly once when it is neither pending nor in
    flight.  [clear()] and [destroy()] reject each pending request with
    ["Queue cleared"].  While the timer runs, a tick dispatches the head of
    the queue when a slot is free, and the request is then settled with its
    operation's result or error; every pending or in-flight request is
    settled that way once the operations in flight settle and the timer
    keeps ticking.  After [destroy()], [enqueue] still accepts an operation,
    and its promise stays unsettled until a later [clear()] or
    [destroy()]. *)
Theorem request_settles_at_most_once {V : Type} (config : QueueConfig)
        (evs : list (@RequestQueue.QEvent V)) (st : @RequestQueue.QueueState V) :
  RequestQueue.run config evs RequestQueue.constructor = Some st ->
  (forall request, (request < RequestQueue.created st)%nat ->
      ((request ∈ RequestQueue.queue st) /\ (request ∉ RequestQueue.inFlight st)
       /\ RequestQueue.settlementsOf request st = [])
      \/ ((request ∉ RequestQueue.queue st) /\ (request ∈ RequestQueue.inFlight st)
          /\ RequestQueue.settlementsOf request st = [])
      \/ ((request ∉ RequestQueue.queue st) /\ (request ∉ RequestQueue.inFlight st)
          /\ exists x, RequestQueue.settlementsOf request st = [x]))
  /\ (forall request, request ∈ RequestQueue.queue st ->
        RequestQueue.settlementsOf request (RequestQueue.clear st)
          = [RequestQueue.Rejected (JsError "Queue cleared")]
        /\ RequestQueue.settlementsOf request (RequestQueue.destroy st)
           = [RequestQueue.Rejected (JsError "Queue cleared")])
  /\ (RequestQueue.intervalId st = true ->
      forall request rest,
        RequestQueue.queue st = request :: rest ->
        RequestQueue.activeRequests st < maxConcurrent config ->
        exists st1,
          RequestQueue.step config RequestQueue.Tick st = Some st1
          /\ (request ∈ RequestQueue.inFlight st1)
          /\ forall result, exists st2,
               RequestQueue.step config (RequestQueue.FnSettles request result) st1 = Some st2
               /\ RequestQueue.settlementsOf request st2 = [RequestQueue.forwarded result])
  /\ (RequestQueue.intervalId st = true ->
      1 <= maxConcurrent config ->
      forall (results : nat -> Thrown + V) request,
        (request ∈ RequestQueue.queue st) \/ (request ∈ RequestQueue.inFlight st) ->
        exists evs' st',
          RequestQueue.quietEvents evs'
          /\ RequestQueue.run config evs' st = Some st'
          /\ RequestQueue.settlementsOf request st'
             = [RequestQueue.forwarded (results request)])
  /\ (RequestQueue.intervalId st = false ->
      forall evs' st',
        RequestQueue.quietEvents evs' ->
        RequestQueue.run config evs' (RequestQueue.enqueue st) = Some st' ->
        (RequestQueue.created st ∈ RequestQueue.queue st')
        /\ RequestQueue.settlementsOf (RequestQueue.created st) st' = []).
Proof.
  intros Hrun.
  assert (Hacc : RequestQueue.accounted st).
  { eapply accounted_run; [apply accounted_constructor|exact Hrun]. }
  assert (Hbal : RequestQueue.balanced st).
  { eapply balanced_run; [apply accounted_constructor|reflexivity|exact Hrun]. }
  split; [|split; [|split; [|split]]].
  - intros request Hlt. apply accounted_cases; assumption.
  - intros request Hin. split.
    + apply cleared_rejects; assumption.
    + unfold RequestQueue.destroy. apply cleared_rejects; [|exact Hin].
      exact Hacc.
  - intros Hon request rest Hq Hslot.
    assert (Hstep : RequestQueue.processQueue config st
                    = {| RequestQueue.queue := rest;
                         RequestQueue.activeRequests := RequestQueue.activeRequests st + 1;
                         RequestQueue.intervalId := RequestQueue.intervalId st;
                         RequestQueue.inFlight := RequestQueue.inFlight st ++ [request];
                         RequestQueue.settlements := RequestQueue.settlements st;
                         RequestQueue.created := RequestQueue.created st |}).
    { unfold RequestQueue.processQueue. rewrite Hq.
      replace (RequestQueue.activeRequests st >=? maxConcurrent config) with false
        by (symmetry; rewrite Z.geb_leb; apply Z.leb_gt; lia).
      reflexivity. }
    eexists. split; [simpl; rewrite Hon, Hstep; reflexivity|].
    split; [simpl; apply elem_of_app; right; apply list_elem_of_here|].
    intros result. eexists. split.
    + simpl. rewrite existsb_app. simpl. rewrite Nat.eqb_refl, orb_true_r. reflexivity.
    + unfold RequestQueue.settlementsOf. simpl. rewrite pick_app.
      assert (Hnone : RequestQueue.settlementsOf request st = []).
      { apply queued_unsettled; [exact Hacc|]. rewrite Hq. apply list_elem_of_here. }
      unfold RequestQueue.settlementsOf in Hnone. rewrite Hnone.
      unfold RequestQueue.pick. simpl. rewrite Nat.eqb_refl. reflexivity.
  - intros Hon Hmax results request Hin.
    apply can_settle; assumption.
  - intros Hoff evs' st' Hev Hrun'.
    assert (Hacc1 : RequestQueue.accounted (RequestQueue.enqueue st))
      by (apply accounted_enqueue, Hacc).
    destruct (stays_pending config (RequestQueue.created st) evs'
                (RequestQueue.enqueue st) st') as [Hin _]; try assumption.
    + simpl. apply elem_of_app. right. apply list_elem_of_here.
    + split; [exact Hin|]. apply queued_unsettled; [|exact Hin].
      eapply accounted_run; eauto.
Qed.

(** C5 on a run: three operations on a default queue; the first is
    dispatched and resolves, the other two are rejected by [clear()]. *)
Lemma request_settles_at_most_once_witness :
  exists st : @RequestQueue.QueueState string,
    RequestQueue.run RequestQueue.createDefaultConfig
      [RequestQueue.Enqueue; RequestQueue.Enqueue; RequestQueue.Tick; RequestQueue.Enqueue;
       RequestQueue.FnSettles 0 (inr "done"); RequestQueue.Clear]
      RequestQueue.constructor = Some st
    /\ RequestQueue.settlementsOf 0 st = [RequestQueue.Resolved "done"]
    /\ RequestQueue.settlementsOf 1 st = [RequestQueue.Rejected (JsError "Queue cleared")]
    /\ ((0%nat ∉ RequestQueue.queue st) /\ (0%nat ∉ RequestQueue.inFlight st)
        /\ exists x, RequestQueue.settlementsOf 0 st = [x]).
Proof.
  eexists. split; [reflexivity|]. split; [reflexivity|]. split; [reflexivity|].
  destruct (request_settles_at_most_once RequestQueue.createDefaultConfig
              [RequestQueue.Enqueue; RequestQueue.Enqueue; RequestQueue.Tick;
               RequestQueue.Enqueue; RequestQueue.FnSettles 0 (inr "done");
               RequestQueue.Clear] _ eq_refl) as (Hcases & _).
  destruct (Hcases 0%nat ltac:(vm_compute; lia))
    as [(Hq & _)|[(_ & Hf & _)|Hdone]].
  - vm_compute in Hq. inversion Hq.
  - vm_compute in Hf. inversion Hf.
  - exact Hdone.
Defined.

(** ** validateRecipients *)

Section ValidateFacts.
Import BatchTokenSender.
Variable R : Runtime.

(** What an accepted list tells: the output is the input normalised, in
    order, after what was already validated; every address is well formed;
    no two share a checksummed form, and none was seen before. *)
Lemma validateLoop_accepted :
  forall (recipients : list BatchRecipient) (seen : gset string)
         (validated out : list BatchRecipient),
    validateLoop R (map toRaw recipients) seen validated = inr out ->
    out = validated ++ map (normalised R) recipients
    /\ NoDup (map (fun r => getAddress R (address r)) recipients)
    /\ (forall r, r ∈ recipients -> getAddress R (address r) ∉ seen).
Proof.
  induction recipients as [|r recipients IH]; intros seen validated out H; simpl in H.
  - inversion H; subst. rewrite app_nil_r.
    split; [reflexivity|]. split; [constructor|]. intros r Hr. inversion Hr.
  - destruct (isAddress R (address r)); [|discriminate].
    destruct (decide (getAddress R (address r) ∈ seen)) as [|Hfresh]; [discriminate|].
    destruct (isNaN R (parseFloat R (amount r))
              || num_leb R (parseFloat R (amount r)) (num_ofZ R 0)); [discriminate|].
    apply IH in H as (Hout & Hnd & Hseen).
    split; [|split].
    + rewrite Hout, <- app_assoc. reflexivity.
    + simpl. constructor; [|exact Hnd].
      intros Hin. apply list_elem_of_fmap in Hin as (r' & Heq & Hr').
      apply (Hseen r' Hr'). rewrite <- Heq.
      apply elem_of_union. left. apply elem_of_singleton. reflexivity.
    + intros r' Hr'. apply elem_of_cons in Hr' as [->|Hr']; [exact Hfresh|].
      intros Hin. apply (Hseen r' Hr'). apply elem_of_union. right. exact Hin.
Qed.

(** Once a checksummed form has been seen, or occurs among the entries
    still to come before [second], and those entries are all accepted,
    the loop stops at [second] with the duplicate error. *)
Lemma validateLoop_duplicate (second : BatchRecipient) (after : list BatchRecipient) :
  isAddress R (address second) = true ->
  forall (before : list BatchRecipient) (seen : gset string)
         (validated out : list BatchRecipient),
    validateLoop R (map toRaw before) seen validated = inr out ->
    (getAddress R (address second) ∈ seen
     \/ exists first, (first ∈ before)
                      /\ getAddress R (address first) = getAddress R (address second)) ->
    validateLoop R (map toRaw (before ++ second :: after)) seen validated
    = inl (JsError ("Duplicate address found: " +:+ getAddress R (address second))).
Proof.
  intros Hvalid. induction before as [|r before IH]; intros seen validated out H Hdup.
  - simpl. rewrite Hvalid.
    destruct Hdup as [Hseen|(first & Hin & _)]; [|inversion Hin].
    destruct (decide (getAddress R (address second) ∈ seen)); [reflexivity|contradiction].
  - simpl in H |- *.
    destruct (isAddress R (address r)); [|discriminate].
    destruct (decide (getAddress R (address r) ∈ seen)) as [|Hfresh]; [discriminate|].
    destruct (isNaN R (parseFloat R (amount r))
              || num_leb R (parseFloat R (amount r)) (num_ofZ R 0)); [discriminate|].
    eapply IH; [exact H|].
    destruct Hdup as [Hseen|(first & Hin & Heq)].
    + left. apply elem_of_union. right. exact Hseen.
    + apply elem_of_cons in Hin as [->|Hin].
      * left. rewrite Heq. apply elem_of_union. left.
        apply elem_of_singleton. reflexivity.
      * right. exists first. auto.
Qed.

(** The loop fails fast: the error of a rejected prefix is the error of
    the whole list. *)
Lemma validateLoop_prefix_error (after : list BatchRecipient) (e : Thrown) :
  forall (before : list BatchRecipient) (seen : gset string)
         (validated : list BatchRecipient),
    validateLoop R (map toRaw before) seen validated = inl e ->
    validateLoop R (map toRaw (before ++ after)) seen validated = inl e.
Proof.
  induction before as [|r before IH]; intros seen validated H; [discriminate|].
  simpl in H |- *.
  destruct (isAddress R (address r)); [|exact H].
  destruct (decide (getAddress R (address r) ∈ seen)); [exact H|].
  destruct (isNaN R (parseFloat R (amount r))
            || num_leb R (parseFloat R (amount r)) (num_ofZ R 0)); [exact H|].
  apply IH, H.
Qed.

End ValidateFacts.

(** C10, as stated, fails: the loop checks each entry's amount before it
    moves on, so a list whose first entry has a bad amount is rejected for
    that, although a later entry repeats the first one's address in another
    letter case. *)
Lemma duplicate_masked_by_invalid_amount :
  isAddress Demo.runtime Demo.alice = true
  /\ isAddress Demo.runtime Demo.aliceUpper = true
  /\ Demo.alice <> Demo.aliceUpper
  /\ getAddress Demo.runtime Demo.alice = getAddress Demo.runtime Demo.aliceUpper
  /\ BatchTokenSender.validateRecipients Demo.runtime
       [ {| address := Demo.alice; amount := "0" |};
         {| address := Demo.aliceUpper; amount := "5" |} ]
     = inl (JsError ("Invalid amount for " +:+ Demo.alice +:+ ": 0")).
Proof.
  split; [reflexivity|]. split; [reflexivity|]. split; [discriminate|].
  split; [reflexivity|]. vm_compute. reflexivity.
Qed.

(** C10, amended.  A list holding two entries whose addresses share a
    checksummed form is never accepted; the error is the duplicate-address
    error, naming the checksummed form, whenever the entries before the
    second of the two are themselves accepted and its address is well
    formed; when an earlier part of the list is rejected, its error is the
    one raised.  For every accepted list the output is the input in the
    same order and of the same length, each address replaced by its
    checksummed form and each amount string unchanged. *)
Theorem validateRecipients_duplicates_and_output (R : Runtime)
        (recipients : list BatchRecipient) :
  (forall i j first second,
      i <> j ->
      recipients !! i = Some first ->
      recipients !! j = Some second ->
      getAddress R (address first) = getAddress R (address second) ->
      exists e, BatchTokenSender.validateRecipients R recipients = inl e)
  /\ (forall before first second after accepted,
         recipients = before ++ second :: after ->
         first ∈ before ->
         getAddress R (address first) = getAddress R (address second) ->
         isAddress R (address second) = true ->
         BatchTokenSender.validateRecipients R before = inr accepted ->
         BatchTokenSender.validateRecipients R recipients
         = inl (JsError ("Duplicate address found: " +:+ getAddress R (address second))))
  /\ (forall before after e,
         recipients = before ++ after ->
         BatchTokenSender.validateRecipients R before = inl e ->
         BatchTokenSender.validateRecipients R recipients = inl e)
  /\ (forall out,
         BatchTokenSender.validateRecipients R recipients = inr out ->
         out = map (fun r => {| address := getAddress R (address r); amount := amount r |})
                   recipients
         /\ length out = length recipients
         /\ map amount out = map amount recipients).
Proof.
  split; [|split; [|split]].
  - intros i j first second Hij Hi Hj Heq.
    destruct (BatchTokenSender.validateRecipients R recipients) as [e|out] eqn:Hrun;
      [exists e; reflexivity|].
    exfalso. apply validateLoop_accepted in Hrun as (_ & Hnd & _).
    apply Hij. eapply NoDup_lookup; [exact Hnd| |].
    + rewrite list_lookup_fmap, Hi. reflexivity.
    + rewrite list_lookup_fmap, Hj. simpl. rewrite Heq. reflexivity.
  - intros before first second after accepted -> Hin Heq Hvalid Hbefore.
    unfold BatchTokenSender.validateRecipients in *.
    eapply validateLoop_duplicate; [exact Hvalid|exact Hbefore|].
    right. exists first. auto.
  - intros before after e -> Hbefore.
    unfold BatchTokenSender.validateRecipients in *.
    apply validateLoop_prefix_error, Hbefore.
  - intros out Hrun. apply validateLoop_accepted in Hrun as (Hout & _ & _).
    simpl in Hout. subst out. split; [reflexivity|].
    split; [rewrite length_map; reflexivity|].
    rewrite map_map. reflexivity.
Qed.

(** C10 on two lists: one address in two letter cases, and three distinct
    recipients. *)
Lemma validateRecipients_duplicates_and_output_witness :
  BatchTokenSender.validateRecipients Demo.runtime
    [ {| address := Demo.alice; amount := "100" |};
      {| address := Demo.aliceUpper; amount := "5" |} ]
  = inl (JsError ("Duplicate address found: " +:+ Demo.alice))
  /\ BatchTokenSender.validateRecipients Demo.runtime Demo.threeRecipients
     = inr Demo.threeRecipients.
Proof.
  split.
  - destruct (validateRecipients_duplicates_and_output Demo.runtime
                [ {| address := Demo.alice; amount := "100" |};
                  {| address := Demo.aliceUpper; amount := "5" |} ])
      as (_ & Hdup & _ & _).
    apply (Hdup [ {| address := Demo.alice; amount := "100" |} ]
                {| address := Demo.alice; amount := "100" |}
                {| address := Demo.aliceUpper; amount := "5" |} []
                [ {| address := Demo.alice; amount := "100" |} ]);
      first [reflexivity | apply list_elem_of_here].
  - destruct (validateRecipients_duplicates_and_output Demo.runtime Demo.threeRecipients)
      as (_ & _ & _ & Hout).
    destruct (BatchTokenSender.validateRecipients Demo.runtime Demo.threeRecipients)
      as [e|out] eqn:Hrun; [vm_compute in Hrun; discriminate|].
    destruct (Hout out eq_refl) as (-> & _). reflexivity.
Defined.

(** * Further properties of the code *)

(** ** RetryUtil: budget, backoff schedule, classification of errors *)

Lemma sleeps_app (tr1 tr2 : Trace) : sleeps (tr1 ++ tr2) = sleeps tr1 ++ sleeps tr2.
Proof.
  induction tr1 as [|e tr1 IH]; simpl; [reflexivity|].
  destruct e; simpl; rewrite ?IH; reflexivity.
Qed.

Lemma sleeps_pushEvent (e : Event) (s : State) :
  sleeps (trace (pushEvent e s))
  = sleeps (trace s) ++ match e with EvSleep ms => [ms] | _ => [] end.
Proof.
  unfold pushEvent. simpl. rewrite sleeps_app. simpl. destruct e; reflexivity.
Qed.

(** X1.  With a budget of zero (or a negative one) the loop body never
    runs: the operation is not invoked, nothing is recorded, and the
    promise is rejected with the unassigned [lastError], that is with
    [undefined]. *)
Theorem executeWithRetry_without_budget {T : Type} (Math_pow : double -> double -> double)
      (config : RetryConfig) (fn : M T)
        (context : option string) (s : State) :
  maxRetries config <= 0 ->
  RetryUtil.executeWithRetry Math_pow config fn context s = (Throw ThrownUndefined, s).
Proof.
  intros Hbudget. unfold RetryUtil.executeWithRetry. cbn [RetryUtil.retryLoop].
  replace (1 <=? maxRetries config) with false by (symmetry; apply Z.leb_gt; lia).
  reflexivity.
Qed.

Lemma executeWithRetry_without_budget_witness :
  RetryUtil.executeWithRetry Demo.powInt
    {| maxRetries := 0; baseDelayMs := 100; maxDelayMs := 1000; backoffMultiplier := 2 |}
    (mockFn Demo.flaky) None initialState
  = (Throw ThrownUndefined, initialState).
Proof.
  apply (executeWithRetry_without_budget Demo.powInt
           {| maxRetries := 0; baseDelayMs := 100; maxDelayMs := 1000;
              backoffMultiplier := 2 |} (mockFn Demo.flaky) None initialState).
  simpl. lia.
Defined.

Section BackoffFacts.
Import RetryUtil.
Context {T : Type}.
Variable Math_pow : double -> double -> double.
Variable config : RetryConfig.
Variable outcomes : nat -> string + T.
Variable context : option string.

Lemma delaysFrom_S (attempt : Z) (n : nat) :
  delaysFrom Math_pow config attempt (S n)
  = calculateDelay Math_pow config attempt :: delaysFrom Math_pow config (attempt + 1) n.
Proof.
  unfold delaysFrom. cbn [seq map]. rewrite Z.add_0_r. f_equal.
  rewrite <- seq_shift, map_map. apply map_ext. intros k. f_equal. lia.
Qed.

Lemma mockFn_sleeps (s : State) :
  sleeps (trace (snd (mockFn outcomes s))) = sleeps (trace s).
Proof.
  unfold mockFn, bind, getTrace, emit. simpl.
  destruct (outcomes (countEv isInvoke (trace s))); simpl;
    rewrite sleeps_app; simpl; apply app_nil_r.
Qed.

Lemma retryLoop_fail_sleeps (fuel : nat) (attempt : Z) (lastError : option Thrown)
      (msg : string) (s : State) :
  attempt < maxRetries config ->
  outcomes (invocations s) = inl msg ->
  exists s1,
    invocations s1 = S (invocations s)
    /\ sleeps (trace s1) = sleeps (trace s) ++ [calculateDelay Math_pow config attempt]
    /\ retryLoop Math_pow config (mockFn outcomes) context (S fuel) attempt lastError s
       = retryLoop Math_pow config (mockFn outcomes) context fuel (attempt + 1)
                   (Some (JsError msg)) s1.
Proof.
  intros Hlt Hout.
  destruct (mockFn_step outcomes s) as (s0 & Hrun & Hinv). rewrite Hout in Hrun.
  pose proof (mockFn_sleeps s) as Hquiet. rewrite Hrun in Hquiet. simpl in Hquiet.
  exists (pushEvent (EvSleep (calculateDelay Math_pow config attempt))
            (pushEvent (EvWarn attempt (calculateDelay Math_pow config attempt) (Some msg)) s0)).
  split; [|split].
  - unfold invocations in *. rewrite !countEv_pushEvent. simpl. lia.
  - rewrite !sleeps_pushEvent, Hquiet, app_nil_r. reflexivity.
  - cbn [retryLoop].
    replace (attempt <=? maxRetries config) with true by (symmetry; apply Z.leb_le; lia).
    unfold tryCatch at 1. rewrite Hrun.
    replace (attempt =? maxRetries config) with false by (symmetry; apply Z.eqb_neq; lia).
    unfold bind, readMessage, ret, emit, sleep, emit. reflexivity.
Qed.

Lemma retryLoop_succeeds_sleeps (v : T) :
  forall (m fuel : nat) (attempt : Z) (lastError : option Thrown) (s : State),
    (m < fuel)%nat ->
    attempt + Z.of_nat m <= maxRetries config ->
    (forall k, (k < m)%nat -> exists msg, outcomes (invocations s + k)%nat = inl msg) ->
    outcomes (invocations s + m)%nat = inr v ->
    exists s',
      retryLoop Math_pow config (mockFn outcomes) context fuel attempt lastError s = (Return v, s')
      /\ sleeps (trace s') = sleeps (trace s) ++ delaysFrom Math_pow config attempt m.
Proof.
  induction m as [|m IH]; intros fuel attempt lastError s Hfuel Hbound Hfail Hok.
  - destruct fuel as [|fuel]; [lia|].
    destruct (mockFn_step outcomes s) as (s0 & Hrun & _).
    rewrite Nat.add_0_r in Hok. rewrite Hok in Hrun.
    pose proof (mockFn_sleeps s) as Hquiet. rewrite Hrun in Hquiet. simpl in Hquiet.
    exists s0. split.
    + cbn [retryLoop].
      replace (attempt <=? maxRetries config) with true by (symmetry; apply Z.leb_le; lia).
      unfold tryCatch. rewrite Hrun. reflexivity.
    + rewrite Hquiet. unfold delaysFrom. simpl. symmetry. apply app_nil_r.
  - destruct fuel as [|fuel]; [lia|].
    destruct (Hfail O ltac:(lia)) as (msg & Hmsg). rewrite Nat.add_0_r in Hmsg.
    destruct (retryLoop_fail_sleeps fuel attempt lastError msg s ltac:(lia) Hmsg)
      as (s1 & Hinv & Hsl & Hstep).
    rewrite Hstep.
    destruct (IH fuel (attempt + 1) (Some (JsError msg)) s1) as (s' & Hrun & Hsl').
    + lia.
    + lia.
    + intros k Hk. rewrite Hinv.
      replace (S (invocations s) + k)%nat with (invocations s + S k)%nat by lia.
      apply Hfail. lia.
    + rewrite Hinv.
      replace (S (invocations s) + m)%nat with (invocations s + S m)%nat by lia.
      exact Hok.
    + exists s'. split; [exact Hrun|].
      rewrite Hsl', Hsl, delaysFrom_S, <- app_assoc. reflexivity.
Qed.

Lemma retryLoop_exhausts_sleeps :
  forall (n fuel : nat) (attempt : Z) (lastError : option Thrown) (s : State),
    (n < fuel)%nat ->
    attempt + Z.of_nat n = maxRetries config ->
    (forall k, (k <= n)%nat -> exists msg, outcomes (invocations s + k)%nat = inl msg) ->
    exists e s',
      retryLoop Math_pow config (mockFn outcomes) context fuel attempt lastError s = (Throw e, s')
      /\ sleeps (trace s') = sleeps (trace s) ++ delaysFrom Math_pow config attempt n.
Proof.
  induction n as [|n IH]; intros fuel attempt lastError s Hfuel Hbound Hfail.
  - destruct fuel as [|fuel]; [lia|].
    destruct (Hfail O ltac:(lia)) as (msg & Hmsg). rewrite Nat.add_0_r in Hmsg.
    destruct (mockFn_step outcomes s) as (s0 & Hrun & _). rewrite Hmsg in Hrun.
    pose proof (mockFn_sleeps s) as Hquiet. rewrite Hrun in Hquiet. simpl in Hquiet.
    eexists _, s0. split.
    + cbn [retryLoop].
      replace (attempt <=? maxRetries config) with true by (symmetry; apply Z.leb_le; lia).
      unfold tryCatch. rewrite Hrun.
      replace (attempt =? maxRetries config) with true by (symmetry; apply Z.eqb_eq; lia).
      reflexivity.
    + rewrite Hquiet. unfold delaysFrom. simpl. symmetry. apply app_nil_r.
  - destruct fuel as [|fuel]; [lia|].
    destruct (Hfail O ltac:(lia)) as (msg & Hmsg). rewrite Nat.add_0_r in Hmsg.
    destruct (retryLoop_fail_sleeps fuel attempt lastError msg s ltac:(lia) Hmsg)
      as (s1 & Hinv & Hsl & Hstep).
    rewrite Hstep.
    destruct (IH fuel (attempt + 1) (Some (JsError msg)) s1) as (e & s' & Hrun & Hsl').
    + lia.
    + lia.
    + intros k Hk. rewrite Hinv.
      replace (S (invocations s) + k)%nat with (invocations s + S k)%nat by lia.
      apply Hfail. lia.
    + exists e, s'. split; [exact Hrun|].
      rewrite Hsl', Hsl, delaysFrom_S, <- app_assoc. reflexivity.
Qed.

End BackoffFacts.

(** X2.  The backoff schedule.  After the failed attempt [k] that is not the
    last, the executor sleeps [calculateDelay k], and it sleeps nowhere
    else: an operation that fails [m] times before succeeding costs the
    delays of attempts 1..m, and one that fails every time costs the delays
    of attempts 1..maxRetries - 1, with no pause after the final failure. *)
Theorem executeWithRetry_backoff_schedule {T : Type} (Math_pow : double -> double -> double)
      (config : RetryConfig)
        (outcomes : nat -> string + T) (context : option string) (s : State) :
  1 <= maxRetries config ->
  (forall (m : nat) (v : T),
      Z.of_nat m < maxRetries config ->
      (forall k, (k < m)%nat -> exists msg, outcomes (invocations s + k)%nat = inl msg) ->
      outcomes (invocations s + m)%nat = inr v ->
      exists s',
        RetryUtil.executeWithRetry Math_pow config (mockFn outcomes) context s = (Return v, s')
        /\ sleeps (trace s')
           = sleeps (trace s)
             ++ map (fun k => RetryUtil.calculateDelay Math_pow config (Z.of_nat k)) (seq 1 m))
  /\
  ((forall k, Z.of_nat k < maxRetries config ->
              exists msg, outcomes (invocations s + k)%nat = inl msg) ->
   exists e s',
     RetryUtil.executeWithRetry Math_pow config (mockFn outcomes) context s = (Throw e, s')
     /\ sleeps (trace s')
        = sleeps (trace s)
          ++ map (fun k => RetryUtil.calculateDelay Math_pow config (Z.of_nat k))
                 (seq 1 (Z.to_nat (maxRetries config) - 1))).
Proof.
  intros Hbudget.
  assert (Hshift : forall n, delaysFrom Math_pow config 1 n
                             = map (fun k => RetryUtil.calculateDelay Math_pow config (Z.of_nat k))
                                   (seq 1 n)).
  { intros n. unfold delaysFrom. rewrite <- seq_shift, map_map.
    apply map_ext. intros k. f_equal. lia. }
  split.
  - intros m v Hm Hfail Hok.
    destruct (retryLoop_succeeds_sleeps Math_pow config outcomes context v m
                (S (Z.to_nat (maxRetries config))) 1 None s) as (s' & Hrun & Hsl);
      [lia | lia | exact Hfail | exact Hok |].
    exists s'. split; [exact Hrun|]. rewrite Hsl, Hshift. reflexivity.
  - intros Hfail.
    destruct (retryLoop_exhausts_sleeps Math_pow config outcomes context
                (Z.to_nat (maxRetries config) - 1)
                (S (Z.to_nat (maxRetries config))) 1 None s) as (e & s' & Hrun & Hsl).
    + lia.
    + lia.
    + intros k Hk. apply Hfail. lia.
    + exists e, s'. split; [exact Hrun|]. rewrite Hsl, Hshift. reflexivity.
Qed.

(** X2 on the mocks of the retry tests: two failures cost 100 ms and then
    200 ms; three failures out of three cost the same two pauses. *)
Lemma executeWithRetry_backoff_schedule_witness :
  (exists s',
      RetryUtil.executeWithRetry Demo.powInt Demo.retry3 (mockFn Demo.flaky) None initialState
        = (Return "success", s')
      /\ sleeps (trace s') = [Double.ofZ 100; Double.ofZ 200])
  /\ (exists e s',
         RetryUtil.executeWithRetry Demo.powInt Demo.retry3 (mockFn Demo.alwaysFailing) None initialState
           = (Throw e, s')
         /\ sleeps (trace s') = [Double.ofZ 100; Double.ofZ 200]).
Proof.
  destruct (executeWithRetry_backoff_schedule Demo.powInt Demo.retry3 Demo.flaky None initialState
              ltac:(simpl; lia)) as [Hok _].
  destruct (executeWithRetry_backoff_schedule Demo.powInt Demo.retry3 Demo.alwaysFailing None initialState
              ltac:(simpl; lia)) as [_ Hfail].
  split.
  - destruct (Hok 2%nat "success") as (s' & Hrun & Hsl).
    + simpl. lia.
    + intros k Hk. destruct k as [|[|k]]; [eexists; reflexivity | eexists; reflexivity | lia].
    + reflexivity.
    + exists s'. split; [exact Hrun|]. rewrite Hsl. vm_compute. reflexivity.
  - destruct Hfail as (e & s' & Hrun & Hsl).
    + intros k _. eexists. reflexivity.
    + exists e, s'. split; [exact Hrun|]. rewrite Hsl. vm_compute. reflexivity.
Defined.
(** ** RetryUtil.calculateDelay *)

Section DoubleFacts.
Import SpecFloat.

Lemma shr_1_nonneg (mrs : shr_record) : 0 <= shr_m mrs -> 0 <= shr_m (shr_1 mrs).
Proof.
  destruct mrs as [m r s]. destruct m as [| p | p]; cbn; intros H; try lia;
    destruct p; cbn; lia.
Qed.

Lemma iter_shr_1_nonneg (p : positive) :
  forall mrs, 0 <= shr_m mrs -> 0 <= shr_m (iter_pos shr_1 p mrs).
Proof.
  induction p as [p IH | p IH |]; intros mrs H; cbn [iter_pos].
  - apply IH, IH, shr_1_nonneg, H.
  - apply IH, IH, H.
  - apply shr_1_nonneg, H.
Qed.

Lemma shr_fexp_nonneg (m e : Z) (l : location) :
  0 <= m -> 0 <= shr_m (fst (shr_fexp Double.prec Double.emax m e l)).
Proof.
  intros H. unfold shr_fexp, shr.
  assert (0 <= shr_m (shr_record_of_loc m l)) as Hrec
      by (destruct l as [| []]; exact H).
  destruct (fexp Double.prec Double.emax (Zdigits2 m + e) - e) as [| p | p];
    cbn [fst]; [exact Hrec | apply iter_shr_1_nonneg, Hrec | exact Hrec].
Qed.

Lemma round_nearest_even_nonneg (m : Z) (l : location) :
  0 <= m -> 0 <= round_nearest_even m l.
Proof.
  intros H. destruct l as [| []]; cbn; try destruct (Z.even m); lia.
Qed.

(** Rounding a non-negative mantissa gives a number. *)
Lemma binary_round_aux_isNaN (s : bool) (m e : Z) (l : location) :
  0 <= m -> Double.isNaN (binary_round_aux Double.prec Double.emax s m e l) = false.
Proof.
  intros H. unfold binary_round_aux.
  pose proof (shr_fexp_nonneg m e l H) as H1.
  destruct (shr_fexp Double.prec Double.emax m e l) as [mrs' e']. cbn [fst] in H1.
  pose proof (shr_fexp_nonneg _ e' loc_Exact
                (round_nearest_even_nonneg _ (loc_of_shr_record mrs') H1)) as H2.
  destruct (shr_fexp Double.prec Double.emax _ e' loc_Exact) as [mrs'' e''].
  cbn [fst] in H2.
  destruct (shr_m mrs'') as [| p | p]; [reflexivity | | lia].
  destruct (e'' <=? Double.emax - Double.prec); reflexivity.
Qed.

Lemma ofQ_isNaN (q : Q) : Double.isNaN (Double.ofQ q) = false.
Proof.
  destruct q as [n d]. unfold Double.ofQ, Double.ofRatio. cbn [Qnum Qden].
  assert (forall s (n' : positive),
             Double.isNaN (SFdiv Double.prec Double.emax (S754_finite s n' 0)
                                 (S754_finite false d 0)) = false) as Hdiv.
  { intros s n'. unfold SFdiv, SFdiv_core_binary.
    set (m' := match _ - _ - _ with Z.pos _ => _ | 0 => _ | Z.neg _ => _ end).
    assert (0 <= m') as Hm'.
    { unfold m'. destruct (_ - _ - _); [lia | apply Z.shiftl_nonneg; lia | lia]. }
    pose proof (Z.div_pos m' (Z.pos d) Hm' ltac:(lia)) as Hq.
    unfold Z.div in Hq. destruct (Z.div_eucl m' (Z.pos d)) as [quotient r].
    apply binary_round_aux_isNaN, Hq. }
  destruct n; [reflexivity | apply Hdiv | apply Hdiv].
Qed.

Lemma SFcompare_refl (x : double) : Double.isNaN x = false -> SFcompare x x = Some Eq.
Proof.
  destruct x as [s | s | | s m e]; intros H; [reflexivity | | discriminate H |].
  - destruct s; reflexivity.
  - cbn. rewrite Z.compare_refl, Pos.compare_cont_refl. destruct s; reflexivity.
Qed.

Lemma SFcompare_swap (x y : double) :
  SFcompare x y = option_map CompOpp (SFcompare y x).
Proof.
  destruct x as [s1 | s1 | | s1 m1 e1], y as [s2 | s2 | | s2 m2 e2];
    try reflexivity; try (destruct s1; reflexivity); try (destruct s2; reflexivity);
    try (destruct s1, s2; reflexivity).
  assert (Pos.compare_cont Eq m2 m1 = CompOpp (Pos.compare_cont Eq m1 m2)) as Hm
      by (rewrite Pos.compare_cont_antisym; reflexivity).
  cbn. rewrite (Z.compare_antisym e1 e2). rewrite Hm.
  destruct s1, s2; try reflexivity;
    destruct (e1 ?= e2); cbn [CompOpp];
    try reflexivity; destruct (Pos.compare_cont Eq m1 m2); reflexivity.
Qed.

(** [Math.min] on numbers. *)
Lemma min_spec (a b : double) :
  Double.isNaN a = false -> Double.isNaN b = false ->
  Double.isNaN (Double.min a b) = false
  /\ Double.leb (Double.min a b) a = true
  /\ Double.leb (Double.min a b) b = true
  /\ (Double.ltb a b = true -> Double.min a b = a)
  /\ (Double.ltb b a = true -> Double.min a b = b).
Proof.
  intros Ha Hb.
  pose proof (SFcompare_refl a Ha) as Haa. pose proof (SFcompare_refl b Hb) as Hbb.
  pose proof (SFcompare_swap a b) as Hswap.
  assert (Double.min a b = (if SFltb b a then b else a)
          \/ (a = S754_zero false /\ b = S754_zero true /\ Double.min a b = b)) as Hmin.
  { destruct a as [[] | | |], b as [[] | | |]; try discriminate;
      try (left; reflexivity). right. repeat split. }
  assert (SFcompare b a <> None) as Hsome.
  { destruct b as [sb | sb | | sb mb eb], a as [sa | sa | | sa ma ea];
      try discriminate Ha; try discriminate Hb; discriminate. }
  unfold Double.leb, Double.ltb, SFleb, SFltb in *.
  destruct Hmin as [Hmin | (-> & -> & Hmin)].
  - rewrite Hmin. destruct (SFcompare b a) as [[] |] eqn:Hba; cbn in Hswap;
      rewrite ?Haa, ?Hbb, ?Hswap, ?Hba; repeat split; try reflexivity;
      try discriminate; try assumption; try (exfalso; apply Hsome; reflexivity).
  - rewrite Hmin. repeat split; try reflexivity; discriminate.
Qed.

End DoubleFacts.

(** X3.  What [calculateDelay] returns, in the arithmetic of JavaScript
    numbers and whatever the platform's [Math.pow] answers.  The delay is
    NaN exactly when the product of the base delay and the power is NaN;
    otherwise it never exceeds [maxDelayMs], it is the product when that is
    below [maxDelayMs], and it is [maxDelayMs] when the product is above,
    an overflow to Infinity included. *)
Theorem calculateDelay_is_capped (Math_pow : double -> double -> double)
        (config : RetryConfig) (attempt : Z) :
  let product :=
    Double.mul (Double.ofQ (baseDelayMs config))
               (Math_pow (Double.ofQ (backoffMultiplier config))
                         (Double.ofZ (attempt - 1))) in
  let cap := Double.ofQ (maxDelayMs config) in
  let delay := RetryUtil.calculateDelay Math_pow config attempt in
  if Double.isNaN product then delay = Double.NaN
  else
    Double.isNaN delay = false
    /\ Double.leb delay cap = true
    /\ (Double.ltb product cap = true -> delay = product)
    /\ (Double.ltb cap product = true -> delay = cap)
    /\ (product = Double.Infinity -> delay = cap).
Proof.
  cbv zeta. unfold RetryUtil.calculateDelay. cbv zeta.
  set (product := Double.mul _ _).
  set (cap := Double.ofQ (maxDelayMs config)).
  pose proof (ofQ_isNaN (maxDelayMs config)) as Hcap. fold cap in Hcap.
  destruct (Double.isNaN product) eqn:Hproduct.
  - destruct product; try discriminate Hproduct. reflexivity.
  - destruct (min_spec product cap Hproduct Hcap) as (Hnan & _ & Hle & Hbelow & Habove).
    repeat split; try assumption.
    intros Hinf. rewrite Hinf in *.
    destruct cap as [sc | [] | | sc mc ec]; try discriminate Hcap; try reflexivity;
      apply Habove; reflexivity.
Qed.

(** X3 on three policies: the default one, whose delays for attempts 1 to 5
    are 1000, 2000, 4000, 8000 and 10000 ms, the last one capped; a
    multiplier of 1.1, whose third delay is not 1210 ms; and a multiplier
    of 0 asked for attempt 0, where the power is Infinity. *)
Lemma calculateDelay_is_capped_witness :
  map (RetryUtil.calculateDelay Demo.powInt RetryUtil.createDefaultConfig) [1; 2; 3; 4; 5]
  = map Double.ofZ [1000; 2000; 4000; 8000; 10000]
  /\ Double.leb (RetryUtil.calculateDelay Demo.powInt RetryUtil.createDefaultConfig 5)
                (Double.ofZ 10000) = true
  /\ Double.toString
       (RetryUtil.calculateDelay Demo.powInt
          {| maxRetries := 3; baseDelayMs := 1000; maxDelayMs := 10000;
             backoffMultiplier := 11 # 10 |} 3)
     = "1210.0000000000002"
  /\ RetryUtil.calculateDelay Demo.powInt
       {| maxRetries := 3; baseDelayMs := 1000; maxDelayMs := 10000;
          backoffMultiplier := 0 |} 0
     = Double.ofZ 10000.
Proof.
  pose proof (calculateDelay_is_capped Demo.powInt RetryUtil.createDefaultConfig 5) as Hcap.
  cbv zeta in Hcap.
  change (Double.isNaN _) with false in Hcap at 1. cbv iota in Hcap.
  destruct Hcap as (_ & Hle & _).
  split; [vm_compute; reflexivity|].
  split; [exact Hle|].
  split; vm_compute; reflexivity.
Defined.

(** ** RetryUtil.isRetryableError *)

Lemma lowerAscii_idem (c : ascii) : lowerAscii (lowerAscii c) = lowerAscii c.
Proof.
  destruct c as [[] [] [] [] [] [] [] []]; reflexivity.
Qed.

Lemma isLineTerminator_lower (c : ascii) :
  RetryUtil.isLineTerminator (lowerAscii c) = RetryUtil.isLineTerminator c.
Proof.
  destruct c as [[] [] [] [] [] [] [] []]; reflexivity.
Qed.

Lemma mapChars_lower_idem (s : string) :
  mapChars lowerAscii (mapChars lowerAscii s) = mapChars lowerAscii s.
Proof.
  induction s as [|c s IH]; simpl; [reflexivity|]. rewrite lowerAscii_idem, IH. reflexivity.
Qed.

Section MatcherFacts.
Import RetryUtil.

Lemma matchHere_lower (pat : list PatElem) :
  forall s, matchHere pat (mapChars lowerAscii s) = matchHere pat s.
Proof.
  induction pat as [|p pat IH]; intros s; [reflexivity|].
  destruct p as [c|].
  - destruct s as [|d s]; simpl; [reflexivity|].
    rewrite lowerAscii_idem, IH. reflexivity.
  - destruct s as [|d s]; simpl.
    + reflexivity.
    + rewrite isLineTerminator_lower, (IH s).
      change (String (lowerAscii d) (mapChars lowerAscii s))
        with (mapChars lowerAscii (String d s)).
      rewrite (IH (String d s)). reflexivity.
Qed.

Lemma test_lower (pat : list PatElem) :
  forall s, test pat (mapChars lowerAscii s) = test pat s.
Proof.
  induction s as [|d s IH].
  - reflexivity.
  - change (mapChars lowerAscii (String d s))
      with (String (lowerAscii d) (mapChars lowerAscii s)).
    cbn [test].
    change (String (lowerAscii d) (mapChars lowerAscii s))
      with (mapChars lowerAscii (String d s)).
    rewrite matchHere_lower, IH. reflexivity.
Qed.

Lemma matchHere_append (pat : list PatElem) :
  forall s after, matchHere pat s = true -> matchHere pat (s +:+ after) = true.
Proof.
  induction pat as [|p pat IH]; intros s after H; [reflexivity|].
  destruct p as [c|].
  - destruct s as [|d s]; simpl in H; [discriminate|].
    apply andb_true_iff in H as [Hc Hrest].
    simpl. rewrite Hc. simpl. apply IH, Hrest.
  - cbn [matchHere] in H. apply orb_true_iff in H as [H|H].
    + cbn [matchHere]. rewrite (IH s after H). reflexivity.
    + destruct s as [|d s]; [discriminate|].
      apply andb_true_iff in H as [Hd Hrest].
      change (String d s +:+ after) with (String d (s +:+ after)).
      cbn [matchHere]. rewrite Hd, (IH s after Hrest). simpl. apply orb_true_r.
Qed.

Lemma test_append (pat : list PatElem) :
  forall s after, test pat s = true -> test pat (s +:+ after) = true.
Proof.
  induction s as [|d s IH]; intros after H.
  - simpl in H. rewrite orb_false_r in H.
    pose proof (matchHere_append pat "" after H) as Hm.
    change ("" +:+ after) with after in *.
    destruct after; cbn [test]; rewrite Hm; reflexivity.
  - cbn [test] in H. apply orb_true_iff in H as [H|H].
    + change (String d s +:+ after) with (String d (s +:+ after)).
      cbn [test].
      change (String d (s +:+ after)) with (String d s +:+ after).
      rewrite (matchHere_append pat _ after H). reflexivity.
    + change (String d s +:+ after) with (String d (s +:+ after)).
      cbn [test]. rewrite (IH after H). apply orb_true_r.
Qed.

Lemma test_prepend (pat : list PatElem) (s : string) :
  test pat s = true -> forall before, test pat (before +:+ s) = true.
Proof.
  intros H. induction before as [|d before IH]; [exact H|].
  change (String d before +:+ s) with (String d (before +:+ s)).
  cbn [test]. rewrite IH. apply orb_true_r.
Qed.

End MatcherFacts.

(** X4.  The classification of an error message ignores the case of ASCII
    letters, and a message that is retryable stays retryable inside any
    longer message: the patterns are unanchored. *)
Theorem isRetryableError_case_and_context (message : string) :
  (forall other, mapChars lowerAscii other = mapChars lowerAscii message ->
     RetryUtil.isRetryableError other = RetryUtil.isRetryableError message)
  /\ (RetryUtil.isRetryableError message = true ->
      forall before after,
        RetryUtil.isRetryableError (before +:+ message +:+ after) = true).
Proof.
  split.
  - intros other Hsame. unfold RetryUtil.isRetryableError.
    induction RetryUtil.retryablePatterns as [|pat pats IH]; [reflexivity|].
    cbn [existsb]. rewrite IH. f_equal.
    rewrite <- (test_lower pat other), <- (test_lower pat message), Hsame. reflexivity.
  - unfold RetryUtil.isRetryableError. intros H before after.
    apply existsb_exists in H as (pat & Hin & Hpat).
    apply existsb_exists. exists pat. split; [exact Hin|].
    apply test_prepend, test_append, Hpat.
Qed.

(** X4 on the messages of the retry tests. *)
Lemma isRetryableError_case_and_context_witness :
  RetryUtil.isRetryableError "GATEWAY-TIMEOUT" = RetryUtil.isRetryableError "gateway-timeout"
  /\ RetryUtil.isRetryableError ("Error: " +:+ "Rate limit" +:+ " exceeded (429)") = true
  /\ map RetryUtil.isRetryableError
         ["Network timeout"; "Connection refused"; "Rate limit exceeded"; "Too many requests";
          "Service unavailable"; "Bad gateway"; "Gateway timeout"; "Internal server error"]
     = [true; true; true; true; true; true; true; true]
  /\ map RetryUtil.isRetryableError
         ["Invalid API key"; "Unauthorized"; "Not found"; "Bad request"; "Validation error"]
     = [false; false; false; false; false].
Proof.
  split; [|split; [|split]].
  - apply (proj1 (isRetryableError_case_and_context "gateway-timeout")). reflexivity.
  - apply (proj2 (isRetryableError_case_and_context "Rate limit")). reflexivity.
  - vm_compute. reflexivity.
  - vm_compute. reflexivity.
Defined.

(** ** RequestQueue: concurrency, order of service, idleness *)

Section QueueLimits.
Import RequestQueue.
Context {V : Type}.
Variable config : QueueConfig.

Abbreviation QState := (@QueueState V).

Lemma capped_step (ev : QEvent) (st st' : QState) :
  activeRequests st <= Z.max 0 (maxConcurrent config) ->
  step config ev st = Some st' ->
  activeRequests st' <= Z.max 0 (maxConcurrent config).
Proof.
  intros Hcap Hstep.
  destruct ev as [| |request result| |]; simpl in Hstep.
  - inversion Hstep; subst. exact Hcap.
  - destruct (intervalId st); [|discriminate]. inversion Hstep; subst.
    unfold processQueue.
    destruct (activeRequests st >=? maxConcurrent config) eqn:Hfull; simpl; [exact Hcap|].
    destruct (Z.of_nat (length (queue st)) =? 0); [exact Hcap|].
    destruct (queue st); [exact Hcap|]. simpl.
    rewrite Z.geb_leb in Hfull. apply Z.leb_gt in Hfull. lia.
  - destruct (existsb _ _); [|discriminate]. inversion Hstep; subst. simpl. lia.
  - inversion Hstep; subst. exact Hcap.
  - inversion Hstep; subst. exact Hcap.
Qed.

Lemma capped_run (evs : list QEvent) :
  forall st st' : QState,
    activeRequests st <= Z.max 0 (maxConcurrent config) ->
    run config evs st = Some st' ->
    activeRequests st' <= Z.max 0 (maxConcurrent config).
Proof.
  induction evs as [|ev evs IH]; intros st st' Hcap Hrun; simpl in Hrun.
  - inversion Hrun; subst. exact Hcap.
  - destruct (step config ev st) as [st1|] eqn:Hstep; [|discriminate].
    eapply IH; [|exact Hrun]. eapply capped_step; eauto.
Qed.

(** Each tick starts at most one operation, and each settling ends one. *)
Lemma paced_run (evs : list QEvent) :
  forall st st' : QState,
    run config evs st = Some st' ->
    activeRequests st' + Z.of_nat (completions evs)
    <= activeRequests st + Z.of_nat (ticks evs).
Proof.
  unfold ticks, completions.
  induction evs as [|ev evs IH]; intros st st' Hrun; simpl in Hrun.
  - inversion Hrun; subst. simpl. lia.
  - destruct (step config ev st) as [st1|] eqn:Hstep; [|discriminate].
    specialize (IH st1 st' Hrun).
    destruct ev as [| |request result| |]; simpl in Hstep; cbn [List.filter isTick isFnSettles].
    + inversion Hstep; subst. exact IH.
    + destruct (intervalId st); [|discriminate]. inversion Hstep; subst.
      assert (activeRequests (processQueue config st) <= activeRequests st + 1).
      { unfold processQueue. destruct (_ || _); [lia|].
        destruct (queue st); simpl; lia. }
      cbn [length]. lia.
    + destruct (existsb _ _); [|discriminate]. inversion Hstep; subst.
      simpl in IH. cbn [length]. lia.
    + inversion Hstep; subst. exact IH.
    + inversion Hstep; subst. exact IH.
Qed.

Lemma fifo_step (ev : QEvent) (st st' : QState) :
  fifo st -> step config ev st = Some st' -> fifo st'.
Proof.
  unfold fifo. intros [Hlen Hq] Hstep.
  destruct ev as [| |request result| |]; simpl in Hstep.
  - inversion Hstep; subst. cbn [enqueue queue created].
    rewrite length_app. cbn [length]. split; [lia|].
    replace (S (created st) - (length (queue st) + 1))%nat
      with (created st - length (queue st))%nat by lia.
    rewrite Nat.add_1_r, seq_S. rewrite <- Hq. f_equal. f_equal. lia.
  - destruct (intervalId st); [|discriminate]. inversion Hstep; subst.
    unfold processQueue. destruct (_ || _); [split; assumption|].
    destruct (queue st) as [|request rest] eqn:Hqueue; [rewrite Hqueue; split; assumption|].
    cbn [queue created length] in *. split; [lia|].
    simpl in Hq. injection Hq as Hhead Hrest.
    rewrite Hrest at 1. f_equal. lia.
  - destruct (existsb _ _); [|discriminate]. inversion Hstep; subst. split; assumption.
  - inversion Hstep; subst. cbn. split; [lia|reflexivity].
  - inversion Hstep; subst. cbn. split; [lia|reflexivity].
Qed.

Lemma fifo_run (evs : list QEvent) :
  forall st st' : QState, fifo st -> run config evs st = Some st' -> fifo st'.
Proof.
  induction evs as [|ev evs IH]; intros st st' Hfifo Hrun; simpl in Hrun.
  - inversion Hrun; subst. exact Hfifo.
  - destruct (step config ev st) as [st1|] eqn:Hstep; [|discriminate].
    eapply IH; [|exact Hrun]. eapply fifo_step; eauto.
Qed.

End QueueLimits.

(** X5.  However callers, timer and operations interleave, the number of
    operations running at once never exceeds [maxConcurrent]: the active
    count is the number of operations in flight, it stays between 0 and
    [maxConcurrent], and no more operations have been started than the timer
    has ticked. *)
Theorem queue_concurrency_and_rate {V : Type} (config : QueueConfig)
        (evs : list (@RequestQueue.QEvent V)) (st : @RequestQueue.QueueState V) :
  RequestQueue.run config evs RequestQueue.constructor = Some st ->
  RequestQueue.activeRequests st = Z.of_nat (length (RequestQueue.inFlight st))
  /\ 0 <= RequestQueue.activeRequests st <= Z.max 0 (maxConcurrent config)
  /\ (length (RequestQueue.inFlight st) + RequestQueue.completions evs
      <= RequestQueue.ticks evs)%nat.
Proof.
  intros Hrun.
  assert (Hbal : RequestQueue.balanced st).
  { eapply balanced_run; [apply accounted_constructor | reflexivity | exact Hrun]. }
  unfold RequestQueue.balanced in Hbal.
  assert (Hcap : RequestQueue.activeRequests st <= Z.max 0 (maxConcurrent config)).
  { apply (capped_run config evs RequestQueue.constructor st); [simpl; lia | exact Hrun]. }
  pose proof (paced_run config evs _ _ Hrun) as Hpace. simpl in Hpace.
  split; [exact Hbal|]. split; [lia|]. lia.
Qed.

(** X5 on a schedule of the queue tests: three requests and three ticks
    with room for two leave two operations running and one request
    waiting. *)
Lemma queue_concurrency_and_rate_witness :
  exists st : @RequestQueue.QueueState string,
    RequestQueue.run {| maxConcurrent := 2; rateLimitPerSecond := 10 |}
      [RequestQueue.Enqueue; RequestQueue.Enqueue; RequestQueue.Enqueue;
       RequestQueue.Tick; RequestQueue.Tick; RequestQueue.Tick]
      RequestQueue.constructor = Some st
    /\ RequestQueue.getStatus {| maxConcurrent := 2; rateLimitPerSecond := 10 |} st
       = (1, 2, 2, 10)
    /\ 0 <= RequestQueue.activeRequests st <= 2.
Proof.
  eexists. split; [reflexivity|]. split; [reflexivity|].
  apply (queue_concurrency_and_rate {| maxConcurrent := 2; rateLimitPerSecond := 10 |}
           [RequestQueue.Enqueue; RequestQueue.Enqueue; RequestQueue.Enqueue;
            RequestQueue.Tick; RequestQueue.Tick; RequestQueue.Tick]).
  reflexivity.
Defined.

(** X6.  Requests are served in the order they were enqueued: the pending
    requests are always the most recently created ones, oldest at the head,
    and every request created before the head has already been dispatched
    or rejected. *)
Theorem queue_is_first_in_first_out {V : Type} (config : QueueConfig)
        (evs : list (@RequestQueue.QEvent V)) (st : @RequestQueue.QueueState V) :
  RequestQueue.run config evs RequestQueue.constructor = Some st ->
  RequestQueue.queue st
  = seq (RequestQueue.created st - length (RequestQueue.queue st))
        (length (RequestQueue.queue st))
  /\ (forall request,
        (request ∈ RequestQueue.inFlight st)
        \/ (request ∈ map fst (RequestQueue.settlements st)) ->
        (request < RequestQueue.created st - length (RequestQueue.queue st))%nat).
Proof.
  intros Hrun.
  assert (Hfifo : RequestQueue.fifo st).
  { eapply fifo_run; [|exact Hrun]. split; [simpl; lia | reflexivity]. }
  assert (Hacc : RequestQueue.accounted st).
  { eapply accounted_run; [apply accounted_constructor | exact Hrun]. }
  destruct Hfifo as [Hlen Hq]. split; [exact Hq|].
  intros request Hin.
  assert (Hknown : request ∈ RequestQueue.requestIds st).
  { unfold RequestQueue.requestIds. apply elem_of_app. right. apply elem_of_app.
    destruct Hin as [Hin|Hin]; [left | right]; exact Hin. }
  pose proof (proj1 (accounted_range st request Hacc) Hknown) as Hlt.
  destruct (Nat.lt_ge_cases request
              (RequestQueue.created st - length (RequestQueue.queue st))) as [Hok|Hge];
    [exact Hok|exfalso].
  assert (Hpending : request ∈ RequestQueue.queue st).
  { rewrite Hq. apply elem_of_seq. lia. }
  pose proof (accounted_NoDup st Hacc) as Hnd. unfold RequestQueue.requestIds in Hnd.
  apply NoDup_app in Hnd as (_ & Hdisjoint & _).
  apply (Hdisjoint request Hpending).
  apply elem_of_app. destruct Hin as [Hin|Hin]; [left | right]; exact Hin.
Qed.

(** X6 on a schedule: of four requests, the first two are running and the
    last two wait in order. *)
Lemma queue_is_first_in_first_out_witness :
  exists st : @RequestQueue.QueueState string,
    RequestQueue.run RequestQueue.createDefaultConfig
      [RequestQueue.Enqueue; RequestQueue.Enqueue; RequestQueue.Tick; RequestQueue.Enqueue;
       RequestQueue.Tick; RequestQueue.Enqueue]
      RequestQueue.constructor = Some st
    /\ RequestQueue.inFlight st = [0; 1]%nat
    /\ RequestQueue.queue st = seq (4 - 2) 2.
Proof.
  eexists. split; [reflexivity|]. split; [reflexivity|].
  apply (queue_is_first_in_first_out RequestQueue.createDefaultConfig
           [RequestQueue.Enqueue; RequestQueue.Enqueue; RequestQueue.Tick;
            RequestQueue.Enqueue; RequestQueue.Tick; RequestQueue.Enqueue]).
  reflexivity.
Defined.

(** X7.  [getStatus] and the test polled by [waitForCompletion]: the queue
    length, the active count and the number of settled requests add up to
    the number of requests ever enqueued, and the queue is idle exactly when
    every one of them has been settled. *)
Theorem queue_idle_iff_all_settled {V : Type} (config : QueueConfig)
        (evs : list (@RequestQueue.QEvent V)) (st : @RequestQueue.QueueState V) :
  RequestQueue.run config evs RequestQueue.constructor = Some st ->
  Z.of_nat (length (RequestQueue.queue st)) + RequestQueue.activeRequests st
  + Z.of_nat (length (RequestQueue.settlements st))
  = Z.of_nat (RequestQueue.created st)
  /\ (RequestQueue.isIdle st = true <->
      forall request, (request < RequestQueue.created st)%nat ->
        exists x, RequestQueue.settlementsOf request st = [x]).
Proof.
  intros Hrun.
  assert (Hacc : RequestQueue.accounted st).
  { eapply accounted_run; [apply accounted_constructor | exact Hrun]. }
  assert (Hbal : RequestQueue.balanced st).
  { eapply balanced_run; [apply accounted_constructor | reflexivity | exact Hrun]. }
  unfold RequestQueue.balanced in Hbal.
  split.
  - pose proof Hacc as Hperm. unfold RequestQueue.accounted, RequestQueue.requestIds in Hperm.
    apply Permutation_length in Hperm.
    rewrite !length_app, length_map, length_seq in Hperm. lia.
  - unfold RequestQueue.isIdle. split.
    + intros Hidle request Hlt.
      apply andb_true_iff in Hidle as [Hq Ha].
      apply Z.eqb_eq in Hq. apply Z.eqb_eq in Ha.
      assert (Hqueue : RequestQueue.queue st = []).
      { destruct (RequestQueue.queue st); [reflexivity|simpl in Hq; lia]. }
      assert (Hflight : RequestQueue.inFlight st = []).
      { destruct (RequestQueue.inFlight st); [reflexivity|simpl in Hbal; lia]. }
      destruct (accounted_cases st request Hacc Hlt)
        as [(Hin & _)|[(_ & Hin & _)|(_ & _ & Hx)]].
      * rewrite Hqueue in Hin. inversion Hin.
      * rewrite Hflight in Hin. inversion Hin.
      * exact Hx.
    + intros Hall. apply andb_true_iff. split; apply Z.eqb_eq.
      * destruct (RequestQueue.queue st) as [|request rest] eqn:Hqueue; [reflexivity|exfalso].
        assert (Hin : request ∈ RequestQueue.queue st)
          by (rewrite Hqueue; apply list_elem_of_here).
        assert (Hlt : (request < RequestQueue.created st)%nat).
        { apply (accounted_range st request Hacc). unfold RequestQueue.requestIds.
          apply elem_of_app. left. exact Hin. }
        destruct (Hall request Hlt) as (x & Hx).
        rewrite (queued_unsettled st request Hacc Hin) in Hx. discriminate.
      * rewrite Hbal.
        destruct (RequestQueue.inFlight st) as [|request rest] eqn:Hflight;
          [reflexivity|exfalso].
        assert (Hin : request ∈ RequestQueue.inFlight st)
          by (rewrite Hflight; apply list_elem_of_here).
        assert (Hlt : (request < RequestQueue.created st)%nat).
        { apply (accounted_range st request Hacc). unfold RequestQueue.requestIds.
          apply elem_of_app. right. apply elem_of_app. left. exact Hin. }
        destruct (Hall request Hlt) as (x & Hx).
        destruct (accounted_cases st request Hacc Hlt)
          as [(_ & Hout & _)|[(_ & _ & Hnone)|(_ & Hout & _)]].
        -- contradiction.
        -- rewrite Hnone in Hx. discriminate.
        -- contradiction.
Qed.

(** X7 on two schedules: one request still running, and the same request
    after it has settled. *)
Lemma queue_idle_iff_all_settled_witness :
  (exists st : @RequestQueue.QueueState string,
      RequestQueue.run RequestQueue.createDefaultConfig
        [RequestQueue.Enqueue; RequestQueue.Tick] RequestQueue.constructor = Some st
      /\ RequestQueue.isIdle st = false
      /\ Z.of_nat (length (RequestQueue.queue st)) + RequestQueue.activeRequests st
         + Z.of_nat (length (RequestQueue.settlements st)) = 1)
  /\ (exists st : @RequestQueue.QueueState string,
         RequestQueue.run RequestQueue.createDefaultConfig
           [RequestQueue.Enqueue; RequestQueue.Tick; RequestQueue.FnSettles 0 (inr "done")]
           RequestQueue.constructor = Some st
         /\ RequestQueue.isIdle st = true
         /\ exists x, RequestQueue.settlementsOf 0 st = [x]).
Proof.
  split.
  - eexists. split; [reflexivity|]. split; [reflexivity|].
    apply (queue_idle_iff_all_settled RequestQueue.createDefaultConfig
             [RequestQueue.Enqueue; RequestQueue.Tick]).
    reflexivity.
  - eexists. split; [reflexivity|]. split; [reflexivity|].
    apply (proj2 (queue_idle_iff_all_settled RequestQueue.createDefaultConfig
                    [RequestQueue.Enqueue; RequestQueue.Tick;
                     RequestQueue.FnSettles 0 (inr "done")] _ eq_refl));
      [reflexivity | simpl; lia].
Defined.

(** ** EtherscanClient: the response interceptor and the call counter *)

Lemma gets_pushEvent (e : Event) (s : State) :
  gets (pushEvent e s) = gets s + (if isHttpGet e then 1 else 0).
Proof. unfold gets. rewrite countEv_pushEvent. destruct (isHttpGet e); lia. Qed.

Section ClientFacts.
Variable Math_pow : double -> double -> double.
Variable env : Env.
Variable retryConfig : RetryConfig.
Variables module action : string.
Variable params : list (string * JSON).

(** The interceptor: a failure with HTTP status 403 is replaced by the
    client's own error, any other failure is passed on. *)
Lemma httpGet_failure (code : option Z) (error_ : Thrown) (s : State) :
  o_httpGet env (trace s) module action params = HttpFailure code error_ ->
  exists e,
    EtherscanClient.httpGet env module action params s
      = (Throw e, pushEvent (EvHttpGet module action) s)
    /\ (code = Some 403 -> e = JsError "Invalid API key or rate limit exceeded")
    /\ (code <> Some 403 -> e = error_).
Proof.
  intros Hget.
  unfold EtherscanClient.httpGet, bind, getTrace, emit. rewrite Hget.
  destruct code as [code|].
  - destruct (Z.eq_dec code 403) as [->|Hother].
    + eexists. split; [reflexivity|]. split; [reflexivity|congruence].
    + destruct code as [|p|p];
        try (eexists; split; [reflexivity|]; split; [intros [=]|reflexivity]).
      do 9 (destruct p as [p|p|];
            try (eexists; split; [reflexivity|]; split; [intros [=]|reflexivity])).
      all: exfalso; apply Hother; reflexivity.
  - eexists. split; [reflexivity|]. split; [intros [=]|reflexivity].
Qed.

(** One attempt: one GET; the counter moves by one exactly when a
    response arrived, whatever the response says. *)
Lemma requestAttempt_effect (s : State) :
  exists o s',
    EtherscanClient.requestAttempt env module action params s = (o, s')
    /\ gets s' = gets s + 1
    /\ o <> Hang
    /\ match o_httpGet env (trace s) module action params with
       | HttpResponse data => apiCallCount s' = apiCallCount s + 1
       | HttpFailure _ _ => apiCallCount s' = apiCallCount s /\ forall v, o <> Return v
       end.
Proof.
  destruct (o_httpGet env (trace s) module action params) as [data|code error_] eqn:Hget.
  - unfold EtherscanClient.requestAttempt, EtherscanClient.httpGet, bind, getTrace, emit.
    rewrite Hget.
    unfold ret, EtherscanClient.incrementApiCallCount, EtherscanClient.interpretResponse.
    destruct (String.eqb (resp_status data) "0");
      [destruct (EtherscanClient.isNoRecords data)|];
      eexists _, _; (split; [reflexivity|]);
      (split; [unfold gets; cbn [trace pushEvent]; rewrite countEv_app; simpl; lia|]);
      (split; [discriminate|reflexivity]).
  - destruct (httpGet_failure code error_ s Hget) as (e & Hrun & _).
    exists (Throw e), (pushEvent (EvHttpGet module action) s).
    unfold EtherscanClient.requestAttempt, bind. rewrite Hrun.
    split; [reflexivity|]. split; [rewrite gets_pushEvent; reflexivity|].
    split; [discriminate|]. split; [reflexivity|discriminate].
Qed.

(** The whole request, from any point of the retry loop: at most one GET
    per remaining attempt, each response counted once. *)
Lemma retryLoop_counts (context : option string) :
  forall (fuel : nat) (attempt : Z) (lastError : option Thrown) (s : State),
    exists o s',
      RetryUtil.retryLoop Math_pow retryConfig
        (EtherscanClient.requestAttempt env module action params)
        context fuel attempt lastError s = (o, s')
      /\ gets s <= gets s'
      /\ gets s' - gets s <= Z.max 0 (maxRetries retryConfig - attempt + 1)
      /\ apiCallCount s <= apiCallCount s' <= apiCallCount s + (gets s' - gets s)
      /\ (forall v, o = Return v -> apiCallCount s + 1 <= apiCallCount s')
      /\ ((1 <= fuel)%nat -> attempt <= maxRetries retryConfig -> gets s + 1 <= gets s').
Proof.
  induction fuel as [|fuel IH]; intros attempt lastError s.
  - exists Hang, s. split; [reflexivity|]. repeat split; try lia. discriminate.
  - cbn [RetryUtil.retryLoop].
    destruct (attempt <=? maxRetries retryConfig) eqn:Hin.
    + apply Z.leb_le in Hin.
      destruct (requestAttempt_effect s) as (o & s1 & Hrun & Hgets & Hnohang & Hcount).
      unfold tryCatch at 1. rewrite Hrun.
      assert (Hstep : apiCallCount s <= apiCallCount s1 <= apiCallCount s + 1
                      /\ (forall v, o = Return v -> apiCallCount s1 = apiCallCount s + 1)).
      { destruct (o_httpGet env (trace s) module action params).
        - split; [lia|]. intros; exact Hcount.
        - destruct Hcount as [Hsame Hnoret]. split; [lia|].
          intros v Hv. exfalso. exact (Hnoret v Hv). }
      destruct Hstep as [Hbound Hret].
      destruct o as [v|e|]; [| |congruence].
      * exists (Return v), s1. split; [reflexivity|].
        pose proof (Hret v eq_refl). repeat split; try lia.
      * destruct (attempt =? maxRetries retryConfig) eqn:Hlast.
        -- eexists _, s1. split; [reflexivity|]. repeat split; try lia. discriminate.
        -- apply Z.eqb_neq in Hlast.
           unfold bind at 1.
           destruct e as [m|m orig a b|t|]; cbn [RetryUtil.readMessage].
           ++ unfold ret at 1. unfold bind at 1, emit at 1. unfold bind at 1, sleep, emit at 1.
              set (s2 := pushEvent _ (pushEvent _ s1)).
              destruct (IH (attempt + 1) (Some (JsError m)) s2)
                as (o' & s' & Hloop & H1 & H2 & H3 & H4 & _).
              exists o', s'. split; [exact Hloop|].
              assert (gets s2 = gets s1) by (unfold s2; rewrite !gets_pushEvent; simpl; lia).
              assert (apiCallCount s2 = apiCallCount s1) by reflexivity.
              repeat split; try lia. intros v Hv. specialize (H4 v Hv). lia.
           ++ unfold ret at 1. unfold bind at 1, emit at 1. unfold bind at 1, sleep, emit at 1.
              set (s2 := pushEvent _ (pushEvent _ s1)).
              destruct (IH (attempt + 1) (Some (RetryError m orig a b)) s2)
                as (o' & s' & Hloop & H1 & H2 & H3 & H4 & _).
              exists o', s'. split; [exact Hloop|].
              assert (gets s2 = gets s1) by (unfold s2; rewrite !gets_pushEvent; simpl; lia).
              assert (apiCallCount s2 = apiCallCount s1) by reflexivity.
              repeat split; try lia. intros v Hv. specialize (H4 v Hv). lia.
           ++ unfold ret at 1. unfold bind at 1, emit at 1. unfold bind at 1, sleep, emit at 1.
              set (s2 := pushEvent _ (pushEvent _ s1)).
              destruct (IH (attempt + 1) (Some (ThrownValue t)) s2)
                as (o' & s' & Hloop & H1 & H2 & H3 & H4 & _).
              exists o', s'. split; [exact Hloop|].
              assert (gets s2 = gets s1) by (unfold s2; rewrite !gets_pushEvent; simpl; lia).
              assert (apiCallCount s2 = apiCallCount s1) by reflexivity.
              repeat split; try lia. intros v Hv. specialize (H4 v Hv). lia.
           ++ eexists _, s1. split; [reflexivity|]. repeat split; try lia. discriminate.
    + apply Z.leb_gt in Hin. eexists _, s. split; [reflexivity|].
      repeat split; try lia. discriminate.
Qed.

End ClientFacts.

(** Like [retryLoop_always_throws], with the effect of each attempt on the
    GET count and on the call counter. *)
Lemma retryLoop_always_throws_counting {T} (Math_pow : double -> double -> double)
      (config : RetryConfig) (fn : M T)
      (context : option string) (message : string) (c : Z) :
  (forall s, exists s', fn s = (Throw (JsError message), s')
                        /\ gets s' = gets s + 1
                        /\ apiCallCount s' = apiCallCount s + c) ->
  forall (n fuel : nat) (attempt : Z) (lastError : option Thrown) (s : State),
    (n < fuel)%nat ->
    attempt + Z.of_nat n = maxRetries config ->
    exists s',
      RetryUtil.retryLoop Math_pow config fn context fuel attempt lastError s
        = (Throw (RetryError (RetryUtil.exhaustedMessage config context) (JsError message)
                             (maxRetries config) (maxRetries config)), s')
      /\ gets s' = gets s + Z.of_nat n + 1
      /\ apiCallCount s' = apiCallCount s + c * (Z.of_nat n + 1).
Proof.
  intros Hfn. induction n as [|n IH]; intros fuel attempt lastError s Hfuel Hatt.
  - destruct fuel as [|fuel]; [lia|]. destruct (Hfn s) as (s0 & Hrun & Hg & Hc).
    exists s0. cbn [RetryUtil.retryLoop].
    replace (attempt <=? maxRetries config) with true by (symmetry; apply Z.leb_le; lia).
    unfold tryCatch. rewrite Hrun.
    replace (attempt =? maxRetries config) with true by (symmetry; apply Z.eqb_eq; lia).
    split; [|split; lia]. unfold throw. repeat f_equal. lia.
  - destruct fuel as [|fuel]; [lia|]. destruct (Hfn s) as (s0 & Hrun & Hg & Hc).
    cbn [RetryUtil.retryLoop].
    replace (attempt <=? maxRetries config) with true by (symmetry; apply Z.leb_le; lia).
    unfold tryCatch. rewrite Hrun.
    replace (attempt =? maxRetries config) with false by (symmetry; apply Z.eqb_neq; lia).
    unfold bind, RetryUtil.readMessage, ret, emit, sleep, emit.
    set (s2 := pushEvent _ (pushEvent _ s0)).
    destruct (IH fuel (attempt + 1) (Some (JsError message)) s2) as (s' & Hloop & Hg' & Hc');
      [lia | lia |].
    exists s'. split; [exact Hloop|].
    assert (gets s2 = gets s0) by (unfold s2; rewrite !gets_pushEvent; simpl; lia).
    assert (apiCallCount s2 = apiCallCount s0) by reflexivity.
    split; lia.
Qed.

(** X8.  An HTTP 403 is turned by the response interceptor into the
    client's own error, and is retried like any other failure: when every
    GET is refused with 403, the request sends exactly [maxRetries] GETs,
    fails with the retry error wrapping "Invalid API key or rate limit
    exceeded", and leaves the call counter where it was. *)
Theorem forbidden_request_is_retried_uncounted (Math_pow : double -> double -> double)
        (env : Env) (retryConfig : RetryConfig)
        (module action : string) (params : list (string * JSON)) (context : string)
        (s : State) :
  1 <= maxRetries retryConfig ->
  (forall tr, exists error_,
      o_httpGet env tr module action params = HttpFailure (Some 403) error_) ->
  exists s',
    EtherscanClient.makeRequestOperation Math_pow env retryConfig module action params context s
      = (Throw (RetryError (RetryUtil.exhaustedMessage retryConfig (Some context))
                           (JsError "Invalid API key or rate limit exceeded")
                           (maxRetries retryConfig) (maxRetries retryConfig)), s')
    /\ gets s' = gets s + maxRetries retryConfig
    /\ EtherscanClient.getApiCallCount s' = (Return (apiCallCount s), s').
Proof.
  intros Hmax Hforbidden.
  unfold EtherscanClient.makeRequestOperation, RetryUtil.executeWithRetry.
  destruct (retryLoop_always_throws_counting Math_pow retryConfig
              (EtherscanClient.requestAttempt env module action params) (Some context)
              "Invalid API key or rate limit exceeded" 0) with
    (n := (Z.to_nat (maxRetries retryConfig) - 1)%nat)
    (fuel := S (Z.to_nat (maxRetries retryConfig))) (attempt := 1)
    (lastError := @None Thrown) (s := s) as (s' & Hrun & Hg & Hc).
  - intros s0. destruct (Hforbidden (trace s0)) as (error_ & Hget).
    destruct (httpGet_failure env module action params (Some 403) error_ s0 Hget)
      as (e & Hhttp & He & _).
    rewrite (He eq_refl) in Hhttp.
    exists (pushEvent (EvHttpGet module action) s0).
    unfold EtherscanClient.requestAttempt, bind. rewrite Hhttp.
    split; [reflexivity|]. split; [rewrite gets_pushEvent; reflexivity|].
    simpl. lia.
  - lia.
  - lia.
  - exists s'. split; [exact Hrun|]. split; [lia|].
    unfold EtherscanClient.getApiCallCount. f_equal. f_equal. lia.
Qed.

(** X8 on the refusing explorer, under the policy of the retry tests. *)
Lemma forbidden_request_is_retried_uncounted_witness :
  exists s',
    EtherscanClient.makeRequestOperation Demo.powInt Demo.forbidden Demo.retry3
      "account" "txlist" [] "getTransactions" initialState
      = (Throw (RetryError "Failed after 3 attempts (getTransactions)"
                           (JsError "Invalid API key or rate limit exceeded") 3 3), s')
    /\ gets s' = 3
    /\ EtherscanClient.getApiCallCount s' = (Return 0, s').
Proof.
  apply (forbidden_request_is_retried_uncounted Demo.powInt Demo.forbidden Demo.retry3
           "account" "txlist" [] "getTransactions" initialState).
  - simpl. lia.
  - intros tr. eexists. reflexivity.
Defined.

(** X9.  What the call counter counts.  Over one request the counter never
    decreases and grows by at most the number of GETs sent, of which there
    are between one and [maxRetries]; a request that returns has been
    counted at least once; and a response that the client turns into an
    API error is counted like any other, so a request answered with the
    same API error throughout adds [maxRetries] to the counter. *)
Theorem apiCallCount_counts_responses (Math_pow : double -> double -> double)
        (env : Env) (retryConfig : RetryConfig)
        (module action : string) (params : list (string * JSON)) (context : string)
        (s : State) :
  1 <= maxRetries retryConfig ->
  (exists o s',
      EtherscanClient.makeRequestOperation Math_pow env retryConfig module action params context s
        = (o, s')
      /\ 1 <= gets s' - gets s <= maxRetries retryConfig
      /\ apiCallCount s <= apiCallCount s' <= apiCallCount s + (gets s' - gets s)
      /\ (forall v, o = Return v -> apiCallCount s + 1 <= apiCallCount s'))
  /\ (forall data,
        (forall tr, o_httpGet env tr module action params = HttpResponse data) ->
        resp_status data = "0" ->
        EtherscanClient.isNoRecords data = false ->
        exists e s',
          EtherscanClient.makeRequestOperation Math_pow env retryConfig module action params context s
            = (Throw e, s')
          /\ gets s' = gets s + maxRetries retryConfig
          /\ apiCallCount s' = apiCallCount s + maxRetries retryConfig).
Proof.
  intros Hmax. split.
  - unfold EtherscanClient.makeRequestOperation, RetryUtil.executeWithRetry.
    destruct (retryLoop_counts Math_pow env retryConfig module action params (Some context)
                (S (Z.to_nat (maxRetries retryConfig))) 1 None s)
      as (o & s' & Hrun & H1 & H2 & H3 & H4 & H5).
    exists o, s'. split; [exact Hrun|].
    specialize (H5 ltac:(lia) Hmax).
    repeat split; try lia. exact H4.
  - intros data Hall Hstatus Hrecords.
    unfold EtherscanClient.makeRequestOperation, RetryUtil.executeWithRetry.
    destruct (retryLoop_always_throws_counting Math_pow retryConfig
                (EtherscanClient.requestAttempt env module action params) (Some context)
                ("API Error: " +:+ resp_message data) 1) with
      (n := (Z.to_nat (maxRetries retryConfig) - 1)%nat)
      (fuel := S (Z.to_nat (maxRetries retryConfig))) (attempt := 1)
      (lastError := @None Thrown) (s := s) as (s' & Hrun & Hg & Hc).
    + intros s0. eexists.
      unfold EtherscanClient.requestAttempt, EtherscanClient.httpGet, bind, getTrace, emit.
      rewrite (Hall (trace s0)).
      unfold ret, EtherscanClient.incrementApiCallCount, EtherscanClient.interpretResponse.
      rewrite Hstatus, Hrecords. cbn [String.eqb Ascii.eqb Bool.eqb].
      split; [reflexivity|].
      split; [unfold gets; cbn [trace pushEvent]; rewrite countEv_app; simpl; lia|].
      reflexivity.
    + lia.
    + lia.
    + eexists _, s'. split; [exact Hrun|]. split; lia.
Qed.

(** X9 on the explorer that always answers NOTOK. *)
Lemma apiCallCount_counts_responses_witness :
  exists e s',
    EtherscanClient.makeRequestOperation Demo.powInt (Demo.explorer Demo.notOk) Demo.retry3
      "account" "txlist" [] "getTransactions" initialState = (Throw e, s')
    /\ gets s' = 3
    /\ apiCallCount s' = 3.
Proof.
  destruct (apiCallCount_counts_responses Demo.powInt (Demo.explorer Demo.notOk) Demo.retry3
              "account" "txlist" [] "getTransactions" initialState ltac:(simpl; lia))
    as [_ Hsame].
  apply (Hsame Demo.notOk); [intros tr; reflexivity | reflexivity | reflexivity].
Defined.

(** ** BatchTokenSender: batches, token information, preflight *)

Lemma chunkLoop_shape {T} (size : nat) :
  (1 <= size)%nat ->
  forall (fuel : nat) (array : list T),
    (length array <= fuel)%nat ->
    Forall (fun chunk => (1 <= length chunk <= size)%nat) (chunkLoop fuel array size)
    /\ (forall i chunk,
          chunkLoop fuel array size !! i = Some chunk ->
          (S i < length (chunkLoop fuel array size))%nat ->
          length chunk = size)
    /\ (length array <= length (chunkLoop fuel array size) * size)%nat
    /\ (array <> [] ->
        ((length (chunkLoop fuel array size) - 1) * size < length array)%nat).
Proof.
  intros Hsize. induction fuel as [|fuel IH]; intros array Hlen.
  - destruct array; [|simpl in Hlen; lia]. simpl.
    split; [constructor|]. split; [intros i chunk H; discriminate|].
    split; [lia|congruence].
  - destruct array as [|x array].
    { simpl. split; [constructor|]. split; [intros i chunk H; discriminate|].
      split; [lia|congruence]. }
    cbn [chunkLoop].
    set (rest := drop size (x :: array)).
    assert (Hrest : (length rest <= fuel)%nat).
    { subst rest. rewrite length_drop. simpl in *. lia. }
    destruct (IH rest Hrest) as (Hall & Hfull & Hupper & Hlower).
    assert (Htake : length (take size (x :: array)) = Nat.min size (length (x :: array)))
      by apply length_take.
    assert (Hdrop : length rest = (length (x :: array) - size)%nat)
      by (subst rest; apply length_drop).
    split; [|split; [|split]].
    + constructor; [|exact Hall]. rewrite Htake. simpl. lia.
    + intros i chunk Hi Hnotlast. destruct i as [|i].
      * simpl in Hi. inversion Hi; subst chunk. rewrite Htake.
        cbn [length] in Hnotlast.
        destruct (chunkLoop fuel rest size) as [|c cs] eqn:Hchunks; [simpl in Hnotlast; lia|].
        assert (rest <> []).
        { intros Hnil. rewrite Hnil in Hchunks. destruct fuel; discriminate. }
        destruct rest; [congruence|]. simpl in Hdrop. simpl. lia.
      * simpl in Hi. apply (Hfull i chunk Hi). cbn [length] in Hnotlast. lia.
    + cbn [length]. simpl in Hdrop |- *. nia.
    + intros _. cbn [length]. rewrite Nat.sub_succ, Nat.sub_0_r.
      destruct rest as [|y rest'] eqn:Hr.
      * replace (chunkLoop fuel [] size) with (@nil (list T)) by (destruct fuel; reflexivity).
        simpl. lia.
      * assert (Hne : y :: rest' <> []) by discriminate.
        specialize (Hlower Hne). simpl in Hdrop.
        assert (1 <= length (chunkLoop fuel (y :: rest') size))%nat.
        { destruct fuel; [simpl in Hrest; lia|]. simpl. lia. }
        set (k := length (chunkLoop fuel (y :: rest') size)) in *.
        assert (Hk : (k * size = (k - 1) * size + size)%nat).
        { destruct k; [lia|]. simpl. rewrite Nat.sub_0_r. lia. }
        simpl length in Hlower |- *. lia.
Qed.

(** X10.  With a batch size of at least one, [chunkArray] cuts the list
    into consecutive batches: their concatenation is the list, no batch is
    empty or longer than the size, every batch but the last is full, and
    there are ceil(n / size) of them. *)
Theorem chunkArray_partitions {T : Type} (array : list T) (size : Z) :
  1 <= size ->
  exists chunks,
    chunkArray array size = Some chunks
    /\ concat chunks = array
    /\ Forall (fun chunk => 1 <= Z.of_nat (length chunk) <= size) chunks
    /\ (forall i chunk,
          chunks !! i = Some chunk -> (S i < length chunks)%nat ->
          Z.of_nat (length chunk) = size)
    /\ Z.of_nat (length array) <= Z.of_nat (length chunks) * size
    /\ (array <> [] -> (Z.of_nat (length chunks) - 1) * size < Z.of_nat (length array)).
Proof.
  intros Hsize. unfold chunkArray.
  destruct (Z.leb_spec size 0); [lia|].
  eexists. split; [reflexivity|].
  assert (Hn : (1 <= Z.to_nat size)%nat) by lia.
  destruct (chunkLoop_shape (Z.to_nat size) Hn (length array) array (le_n _))
    as (Hall & Hfull & Hupper & Hlower).
  split; [apply chunkLoop_concat; [exact Hn|apply le_n]|].
  split; [|split; [|split]].
  - eapply Forall_impl; [exact Hall|]. intros chunk Hc. simpl in Hc. lia.
  - intros i chunk Hi Hnotlast. rewrite (Hfull i chunk Hi Hnotlast). lia.
  - nia.
  - intros Hne. specialize (Hlower Hne). nia.
Qed.

(** X10 on seven recipients in batches of three. *)
Lemma chunkArray_partitions_witness :
  chunkArray [1; 2; 3; 4; 5; 6; 7] 3 = Some [[1; 2; 3]; [4; 5; 6]; [7]]
  /\ exists chunks,
       chunkArray [1; 2; 3; 4; 5; 6; 7] 3 = Some chunks
       /\ concat chunks = [1; 2; 3; 4; 5; 6; 7].
Proof.
  split; [reflexivity|].
  destruct (chunkArray_partitions [1; 2; 3; 4; 5; 6; 7] 3 ltac:(lia))
    as (chunks & Hrun & Hconcat & _).
  exists chunks. split; [exact Hrun | exact Hconcat].
Defined.

(** X11.  The token information is read from the contract at most once.
    A call that returns leaves the information cached, and every later call
    returns the same record without touching the chain or the state; a call
    that fails (which only an uncached call can) caches nothing and reports
    the cause under "Failed to get token info: ". *)
Theorem getTokenInfo_reads_the_contract_once (env : Env) (config : EngineConfig)
        (s : State) :
  match BatchTokenSender.getTokenInfo env config s with
  | (Return ti, s1) =>
      tokenInfo s1 = Some ti
      /\ BatchTokenSender.getTokenInfo env config s1 = (Return ti, s1)
      /\ (tokenInfo s = None -> trace s1 = trace s ++ [EvTokenMeta])
      /\ (tokenInfo s <> None -> s1 = s)
  | (Throw e, s1) =>
      tokenInfo s = None /\ tokenInfo s1 = None
      /\ trace s1 = trace s ++ [EvTokenMeta]
      /\ exists cause, e = JsError ("Failed to get token info: " +:+ cause)
  | (Hang, _) => False
  end.
Proof.
  unfold BatchTokenSender.getTokenInfo at 1.
  unfold bind, BatchTokenSender.cachedTokenInfo.
  destruct (tokenInfo s) as [cached|] eqn:Hc.
  - unfold ret. split; [exact Hc|]. split; [apply getTokenInfo_cached, Hc|].
    split; [discriminate|reflexivity].
  - unfold tryCatch, bind, getTrace, emit, settle, BatchTokenSender.setTokenInfo, ret, throw.
    destruct (o_symbol env (trace s)) as [e|symbol_];
      [split; [reflexivity|]; split; [exact Hc|]; split; [reflexivity|eexists; reflexivity]|].
    destruct (o_name env (trace s)) as [e|name_];
      [split; [reflexivity|]; split; [exact Hc|]; split; [reflexivity|eexists; reflexivity]|].
    destruct (o_decimals env (trace s)) as [e|decimals_];
      [split; [reflexivity|]; split; [exact Hc|]; split; [reflexivity|eexists; reflexivity]|].
    destruct (o_totalSupply env (trace s)) as [e|totalSupply_];
      [split; [reflexivity|]; split; [exact Hc|]; split; [reflexivity|eexists; reflexivity]|].
    split; [reflexivity|]. split; [apply getTokenInfo_cached; reflexivity|].
    split; [reflexivity|congruence].
Qed.

(** X11 on a run: the first call reads the contract, the second does not. *)
Lemma getTokenInfo_reads_the_contract_once_witness :
  exists s1,
    BatchTokenSender.getTokenInfo (Demo.world 0 Demo.bob (inr Demo.receipt)) Demo.liveConfig
      initialState = (Return Demo.tokenFacts, s1)
    /\ trace s1 = [EvTokenMeta]
    /\ BatchTokenSender.getTokenInfo (Demo.world 0 Demo.bob (inr Demo.receipt))
         Demo.liveConfig s1 = (Return Demo.tokenFacts, s1).
Proof.
  pose proof (getTokenInfo_reads_the_contract_once
                (Demo.world 0 Demo.bob (inr Demo.receipt)) Demo.liveConfig initialState) as H.
  destruct (BatchTokenSender.getTokenInfo (Demo.world 0 Demo.bob (inr Demo.receipt))
              Demo.liveConfig initialState) as [[ti|e|] s1] eqn:Hrun.
  - vm_compute in Hrun. inversion Hrun; subst. eexists. split; [reflexivity|].
    destruct H as (_ & Hagain & _). split; [reflexivity | exact Hagain].
  - vm_compute in Hrun. discriminate.
  - contradiction.
Defined.

(** ** What a run may add to the trace *)

Lemma settles_emitsOnly {A} (P : Event -> Prop) (Q : A -> Prop) (m : M A) :
  settles P Q m -> emitsOnly P m.
Proof. intros H s. apply (H s). Qed.

Lemma emitsOnly_bind {A B} (P : Event -> Prop) (m : M A) (k : A -> M B) :
  emitsOnly P m -> (forall a, emitsOnly P (k a)) -> emitsOnly P (bind m k).
Proof.
  intros Hm Hk s. unfold bind. specialize (Hm s).
  destruct (m s) as [[a|e|] s1]; simpl in *; [|exact Hm|exact Hm].
  eapply extendsBy_trans; [exact Hm|apply Hk].
Qed.

Lemma emitsOnly_tryCatch {A} (P : Event -> Prop) (m : M A) (h : Thrown -> M A) :
  emitsOnly P m -> (forall e, emitsOnly P (h e)) -> emitsOnly P (tryCatch m h).
Proof.
  intros Hm Hh s. unfold tryCatch. specialize (Hm s).
  destruct (m s) as [[a|e|] s1]; simpl in *; [exact Hm| |exact Hm].
  eapply extendsBy_trans; [exact Hm|apply Hh].
Qed.

Lemma emitsOnly_quiet {A} (P : Event -> Prop) (m : M A) :
  (forall s, trace (snd (m s)) = trace s) -> emitsOnly P m.
Proof. intros H s. apply extendsBy_same_trace, H. Qed.

Lemma emitsOnly_weaken {A} (P P' : Event -> Prop) (m : M A) :
  (forall e, P e -> P' e) -> emitsOnly P m -> emitsOnly P' m.
Proof.
  intros Himp H s. destruct (H s) as (d & Hd & Hall).
  exists d. split; [exact Hd|]. eapply Forall_impl; [exact Hall|exact Himp].
Qed.

Section SafetyFacts.
Import BatchTokenSender.
Variable R : Runtime.
Variable env : Env.
Variable config : EngineConfig.

Lemma settles_checkBalances (recipients : list BatchRecipient) :
  settles preflightEvent (fun _ => True) (checkBalances R env config recipients).
Proof.
  unfold checkBalances.
  eapply settles_bind with (Q1 := fun _ => True);
    [apply settles_getTokenInfo; exact I|intros ti _].
  repeat first [apply settles_estimateGasForBatch | settles_step].
Qed.

(** An empty list makes the gas estimate read the amount of a recipient
    that does not exist. *)
Lemma checkBalances_empty (s : State) :
  exists e s',
    checkBalances R env config [] s = (Throw e, s') /\ extendsBy preflightEvent s s'.
Proof.
  destruct (settles_checkBalances [] s) as [Hq Hext].
  destruct (checkBalances R env config [] s) as [[check|e|] s'] eqn:Hrun;
    simpl in Hq, Hext; [|exists e, s'; auto|contradiction].
  exfalso. revert Hrun. unfold checkBalances.
  unfold bind at 1. destruct (getTokenInfo env config s) as [[ti|e0|] s1]; try discriminate.
  unfold bind at 1. cbn [sumAmounts settle]. unfold ret at 1.
  unfold bind at 1.
  destruct (parseUnits R (num_toString R (num_ofZ R 0)) (decimals ti)); cbn [settle];
    [discriminate|].
  unfold ret at 1.
  unfold bind at 1, getTrace at 1. unfold bind at 1, emit at 1. unfold bind at 1, emit at 1.
  unfold bind at 1. destruct (o_getBalance env (trace s1)); cbn [settle]; [discriminate|].
  unfold ret at 1.
  unfold bind at 1. destruct (o_balanceOf env (trace s1)); cbn [settle]; [discriminate|].
  unfold ret at 1.
  unfold bind at 1. unfold estimateGasForBatch. unfold bind at 1.
  destruct (getTokenInfo env config _) as [[ti'|e0|] s2]; discriminate.
Qed.

End SafetyFacts.

(** X12.  An empty recipient list is never executed: it passes validation,
    and then the gas estimate fails on its missing first recipient, so
    [executeBatch] always throws a "Batch execution failed: " error and
    produces no report; nothing is broadcast and no transfer is started. *)
Theorem executeBatch_rejects_empty_list (R : Runtime) (env : Env) (config : EngineConfig)
        (s : State) :
  exists cause s',
    BatchTokenSender.executeBatch R env config [] s
      = (Throw (JsError ("Batch execution failed: " +:+ cause)), s')
    /\ broadcasts s' = broadcasts s
    /\ countEv isTransferLine (trace s') = countEv isTransferLine (trace s).
Proof.
  unfold BatchTokenSender.executeBatch.
  unfold bind at 1, BatchTokenSender.dateNow at 1, bind at 1, getTrace at 1, ret at 1.
  unfold tryCatch.
  unfold bind at 1. cbn [BatchTokenSender.validateRecipients map BatchTokenSender.validateLoop
                           settle].
  unfold ret at 1. unfold bind at 1.
  destruct (settles_getTokenInfo env config preflightEvent I s) as [Hq1 Hext1].
  destruct (BatchTokenSender.getTokenInfo env config s) as [[ti|e|] s1];
    simpl in Hq1, Hext1; [| |contradiction].
  - unfold bind at 1.
    destruct (checkBalances_empty R env config s1) as (e & s2 & Hrun & Hext2).
    rewrite Hrun. unfold throw.
    eexists _, s2. split; [reflexivity|].
    apply extendsBy_preflight. eapply extendsBy_trans; eauto.
  - unfold throw. eexists _, s1. split; [reflexivity|].
    apply extendsBy_preflight, Hext1.
Qed.

(** X13.  [executeBatch] sends nothing unless the whole preflight has
    passed: if a run has broadcast a transaction, or as much as announced a
    transfer, then the list was accepted by [validateRecipients], the token
    information was obtained, and [checkBalances] reported both the token
    balance and the MATIC balance as sufficient. *)
Theorem executeBatch_sends_only_after_preflight (R : Runtime) (env : Env)
        (config : EngineConfig) (recipients : list BatchRecipient) (s s' : State)
        (o : Outcome BatchReport) :
  BatchTokenSender.executeBatch R env config recipients s = (o, s') ->
  (broadcasts s < broadcasts s')%nat
  \/ (countEv isTransferLine (trace s) < countEv isTransferLine (trace s'))%nat ->
  exists validated ti s1 check s2,
    BatchTokenSender.validateRecipients R recipients = inr validated
    /\ BatchTokenSender.getTokenInfo env config s = (Return ti, s1)
    /\ BatchTokenSender.checkBalances R env config validated s1 = (Return check, s2)
    /\ sufficientToken check = true
    /\ sufficientMatic check = true.
Proof.
  intros Hrun Hsent.
  assert (Hquiet : forall s0, extendsBy preflightEvent s s0 ->
                              s0 = s' -> False).
  { intros s0 Hext ->. apply extendsBy_preflight in Hext as [H1 H2]. lia. }
  revert Hrun. unfold BatchTokenSender.executeBatch.
  unfold bind at 1, BatchTokenSender.dateNow at 1, bind at 1, getTrace at 1, ret at 1.
  unfold tryCatch.
  unfold bind at 1.
  destruct (BatchTokenSender.validateRecipients R recipients) as [e|validated] eqn:Hval;
    cbn [settle].
  { unfold throw. intros H. inversion H; subst.
    exfalso. apply (Hquiet s' (extendsBy_refl _ _) eq_refl). }
  unfold ret at 1. unfold bind at 1.
  destruct (settles_getTokenInfo env config preflightEvent I s) as [Hq1 Hext1].
  destruct (BatchTokenSender.getTokenInfo env config s) as [[ti|e|] s1] eqn:Hget;
    simpl in Hq1, Hext1; [| |contradiction].
  2:{ unfold throw. intros H. inversion H; subst. exfalso. exact (Hquiet s' Hext1 eq_refl). }
  unfold bind at 1.
  destruct (settles_checkBalances R env config validated s1) as [Hq2 Hext2].
  destruct (BatchTokenSender.checkBalances R env config validated s1)
    as [[check|e|] s2] eqn:Hcheck; simpl in Hq2, Hext2; [| |contradiction].
  2:{ unfold throw. intros H. inversion H; subst. exfalso.
      apply (Hquiet s'); [eapply extendsBy_trans; eauto|reflexivity]. }
  unfold bind at 1, BatchTokenSender.cachedTokenInfo at 1.
  destruct (sufficientToken check) eqn:Htoken; cbn [negb].
  2:{ unfold throw. intros H. inversion H; subst. exfalso.
      apply (Hquiet s'); [eapply extendsBy_trans; eauto|reflexivity]. }
  destruct (sufficientMatic check) eqn:Hmatic; cbn [negb].
  2:{ unfold throw. intros H. inversion H; subst. exfalso.
      apply (Hquiet s'); [eapply extendsBy_trans; eauto|reflexivity]. }
  intros _. exists validated, ti, s1, check, s2. auto.
Qed.

(** X12 on the demo world. *)
Lemma executeBatch_rejects_empty_list_witness :
  exists s',
    BatchTokenSender.executeBatch Demo.runtime
      (Demo.world (10 ^ 30) Demo.bob (inr Demo.receipt)) Demo.liveConfig [] initialState
    = (Throw (JsError ("Batch execution failed: "
                       +:+ "Cannot read properties of undefined (reading 'amount')")), s')
    /\ broadcasts s' = O.
Proof.
  destruct (executeBatch_rejects_empty_list Demo.runtime
              (Demo.world (10 ^ 30) Demo.bob (inr Demo.receipt)) Demo.liveConfig initialState)
    as (cause & s' & Hrun & Hsent & _).
  exists s'. vm_compute in Hrun. injection Hrun as Hcause Hs'. subst cause.
  split; [rewrite <- Hs'; vm_compute; reflexivity | exact Hsent].
Defined.

(** X13 on a funded wallet: the run broadcasts, and the preflight had
    passed. *)
Lemma executeBatch_sends_only_after_preflight_witness :
  exists check s2,
    BatchTokenSender.checkBalances Demo.wholeUnits
      (Demo.world (10 ^ 30) Demo.bob (inr Demo.receipt)) Demo.liveConfig
      Demo.threeRecipients (pushEvent EvTokenMeta Demo.ready) = (Return check, s2)
    /\ sufficientToken check = true
    /\ sufficientMatic check = true.
Proof.
  destruct (BatchTokenSender.executeBatch Demo.wholeUnits
              (Demo.world (10 ^ 30) Demo.bob (inr Demo.receipt)) Demo.liveConfig
              Demo.threeRecipients initialState) as [o s'] eqn:Hrun.
  destruct (executeBatch_sends_only_after_preflight Demo.wholeUnits
              (Demo.world (10 ^ 30) Demo.bob (inr Demo.receipt)) Demo.liveConfig
              Demo.threeRecipients initialState s' o Hrun)
    as (validated & ti & s1 & check & s2 & Hval & Hget & Hcheck & Htoken & Hmatic).
  - left. vm_compute in Hrun. injection Hrun as _ Hs'. rewrite <- Hs'. vm_compute. lia.
  - vm_compute in Hval. injection Hval as Hval. subst validated.
    vm_compute in Hget. injection Hget as Hti Hs1. subst ti s1.
    exists check, s2. split; [exact Hcheck|]. split; assumption.
Defined.

(** ** Dry runs *)

Lemma emitsOnly_ret {A} (P : Event -> Prop) (a : A) : emitsOnly P (ret a).
Proof. apply emitsOnly_quiet. reflexivity. Qed.

Lemma emitsOnly_throw {A} (P : Event -> Prop) (e : Thrown) : emitsOnly P (@throw A e).
Proof. apply emitsOnly_quiet. reflexivity. Qed.

Lemma emitsOnly_hang {A} (P : Event -> Prop) : emitsOnly P (@hang A).
Proof. apply emitsOnly_quiet. reflexivity. Qed.

Lemma emitsOnly_settle {A} (P : Event -> Prop) (r : Thrown + A) : emitsOnly P (settle r).
Proof. destruct r; [apply emitsOnly_throw|apply emitsOnly_ret]. Qed.

Lemma emitsOnly_emit (P : Event -> Prop) (e : Event) : P e -> emitsOnly P (emit e).
Proof. intros He s. apply extendsBy_pushEvent, He. Qed.

Lemma emitsOnly_ask {A} (P : Event -> Prop) (ev : Event) (oracle : Trace -> Thrown + A) :
  P ev -> emitsOnly P (ask ev oracle).
Proof. intros He. eapply settles_emitsOnly, settles_ask, He. Qed.

Lemma emitsOnly_retryLoop {T} (P : Event -> Prop) (Math_pow : double -> double -> double)
      (config : RetryConfig) (fn : M T)
      (context : option string) :
  emitsOnly P fn ->
  (forall a d m, P (EvWarn a d m)) ->
  (forall d, P (EvSleep d)) ->
  forall (fuel : nat) (attempt : Z) (lastError : option Thrown),
    emitsOnly P (RetryUtil.retryLoop Math_pow config fn context fuel attempt lastError).
Proof.
  intros Hfn Hwarn Hsleep. induction fuel as [|fuel IH]; intros attempt lastError.
  - apply emitsOnly_hang.
  - cbn [RetryUtil.retryLoop].
    destruct (attempt <=? maxRetries config); [|apply emitsOnly_throw].
    apply emitsOnly_tryCatch; [exact Hfn|intros e].
    destruct (attempt =? maxRetries config); [apply emitsOnly_throw|].
    apply emitsOnly_bind.
    + destruct e; cbn [RetryUtil.readMessage];
        first [apply emitsOnly_ret | apply emitsOnly_throw].
    + intros msg. apply emitsOnly_bind; [apply emitsOnly_emit, Hwarn|intros _].
      apply emitsOnly_bind; [apply emitsOnly_emit, Hsleep|intros _].
      apply IH.
Qed.

Ltac only_step :=
  lazymatch goal with
  | |- emitsOnly _ (bind _ _) => apply emitsOnly_bind; [|intros ?]
  | |- emitsOnly _ (tryCatch _ _) => apply emitsOnly_tryCatch; [|intros ?]
  | |- emitsOnly _ (ret _) => apply emitsOnly_ret
  | |- emitsOnly _ (throw _) => apply emitsOnly_throw
  | |- emitsOnly _ hang => apply emitsOnly_hang
  | |- emitsOnly _ (settle _) => apply emitsOnly_settle
  | |- emitsOnly _ (ask _ _) => apply emitsOnly_ask; exact I
  | |- emitsOnly _ (emit _) => apply emitsOnly_emit; exact I
  | |- emitsOnly _ (sleep _) => apply emitsOnly_emit; exact I
  | |- emitsOnly _ getTrace => apply emitsOnly_quiet; reflexivity
  | |- emitsOnly _ (BatchTokenSender.now _) => apply emitsOnly_quiet; reflexivity
  | |- emitsOnly _ (BatchTokenSender.dateNow _) => apply emitsOnly_quiet; reflexivity
  | |- emitsOnly _ BatchTokenSender.cachedTokenInfo => apply emitsOnly_quiet; reflexivity
  | |- emitsOnly _ (if ?b then _ else _) => destruct b
  | |- emitsOnly _ (match ?x with _ => _ end) => destruct x
  end.

Section DryRunFacts.
Import BatchTokenSender.
Variable R : Runtime.
Variable env : Env.
Variable config : EngineConfig.
Hypothesis Hdry : ec_dryRun config = true.

Lemma dry_getTokenInfo : emitsOnly dryRunEvent (getTokenInfo env config).
Proof. eapply settles_emitsOnly, settles_getTokenInfo. exact I. Qed.

Lemma dry_executeTransfer (recipient_ : BatchRecipient) (nonce : Z) :
  emitsOnly dryRunEvent (executeTransfer R env config recipient_ nonce).
Proof.
  unfold executeTransfer.
  apply emitsOnly_bind; [apply dry_getTokenInfo|intros ti].
  apply emitsOnly_bind; [apply emitsOnly_settle|intros amountWei].
  apply emitsOnly_tryCatch; [|intros e; repeat only_step].
  apply emitsOnly_bind; [only_step|intros gasLimit].
  apply emitsOnly_bind; [only_step|intros adjusted].
  apply emitsOnly_bind; [only_step|intros feeData]. cbv zeta.
  apply emitsOnly_bind; [only_step|intros _].
  rewrite Hdry. repeat only_step.
Qed.

Lemma dry_transferWithRetry (recipient_ : BatchRecipient) (nonce : Z) :
  emitsOnly dryRunEvent (transferWithRetry R env config recipient_ nonce).
Proof.
  unfold transferWithRetry. apply emitsOnly_tryCatch.
  - apply emitsOnly_bind; [|intros result; apply emitsOnly_ret].
    unfold RetryUtil.executeWithRetry.
    apply emitsOnly_retryLoop; [apply dry_executeTransfer | intros; exact I..].
  - intros e. repeat only_step.
Qed.

Lemma dry_batchLoop (total batchIndex batchLength : Z) :
  forall (rest : list BatchRecipient) (i nonce : Z) (results : list TransferResult),
    emitsOnly dryRunEvent
      (batchLoop R env config total batchIndex batchLength rest i nonce results).
Proof.
  induction rest as [|r rest IH]; intros i nonce results; cbn [batchLoop].
  - apply emitsOnly_ret.
  - apply emitsOnly_bind; [apply emitsOnly_emit; exact I|intros _].
    apply emitsOnly_bind; [apply dry_transferWithRetry|intros [result ok]].
    apply emitsOnly_bind; [repeat only_step|intros _]. apply IH.
Qed.

Lemma dry_batchesLoop (total batchCount : Z) :
  forall (batches : list (list BatchRecipient)) (batchIndex : Z)
         (results : list TransferResult),
    emitsOnly dryRunEvent
      (batchesLoop R env config total batchCount batches batchIndex results).
Proof.
  induction batches as [|batch batches IH]; intros batchIndex results; cbn [batchesLoop].
  - apply emitsOnly_ret.
  - apply emitsOnly_bind; [only_step|intros nonce].
    apply emitsOnly_bind; [apply dry_batchLoop|intros results'].
    apply emitsOnly_bind; [repeat only_step|intros _]. apply IH.
Qed.

Lemma dry_executeBatchTransfers (recipients : list BatchRecipient) :
  emitsOnly dryRunEvent (executeBatchTransfers R env config recipients).
Proof.
  unfold executeBatchTransfers.
  apply emitsOnly_bind; [apply dry_getTokenInfo|intros _].
  destruct (chunkArray recipients (ec_batchSize config));
    [apply dry_batchesLoop|apply emitsOnly_hang].
Qed.

Lemma dry_executeBatch (recipients : list BatchRecipient) :
  emitsOnly dryRunEvent (executeBatch R env config recipients).
Proof.
  unfold executeBatch.
  apply emitsOnly_bind; [only_step|intros startTime].
  apply emitsOnly_tryCatch; [|intros e; apply emitsOnly_throw].
  apply emitsOnly_bind; [only_step|intros validated].
  apply emitsOnly_bind; [apply dry_getTokenInfo|intros _].
  apply emitsOnly_bind.
  { eapply emitsOnly_weaken; [|eapply settles_emitsOnly, settles_checkBalances].
    intros ev. destruct ev; simpl; tauto. }
  intros check. apply emitsOnly_bind; [only_step|intros cached].
  destruct (negb (sufficientToken check)); [apply emitsOnly_throw|].
  destruct (negb (sufficientMatic check)); [apply emitsOnly_throw|].
  apply emitsOnly_bind; [apply dry_executeBatchTransfers|intros results].
  unfold generateReport. repeat only_step.
Qed.

End DryRunFacts.

Lemma countEv_dryRun (d : Trace) :
  Forall dryRunEvent d -> countEv isSend d = O /\ countEv isWait d = O.
Proof.
  induction 1 as [|e d He _ IH]; [split; reflexivity|].
  destruct e; simpl in *; try contradiction; exact IH.
Qed.

(** X14.  In dry-run mode nothing is ever sent: whatever the recipients,
    the chain and the outcome of the run, [executeBatch] and
    [executeBatchTransfers] broadcast no transaction and wait for no
    receipt. *)
Theorem dry_run_never_broadcasts (R : Runtime) (env : Env) (config : EngineConfig)
        (recipients : list BatchRecipient) (s : State) :
  ec_dryRun config = true ->
  (broadcasts (snd (BatchTokenSender.executeBatch R env config recipients s)) = broadcasts s
   /\ countEv isWait (trace (snd (BatchTokenSender.executeBatch R env config recipients s)))
      = countEv isWait (trace s))
  /\ (broadcasts (snd (BatchTokenSender.executeBatchTransfers R env config recipients s))
      = broadcasts s
      /\ countEv isWait
           (trace (snd (BatchTokenSender.executeBatchTransfers R env config recipients s)))
         = countEv isWait (trace s)).
Proof.
  intros Hdry.
  assert (Hcount : forall s', extendsBy dryRunEvent s s' ->
                              broadcasts s' = broadcasts s
                              /\ countEv isWait (trace s') = countEv isWait (trace s)).
  { intros s' (d & Hd & Hall). unfold broadcasts. rewrite Hd, !countEv_app.
    destruct (countEv_dryRun d Hall) as [H1 H2]. rewrite H1, H2. lia. }
  split; apply Hcount.
  - apply dry_executeBatch, Hdry.
  - apply dry_executeBatchTransfers, Hdry.
Qed.

(** X14 on a dry run over three recipients in batches of two: every
    transfer whose gas estimate succeeds is reported successful, under the
    mock hash, and nothing was sent. *)
Lemma dry_run_never_broadcasts_witness :
  exists outs s',
    BatchTokenSender.executeBatchTransfers Demo.runtime
      (Demo.world (10 ^ 30) Demo.bob (inr Demo.receipt)) Demo.dryConfig
      Demo.threeRecipients Demo.ready = (Return outs, s')
    /\ map status outs = [success; failed; success]
    /\ map txHash outs = [Some ("0x" +:+ repeatString "0" 64); None;
                          Some ("0x" +:+ repeatString "0" 64)]
    /\ broadcasts s' = O
    /\ sleeps (trace s') = [].
Proof.
  destruct (dry_run_never_broadcasts Demo.runtime
              (Demo.world (10 ^ 30) Demo.bob (inr Demo.receipt)) Demo.dryConfig
              Demo.threeRecipients Demo.ready eq_refl) as [_ [Hsent _]].
  destruct (BatchTokenSender.executeBatchTransfers Demo.runtime
              (Demo.world (10 ^ 30) Demo.bob (inr Demo.receipt)) Demo.dryConfig
              Demo.threeRecipients Demo.ready) as [o s'] eqn:Hrun.
  vm_compute in Hrun. injection Hrun as Ho Hs'. subst o.
  eexists _, s'. split; [reflexivity|].
  split; [reflexivity|]. split; [reflexivity|].
  split; [exact Hsent|]. rewrite <- Hs'. reflexivity.
Defined.

(** ** The one failure the batch loop does retry *)

(** An operation that throws the same [Error] without touching the state,
    from every state satisfying an invariant that recording an event
    preserves, exhausts the retry policy; the executor adds one warning and
    one pause per attempt but the last. *)
Lemma retryLoop_rethrows_quietly {T} (Math_pow : double -> double -> double)
      (config : RetryConfig) (fn : M T)
      (context : option string) (message : string) (Inv : State -> Prop) :
  (forall s ev, Inv s -> Inv (pushEvent ev s)) ->
  (forall s, Inv s -> fn s = (Throw (JsError message), s)) ->
  forall (n fuel : nat) (attempt : Z) (lastError : option Thrown) (s : State),
    Inv s ->
    (n < fuel)%nat ->
    attempt + Z.of_nat n = maxRetries config ->
    exists s',
      RetryUtil.retryLoop Math_pow config fn context fuel attempt lastError s
        = (Throw (RetryError (RetryUtil.exhaustedMessage config context) (JsError message)
                             (maxRetries config) (maxRetries config)), s')
      /\ extendsBy retryStepEvent s s'
      /\ countEv isWarn (trace s') = (countEv isWarn (trace s) + n)%nat.
Proof.
  intros Hinv Hfn. induction n as [|n IH]; intros fuel attempt lastError s Hs Hfuel Hatt.
  - destruct fuel as [|fuel]; [lia|].
    exists s. cbn [RetryUtil.retryLoop].
    replace (attempt <=? maxRetries config) with true by (symmetry; apply Z.leb_le; lia).
    unfold tryCatch. rewrite (Hfn s Hs).
    replace (attempt =? maxRetries config) with true by (symmetry; apply Z.eqb_eq; lia).
    split; [|split; [apply extendsBy_refl|lia]].
    unfold throw. repeat f_equal. lia.
  - destruct fuel as [|fuel]; [lia|].
    cbn [RetryUtil.retryLoop].
    replace (attempt <=? maxRetries config) with true by (symmetry; apply Z.leb_le; lia).
    unfold tryCatch. rewrite (Hfn s Hs).
    replace (attempt =? maxRetries config) with false by (symmetry; apply Z.eqb_neq; lia).
    unfold bind, RetryUtil.readMessage, ret, emit, sleep, emit.
    set (s2 := pushEvent _ (pushEvent _ s)).
    destruct (IH fuel (attempt + 1) (Some (JsError message)) s2)
      as (s' & Hrun & Hext & Hwarn).
    + subst s2. apply Hinv, Hinv, Hs.
    + lia.
    + lia.
    + exists s'. split; [exact Hrun|]. split.
      * eapply extendsBy_trans; [|exact Hext].
        eapply extendsBy_trans; apply extendsBy_pushEvent; exact I.
      * rewrite Hwarn. subst s2. rewrite !countEv_pushEvent. simpl. lia.
Qed.

Lemma countEv_retrySteps (d : Trace) :
  Forall retryStepEvent d ->
  countEv isSend d = O /\ countEv isEstimateGas d = O.
Proof.
  induction 1 as [|e d He _ IH]; [split; reflexivity|].
  destruct e; simpl in *; try contradiction; exact IH.
Qed.

(** X15.  A transfer whose amount [parseUnits] rejects (the conversion
    comes before the [try] of [executeTransfer]) is the one failure the
    batch loop retries: the conversion is attempted [maxRetries] times,
    with a warning after each attempt but the last, the chain is never
    called, and the transfer is recorded as failed under the retry
    executor's message, with [attempts] set to [maxRetries + 1]. *)
Theorem unparseable_amount_exhausts_the_retries (R : Runtime) (env : Env)
        (config : EngineConfig) (recipient_ : BatchRecipient) (nonce : Z) (s : State)
        (ti : TokenInfo) (message : string) :
  tokenInfo s = Some ti ->
  parseUnits R (amount recipient_) (decimals ti) = inl (JsError message) ->
  1 <= ec_maxRetries config ->
  exists result s',
    BatchTokenSender.transferWithRetry R env config recipient_ nonce s
      = (Return (result, false), s')
    /\ status result = failed
    /\ error result
       = Some (RetryUtil.exhaustedMessage (BatchTokenSender.retryConfig config)
                 (Some ("transfer to " +:+ address recipient_)))
    /\ attempts result = Some (ec_maxRetries config + 1)
    /\ Z.of_nat (countEv isWarn (trace s'))
       = Z.of_nat (countEv isWarn (trace s)) + ec_maxRetries config - 1
    /\ countEv isEstimateGas (trace s') = countEv isEstimateGas (trace s)
    /\ broadcasts s' = broadcasts s.
Proof.
  intros Hti Hparse Hmax.
  destruct (retryLoop_rethrows_quietly (Math_pow R) (BatchTokenSender.retryConfig config)
              (BatchTokenSender.executeTransfer R env config recipient_ nonce)
              (Some ("transfer to " +:+ address recipient_)) message
              (fun s0 => tokenInfo s0 = Some ti))
    with (n := (Z.to_nat (ec_maxRetries config) - 1)%nat)
         (fuel := S (Z.to_nat (ec_maxRetries config))) (attempt := 1)
         (lastError := @None Thrown) (s := s) as (s1 & Hrun & Hext & Hwarn).
  - intros s0 ev H. exact H.
  - intros s0 H0. unfold BatchTokenSender.executeTransfer.
    unfold bind at 1. rewrite (getTokenInfo_cached env config ti s0 H0).
    unfold bind at 1. rewrite Hparse. reflexivity.
  - exact Hti.
  - lia.
  - simpl. lia.
  - unfold BatchTokenSender.transferWithRetry, tryCatch.
    unfold bind at 1. unfold RetryUtil.executeWithRetry.
    change (maxRetries (BatchTokenSender.retryConfig config)) with (ec_maxRetries config).
    change (maxRetries (BatchTokenSender.retryConfig config)) with (ec_maxRetries config)
      in Hrun.
    rewrite Hrun. cbn [errorText].
    assert (Hquiet : forall s2, extendsBy retryStepEvent s1 s2 ->
                                countEv isWarn (trace s2) = countEv isWarn (trace s1) ->
                                Z.of_nat (countEv isWarn (trace s2))
                                = Z.of_nat (countEv isWarn (trace s)) + ec_maxRetries config - 1
                                /\ countEv isEstimateGas (trace s2)
                                   = countEv isEstimateGas (trace s)
                                /\ broadcasts s2 = broadcasts s).
    { intros s2 Hext2 Hsame.
      destruct (extendsBy_trans _ _ _ _ Hext Hext2) as (d & Hd & Hall).
      destruct (countEv_retrySteps d Hall) as [Hsend Hest].
      split; [rewrite Hsame, Hwarn; lia|].
      unfold broadcasts. rewrite Hd, !countEv_app, Hsend, Hest. lia. }
    destruct (isRateLimitText _).
    + unfold bind, sleep, emit, BatchTokenSender.now, bind, getTrace, ret.
      eexists _, _. split; [reflexivity|]. cbn [status error attempts].
      split; [reflexivity|]. split; [reflexivity|]. split; [reflexivity|].
      apply Hquiet.
      * apply extendsBy_pushEvent. exact I.
      * rewrite countEv_pushEvent. simpl. lia.
    + unfold bind, ret, BatchTokenSender.now, bind, getTrace, ret.
      eexists _, _. split; [reflexivity|]. cbn [status error attempts].
      split; [reflexivity|]. split; [reflexivity|]. split; [reflexivity|].
      apply Hquiet; [apply extendsBy_refl|reflexivity].
Qed.

(** X15 on a recipient whose amount the demo's [parseUnits] rejects. *)
Lemma unparseable_amount_exhausts_the_retries_witness :
  exists result s',
    BatchTokenSender.transferWithRetry Demo.runtime
      (Demo.world (10 ^ 30) Demo.bob (inr Demo.receipt)) Demo.liveConfig
      {| address := Demo.alice; amount := "1e3" |} 7 Demo.ready
      = (Return (result, false), s')
    /\ status result = failed
    /\ error result
       = Some "Failed after 3 attempts (transfer to 0x00000000000000000000000000000000000000a1)"
    /\ attempts result = Some 4
    /\ countEv isWarn (trace s') = 2%nat
    /\ broadcasts s' = O.
Proof.
  destruct (unparseable_amount_exhausts_the_retries Demo.runtime
              (Demo.world (10 ^ 30) Demo.bob (inr Demo.receipt)) Demo.liveConfig
              {| address := Demo.alice; amount := "1e3" |} 7 Demo.ready Demo.tokenFacts
              "invalid FixedNumber string value" eq_refl eq_refl ltac:(simpl; lia))
    as (result & s' & Hrun & Hstatus & Herror & Hattempts & Hwarn & _ & Hsent).
  exists result, s'. split; [exact Hrun|]. split; [exact Hstatus|].
  split; [rewrite Herror; vm_compute; reflexivity|].
  split; [exact Hattempts|]. split; [|exact Hsent].
  simpl in Hwarn. lia.
Defined.

(** ** The input loader and the validator *)

Section LoaderFacts.
Import BatchTokenSender.
Variable R : Runtime.

Lemma toRecipient_item (item : JSON) (r : BatchRecipient) :
  (item = recipientItem "amount" r /\ amount r <> "") \/ item = recipientItem "value" r ->
  toRecipient R item = inr (toRaw r).
Proof.
  intros [[-> Hamount]| ->]; unfold toRecipient, recipientItem, getProp; cbn [assoc].
  - cbn [String.eqb Ascii.eqb Bool.eqb andb]. cbn [truthy].
    destruct (String.eqb (amount r) "") eqn:Hempty.
    + apply String.eqb_eq in Hempty. contradiction.
    + reflexivity.
  - reflexivity.
Qed.

Lemma mapThrow_items (items : list JSON) (recipients : list BatchRecipient) :
  Forall2 (fun item r =>
             (item = recipientItem "amount" r /\ amount r <> "")
             \/ item = recipientItem "value" r) items recipients ->
  mapThrow (toRecipient R) items = inr (map toRaw recipients).
Proof.
  induction 1 as [|item r items recipients Hitem _ IH]; [reflexivity|].
  cbn [mapThrow map]. rewrite (toRecipient_item item r Hitem), IH. reflexivity.
Qed.

Lemma validateLoop_amounts :
  forall (recipients : list BatchRecipient) (seen : gset string)
         (validated out : list BatchRecipient),
    validateLoop R (map toRaw recipients) seen validated = inr out ->
    Forall (fun r => isAddress R (address r) = true
                     /\ isNaN R (parseFloat R (amount r)) = false
                     /\ num_leb R (parseFloat R (amount r)) (num_ofZ R 0) = false)
           recipients.
Proof.
  induction recipients as [|r recipients IH]; intros seen validated out H; [constructor|].
  simpl in H.
  destruct (isAddress R (address r)) eqn:Haddr; [|discriminate].
  destruct (decide (getAddress R (address r) ∈ seen)); [discriminate|].
  destruct (isNaN R (parseFloat R (amount r))) eqn:Hnan; [discriminate|].
  destruct (num_leb R (parseFloat R (amount r)) (num_ofZ R 0)) eqn:Hpos; [discriminate|].
  simpl in H. constructor; [auto|]. eapply IH, H.
Qed.

Lemma sumAmounts_normalised :
  forall (recipients : list BatchRecipient) (total : number R),
    Forall (fun r => isAddress R (address r) = true
                     /\ isNaN R (parseFloat R (amount r)) = false
                     /\ num_leb R (parseFloat R (amount r)) (num_ofZ R 0) = false)
           recipients ->
    sumAmounts R (map (normalised R) recipients) total
    = inr (fold_left (fun sum r => num_add R sum (parseFloat R (amount r)))
                     recipients total).
Proof.
  induction recipients as [|r recipients IH]; intros total Hall; [reflexivity|].
  inversion Hall as [|? ? (_ & Hnan & Hpos) Hrest]; subst.
  cbn [map sumAmounts normalised amount fold_left].
  rewrite Hnan, Hpos. cbn [orb]. apply IH, Hrest.
Qed.

End LoaderFacts.

(** X16.  The loader reads the documented input format: for a file
    holding an array of [{address, amount}] objects with non-empty string
    amounts (or [{address, value}] objects), [loadRecipientsFromJson] is
    [validateRecipients] on the recipients spelled there, with a rejection
    reported under "Failed to load recipients from <path>: "; it reads the
    file once and changes nothing else. *)
Theorem loadRecipientsFromJson_reads_recipient_lists (R : Runtime) (filepath : string)
        (items : list JSON) (recipients : list BatchRecipient) (s : State) :
  assoc filepath (files s) = Some (JsonText (JArr items)) ->
  Forall2 (fun item r =>
             (item = recipientItem "amount" r /\ amount r <> "")
             \/ item = recipientItem "value" r) items recipients ->
  BatchTokenSender.loadRecipientsFromJson R filepath s
  = (match BatchTokenSender.validateRecipients R recipients with
     | inr validated => Return validated
     | inl e => Throw (JsError ("Failed to load recipients from " +:+ filepath +:+ ": "
                                +:+ errorText e))
     end, pushEvent (EvReadFile filepath) s).
Proof.
  intros Hfile Hitems.
  unfold BatchTokenSender.loadRecipientsFromJson, tryCatch, BatchTokenSender.readFile.
  unfold bind at 1. unfold bind at 1, emit at 1.
  change (files (pushEvent (EvReadFile filepath) s)) with (files s). rewrite Hfile.
  cbn [BatchTokenSender.parseFile]. unfold ret at 1.
  unfold bind at 1. rewrite (mapThrow_items R items recipients Hitems).
  cbn [settle]. unfold bind, ret.
  unfold BatchTokenSender.validateRecipients.
  destruct (BatchTokenSender.validateLoop R (map (BatchTokenSender.toRaw) recipients) ∅ []);
    reflexivity.
Qed.

(** X16 on a file in the documented format, read back through the demo's
    address normalisation. *)
Lemma loadRecipientsFromJson_reads_recipient_lists_witness :
  BatchTokenSender.loadRecipientsFromJson Demo.runtime "recipients.json"
    {| trace := []; tokenInfo := None; apiCallCount := 0;
       files := [("recipients.json",
                  JsonText (JArr [recipientItem "amount"
                                    {| address := Demo.aliceUpper; amount := "100" |};
                                  recipientItem "value"
                                    {| address := Demo.bob; amount := "250" |}]))] |}
  = (Return [ {| address := Demo.alice; amount := "100" |};
              {| address := Demo.bob; amount := "250" |} ],
     {| trace := [EvReadFile "recipients.json"]; tokenInfo := None; apiCallCount := 0;
        files := [("recipients.json",
                   JsonText (JArr [recipientItem "amount"
                                     {| address := Demo.aliceUpper; amount := "100" |};
                                   recipientItem "value"
                                     {| address := Demo.bob; amount := "250" |}]))] |}).
Proof.
  rewrite (loadRecipientsFromJson_reads_recipient_lists Demo.runtime "recipients.json"
             [recipientItem "amount" {| address := Demo.aliceUpper; amount := "100" |};
              recipientItem "value" {| address := Demo.bob; amount := "250" |}]
             [ {| address := Demo.aliceUpper; amount := "100" |};
               {| address := Demo.bob; amount := "250" |} ]).
  - vm_compute. reflexivity.
  - reflexivity.
  - constructor; [left; split; [reflexivity|discriminate]|].
    constructor; [right; reflexivity|constructor].
Defined.

(** X17.  Every way [loadRecipientsFromJson] can fail is reported as one
    kind of error: whatever the file system holds, the call returns or
    throws an [Error] whose message starts with "Failed to load recipients
    from <path>: "; it reads the file once, and otherwise leaves the state
    as it was.  A missing file and a document that is not an array are
    reported as such. *)
Theorem loadRecipientsFromJson_failures_are_wrapped (R : Runtime) (filepath : string)
        (s : State) :
  exists o,
    BatchTokenSender.loadRecipientsFromJson R filepath s
      = (o, pushEvent (EvReadFile filepath) s)
    /\ match o with
       | Return _ => True
       | Throw e => exists cause,
           e = JsError ("Failed to load recipients from " +:+ filepath +:+ ": " +:+ cause)
       | Hang => False
       end
    /\ (assoc filepath (files s) = None ->
        o = Throw (JsError ("Failed to load recipients from " +:+ filepath +:+ ": "
                            +:+ "ENOENT: no such file or directory, open '"
                            +:+ filepath +:+ "'")))
    /\ (forall doc, assoc filepath (files s) = Some (JsonText doc) ->
                    (forall items, doc <> JArr items) ->
        o = Throw (JsError ("Failed to load recipients from " +:+ filepath +:+ ": "
                            +:+ "JSON file must contain an array of recipients"))).
Proof.
  unfold BatchTokenSender.loadRecipientsFromJson, tryCatch, BatchTokenSender.readFile.
  unfold bind at 1. unfold bind at 1, emit at 1.
  change (files (pushEvent (EvReadFile filepath) s)) with (files s).
  destruct (assoc filepath (files s)) as [[doc|raw]|] eqn:Hfile.
  - cbn [BatchTokenSender.parseFile]. unfold ret at 1.
    destruct doc as [|b|q|t|items|fields];
      try (eexists; split; [reflexivity|]; split; [eexists; reflexivity|];
           split; [discriminate|]; intros doc0 [= <-] _; reflexivity).
    unfold bind at 1.
    destruct (BatchTokenSender.mapThrow (BatchTokenSender.toRecipient R) items)
      as [e|raws]; cbn [settle].
    + eexists. split; [reflexivity|]. split; [eexists; reflexivity|].
      split; [discriminate|]. intros doc0 [= <-] Hno. exfalso. exact (Hno items eq_refl).
    + unfold bind, ret.
      destruct (BatchTokenSender.validateLoop R raws ∅ []) as [e|validated]; cbn [settle].
      * eexists. split; [reflexivity|]. split; [eexists; reflexivity|].
        split; [discriminate|]. intros doc0 [= <-] Hno. exfalso. exact (Hno items eq_refl).
      * eexists. split; [reflexivity|]. split; [exact I|].
        split; [discriminate|]. intros doc0 [= <-] Hno. exfalso. exact (Hno items eq_refl).
  - cbn [BatchTokenSender.parseFile].
    eexists. split; [reflexivity|]. split; [eexists; reflexivity|].
    split; [discriminate|]. intros doc0 [=].
  - eexists. split; [reflexivity|]. split; [eexists; reflexivity|].
    split; [intros _; reflexivity|]. intros doc0 [=].
Qed.

(** X17 on a missing file. *)
Lemma loadRecipientsFromJson_failures_are_wrapped_witness :
  BatchTokenSender.loadRecipientsFromJson Demo.runtime "missing.json" initialState
  = (Throw (JsError ("Failed to load recipients from " +:+ "missing.json" +:+ ": "
                     +:+ "ENOENT: no such file or directory, open '"
                     +:+ "missing.json" +:+ "'")),
     pushEvent (EvReadFile "missing.json") initialState).
Proof.
  destruct (loadRecipientsFromJson_failures_are_wrapped Demo.runtime "missing.json"
              initialState) as (o & Hrun & _ & Hmissing & _).
  rewrite Hrun, (Hmissing eq_refl). reflexivity.
Defined.

(** X18.  What an accepted list guarantees downstream: its addresses are
    pairwise distinct, every input address was well formed, every amount
    reads as a number greater than zero, and therefore the amount re-check
    of [checkBalances] cannot fail on it: [sumAmounts] returns the sum of
    the amounts. *)
Theorem validateRecipients_output_is_sound (R : Runtime)
        (recipients validated : list BatchRecipient) :
  BatchTokenSender.validateRecipients R recipients = inr validated ->
  NoDup (map address validated)
  /\ Forall (fun r => isAddress R (address r) = true) recipients
  /\ Forall (fun r => isNaN R (parseFloat R (amount r)) = false
                      /\ num_leb R (parseFloat R (amount r)) (num_ofZ R 0) = false)
            validated
  /\ BatchTokenSender.sumAmounts R validated (num_ofZ R 0)
     = inr (fold_left (fun sum r => num_add R sum (parseFloat R (amount r)))
                      recipients (num_ofZ R 0)).
Proof.
  unfold BatchTokenSender.validateRecipients. intros Hrun.
  pose proof (validateLoop_amounts R recipients ∅ [] validated Hrun) as Hall.
  apply validateLoop_accepted in Hrun as (Hout & Hnd & _). simpl in Hout. subst validated.
  split; [|split; [|split]].
  - rewrite map_map. exact Hnd.
  - eapply Forall_impl; [exact Hall|]. intros r (H & _). exact H.
  - apply Forall_fmap. eapply Forall_impl; [exact Hall|]. intros r (_ & H). exact H.
  - apply sumAmounts_normalised, Hall.
Qed.

(** X18 on the three demo recipients. *)
Lemma validateRecipients_output_is_sound_witness :
  NoDup (map address Demo.threeRecipients)
  /\ BatchTokenSender.sumAmounts Demo.runtime Demo.threeRecipients (Some (inject_Z 0))
     = inr (fold_left (fun sum r => num_add Demo.runtime sum
                                      (parseFloat Demo.runtime (amount r)))
                      Demo.threeRecipients (Some (inject_Z 0))).
Proof.
  destruct (validateRecipients_output_is_sound Demo.runtime Demo.threeRecipients
              Demo.threeRecipients eq_refl) as (Hnd & _ & _ & Hsum).
  split; [exact Hnd | exact Hsum].
Defined.

(** ** BatchReportManager: file names, saving and loading reports *)

Lemma endsWith_append (suffix s : string) :
  BatchReportManager.endsWith suffix (s +:+ suffix) = true.
Proof.
  induction s as [|c s IH].
  - change ("" +:+ suffix) with suffix.
    destruct suffix; cbn [BatchReportManager.endsWith]; rewrite String.eqb_refl; reflexivity.
  - change (String c s +:+ suffix) with (String c (s +:+ suffix)).
    cbn [BatchReportManager.endsWith]. rewrite IH. apply orb_true_r.
Qed.

Lemma endsWith_prepend (suffix s : string) :
  BatchReportManager.endsWith suffix s = true ->
  forall before, BatchReportManager.endsWith suffix (before +:+ s) = true.
Proof.
  intros H. induction before as [|c before IH]; [exact H|].
  change (String c before +:+ s) with (String c (before +:+ s)).
  cbn [BatchReportManager.endsWith]. rewrite IH. apply orb_true_r.
Qed.

Lemma generateFilename_returns (env : Env) (tokenContract_ : string)
      (customFilename : option string) (s : State) :
  exists filename,
    BatchReportManager.generateFilename env tokenContract_ customFilename s
    = (Return filename, s).
Proof.
  unfold BatchReportManager.generateFilename.
  destruct customFilename as [customName |];
    [destruct (String.eqb customName "") |]; cbn [negb]; eexists; reflexivity.
Qed.

(** X19.  Whatever the token contract, the custom name and the clock,
    [generateFilename] returns a name ending in ".json" and changes
    nothing: a custom name that already ends in ".json" is kept as it is,
    any other non-empty custom name gets the extension appended, and
    without a custom name (or with an empty one) the name is built from the
    first eight characters of the contract address and the time. *)
Theorem generateFilename_ends_in_json (env : Env) (tokenContract_ : string)
        (customFilename : option string) (s : State) :
  exists filename,
    BatchReportManager.generateFilename env tokenContract_ customFilename s
      = (Return filename, s)
    /\ BatchReportManager.endsWith ".json" filename = true
    /\ (forall customName,
          customFilename = Some customName -> customName <> "" ->
          filename = (if BatchReportManager.endsWith ".json" customName
                      then customName else customName +:+ ".json"))
    /\ (customFilename = None \/ customFilename = Some "" ->
        filename = "batch_transfer_report_" +:+ slice0 8 tokenContract_ +:+ "_"
                   +:+ dashTimestamp (clockIso env (trace s)) +:+ ".json").
Proof.
  assert (Hdefault : BatchReportManager.endsWith ".json"
                       ("batch_transfer_report_" +:+ slice0 8 tokenContract_ +:+ "_"
                        +:+ dashTimestamp (clockIso env (trace s)) +:+ ".json") = true).
  { do 3 apply endsWith_prepend. apply endsWith_append. }
  unfold BatchReportManager.generateFilename.
  destruct customFilename as [customName|].
  - destruct (String.eqb customName "") eqn:Hempty; cbn [negb].
    + apply String.eqb_eq in Hempty. subst customName.
      eexists. split; [reflexivity|]. split; [exact Hdefault|].
      split; [intros c [= <-] Hne; congruence|]. intros _. reflexivity.
    + apply String.eqb_neq in Hempty.
      eexists. split; [reflexivity|]. split.
      * destruct (BatchReportManager.endsWith ".json" customName) eqn:Hjson;
          [exact Hjson|apply endsWith_append].
      * split; [intros c [= <-] _; reflexivity|].
        intros [H|H]; [discriminate|]. injection H as ->. congruence.
  - eexists. split; [reflexivity|]. split; [exact Hdefault|].
    split; [intros c [=]|]. intros _. reflexivity.
Qed.

Section ReportFiles.
Variable R : Runtime.
Variable env : Env.
Variable outputDir : string.

Lemma loadBatchReport_object (filepath : string) (fields : list (string * JSON))
      (s : State) :
  assoc filepath (files s) = Some (JsonText (JObj fields)) ->
  BatchReportManager.loadBatchReport filepath s
  = (if BatchTokenSender.truthy (assoc "summary" fields)
        && BatchTokenSender.truthy (assoc "transfers" fields)
     then Return (JObj fields)
     else Throw (JsError "Failed to load batch report: Invalid batch report format"),
     pushEvent (EvReadFile filepath) s).
Proof.
  intros Hfile.
  unfold BatchReportManager.loadBatchReport, tryCatch, BatchTokenSender.readFile.
  unfold bind at 1. unfold bind at 1, emit at 1.
  change (files (pushEvent (EvReadFile filepath) s)) with (files s). rewrite Hfile.
  cbn [BatchTokenSender.parseFile]. unfold bind, ret.
  cbn [BatchTokenSender.getProp settle]. unfold ret.
  destruct (BatchTokenSender.truthy (assoc "summary" fields)); cbn [negb andb];
    [|reflexivity].
  destruct (BatchTokenSender.truthy (assoc "transfers" fields)); reflexivity.
Qed.

End ReportFiles.

(** X20.  A report that was saved loads back: when the write succeeds,
    [saveBatchReport] returns the path of a file in the output directory
    holding the report, and [loadBatchReport] on that path returns the
    saved document, having only read. *)
Theorem saved_report_loads_back (R : Runtime) (env : Env) (outputDir : string)
        (report : BatchReport) (customFilename : option string) (s : State) :
  (forall path, o_writeFile env (trace s) path = None) ->
  exists filename s1,
    BatchReportManager.generateFilename env (sm_tokenContract (summary report))
      customFilename s = (Return filename, s)
    /\ BatchReportManager.saveBatchReport R env outputDir report customFilename s
       = (Return (path_join R outputDir filename), s1)
    /\ BatchReportManager.saveReport R env outputDir report customFilename s
       = (Return (path_join R outputDir filename), s1)
    /\ trace s1 = trace s ++ [EvWriteFile (path_join R outputDir filename)]
    /\ BatchReportManager.loadBatchReport (path_join R outputDir filename) s1
       = (Return (BatchReportManager.reportToJSON report),
          pushEvent (EvReadFile (path_join R outputDir filename)) s1).
Proof.
  intros Hwrite.
  destruct (generateFilename_returns env (sm_tokenContract (summary report))
              customFilename s) as (filename & Hname).
  set (s1 := {| trace := trace s ++ [EvWriteFile (path_join R outputDir filename)];
                tokenInfo := tokenInfo s;
                apiCallCount := apiCallCount s;
                files := (path_join R outputDir filename,
                          JsonText (BatchReportManager.reportToJSON report))
                         :: files s |}).
  exists filename, s1. split; [exact Hname|].
  assert (Hsave : BatchReportManager.saveBatchReport R env outputDir report customFilename s
                  = (Return (path_join R outputDir filename), s1)).
  { unfold BatchReportManager.saveBatchReport. unfold bind at 1. rewrite Hname.
    cbv zeta. unfold tryCatch, BatchReportManager.writeJsonFile.
    unfold bind, getTrace, emit, ret. cbn [trace pushEvent].
    rewrite Hwrite. reflexivity. }
  split; [exact Hsave|]. split; [exact Hsave|]. split; [reflexivity|].
  unfold BatchReportManager.reportToJSON.
  rewrite (loadBatchReport_object (path_join R outputDir filename) _ s1 (assoc_head _ _ _)).
  reflexivity.
Qed.

(** X20 on the report of an empty result list, saved under a custom
    name. *)
Lemma saved_report_loads_back_witness :
  exists report s0 s1 s2,
    BatchReportManager.generateReport Demo.runtime
      (Demo.world 0 Demo.bob (inr Demo.receipt)) [Demo.bobFailed]
      {| tokenContract := Demo.tokenAddress; privateKey := "key";
         rpcUrl := "http://localhost:8545"; gasLimitMultiplier := None;
         bc_maxRetries := None; retryDelayMs := None; batchSize := None; dryRun := None |}
      Demo.tokenFacts initialState = (Return report, s0)
    /\ BatchReportManager.saveBatchReport Demo.runtime
         (Demo.world 0 Demo.bob (inr Demo.receipt)) "./output" report (Some "run1") s0
       = (Return "./output/run1.json", s1)
    /\ BatchReportManager.loadBatchReport "./output/run1.json" s1
       = (Return (BatchReportManager.reportToJSON report), s2).
Proof.
  eexists _, _. 
  destruct (saved_report_loads_back Demo.runtime (Demo.world 0 Demo.bob (inr Demo.receipt))
              "./output"
              {| summary :=
                   {| totalRecipients := 1; successful := 0; sm_failed := 1;
                      totalAmountSent := "0"; totalGasCostMatic := "0";
                      sm_tokenContract := Demo.tokenAddress;
                      senderAddress := "0xkey";
                      tokenSymbol := Some "TKN"; tokenDecimals := Some 18;
                      sm_timestamp := "2025-01-01T00:00:00.000Z";
                      processingTimeMs := 0 |};
                 transfers := [Demo.bobFailed];
                 rp_failed := [Demo.bobFailed];
                 metadata := {| gasPriceGwei := "0"; averageGasPerTransfer := "0";
                                network := "polygon"; md_dryRun := false |} |}
              (Some "run1") initialState ltac:(intros path; reflexivity))
    as (filename & s1 & Hname & Hsave & _ & _ & Hload).
  vm_compute in Hname. injection Hname as Hname. subst filename.
  eexists s1, _. split; [vm_compute; reflexivity|].
  split; [exact Hsave | exact Hload].
Defined.

(** X21.  [loadBatchReport] accepts a JSON object exactly when it carries
    a truthy [summary] and a truthy [transfers]; in particular the file
    written by [saveFailedTransfers], which has neither, is not a batch
    report: loading it fails with "Invalid batch report format". *)
Theorem loadBatchReport_checks_the_format (filepath : string) (s : State) :
  (forall fields,
      assoc filepath (files s) = Some (JsonText (JObj fields)) ->
      BatchReportManager.loadBatchReport filepath s
      = (if BatchTokenSender.truthy (assoc "summary" fields)
            && BatchTokenSender.truthy (assoc "transfers" fields)
         then Return (JObj fields)
         else Throw (JsError "Failed to load batch report: Invalid batch report format"),
         pushEvent (EvReadFile filepath) s))
  /\ (forall failedTransfers tokenContract_ generatedAt,
        assoc filepath (files s)
        = Some (JsonText (BatchReportManager.retryData failedTransfers tokenContract_
                            generatedAt)) ->
        BatchReportManager.loadBatchReport filepath s
        = (Throw (JsError "Failed to load batch report: Invalid batch report format"),
           pushEvent (EvReadFile filepath) s)).
Proof.
  split.
  - intros fields Hfile. apply loadBatchReport_object, Hfile.
  - intros failedTransfers tokenContract_ generatedAt Hfile.
    unfold BatchReportManager.retryData in Hfile.
    rewrite (loadBatchReport_object filepath _ s Hfile). reflexivity.
Qed.

(** X21 on the retry file for one failed transfer. *)
Lemma loadBatchReport_checks_the_format_witness :
  BatchReportManager.loadBatchReport "failed.json"
    {| trace := []; tokenInfo := None; apiCallCount := 0;
       files := [("failed.json",
                  JsonText (BatchReportManager.retryData [Demo.bobFailed] Demo.tokenAddress
                              "2025-01-01T00:00:00.000Z"))] |}
  = (Throw (JsError "Failed to load batch report: Invalid batch report format"),
     pushEvent (EvReadFile "failed.json")
       {| trace := []; tokenInfo := None; apiCallCount := 0;
          files := [("failed.json",
                     JsonText (BatchReportManager.retryData [Demo.bobFailed]
                                 Demo.tokenAddress "2025-01-01T00:00:00.000Z"))] |}).
Proof.
  apply (proj2 (loadBatchReport_checks_the_format "failed.json" _)
               [Demo.bobFailed] Demo.tokenAddress "2025-01-01T00:00:00.000Z").
  reflexivity.
Defined.

(** ** Maps in insertion order *)

Section JsMapFacts.
Context {V : Type}.
Implicit Types m : list (string * V).

Lemma has_get (k : string) m : JsMap.has k m = true <-> exists v, JsMap.get k m = Some v.
Proof.
  unfold JsMap.has, JsMap.get. destruct (assoc k m) as [v|].
  - split; [eauto|reflexivity].
  - split; [discriminate|intros [v H]; discriminate].
Qed.

Lemma has_keys (k : string) m : JsMap.has k m = true <-> k ∈ JsMap.keys m.
Proof.
  unfold JsMap.has, JsMap.keys. induction m as [|[k' v'] m IH]; simpl.
  - split; [discriminate|intros H; inversion H].
  - destruct (String.eqb k k') eqn:Hk.
    + apply String.eqb_eq in Hk. subst. split; [intros _; apply list_elem_of_here|reflexivity].
    + apply String.eqb_neq in Hk. rewrite IH. split.
      * intros H. apply list_elem_of_further, H.
      * intros H. apply elem_of_cons in H as [H|H]; [congruence|exact H].
Qed.

Lemma has_existsb (k : string) m :
  JsMap.has k m = existsb (String.eqb k) (JsMap.keys m).
Proof.
  unfold JsMap.has, JsMap.keys. induction m as [|[k' v'] m IH]; simpl; [reflexivity|].
  destruct (String.eqb k k'); [reflexivity|exact IH].
Qed.

Lemma set_absent (k : string) (v : V) m :
  JsMap.has k m = false -> JsMap.set k v m = m ++ [(k, v)].
Proof.
  unfold JsMap.has. induction m as [|[k' v'] m IH]; simpl; [reflexivity|].
  destruct (String.eqb k k'); [discriminate|]. intros H. rewrite (IH H). reflexivity.
Qed.

Lemma set_last (k : string) (v w : V) m :
  JsMap.has k m = false -> JsMap.set k v (m ++ [(k, w)]) = m ++ [(k, v)].
Proof.
  unfold JsMap.has. induction m as [|[k' v'] m IH]; simpl.
  - rewrite String.eqb_refl. reflexivity.
  - destruct (String.eqb k k'); [discriminate|]. intros H. rewrite (IH H). reflexivity.
Qed.

Lemma get_set_same (k : string) (v : V) m : JsMap.get k (JsMap.set k v m) = Some v.
Proof.
  unfold JsMap.get. induction m as [|[k' v'] m IH]; simpl.
  - rewrite String.eqb_refl. reflexivity.
  - destruct (String.eqb k k') eqn:Hk; simpl.
    + rewrite String.eqb_refl. reflexivity.
    + rewrite Hk. exact IH.
Qed.

Lemma get_set_other (k k' : string) (v : V) m :
  k <> k' -> JsMap.get k (JsMap.set k' v m) = JsMap.get k m.
Proof.
  intros Hne. unfold JsMap.get. induction m as [|[k0 v0] m IH]; simpl.
  - replace (String.eqb k k') with false by (symmetry; apply String.eqb_neq, Hne).
    reflexivity.
  - destruct (String.eqb k' k0) eqn:Hk; simpl.
    + apply String.eqb_eq in Hk. subst k0.
      replace (String.eqb k k') with false by (symmetry; apply String.eqb_neq, Hne).
      reflexivity.
    + destruct (String.eqb k k0); [reflexivity|exact IH].
Qed.

Lemma keys_set_present (k : string) (v : V) m :
  JsMap.has k m = true -> JsMap.keys (JsMap.set k v m) = JsMap.keys m.
Proof.
  unfold JsMap.has, JsMap.keys. induction m as [|[k' v'] m IH]; simpl; [discriminate|].
  destruct (String.eqb k k') eqn:Hk; simpl.
  - apply String.eqb_eq in Hk. subst. reflexivity.
  - intros H. rewrite (IH H). reflexivity.
Qed.

Lemma keys_set (k : string) (v : V) m :
  JsMap.keys (JsMap.set k v m) = JsSet.add k (JsMap.keys m).
Proof.
  unfold JsSet.add. rewrite <- has_existsb.
  destruct (JsMap.has k m) eqn:Hhas.
  - apply keys_set_present, Hhas.
  - rewrite (set_absent k v m Hhas). unfold JsMap.keys. rewrite map_app. reflexivity.
Qed.

End JsMapFacts.

Lemma JsSet_add_idem (x : string) (s : list string) : JsSet.add x (JsSet.add x s) = JsSet.add x s.
Proof.
  unfold JsSet.add. destruct (existsb (String.eqb x) s) eqn:H; [rewrite H; reflexivity|].
  rewrite existsb_app. simpl. rewrite String.eqb_refl, orb_true_r. reflexivity.
Qed.

Lemma JsSet_add_elem (x y : string) (s : list string) :
  y ∈ JsSet.add x s <-> y = x \/ y ∈ s.
Proof.
  unfold JsSet.add. destruct (existsb (String.eqb x) s) eqn:H.
  - apply existsb_exists in H as (z & Hz & Heq). apply String.eqb_eq in Heq. subst z.
    apply list_elem_of_In in Hz. split; [auto|]. intros [->|Hy]; assumption.
  - rewrite elem_of_app, list_elem_of_singleton. tauto.
Qed.

Lemma JsSet_add_NoDup (x : string) (s : list string) : NoDup s -> NoDup (JsSet.add x s).
Proof.
  intros Hnd. unfold JsSet.add. destruct (existsb (String.eqb x) s) eqn:H; [exact Hnd|].
  apply NoDup_app. split; [exact Hnd|]. split; [|apply NoDup_singleton].
  intros y Hy Hin. apply list_elem_of_singleton in Hin. subst y.
  assert (existsb (String.eqb x) s = true); [|congruence].
  apply existsb_exists. exists x. split; [apply list_elem_of_In, Hy|apply String.eqb_refl].
Qed.

Lemma JsSet_fromList_snoc (items : list string) (x : string) :
  JsSet.fromList (items ++ [x]) = JsSet.add x (JsSet.fromList items).
Proof. unfold JsSet.fromList. rewrite fold_left_app. reflexivity. Qed.

Lemma JsSet_fromList_NoDup (items : list string) : NoDup (JsSet.fromList items).
Proof.
  induction items as [|x items IH] using rev_ind; [constructor|].
  rewrite JsSet_fromList_snoc. apply JsSet_add_NoDup, IH.
Qed.

Lemma JsSet_fromList_elem (items : list string) (y : string) :
  y ∈ JsSet.fromList items <-> y ∈ items.
Proof.
  induction items as [|x items IH] using rev_ind; [reflexivity|].
  rewrite JsSet_fromList_snoc, JsSet_add_elem, IH, elem_of_app, list_elem_of_singleton. tauto.
Qed.

(** ** Grouping *)

Section GroupFacts.
Context {T : Type}.
Variable key : T -> string.

Lemma groupBy_snoc (items : list T) (x : T) :
  groupBy key (items ++ [x]) = groupStep key (groupBy key items) x.
Proof. unfold groupBy. rewrite fold_left_app. reflexivity. Qed.

Lemma groupStep_eq (grouped : list (string * list T)) (x : T) :
  groupStep key grouped x
  = JsMap.set (key x) (default [] (JsMap.get (key x) grouped) ++ [x]) grouped.
Proof.
  unfold groupStep. cbv zeta.
  destruct (JsMap.has (key x) grouped) eqn:Hhas.
  - apply has_get in Hhas as (group & Hget). rewrite Hget. reflexivity.
  - rewrite get_set_same. simpl.
    assert (Hnone : JsMap.get (key x) grouped = None).
    { unfold JsMap.has, JsMap.get in *. destruct (assoc (key x) grouped); [discriminate|].
      reflexivity. }
    rewrite Hnone. simpl.
    rewrite (set_absent (key x) [] grouped Hhas).
    rewrite (set_absent (key x) [x] grouped Hhas).
    apply set_last, Hhas.
Qed.

Lemma groupBy_get (items : list T) (k : string) :
  JsMap.get k (groupBy key items)
  = match List.filter (fun item => String.eqb (key item) k) items with
    | [] => None
    | group => Some group
    end.
Proof.
  induction items as [|x items IH] using rev_ind; [reflexivity|].
  rewrite groupBy_snoc, groupStep_eq, List.filter_app. cbn [List.filter].
  destruct (String.eqb (key x) k) eqn:Hk.
  - apply String.eqb_eq in Hk. subst k. rewrite get_set_same, IH.
    destruct (List.filter _ items) as [|y group]; reflexivity.
  - apply String.eqb_neq in Hk. rewrite get_set_other by congruence.
    rewrite IH, app_nil_r. reflexivity.
Qed.

Lemma groupBy_keys (items : list T) :
  JsMap.keys (groupBy key items) = JsSet.fromList (map key items).
Proof.
  induction items as [|x items IH] using rev_ind; [reflexivity|].
  rewrite groupBy_snoc, groupStep_eq, keys_set, IH, map_app.
  symmetry. apply JsSet_fromList_snoc.
Qed.

Lemma concat_values_push (k : string) (x : T) (grouped : list (string * list T)) :
  Permutation
    (concat (JsMap.values (JsMap.set k (default [] (JsMap.get k grouped) ++ [x]) grouped)))
    (concat (JsMap.values grouped) ++ [x]).
Proof.
  unfold JsMap.values, JsMap.get.
  induction grouped as [|[k' v'] grouped IH]; simpl; [reflexivity|].
  destruct (String.eqb k k'); simpl.
  - rewrite <- !app_assoc. apply Permutation_app_head, Permutation_app_comm.
  - rewrite IH, app_assoc. reflexivity.
Qed.

Lemma groupBy_Permutation (items : list T) :
  Permutation (concat (JsMap.values (groupBy key items))) items.
Proof.
  induction items as [|x items IH] using rev_ind; [reflexivity|].
  rewrite groupBy_snoc, groupStep_eq, concat_values_push, IH. reflexivity.
Qed.

End GroupFacts.

(** X22.  Grouping loses and invents nothing.  The map built by
    [groupTransfersByContract] (and, with the transaction hash for key, by
    [groupTransfersByTransactionHash] and
    [groupInternalTransactionsByHash]) holds under each key exactly the
    items with that key, in their input order, and no entry at all for a
    key that no item has; its keys are the distinct keys in order of first
    appearance; and all groups together are a rearrangement of the input. *)
Theorem groupBy_partitions {T : Type} (key : T -> string) (items : list T) :
  (forall k,
      JsMap.get k (groupBy key items)
      = match List.filter (fun item => String.eqb (key item) k) items with
        | [] => None
        | group => Some group
        end)
  /\ JsMap.keys (groupBy key items) = JsSet.fromList (map key items)
  /\ NoDup (JsMap.keys (groupBy key items))
  /\ Permutation (concat (JsMap.values (groupBy key items))) items.
Proof.
  split; [intros k; apply groupBy_get|].
  split; [apply groupBy_keys|].
  split; [rewrite groupBy_keys; apply JsSet_fromList_NoDup|].
  apply groupBy_Permutation.
Qed.

(** ** TokenParser.getUniqueTokens *)

Section UniqueFacts.
Import TokenParser.

Lemma uniqueMap_snoc (transfers : list ParsedTokenTransfer) (x : ParsedTokenTransfer) :
  uniqueMap (transfers ++ [x])
  = if JsMap.has (tokenKey x) (uniqueMap transfers) then uniqueMap transfers
    else uniqueMap transfers ++ [(tokenKey x, x)].
Proof.
  unfold uniqueMap. rewrite fold_left_app. cbn [fold_left].
  destruct (JsMap.has _ _) eqn:Hhas; [reflexivity|]. apply set_absent, Hhas.
Qed.

Lemma uniqueMap_keys (transfers : list ParsedTokenTransfer) :
  JsMap.keys (uniqueMap transfers) = map tokenKey (JsMap.values (uniqueMap transfers))
  /\ JsMap.keys (uniqueMap transfers) = JsSet.fromList (map tokenKey transfers).
Proof.
  induction transfers as [|x transfers [IH1 IH2]] using rev_ind; [split; reflexivity|].
  rewrite uniqueMap_snoc, map_app. cbn [map]. rewrite JsSet_fromList_snoc.
  rewrite has_existsb. unfold JsSet.add. rewrite <- IH2.
  destruct (existsb _ _); [split; [assumption|reflexivity]|].
  unfold JsMap.keys, JsMap.values in *. rewrite !map_app, IH1. split; reflexivity.
Qed.

Lemma getUniqueTokens_snoc (transfers : list ParsedTokenTransfer) (x : ParsedTokenTransfer) :
  getUniqueTokens (transfers ++ [x])
  = if existsb (String.eqb (tokenKey x)) (map tokenKey (getUniqueTokens transfers))
    then getUniqueTokens transfers
    else getUniqueTokens transfers ++ [x].
Proof.
  change (getUniqueTokens (transfers ++ [x])) with (JsMap.values (uniqueMap (transfers ++ [x]))).
  change (getUniqueTokens transfers) with (JsMap.values (uniqueMap transfers)).
  rewrite uniqueMap_snoc, has_existsb, (proj1 (uniqueMap_keys transfers)).
  destruct (existsb _ _); [reflexivity|].
  unfold JsMap.values. rewrite map_app. reflexivity.
Qed.

Lemma getUniqueTokens_keys (transfers : list ParsedTokenTransfer) :
  map tokenKey (getUniqueTokens transfers) = JsSet.fromList (map tokenKey transfers).
Proof.
  change (getUniqueTokens transfers) with (JsMap.values (uniqueMap transfers)).
  destruct (uniqueMap_keys transfers) as [H1 H2]. rewrite <- H1. exact H2.
Qed.

Lemma getUniqueTokens_fixed (l : list ParsedTokenTransfer) :
  NoDup (map tokenKey l) -> getUniqueTokens l = l.
Proof.
  induction l as [|x l IH] using rev_ind; intros Hnd; [reflexivity|].
  rewrite map_app in Hnd. apply NoDup_app in Hnd as (Hl & Hfresh & _).
  rewrite getUniqueTokens_snoc, (IH Hl).
  destruct (existsb _ _) eqn:Hin; [|reflexivity]. exfalso.
  apply existsb_exists in Hin as (k & Hk & Heq). apply String.eqb_eq in Heq. subst k.
  apply (Hfresh (tokenKey x)); [apply list_elem_of_In, Hk|apply list_elem_of_here].
Qed.

End UniqueFacts.

(** X23.  [getUniqueTokens] keeps, for every token key (contract address
    and token id, or "ERC20"), the first transfer that carries it: the keys
    of the result are the distinct keys of the input in order of first
    appearance, the result is a sub-sequence of the input, nothing with the
    same key precedes a kept transfer, and applying the function again
    changes nothing. *)
Theorem getUniqueTokens_keeps_first_occurrences (transfers : list ParsedTokenTransfer) :
  map TokenParser.tokenKey (TokenParser.getUniqueTokens transfers)
  = JsSet.fromList (map TokenParser.tokenKey transfers)
  /\ NoDup (map TokenParser.tokenKey (TokenParser.getUniqueTokens transfers))
  /\ sublist (TokenParser.getUniqueTokens transfers) transfers
  /\ (forall kept,
        kept ∈ TokenParser.getUniqueTokens transfers ->
        exists before after,
          transfers = before ++ kept :: after
          /\ Forall (fun earlier => TokenParser.tokenKey earlier <> TokenParser.tokenKey kept)
                    before)
  /\ TokenParser.getUniqueTokens (TokenParser.getUniqueTokens transfers)
     = TokenParser.getUniqueTokens transfers.
Proof.
  split; [apply getUniqueTokens_keys|].
  assert (Hnd : NoDup (map TokenParser.tokenKey (TokenParser.getUniqueTokens transfers))).
  { rewrite getUniqueTokens_keys. apply JsSet_fromList_NoDup. }
  split; [exact Hnd|]. split; [|split; [|apply getUniqueTokens_fixed, Hnd]].
  - clear Hnd. induction transfers as [|x transfers IH] using rev_ind; [constructor|].
    rewrite getUniqueTokens_snoc. destruct (existsb _ _).
    + apply sublist_inserts_r, IH.
    + apply sublist_app; [exact IH|reflexivity].
  - clear Hnd. induction transfers as [|x transfers IH] using rev_ind.
    + intros kept Hin. inversion Hin.
    + intros kept Hin. rewrite getUniqueTokens_snoc in Hin.
      destruct (existsb _ _) eqn:Hseen.
      * destruct (IH kept Hin) as (before & after & -> & Hfirst).
        exists before, (after ++ [x]). split; [|exact Hfirst].
        rewrite <- app_assoc. reflexivity.
      * apply elem_of_app in Hin as [Hin|Hin].
        -- destruct (IH kept Hin) as (before & after & -> & Hfirst).
           exists before, (after ++ [x]). split; [|exact Hfirst].
           rewrite <- app_assoc. reflexivity.
        -- apply list_elem_of_singleton in Hin. subst kept.
           exists transfers, []. split; [reflexivity|].
           apply Forall_forall. intros earlier Hearlier Heq.
           assert (Hin : existsb (String.eqb (TokenParser.tokenKey x))
                           (map TokenParser.tokenKey (TokenParser.getUniqueTokens transfers))
                         = true); [|congruence].
           apply existsb_exists. exists (TokenParser.tokenKey x).
           split; [|apply String.eqb_refl].
           apply list_elem_of_In. rewrite getUniqueTokens_keys.
           apply JsSet_fromList_elem. rewrite <- Heq.
           apply list_elem_of_fmap. exists earlier. split; [reflexivity|exact Hearlier].
Qed.

(** * Decimal notation *)

Lemma digitOf_pretty_N_char (x : N) :
  (x < 10)%N -> digitOf (pretty_N_char x) = Some (Z.of_N x).
Proof.
  intros Hx.
  assert (x = 0 \/ x = 1 \/ x = 2 \/ x = 3 \/ x = 4 \/ x = 5 \/ x = 6 \/ x = 7
          \/ x = 8 \/ x = 9)%N as Hcases by lia.
  repeat (destruct Hcases as [-> | Hcases]; [reflexivity|]).
  subst x. reflexivity.
Qed.

Lemma readDigits_pretty_N_go (x : N) :
  forall s, readDigits (pretty_N_go x s) 0 = readDigits s (Z.of_N x).
Proof.
  induction (N.lt_wf_0 x) as [x _ IH]. intros s.
  assert (x = 0 \/ 0 < x)%N as [-> | Hpos] by lia.
  - rewrite pretty_N_go_0. reflexivity.
  - rewrite pretty_N_go_step by exact Hpos.
    rewrite IH by (apply N.div_lt; lia).
    cbn [readDigits].
    rewrite digitOf_pretty_N_char by (apply N.mod_lt; lia).
    f_equal.
    pose proof (N.div_mod x 10 ltac:(lia)) as Hdm.
    lia.
Qed.

Lemma readDigits_pretty (z : Z) : 0 <= z -> readDigits (pretty z) 0 = Some z.
Proof.
  intros Hz. destruct z as [| p | p]; [reflexivity | | lia].
  unfold pretty, pretty_Z, pretty, pretty_positive, pretty, pretty_N.
  destruct (decide (N.pos p = 0%N)) as [Hp | _]; [discriminate Hp|].
  rewrite readDigits_pretty_N_go. reflexivity.
Qed.

Lemma pretty_N_go_head (x : N) :
  forall s, (0 < x)%N ->
            exists c rest, pretty_N_go x s = String c rest /\ digitOf c <> None.
Proof.
  induction (N.lt_wf_0 x) as [x _ IH]. intros s Hpos.
  rewrite pretty_N_go_step by exact Hpos.
  destruct (N.eq_0_gt_0_cases (x `div` 10)) as [Hz | Hq].
  - rewrite Hz, pretty_N_go_0.
    eexists _, _. split; [reflexivity|].
    rewrite digitOf_pretty_N_char by (apply N.mod_lt; lia). discriminate.
  - apply IH; [apply N.div_lt; lia | exact Hq].
Qed.

Lemma pretty_nonneg_head (z : Z) :
  0 <= z -> exists c rest, pretty z = String c rest /\ digitOf c <> None.
Proof.
  intros Hz. destruct z as [| p | p]; [| | lia].
  - exists "0"%char, EmptyString. split; [reflexivity | discriminate].
  - unfold pretty, pretty_Z, pretty, pretty_positive, pretty, pretty_N.
    destruct (decide (N.pos p = 0%N)) as [Hp | _]; [discriminate Hp|].
    apply pretty_N_go_head. lia.
Qed.

Lemma pretty_N_go_length (x : N) :
  forall (k : nat) s,
    (Z.of_N x < 10 ^ Z.of_nat k) ->
    (String.length (pretty_N_go x s) <= k + String.length s)%nat.
Proof.
  induction (N.lt_wf_0 x) as [x _ IH]. intros k s Hk.
  assert (x = 0 \/ 0 < x)%N as [-> | Hpos] by lia.
  - rewrite pretty_N_go_0. lia.
  - rewrite pretty_N_go_step by exact Hpos.
    destruct k as [| k].
    + simpl in Hk. lia.
    + specialize (IH (x `div` 10)%N ltac:(apply N.div_lt; lia) k
                     (String (pretty_N_char (x `mod` 10)) s)).
      cbn [String.length] in IH.
      assert (Z.of_N (x `div` 10) < 10 ^ Z.of_nat k) as Hq.
      { rewrite N2Z.inj_div. change (Z.of_N 10) with 10.
        apply Z.div_lt_upper_bound; [lia|].
        replace (10 * 10 ^ Z.of_nat k) with (10 ^ Z.of_nat (S k)); [exact Hk|].
        rewrite Nat2Z.inj_succ, Z.pow_succ_r by lia. reflexivity. }
      specialize (IH Hq). lia.
Qed.

Lemma pretty_length (z : Z) (k : nat) :
  0 < z -> z < 10 ^ Z.of_nat k -> (String.length (pretty z) <= k)%nat.
Proof.
  intros Hz Hk. destruct z as [| p | p]; try lia.
  unfold pretty, pretty_Z, pretty, pretty_positive, pretty, pretty_N.
  destruct (decide (N.pos p = 0%N)) as [Hp | _]; [discriminate Hp|].
  pose proof (pretty_N_go_length (N.pos p) k "" Hk) as Hlen.
  cbn [String.length] in Hlen. lia.
Qed.

Lemma readDigits_acc (s : string) :
  forall acc z, readDigits s acc = Some z ->
                forall acc', readDigits s acc'
                             = Some (z + (acc' - acc) * 10 ^ Z.of_nat (String.length s)).
Proof.
  induction s as [| c s IH]; intros acc z Hread acc'; cbn [readDigits String.length] in *.
  - inversion Hread. f_equal. simpl. lia.
  - destruct (digitOf c) as [d |]; [| discriminate Hread].
    rewrite (IH _ _ Hread (10 * acc' + d)). f_equal.
    rewrite Nat2Z.inj_succ, Z.pow_succ_r by lia. lia.
Qed.

Lemma readDigits_zeros_append (k : nat) (s : string) (acc : Z) :
  readDigits (repeatString "0" k +:+ s) acc
  = readDigits s (acc * 10 ^ Z.of_nat k).
Proof.
  revert acc. induction k as [| k IH]; intros acc.
  - simpl. f_equal. lia.
  - cbn [repeatString].
    change (("0" +:+ repeatString "0" k) +:+ s)
      with (String "0" (repeatString "0" k +:+ s)).
    cbn [readDigits]. change (digitOf "0") with (Some 0). cbv iota beta.
    rewrite IH. f_equal.
    rewrite Nat2Z.inj_succ, Z.pow_succ_r by lia. lia.
Qed.

Lemma readDigits_append_zeros (s : string) (k : nat) :
  forall acc,
    readDigits (s +:+ repeatString "0" k) acc
    = option_map (fun f => f * 10 ^ Z.of_nat k) (readDigits s acc).
Proof.
  induction s as [| c s IH]; intros acc.
  - change ("" +:+ repeatString "0" k) with (repeatString "0" k).
    cbn [readDigits option_map].
    revert acc. induction k as [| k IHk]; intros acc.
    + simpl. f_equal. lia.
    + cbn [repeatString].
      change ("0" +:+ repeatString "0" k) with (String "0" (repeatString "0" k)).
      cbn [readDigits]. change (digitOf "0") with (Some 0). cbv iota beta.
      rewrite IHk. f_equal.
      rewrite Nat2Z.inj_succ, Z.pow_succ_r by lia. lia.
  - change (String c s +:+ repeatString "0" k) with (String c (s +:+ repeatString "0" k)).
    cbn [readDigits]. destruct (digitOf c); [apply IH | reflexivity].
Qed.

(** * TokenParser: totals *)

Lemma bigInt_pretty (z : Z) : Demo.bigInt (pretty z) = inr z.
Proof.
  destruct z as [| p | p].
  - reflexivity.
  - destruct (pretty_nonneg_head (Z.pos p) ltac:(lia)) as (c & rest & Heq & Hdigit).
    unfold Demo.bigInt. rewrite Heq.
    destruct (Ascii.eqb c "-") eqn:Hc.
    + apply Ascii.eqb_eq in Hc. subst c. exfalso. apply Hdigit. reflexivity.
    + rewrite <- Heq, readDigits_pretty by lia. reflexivity.
  - destruct (pretty_nonneg_head (Z.pos p) ltac:(lia)) as (c & rest & Heq & Hdigit).
    unfold Demo.bigInt.
    change (pretty (Z.neg p)) with (String "-" (pretty (Z.pos p))).
    change (Ascii.eqb "-" "-") with true. cbv iota.
    pose proof (readDigits_pretty (Z.pos p) ltac:(lia)) as Hread.
    rewrite Heq in *. rewrite Hread. reflexivity.
Qed.

Section TotalFacts.
Import TokenParser.
Variable parseInt : string -> option Z.
Variable BigInt : string -> Thrown + Z.
Hypothesis BigInt_pretty : forall z, BigInt (pretty z) = inr z.

Lemma totalLoop_app (before after : list ParsedTokenTransfer) :
  forall totals,
    totalLoop parseInt BigInt (before ++ after) totals
    = match totalLoop parseInt BigInt before totals with
      | inl e => inl e
      | inr totals' => totalLoop parseInt BigInt after totals'
      end.
Proof.
  induction before as [| t before IH]; intros totals; [reflexivity|].
  cbn [app totalLoop]. destruct (totalStep parseInt BigInt totals t); [reflexivity | apply IH].
Qed.

Lemma sumOfValues_snoc (l : list ParsedTokenTransfer) (t : ParsedTokenTransfer) :
  sumOfValues BigInt (l ++ [t]) = sumOfValues BigInt l + valueOf BigInt t.
Proof.
  unfold sumOfValues. induction l as [| x l IH]; cbn [app foldr]; [lia | rewrite IH; lia].
Qed.

Lemma countsFor_inv (k : string) (t : ParsedTokenTransfer) :
  countsFor k t = true ->
  exists text md,
    pt_standard t = ERC20 /\ pt_value t = Some text /\ pt_tokenMetadata t = Some md
    /\ String.eqb text "" = false /\ pt_contractAddress t = k.
Proof.
  unfold countsFor.
  destruct (pt_standard t); try discriminate.
  destruct (pt_value t) as [text |]; try discriminate.
  destruct (pt_tokenMetadata t) as [md |]; try discriminate.
  intros H. apply andb_true_iff in H as [Hv Hk].
  apply negb_true_iff in Hv. apply String.eqb_eq in Hk.
  exists text, md. repeat split; assumption.
Qed.

Lemma countsFor_other (k : string) (t : ParsedTokenTransfer) :
  pt_contractAddress t <> k -> countsFor k t = false.
Proof.
  intros Hne. destruct (countsFor k t) eqn:H; [|reflexivity].
  apply countsFor_inv in H as (? & ? & _ & _ & _ & _ & Hk). contradiction.
Qed.

Lemma expectedTotal_None (k : string) (l : list ParsedTokenTransfer) :
  expectedTotal parseInt BigInt k l = None -> List.filter (countsFor k) l = [].
Proof.
  unfold expectedTotal. intros H.
  destruct (list.last (List.filter (countsFor k) l)) as [latest |] eqn:Hlast.
  - exfalso.
    assert (In latest (List.filter (countsFor k) l)) as Hin.
    { apply last_Some in Hlast as [l' Hl']. rewrite Hl'. apply in_or_app. right. left.
      reflexivity. }
    apply List.filter_In in Hin as [_ Hc].
    apply countsFor_inv in Hc as (? & md & _ & _ & Hmd & _).
    rewrite Hmd in H. discriminate H.
  - apply last_None in Hlast. exact Hlast.
Qed.

Lemma expectedTotal_value (k : string) (l : list ParsedTokenTransfer) (current : TokenTotal) :
  expectedTotal parseInt BigInt k l = Some current ->
  total_value current = pretty (sumOfValues BigInt (List.filter (countsFor k) l)).
Proof.
  unfold expectedTotal. intros H.
  destruct (list.last (List.filter (countsFor k) l)) as [latest |]; [| discriminate H].
  destruct (pt_tokenMetadata latest); [| discriminate H].
  inversion H. reflexivity.
Qed.

(** The loop invariant: the map holds the expected total of every
    contract over the transfers seen so far. *)
Lemma totalStep_spec (totals : list (string * TokenTotal))
      (seen : list ParsedTokenTransfer) (t : ParsedTokenTransfer) :
  (forall k, JsMap.get k totals = expectedTotal parseInt BigInt k seen) ->
  (forall text, countsFor (pt_contractAddress t) t = true -> pt_value t = Some text ->
                exists z, BigInt text = inr z) ->
  exists totals',
    totalStep parseInt BigInt totals t = inr totals'
    /\ forall k, JsMap.get k totals' = expectedTotal parseInt BigInt k (seen ++ [t]).
Proof.
  intros Hinv Hparse.
  destruct (countsFor (pt_contractAddress t) t) eqn:Hcounts.
  - destruct (countsFor_inv _ _ Hcounts) as (text & md & Hstd & Hval & Hmd & Hne & _).
    destruct (Hparse text eq_refl Hval) as [z Hz].
    set (c := pt_contractAddress t) in *.
    set (entry := fun value_ =>
                    {| total_value := value_;
                       total_decimals := default 0 (parseInt (eti_decimals md));
                       total_symbol := orElse (eti_symbol md) "UNKNOWN" |}).
    assert (valueOf BigInt t = z) as Hvalue.
    { unfold valueOf. rewrite Hval, Hz. reflexivity. }
    assert (forall k, k <> c ->
                      expectedTotal parseInt BigInt k (seen ++ [t])
                      = expectedTotal parseInt BigInt k seen) as Hother.
    { intros k Hk. unfold expectedTotal. rewrite List.filter_app. cbn [List.filter].
      rewrite (countsFor_other k t) by (fold c; congruence).
      rewrite app_nil_r. reflexivity. }
    assert (expectedTotal parseInt BigInt c (seen ++ [t])
            = Some (entry (pretty (sumOfValues BigInt (List.filter (countsFor c) seen) + z))))
      as Hsame.
    { unfold expectedTotal. rewrite List.filter_app. cbn [List.filter].
      rewrite Hcounts. rewrite last_snoc, Hmd, sumOfValues_snoc, Hvalue. reflexivity. }
    unfold totalStep. rewrite Hstd, Hval, Hmd, Hne. fold c. cbv zeta.
    destruct (JsMap.has c totals) eqn:Hhas.
    + destruct (proj1 (has_get c totals) Hhas) as [current Hcurrent].
      rewrite Hcurrent.
      pose proof Hcurrent as Hexp. rewrite Hinv in Hexp.
      rewrite (expectedTotal_value _ _ _ Hexp), BigInt_pretty, Hz.
      eexists. split; [reflexivity|].
      intros k. destruct (String.eqb_spec k c) as [-> | Hk].
      * rewrite get_set_same, Hsame. reflexivity.
      * rewrite get_set_other by exact Hk. rewrite Hother by exact Hk. apply Hinv.
    + rewrite get_set_same. cbn [total_value].
      change "0" with (pretty 0%Z). rewrite BigInt_pretty, Hz.
      eexists. split; [reflexivity|].
      assert (JsMap.get c totals = None) as Hnone.
      { destruct (JsMap.get c totals) eqn:Hget; [|reflexivity].
        assert (JsMap.has c totals = true) as Hyes by (apply has_get; eauto).
        congruence. }
      rewrite Hinv in Hnone. apply expectedTotal_None in Hnone.
      intros k. destruct (String.eqb_spec k c) as [-> | Hk].
      * rewrite get_set_same, Hsame, Hnone. reflexivity.
      * rewrite !get_set_other by exact Hk. rewrite Hother by exact Hk. apply Hinv.
  - assert (totalStep parseInt BigInt totals t = inr totals) as Hskip.
    { unfold totalStep. unfold countsFor in Hcounts.
      destruct (pt_standard t); try reflexivity.
      destruct (pt_value t) as [text |]; try reflexivity.
      destruct (pt_tokenMetadata t) as [md |]; try reflexivity.
      rewrite String.eqb_refl, andb_true_r in Hcounts.
      apply negb_false_iff in Hcounts. rewrite Hcounts. reflexivity. }
    exists totals. split; [exact Hskip|].
    intros k. rewrite Hinv. unfold expectedTotal. rewrite List.filter_app. cbn [List.filter].
    assert (countsFor k t = false) as Hk.
    { destruct (countsFor k t) eqn:H; [|reflexivity].
      destruct (countsFor_inv _ _ H) as (? & ? & _ & _ & _ & _ & Heq). subst k. congruence. }
    rewrite Hk, app_nil_r. reflexivity.
Qed.

Lemma totalLoop_spec (rest : list ParsedTokenTransfer) :
  forall (seen : list ParsedTokenTransfer) (totals : list (string * TokenTotal)),
    (forall k, JsMap.get k totals = expectedTotal parseInt BigInt k seen) ->
    (forall t text, In t rest -> countsFor (pt_contractAddress t) t = true ->
                    pt_value t = Some text -> exists z, BigInt text = inr z) ->
    exists totals',
      totalLoop parseInt BigInt rest totals = inr totals'
      /\ forall k, JsMap.get k totals' = expectedTotal parseInt BigInt k (seen ++ rest).
Proof.
  induction rest as [| t rest IH]; intros seen totals Hinv Hparse.
  - exists totals. rewrite app_nil_r. split; [reflexivity | exact Hinv].
  - destruct (totalStep_spec totals seen t Hinv) as (totals1 & Hstep & Hinv1).
    { intros text. apply Hparse. left. reflexivity. }
    destruct (IH (seen ++ [t]) totals1 Hinv1) as (totals' & Hloop & Hinv').
    { intros t' text Hin. apply Hparse. right. exact Hin. }
    exists totals'. cbn [totalLoop]. rewrite Hstep. split; [exact Hloop|].
    intros k. rewrite Hinv', <- app_assoc. reflexivity.
Qed.

Lemma totalStep_unparseable (totals : list (string * TokenTotal))
      (seen : list ParsedTokenTransfer) (t : ParsedTokenTransfer) (text : string)
      (e : Thrown) :
  (forall k, JsMap.get k totals = expectedTotal parseInt BigInt k seen) ->
  countsFor (pt_contractAddress t) t = true ->
  pt_value t = Some text ->
  BigInt text = inl e ->
  totalStep parseInt BigInt totals t = inl e.
Proof.
  intros Hinv Hcounts Hval Hbad.
  destruct (countsFor_inv _ _ Hcounts) as (text' & md & Hstd & Hval' & Hmd & Hne & _).
  assert (text' = text) by congruence. subst text'.
  unfold totalStep. rewrite Hstd, Hval, Hmd, Hne. cbv zeta.
  destruct (JsMap.has (pt_contractAddress t) totals) eqn:Hhas.
  - destruct (proj1 (has_get _ totals) Hhas) as [current Hcurrent].
    rewrite Hcurrent.
    pose proof Hcurrent as Hexp. rewrite Hinv in Hexp.
    rewrite (expectedTotal_value _ _ _ Hexp), BigInt_pretty, Hbad. reflexivity.
  - rewrite get_set_same. cbn [total_value].
    change "0" with (pretty 0%Z). rewrite BigInt_pretty, Hbad. reflexivity.
Qed.

End TotalFacts.

(** X24.  [calculateTotalValue] adds up, per contract, the values of the
    ERC-20 transfers that carry a value and metadata, and labels each total
    with the decimals and symbol of the last such transfer of the contract;
    everything else is skipped.  It is exact whatever the size of the
    numbers.  A counted value that [BigInt] rejects makes the whole call
    throw that error, whatever was added up before. *)
Theorem calculateTotalValue_sums_per_contract
        (parseInt : string -> option Z) (BigInt : string -> Thrown + Z)
        (transfers : list ParsedTokenTransfer) :
  (forall z, BigInt (pretty z) = inr z) ->
  (forall transfer text,
      In transfer transfers ->
      TokenParser.countsFor (pt_contractAddress transfer) transfer = true ->
      pt_value transfer = Some text ->
      exists z, BigInt text = inr z) ->
  (exists totals,
      TokenParser.calculateTotalValue parseInt BigInt transfers = inr totals
      /\ forall contractAddress,
        JsMap.get contractAddress totals
        = TokenParser.expectedTotal parseInt BigInt contractAddress transfers)
  /\ forall bad text e after,
      TokenParser.countsFor (pt_contractAddress bad) bad = true ->
      pt_value bad = Some text ->
      BigInt text = inl e ->
      TokenParser.calculateTotalValue parseInt BigInt (transfers ++ bad :: after) = inl e.
Proof.
  intros Hround Hparse.
  destruct (totalLoop_spec parseInt BigInt Hround transfers [] []) as (totals & Hloop & Hinv).
  { intros k. reflexivity. }
  { exact Hparse. }
  split.
  - exists totals. split; [exact Hloop | exact Hinv].
  - intros bad text e after Hcounts Hval Hbad.
    unfold TokenParser.calculateTotalValue.
    rewrite totalLoop_app, Hloop. cbn [TokenParser.totalLoop].
    rewrite (totalStep_unparseable parseInt BigInt Hround totals transfers bad text e
               Hinv Hcounts Hval Hbad).
    reflexivity.
Qed.

(** X24 on the demo's three transfers: the two USDC transfers add up. *)
Lemma calculateTotalValue_sums_per_contract_witness :
  exists totals,
    TokenParser.calculateTotalValue Demo.parseNat Demo.bigInt
      (TokenParser.parseERC20Transfers Demo.tokenTransfers) = inr totals
    /\ JsMap.get Demo.tokenAddress totals
       = Some {| total_value := "350"; total_decimals := 6; total_symbol := "USDC" |}
    /\ JsMap.get Demo.otherToken totals
       = Some {| total_value := "7"; total_decimals := 18; total_symbol := "DAI" |}.
Proof.
  destruct (calculateTotalValue_sums_per_contract Demo.parseNat Demo.bigInt
              (TokenParser.parseERC20Transfers Demo.tokenTransfers) bigInt_pretty)
    as [(totals & Hrun & Hget) _].
  { intros transfer text Hin _ Hval.
    repeat (destruct Hin as [<- | Hin];
            [inversion Hval; eexists; vm_compute; reflexivity|]).
    destruct Hin. }
  exists totals. split; [exact Hrun|].
  rewrite !Hget. split; vm_compute; reflexivity.
Defined.

(** * OutputManager: token amounts *)

Lemma digitOf_not_dot (c : ascii) (d : Z) : digitOf c = Some d -> Ascii.eqb c "." = false.
Proof.
  intros Hd. destruct (Ascii.eqb_spec c ".") as [-> | _]; [discriminate Hd | reflexivity].
Qed.

Lemma splitAtDot_digits (s : string) :
  forall acc z,
    readDigits s acc = Some z ->
    splitAtDot s = (s, None)
    /\ forall fraction, splitAtDot (s +:+ String "." fraction) = (s, Some fraction).
Proof.
  induction s as [| c s IH]; intros acc z Hread.
  - split; [reflexivity | intros fraction; reflexivity].
  - cbn [readDigits] in Hread.
    destruct (digitOf c) as [d |] eqn:Hd; [| discriminate Hread].
    destruct (IH _ _ Hread) as [Hnone Hsome].
    split.
    + cbn [splitAtDot]. rewrite (digitOf_not_dot c d Hd), Hnone. reflexivity.
    + intros fraction.
      change (String c s +:+ String "." fraction) with (String c (s +:+ String "." fraction)).
      cbn [splitAtDot]. rewrite (digitOf_not_dot c d Hd), Hsome. reflexivity.
Qed.

Lemma trimTrailingZeros_spec (s : string) :
  exists k, s = OutputManager.trimTrailingZeros s +:+ repeatString "0" k.
Proof.
  induction s as [| c s [k IH]].
  - exists 0%nat. reflexivity.
  - cbn [OutputManager.trimTrailingZeros].
    destruct (OutputManager.trimTrailingZeros s) as [| c' trimmed].
    + destruct (Ascii.eqb_spec c "0") as [-> | _].
      * exists (S k). rewrite IH at 1. reflexivity.
      * exists k. rewrite IH at 1. reflexivity.
    + exists k. rewrite IH at 1. reflexivity.
Qed.

Lemma length_append (a b : string) :
  String.length (a +:+ b) = (String.length a + String.length b)%nat.
Proof. induction a as [| c a IH]; [reflexivity | simpl; f_equal; exact IH]. Qed.

Lemma length_repeat_zero (k : nat) : String.length (repeatString "0" k) = k.
Proof. induction k as [| k IH]; [reflexivity | simpl; f_equal; exact IH]. Qed.

(** X25.  [formatTokenValue] writes a non-negative amount of smallest
    units exactly: read back as a decimal number with [decimals] places, the
    text denotes the amount it was made from, whatever its size.  (The
    power of ten has to be the exact one, which [10 ** decimals] is for the
    usual number of decimals.) *)
Theorem formatTokenValue_reads_back
        (BigInt : string -> Thrown + Z) (BigIntPow10 : Z -> Thrown + Z)
        (value : string) (decimals_ v : Z) :
  BigInt value = inr v ->
  0 <= v ->
  0 <= decimals_ ->
  BigIntPow10 decimals_ = inr (10 ^ decimals_) ->
  exists text,
    OutputManager.formatTokenValue BigInt BigIntPow10 value decimals_ = inr text
    /\ readDecimal text decimals_ = Some v.
Proof.
  intros Hvalue Hv Hdec Hpow.
  unfold OutputManager.formatTokenValue. rewrite Hvalue, Hpow.
  set (D := 10 ^ decimals_).
  assert (0 < D) as HD by (apply Z.pow_pos_nonneg; lia).
  destruct (Z.eqb_spec D 0) as [HD0 | _]; [lia|].
  rewrite Z.quot_div_nonneg, Z.rem_mod_nonneg by lia.
  set (w := v / D). set (r := v mod D).
  assert (v = w * D + r) as Hsplit.
  { unfold w, r. pose proof (Z.div_mod v D ltac:(lia)). lia. }
  assert (0 <= r < D) as Hr by (apply Z.mod_pos_bound; exact HD).
  assert (0 <= w) as Hw by (apply Z.div_pos; lia).
  pose proof (readDigits_pretty w Hw) as Hwhole.
  destruct (pretty_nonneg_head w Hw) as (c0 & rest0 & Hhead & _).
  destruct (splitAtDot_digits _ _ _ Hwhole) as [Hnodot Hdot].
  assert (readDecimal (pretty w) decimals_ = Some (w * D)) as Hplain.
  { unfold readDecimal. rewrite Hnodot, Hwhole, Hhead. reflexivity. }
  destruct (Z.eqb_spec r 0) as [Hr0 | Hrpos].
  - exists (pretty w). split; [reflexivity|]. rewrite Hplain. f_equal. lia.
  - set (remainderStr := OutputManager.padStartZeros (Z.to_nat decimals_) (pretty r)).
    destruct (trimTrailingZeros_spec remainderStr) as [k Htrim].
    set (trimmed := OutputManager.trimTrailingZeros remainderStr) in *.
    assert (String.length (pretty r) <= Z.to_nat decimals_)%nat as Hlen.
    { apply pretty_length; [lia|]. rewrite Z2Nat.id by lia. apply Hr. }
    assert (String.length remainderStr = Z.to_nat decimals_) as Hwidth.
    { unfold remainderStr, OutputManager.padStartZeros.
      rewrite length_append, length_repeat_zero. lia. }
    assert (readDigits remainderStr 0 = Some r) as Hrem.
    { unfold remainderStr, OutputManager.padStartZeros.
      rewrite readDigits_zeros_append. rewrite Z.mul_0_l.
      apply readDigits_pretty. lia. }
    rewrite Htrim, readDigits_append_zeros in Hrem.
    destruct (readDigits trimmed 0) as [f |] eqn:Hf; [| discriminate Hrem].
    cbn [option_map] in Hrem. inversion Hrem as [Hfr]. clear Hrem.
    assert (String.length trimmed + k = Z.to_nat decimals_)%nat as Hplaces.
    { rewrite <- Hwidth, Htrim at 1. rewrite length_append, length_repeat_zero.
      reflexivity. }
    destruct (String.eqb_spec trimmed "") as [Hempty | Hnonempty].
    + exfalso. rewrite Hempty in Hf. cbn [readDigits] in Hf. inversion Hf. subst f. lia.
    + exists (pretty w +:+ "." +:+ trimmed). split; [reflexivity|].
      unfold readDecimal.
      change (pretty w +:+ "." +:+ trimmed) with (pretty w +:+ String "." trimmed).
      rewrite Hdot, Hhead. rewrite <- Hhead, Hwhole, Hf.
      assert (1 <= Z.of_nat (String.length trimmed)).
      { destruct trimmed; [contradiction | cbn [String.length]; lia]. }
      assert (Z.of_nat (String.length trimmed) <= decimals_) by lia.
      destruct (Z.leb_spec 1 (Z.of_nat (String.length trimmed))); [| lia].
      destruct (Z.leb_spec (Z.of_nat (String.length trimmed)) decimals_); [| lia].
      cbn [andb]. f_equal.
      replace (decimals_ - Z.of_nat (String.length trimmed)) with (Z.of_nat k) by lia.
      fold D. lia.
Qed.

(** X25 on 1234500 units of a token with six decimals, written "1.2345". *)
Lemma formatTokenValue_reads_back_witness :
  OutputManager.formatTokenValue Demo.bigInt Demo.bigIntPow10 "1234500" 6 = inr "1.2345"
  /\ readDecimal "1.2345" 6 = Some 1234500.
Proof.
  destruct (formatTokenValue_reads_back Demo.bigInt Demo.bigIntPow10 "1234500" 6 1234500
              eq_refl ltac:(lia) ltac:(lia) eq_refl) as (text & Hrun & Hread).
  assert (text = "1.2345") as ->.
  { assert (OutputManager.formatTokenValue Demo.bigInt Demo.bigIntPow10 "1234500" 6
            = inr "1.2345") as Hval by (vm_compute; reflexivity).
    congruence. }
  split; [exact Hrun | exact Hread].
Defined.

(** * TokenParser: metadata *)

Section FromEntries.
Context {V : Type}.

Lemma fromEntries_snoc (entries : list (string * V)) (k : string) (v : V) :
  JsMap.fromEntries (entries ++ [(k, v)]) = JsMap.set k v (JsMap.fromEntries entries).
Proof. unfold JsMap.fromEntries. rewrite fold_left_app. reflexivity. Qed.

Lemma fromEntries_get (entries : list (string * V)) (k : string) (v : V) :
  NoDup (map fst entries) -> In (k, v) entries ->
  JsMap.get k (JsMap.fromEntries entries) = Some v.
Proof.
  induction entries as [| [k' v'] entries IH] using rev_ind; intros Hnd Hin.
  - destruct Hin.
  - rewrite fromEntries_snoc. rewrite map_app in Hnd. cbn [map fst] in Hnd.
    apply NoDup_app in Hnd as (Hnd & Hfresh & _).
    apply in_app_or in Hin as [Hin | [Heq | []]].
    + assert (k <> k') as Hne.
      { intros ->. apply (Hfresh k').
        - apply list_elem_of_In. apply (in_map fst) in Hin. exact Hin.
        - apply list_elem_of_In. left. reflexivity. }
      rewrite get_set_other by exact Hne. apply IH; assumption.
    + inversion Heq. subst. apply get_set_same.
Qed.
End FromEntries.

Lemma In_fromList (a : string) (items : list string) :
  In a (JsSet.fromList items) <-> In a items.
Proof. rewrite <- !list_elem_of_In. apply JsSet_fromList_elem. Qed.

Section MetadataFacts.
Import TokenParser.
Variable getTokenInfo : string -> M ExplorerTokenInfo.

Lemma fetchMetadata_spec (contracts : list string) :
  forall cache s,
    NoDup contracts ->
    match fetchMetadata getTokenInfo contracts cache s with
    | (Return (results, cache'), _) =>
        results = map (fun a => (a, cache' !! a)) contracts
        /\ cache ⊆ cache'
        /\ forall a, ~ In a contracts -> cache' !! a = cache !! a
    | (Throw _, _) => False
    | (Hang, _) => exists a s0, fst (getTokenInfo a s0) = Hang
    end.
Proof.
  induction contracts as [| a rest IH]; intros cache s Hnd.
  - cbn. split; [reflexivity|]. split; [reflexivity|]. intros a _. reflexivity.
  - apply NoDup_cons in Hnd as [Hfresh Hnd].
    assert (~ In a rest) as Hnotin by (rewrite <- list_elem_of_In; exact Hfresh).
    cbn [fetchMetadata]. unfold bind at 1, getTokenMetadata.
    destruct (cache !! a) as [cached |] eqn:Hlook.
    + cbn [ret]. unfold ret at 1. cbn [snd fst]. unfold bind at 1.
      specialize (IH cache s Hnd).
      destruct (fetchMetadata getTokenInfo rest cache s) as [[[results cache'] | e |] s'];
        [| exact IH | exact IH].
      destruct IH as (Hres & Hsub & Hkeep).
      unfold ret. cbn [fst snd]. repeat split.
      * cbn [map]. rewrite (Hkeep a Hnotin), Hlook, Hres. reflexivity.
      * exact Hsub.
      * intros a' Ha'. apply Hkeep. intros Hin. apply Ha'. right. exact Hin.
    + unfold tryCatch, bind at 1.
      destruct (getTokenInfo a s) as [[info | e |] s1] eqn:Hcall.
      * unfold ret at 1. cbn [snd fst]. unfold bind at 1.
        specialize (IH (<[a := info]> cache) s1 Hnd).
        destruct (fetchMetadata getTokenInfo rest (<[a := info]> cache) s1)
          as [[[results cache'] | e |] s']; [| exact IH | exact IH].
        destruct IH as (Hres & Hsub & Hkeep).
        unfold ret. cbn [fst snd]. repeat split.
        -- cbn [map]. rewrite (Hkeep a Hnotin), lookup_insert_eq, Hres. reflexivity.
        -- etransitivity; [| exact Hsub]. apply insert_subseteq. exact Hlook.
        -- intros a' Ha'. rewrite Hkeep by (intros Hin; apply Ha'; right; exact Hin).
           apply lookup_insert_ne. intros ->. apply Ha'. left. reflexivity.
      * unfold ret at 1. cbn [snd fst]. unfold bind at 1.
        specialize (IH cache s1 Hnd).
        destruct (fetchMetadata getTokenInfo rest cache s1)
          as [[[results cache'] | e' |] s']; [| exact IH | exact IH].
        destruct IH as (Hres & Hsub & Hkeep).
        unfold ret. cbn [fst snd]. repeat split.
        -- cbn [map]. rewrite (Hkeep a Hnotin), Hlook, Hres. reflexivity.
        -- exact Hsub.
        -- intros a' Ha'. apply Hkeep. intros Hin. apply Ha'. right. exact Hin.
      * exists a, s. rewrite Hcall. reflexivity.
Qed.

Lemma fetchMetadata_warm (contracts : list string) (cache : gmap string ExplorerTokenInfo)
      (s : State) :
  (forall a, In a contracts -> cache !! a <> None) ->
  fetchMetadata getTokenInfo contracts cache s
  = (Return (map (fun a => (a, cache !! a)) contracts, cache), s).
Proof.
  induction contracts as [| a rest IH]; intros Hwarm; [reflexivity|].
  cbn [fetchMetadata]. unfold bind at 1, getTokenMetadata.
  destruct (cache !! a) as [cached |] eqn:Hlook.
  - unfold ret at 1. cbn [snd fst]. unfold bind at 1.
    rewrite IH by (intros a' Hin; apply Hwarm; right; exact Hin).
    unfold ret. cbn [fst snd map]. rewrite Hlook. reflexivity.
  - exfalso. apply (Hwarm a); [left; reflexivity | exact Hlook].
Qed.

Lemma enhance_fetched (contracts : list string) (cache' : gmap string ExplorerTokenInfo)
      (transfer : ParsedTokenTransfer) :
  NoDup contracts -> In (pt_contractAddress transfer) contracts ->
  enhance (JsMap.fromEntries (map (fun a => (a, cache' !! a)) contracts)) transfer
  = withCached cache' transfer.
Proof.
  intros Hnd Hin. unfold enhance, withCached.
  rewrite (fromEntries_get _ (pt_contractAddress transfer)
             (cache' !! pt_contractAddress transfer)).
  - destruct (cache' !! pt_contractAddress transfer); reflexivity.
  - rewrite map_map. cbn [fst]. rewrite map_id. exact Hnd.
  - apply (in_map (fun a => (a, cache' !! a))) in Hin. exact Hin.
Qed.

Lemma enhance_all (transfers : list ParsedTokenTransfer)
      (cache' : gmap string ExplorerTokenInfo) :
  map (enhance (JsMap.fromEntries
                  (map (fun a => (a, cache' !! a))
                       (JsSet.fromList (map pt_contractAddress transfers)))))
      transfers
  = map (withCached cache') transfers.
Proof.
  apply map_ext_in. intros transfer Hin. apply enhance_fetched.
  - apply JsSet_fromList_NoDup.
  - apply In_fromList, in_map. exact Hin.
Qed.

Lemma enhanceTransfers_returns (transfers enhanced : list ParsedTokenTransfer)
      (cache cache' : gmap string ExplorerTokenInfo) (s s' : State) :
  enhanceTransfersWithMetadata getTokenInfo transfers cache s
  = (Return (enhanced, cache'), s') ->
  enhanced = map (withCached cache') transfers.
Proof.
  unfold enhanceTransfersWithMetadata, bind.
  pose proof (fetchMetadata_spec (JsSet.fromList (map pt_contractAddress transfers))
                cache s (JsSet_fromList_NoDup _)) as Hfetch.
  destruct (fetchMetadata getTokenInfo
              (JsSet.fromList (map pt_contractAddress transfers)) cache s)
    as [[[results cache1] | e |] s1]; [| discriminate | discriminate].
  destruct Hfetch as (Hres & _ & _).
  unfold ret. cbn [fst snd]. intros Hrun.
  assert (cache1 = cache') as <- by congruence.
  assert (map (enhance (JsMap.fromEntries results)) transfers = enhanced) as <-
      by congruence.
  rewrite Hres. apply enhance_all.
Qed.

End MetadataFacts.

(** X26.  [enhanceTransfersWithMetadata] never rejects and never drops or
    reorders a transfer: as long as the client answers at all, it returns
    the transfers in their order, each with the metadata that the cache
    holds for its contract afterwards, or exactly as parsed when the lookup
    of its contract failed.  The cache only grows. *)
Theorem enhanceTransfersWithMetadata_keeps_every_transfer
        (getTokenInfo : string -> M ExplorerTokenInfo)
        (transfers : list ParsedTokenTransfer)
        (cache : gmap string ExplorerTokenInfo) (s : State) :
  (forall a s0, fst (getTokenInfo a s0) <> Hang) ->
  exists cache' s',
    TokenParser.enhanceTransfersWithMetadata getTokenInfo transfers cache s
    = (Return (map (TokenParser.withCached cache') transfers, cache'), s')
    /\ cache ⊆ cache'
    /\ forall a, ~ In a (map pt_contractAddress transfers) -> cache' !! a = cache !! a.
Proof.
  intros Hanswers.
  unfold TokenParser.enhanceTransfersWithMetadata, bind.
  pose proof (fetchMetadata_spec getTokenInfo
                (JsSet.fromList (map pt_contractAddress transfers)) cache s
                (JsSet_fromList_NoDup _)) as Hfetch.
  destruct (TokenParser.fetchMetadata getTokenInfo
              (JsSet.fromList (map pt_contractAddress transfers)) cache s)
    as [[[results cache'] | e |] s'].
  - destruct Hfetch as (Hres & Hsub & Hkeep).
    exists cache', s'. unfold ret. cbn [fst snd]. split; [| split].
    + rewrite Hres, enhance_all. reflexivity.
    + exact Hsub.
    + intros a Ha. apply Hkeep. intros Hin. apply Ha.
      apply (proj1 (In_fromList _ _)) in Hin. exact Hin.
  - destruct Hfetch.
  - destruct Hfetch as (a & s0 & Hhang). exfalso. exact (Hanswers a s0 Hhang).
Qed.

(** X26 on the demo's three transfers, parsed with empty metadata: the
    lookup of the second token fails, and its transfer stays as parsed. *)
Lemma enhanceTransfersWithMetadata_keeps_every_transfer_witness :
  exists cache' s',
    TokenParser.enhanceTransfersWithMetadata Demo.tokenInfoClient
      (TokenParser.parseERC20Transfers Demo.tokenTransfers) ∅ initialState
    = (Return (map (TokenParser.withCached cache')
                   (TokenParser.parseERC20Transfers Demo.tokenTransfers), cache'), s')
    /\ cache' !! Demo.tokenAddress = Some Demo.usdcInfo
    /\ cache' !! Demo.otherToken = None.
Proof.
  destruct (enhanceTransfersWithMetadata_keeps_every_transfer Demo.tokenInfoClient
              (TokenParser.parseERC20Transfers Demo.tokenTransfers) ∅ initialState)
    as (cache' & s' & Hrun & _ & _).
  { intros a s0. unfold Demo.tokenInfoClient, bind, emit.
    destruct (String.eqb a Demo.tokenAddress); discriminate. }
  exists cache', s'. split; [exact Hrun|].
  assert (TokenParser.enhanceTransfersWithMetadata Demo.tokenInfoClient
            (TokenParser.parseERC20Transfers Demo.tokenTransfers) ∅ initialState
          = (Return (map (TokenParser.withCached {[ Demo.tokenAddress := Demo.usdcInfo ]})
                         (TokenParser.parseERC20Transfers Demo.tokenTransfers),
                     {[ Demo.tokenAddress := Demo.usdcInfo ]}),
             {| trace := [EvHttpGet "token" "tokeninfo"; EvHttpGet "token" "tokeninfo"];
                tokenInfo := None; apiCallCount := 0; files := [] |})) as Hval.
  { reflexivity. }
  assert (cache' = {[ Demo.tokenAddress := Demo.usdcInfo ]}) as -> by congruence.
  split; reflexivity.
Defined.

(** X27.  With metadata for every contract already in the cache,
    [enhanceTransfersWithMetadata] does not call the client at all: nothing
    is requested, the cache is unchanged, and every transfer carries the
    cached metadata. *)
Theorem enhanceTransfersWithMetadata_warm_cache_asks_nothing
        (getTokenInfo : string -> M ExplorerTokenInfo)
        (transfers : list ParsedTokenTransfer)
        (cache : gmap string ExplorerTokenInfo) (s : State) :
  (forall transfer, In transfer transfers -> cache !! pt_contractAddress transfer <> None) ->
  TokenParser.enhanceTransfersWithMetadata getTokenInfo transfers cache s
  = (Return (map (TokenParser.withCached cache) transfers, cache), s)
  /\ Forall (fun transfer => pt_tokenMetadata transfer <> None)
            (map (TokenParser.withCached cache) transfers).
Proof.
  intros Hwarm. split.
  - unfold TokenParser.enhanceTransfersWithMetadata, bind.
    rewrite fetchMetadata_warm.
    + unfold ret. cbn [fst snd]. rewrite enhance_all. reflexivity.
    + intros a Hin.
      apply (proj1 (In_fromList _ _)) in Hin.
      apply in_map_iff in Hin as (transfer & <- & Hin). apply Hwarm. exact Hin.
  - apply List.Forall_forall. intros enhanced Hin.
    apply in_map_iff in Hin as (transfer & <- & Hin).
    unfold TokenParser.withCached.
    destruct (cache !! pt_contractAddress transfer) eqn:Hlook.
    + discriminate.
    + exfalso. exact (Hwarm transfer Hin Hlook).
Qed.

(** X27 with the USDC metadata cached, on the demo's two USDC transfers
    and a client that would record every request. *)
Lemma enhanceTransfersWithMetadata_warm_cache_asks_nothing_witness :
  fst (TokenParser.enhanceTransfersWithMetadata Demo.tokenInfoClient
         (TokenParser.parseERC20Transfers
            (List.filter (fun t => String.eqb (tt_contractAddress t) Demo.tokenAddress)
                         Demo.tokenTransfers))
         {[ Demo.tokenAddress := Demo.usdcInfo ]} initialState)
  = Return (map (TokenParser.withCached {[ Demo.tokenAddress := Demo.usdcInfo ]})
                (TokenParser.parseERC20Transfers
                   (List.filter (fun t => String.eqb (tt_contractAddress t) Demo.tokenAddress)
                                Demo.tokenTransfers)),
            {[ Demo.tokenAddress := Demo.usdcInfo ]})
  /\ gets (snd (TokenParser.enhanceTransfersWithMetadata Demo.tokenInfoClient
                  (TokenParser.parseERC20Transfers
                     (List.filter (fun t => String.eqb (tt_contractAddress t) Demo.tokenAddress)
                                  Demo.tokenTransfers))
                  {[ Demo.tokenAddress := Demo.usdcInfo ]} initialState)) = 0.
Proof.
  destruct (enhanceTransfersWithMetadata_warm_cache_asks_nothing Demo.tokenInfoClient
              (TokenParser.parseERC20Transfers
                 (List.filter (fun t => String.eqb (tt_contractAddress t) Demo.tokenAddress)
                              Demo.tokenTransfers))
              {[ Demo.tokenAddress := Demo.usdcInfo ]} initialState) as [Hrun _].
  { intros transfer Hin.
    repeat (destruct Hin as [<- | Hin]; [discriminate|]). destruct Hin. }
  rewrite Hrun. split; reflexivity.
Defined.

(** * TransactionFilterService: pagination *)

Section Paging.
Import TransactionFilterService.
Context {T : Type}.
Variable getPage : Z -> M (list T).

(** The pages from [page] on, [n] of them. *)
Lemma fetchLoop_full (answer : Z -> list T) (n : nat) :
  forall (fuel : nat) (page : Z) (all : list T) (s : State),
    (forall p s0, page <= p < page + Z.of_nat n ->
                  exists s0', getPage p s0 = (Return (answer p), s0')) ->
    (forall p, page <= p < page + Z.of_nat n -> 10000 <= Z.of_nat (length (answer p))) ->
    exists s1,
      fetchLoop getPage (n + fuel) page all s
      = fetchLoop getPage fuel (page + Z.of_nat n)
          (all ++ concat (map (fun i => answer (page + Z.of_nat i)) (seq 0 n))) s1.
Proof.
  induction n as [| n IH]; intros fuel page all s Hanswer Hfull.
  - exists s. cbn [seq map concat Nat.add]. rewrite app_nil_r, Z.add_0_r. reflexivity.
  - destruct (Hanswer page s ltac:(lia)) as [s0 Hfirst].
    pose proof (Hfull page ltac:(lia)) as Hlen.
    destruct (IH fuel (page + 1) (all ++ answer page) s0) as [s1 Hrest].
    { intros p s' Hp. apply Hanswer. lia. }
    { intros p Hp. apply Hfull. lia. }
    exists s1.
    change (S n + fuel)%nat with (S (n + fuel)). cbn [fetchLoop].
    unfold bind at 1. rewrite Hfirst.
    destruct (Nat.eqb_spec (length (answer page)) 0) as [Hzero | _]; [lia|].
    destruct (Z.ltb_spec (Z.of_nat (length (answer page))) 10000) as [Hshort | _]; [lia|].
    rewrite Hrest. f_equal.
    + lia.
    + cbn [seq map concat]. rewrite Z.add_0_r, <- app_assoc. do 2 f_equal.
      rewrite <- seq_shift, map_map. f_equal. apply map_ext. intros i. f_equal. lia.
Qed.

End Paging.

(** X28.  How the [fetchAll...] methods page through the explorer.  After
    [n] full pages of 10000 records, the next request decides: a shorter
    page (an empty one too) ends the loop, and the result is the pages in
    order, nothing lost or repeated; an error ends it too, and then the
    pages already fetched are discarded with it. *)
Theorem fetchAll_reads_up_to_the_first_short_page
        {T : Type} (getPage : Z -> M (list T)) (answer : Z -> list T) (n : nat) :
  (forall p s, 1 <= p <= Z.of_nat n -> exists s', getPage p s = (Return (answer p), s')) ->
  (forall p, 1 <= p <= Z.of_nat n -> 10000 <= Z.of_nat (length (answer p))) ->
  forall (fuel : nat) (s : State),
    (n < fuel)%nat ->
    exists s1,
      (forall last s',
          getPage (Z.of_nat n + 1) s1 = (Return last, s') ->
          Z.of_nat (length last) < 10000 ->
          TransactionFilterService.fetchLoop getPage fuel 1 [] s
          = (Return (concat (map (fun i => answer (Z.of_nat i)) (seq 1 n)) ++ last), s'))
      /\ (forall e s',
             getPage (Z.of_nat n + 1) s1 = (Throw e, s') ->
             TransactionFilterService.fetchLoop getPage fuel 1 [] s = (Throw e, s')).
Proof.
  intros Hanswer Hfull fuel s Hfuel.
  destruct (fetchLoop_full getPage answer n (fuel - n) 1 [] s) as [s1 Hrun].
  { intros p s0 Hp. apply Hanswer. lia. }
  { intros p Hp. apply Hfull. lia. }
  replace (n + (fuel - n))%nat with fuel in Hrun by lia.
  assert (map (fun i => answer (1 + Z.of_nat i)) (seq 0 n)
          = map (fun i => answer (Z.of_nat i)) (seq 1 n)) as Hpages.
  { rewrite <- seq_shift, map_map. apply map_ext. intros i. f_equal. lia. }
  rewrite Hpages in Hrun. cbn [app] in Hrun.
  replace (1 + Z.of_nat n) with (Z.of_nat n + 1) in Hrun by lia.
  destruct (fuel - n)%nat as [| fuel'] eqn:Hleft; [lia|].
  exists s1. split.
  - intros last s' Hlast Hshort. rewrite Hrun. cbn [TransactionFilterService.fetchLoop].
    unfold bind. rewrite Hlast.
    destruct (Nat.eqb_spec (length last) 0) as [Hzero | _].
    + apply length_zero_iff_nil in Hzero. subst last. rewrite app_nil_r. reflexivity.
    + destruct (Z.ltb_spec (Z.of_nat (length last)) 10000) as [_ | Hlong]; [reflexivity | lia].
  - intros e s' Hthrow. rewrite Hrun. cbn [TransactionFilterService.fetchLoop].
    unfold bind. rewrite Hthrow. reflexivity.
Qed.

(** X28 on an explorer that holds 10001 transactions: two requests, and
    all of them come back. *)
Lemma fetchAll_reads_up_to_the_first_short_page_witness :
  fst (TransactionFilterService.fetchAllTransactions (Demo.clientOf Demo.twoPages [])
         5 Demo.alice 0 99999999 initialState)
  = Return (Demo.twoPages 1 ++ Demo.twoPages 2).
Proof.
  destruct (fetchAll_reads_up_to_the_first_short_page
              (fun page => client_getTransactions (Demo.clientOf Demo.twoPages [])
                             Demo.alice 0 99999999 page 10000 "desc")
              Demo.twoPages 1) with (fuel := 5%nat) (s := initialState)
    as (s1 & Hshort & _).
  - intros p s _. eexists. reflexivity.
  - intros p Hp. assert (p = 1) as -> by lia.
    change (Demo.twoPages 1) with (repeat Demo.aTransaction (Z.to_nat 10000)).
    rewrite repeat_length. lia.
  - lia.
  - unfold TransactionFilterService.fetchAllTransactions.
    erewrite Hshort;
      [| reflexivity
       | change (Demo.twoPages (Z.of_nat 1 + 1)) with [Demo.aTransaction];
         cbn [length]; lia].
    cbn [fst seq map concat]. rewrite app_nil_r. reflexivity.
Defined.

(** X29.  The [fetchAll...] loops have no bound of their own: against an
    explorer that answers every page with 10000 records or more, they never
    settle. *)
Theorem fetchAll_never_stops_on_full_pages
        {T : Type} (getPage : Z -> M (list T)) :
  (forall p s, 1 <= p ->
               exists records s',
                 getPage p s = (Return records, s')
                 /\ 10000 <= Z.of_nat (length records)) ->
  forall (fuel : nat) (s : State),
    fst (TransactionFilterService.fetchLoop getPage fuel 1 [] s) = Hang.
Proof.
  intros Hfull fuel.
  assert (forall page all s,
             1 <= page ->
             fst (TransactionFilterService.fetchLoop getPage fuel page all s) = Hang)
    as Hloop.
  { induction fuel as [| fuel IH]; intros page all s Hpage; [reflexivity|].
    cbn [TransactionFilterService.fetchLoop]. unfold bind.
    destruct (Hfull page s Hpage) as (records & s' & Hrun & Hlen). rewrite Hrun.
    destruct (Nat.eqb_spec (length records) 0) as [Hzero | _]; [lia|].
    destruct (Z.ltb_spec (Z.of_nat (length records)) 10000) as [Hshort | _]; [lia|].
    apply IH. lia. }
  intros s. apply Hloop. lia.
Qed.

(** X29 on an explorer whose pages are always full. *)
Lemma fetchAll_never_stops_on_full_pages_witness :
  fst (TransactionFilterService.fetchAllTransactions (Demo.clientOf Demo.fullPages [])
         3 Demo.alice 0 99999999 initialState)
  = Hang.
Proof.
  apply (fetchAll_never_stops_on_full_pages
           (fun page => client_getTransactions (Demo.clientOf Demo.fullPages [])
                          Demo.alice 0 99999999 page 10000 "desc")).
  intros p s _. eexists _, _. split; [reflexivity|].
  unfold Demo.fullPages. rewrite repeat_length. lia.
Defined.

(** * TransactionFilterService: the filter *)

Lemma bind_returns {A B : Type} (m : M A) (k : A -> M B) (s s' : State) (b : B) :
  bind m k s = (Return b, s') ->
  exists a s1, m s = (Return a, s1) /\ k a s1 = (Return b, s').
Proof.
  unfold bind. destruct (m s) as [[a | e |] s1]; intros H; try discriminate H.
  exists a, s1. split; [reflexivity | exact H].
Qed.

Section FilterFacts.
Import TransactionFilterService.
Variable parseInt : string -> option Z.
Variable filter : TransactionFilter.

Lemma applyDirectionFilter_In {T : Type} (itemFrom itemTo : T -> string)
      (items : list T) (item : T) :
  In item (applyDirectionFilter itemFrom itemTo items filter) ->
  In item items
  /\ (tf_incomingOnly filter = true ->
      toLowerCase (itemTo item) = toLowerCase (tf_address filter))
  /\ (tf_incomingOnly filter = false -> tf_outgoingOnly filter = true ->
      toLowerCase (itemFrom item) = toLowerCase (tf_address filter)).
Proof.
  unfold applyDirectionFilter.
  destruct (tf_incomingOnly filter) eqn:Hin, (tf_outgoingOnly filter) eqn:Hout;
    cbn [negb andb]; intros H;
    try (apply List.filter_In in H as [H Htest]; try apply String.eqb_eq in Htest);
    repeat split; try assumption; intros; congruence.
Qed.

Lemma filtered_inScope {T : Type} (timeStampOf itemFrom itemTo : T -> string)
      (items : list T) (item : T) :
  In item
     (applyDirectionFilter itemFrom itemTo
        (List.filter
           (fun tx => inWindow parseInt (tf_startDate filter / 1000)
                               (tf_endDate filter / 1000) (timeStampOf tx))
           items)
        filter) ->
  inScope parseInt filter (timeStampOf item) (itemFrom item) (itemTo item).
Proof.
  intros Hin. apply applyDirectionFilter_In in Hin as (Hin & Hincoming & Houtgoing).
  apply List.filter_In in Hin as [_ Hwindow].
  unfold inScope. split; [| split; assumption].
  unfold inWindow in Hwindow.
  destruct (parseInt (timeStampOf item)) as [seconds |]; [| discriminate Hwindow].
  exists seconds. split; [reflexivity|].
  apply andb_true_iff in Hwindow as [Hlo Hhi]. lia.
Qed.

Lemma group_of {T : Type} (key : T -> string) (items : list T) (k : string) :
  default [] (JsMap.get k (groupBy key items))
  = List.filter (fun item => String.eqb (key item) k) items.
Proof.
  rewrite groupBy_get.
  destruct (List.filter (fun item => String.eqb (key item) k) items); reflexivity.
Qed.

End FilterFacts.

Section ParsedFacts.
Import TokenParser.
Variable P : string -> string -> string -> string -> Prop.

(** A property of hash, timestamp, sender and receiver survives parsing
    and the attachment of metadata. *)
Lemma parsed_keeps (erc20 : list TokenTransfer) (erc721 : list ERC721Transfer)
      (erc1155 : list ERC1155Transfer) (cache : gmap string ExplorerTokenInfo)
      (transfer : ParsedTokenTransfer) :
  (forall x, In x erc20 -> P (tt_hash x) (tt_timeStamp x) (tt_from x) (tt_to x)) ->
  (forall x, In x erc721 -> P (nft_hash x) (nft_timeStamp x) (nft_from x) (nft_to x)) ->
  (forall x, In x erc1155 -> P (mt_hash x) (mt_timeStamp x) (mt_from x) (mt_to x)) ->
  In transfer (map (withCached cache)
                   (parseERC20Transfers erc20 ++ parseERC721Transfers erc721
                    ++ parseERC1155Transfers erc1155)) ->
  P (pt_transactionHash transfer) (pt_timestamp transfer) (pt_from transfer)
    (pt_to transfer).
Proof.
  intros H20 H721 H1155 Hin.
  apply in_map_iff in Hin as (parsed & <- & Hin).
  assert (P (pt_transactionHash parsed) (pt_timestamp parsed) (pt_from parsed)
            (pt_to parsed)) as Hparsed.
  { apply in_app_or in Hin as [Hin | Hin]; [| apply in_app_or in Hin as [Hin | Hin]];
      apply in_map_iff in Hin as (x & <- & Hin); cbn; auto. }
  unfold withCached. destruct (cache !! pt_contractAddress parsed); [| exact Hparsed].
  exact Hparsed.
Qed.
End ParsedFacts.

(** X30.  What [filterTransactions] reports.  Every transaction in the
    result lies in the date range and has the direction asked for; the
    token transfers and internal transactions listed under it carry its
    hash and pass the same two tests themselves; its [erc721Transfers] and
    [erc1155Transfers] lists are always empty (NFT transfers are listed
    among the token transfers).  The summary counts the transactions
    reported, and the API calls reported are the client's counter at the
    end. *)
Theorem filterTransactions_reports_what_was_asked
        (env : Env) (client : Client) (parseInt : string -> option Z)
        (BigInt : string -> Thrown + Z) (toISOString : Z -> string)
        (fuel : nat) (filter : TransactionFilter)
        (cache cache' : gmap string ExplorerTokenInfo) (s s' : State)
        (result : FilterResult) :
  TransactionFilterService.filterTransactions env client parseInt BigInt toISOString
    fuel filter cache s = (Return (result, cache'), s') ->
  Forall (fun entry =>
            let tx := fr_transaction entry in
            TransactionFilterService.inScope parseInt filter
              (txn_timeStamp tx) (txn_from tx) (txn_to tx)
            /\ Forall (fun transfer =>
                         pt_transactionHash transfer = txn_hash tx
                         /\ TransactionFilterService.inScope parseInt filter
                              (pt_timestamp transfer) (pt_from transfer) (pt_to transfer))
                      (fr_tokenTransfers entry)
            /\ Forall (fun internal =>
                         itx_hash internal = txn_hash tx
                         /\ TransactionFilterService.inScope parseInt filter
                              (itx_timeStamp internal) (itx_from internal)
                              (itx_to internal))
                      (fr_internalTransactions entry)
            /\ fr_erc721Transfers entry = []
            /\ fr_erc1155Transfers entry = [])
         (res_transactions result)
  /\ fs_totalTransactions (res_summary result) = Z.of_nat (length (res_transactions result))
  /\ fs_walletAddress (res_summary result) = tf_address filter
  /\ res_apiCalls result = apiCallCount s'.
Proof.
  intros Hrun. unfold TransactionFilterService.filterTransactions in Hrun.
  apply bind_returns in Hrun as (startTime & s1 & _ & Hrun). cbv zeta in Hrun.
  apply bind_returns in Hrun as (transactions & s2 & _ & Hrun).
  apply bind_returns in Hrun as (internalTransactions & s3 & _ & Hrun).
  apply bind_returns in Hrun as (tokenTransfers & s4 & _ & Hrun).
  apply bind_returns in Hrun as (erc721Transfers & s5 & _ & Hrun).
  apply bind_returns in Hrun as (erc1155Transfers & s6 & _ & Hrun).
  apply bind_returns in Hrun as ([parsed cache1] & s7 & Hparse & Hrun).
  apply bind_returns in Hrun as (totals & s8 & _ & Hrun).
  apply bind_returns in Hrun as (finish & s9 & _ & Hrun).
  apply bind_returns in Hrun as (apiCalls & s10 & Hcount & Hrun).
  apply bind_returns in Hrun as (generatedAt & s11 & Hnow & Hrun).
  unfold ret in Hrun.
  assert (s11 = s9 /\ apiCalls = apiCallCount s9) as [-> ->].
  { unfold EtherscanClient.getApiCallCount in Hcount.
    unfold BatchTokenSender.now, bind, getTrace, ret in Hnow.
    split; congruence. }
  pose proof (enhanceTransfers_returns _ _ _ _ _ _ _ Hparse) as Hparsed.
  injection Hrun as Hresult _ Hstate. subst result s'. cbn [fst] in *.
  cbn [res_transactions res_summary res_apiCalls fs_totalTransactions fs_walletAddress].
  split; [| split; [| split]].
  - apply List.Forall_forall. intros entry Hentry.
    apply in_map_iff in Hentry as (tx & <- & Htx).
    cbn [fr_transaction fr_tokenTransfers fr_internalTransactions fr_erc721Transfers
         fr_erc1155Transfers]. cbv zeta.
    split; [| split; [| split; [| split; reflexivity]]].
    + apply (filtered_inScope parseInt filter txn_timeStamp txn_from txn_to _ _ Htx).
    + unfold TransactionFilterService.groupTransfersByTransactionHash.
      rewrite group_of. apply List.Forall_forall. intros transfer Hin.
      apply List.filter_In in Hin as [Hin Hhash]. apply String.eqb_eq in Hhash.
      split; [exact Hhash|].
      rewrite Hparsed in Hin.
      apply (parsed_keeps (fun _ timeStamp sender receiver =>
                             TransactionFilterService.inScope parseInt filter
                               timeStamp sender receiver)
                          _ _ _ _ _) in Hin; [exact Hin | | |].
      * intros x Hx.
        apply (filtered_inScope parseInt filter tt_timeStamp tt_from tt_to _ _ Hx).
      * intros x Hx.
        apply (filtered_inScope parseInt filter nft_timeStamp nft_from nft_to _ _ Hx).
      * intros x Hx.
        apply (filtered_inScope parseInt filter mt_timeStamp mt_from mt_to _ _ Hx).
    + unfold TransactionFilterService.groupInternalTransactionsByHash.
      rewrite group_of. apply List.Forall_forall. intros internal Hin.
      apply List.filter_In in Hin as [Hin Hhash]. apply String.eqb_eq in Hhash.
      split; [exact Hhash|].
      apply (filtered_inScope parseInt filter itx_timeStamp itx_from itx_to _ _ Hin).
  - rewrite length_map. reflexivity.
  - reflexivity.
  - reflexivity.
Qed.

(** X30 on the demo wallet, asked for what came in during the date range:
    of the four transactions one is reported, with the one token transfer
    made in it; the other incoming token transfer is counted in the summary
    only, its transaction being a call to the token contract. *)
Lemma filterTransactions_reports_what_was_asked_witness :
  exists result cache' s',
    TransactionFilterService.filterTransactions (Demo.world 0 "" (inr Demo.receipt))
      (Demo.clientOf Demo.walletTransactions Demo.tokenTransfers)
      Demo.parseNat Demo.bigInt Demo.isoOf 3 Demo.walletFilter ∅ initialState
    = (Return (result, cache'), s')
    /\ map (fun entry => (txn_hash (fr_transaction entry),
                          map pt_contractAddress (fr_tokenTransfers entry)))
           (res_transactions result)
       = [("0xh2", [Demo.otherToken])]
    /\ fs_totalTransactions (res_summary result) = 1
    /\ fs_totalTokenTransfers (res_summary result) = 2
    /\ res_apiCalls result = apiCallCount s'.
Proof.
  destruct (TransactionFilterService.filterTransactions (Demo.world 0 "" (inr Demo.receipt))
              (Demo.clientOf Demo.walletTransactions Demo.tokenTransfers)
              Demo.parseNat Demo.bigInt Demo.isoOf 3 Demo.walletFilter ∅ initialState)
    as [[[result cache'] | e |] s'] eqn:Hrun.
  - pose proof (filterTransactions_reports_what_was_asked _ _ _ _ _ _ _ _ _ _ _ _ Hrun)
      as (_ & _ & _ & Hcalls).
    exists result, cache', s'. split; [reflexivity|].
    vm_compute in Hrun. injection Hrun as Hresult _ _. subst result.
    repeat split; [exact Hcalls].
  - vm_compute in Hrun. discriminate Hrun.
  - vm_compute in Hrun. discriminate Hrun.
Defined.
